(* ===== verification/_CoqProject ===== *)
-Q . S2P
Prelude.v
GoLib.v
Hash.v
Params.v
Json.v
VacStore.v
Driver.v
Controller.v
MountFlags.v
Calls.v
WinPath.v
WinFsp.v
WinRegistry.v
MountArgs.v
Platform.v
ProcessOutput.v
MountService.v
ServiceMain.v
Manager.v
Progress.v
Processes.v
KeyMutex.v
MountInfo.v
Host.v
Serial.v
MountUtil.v
Command.v
Target.v
Windows.v
WinProcess.v
Version.v
Container.v
Node.v
NodeSpec.v
NodeSuccess.v
CacheSweep.v
CacheLock.v
VolumeStats.v
StatsCalls.v
InstanceCache.v
Health.v
ContainerRepair.v
Recovery.v
StagingRecovery.v
MountRoots.v
Startup.v
Life.v
Locked.v
Simulation.v
Concurrency.v
Requests.v
System.v
Probes.v
Monitor.v
Server.v
K8s.v
