(* ===== verification/Prelude.v ===== *)
(** * Verification of the SeaweedFS CSI driver fork

    This library models the Go code of the driver ([src/pkg/driver],
    [src/pkg/k8s], [src/pkg/datalocality]), of its mount service
    ([src/pkg/mountmanager], [src/cmd/seaweedfs-mount]) and of the driver's
    command line ([src/cmd/seaweedfs-csi-driver]), and proves what makes it
    correct. The node plugin is that of Linux; [Windows] and the files whose names
    start with [Win] hold what differs on Windows. Definitions keep the names of the Go functions they model.

    ** The program

    A CSI driver has three gRPC services. The identity and controller services
    create, delete and modify volumes: directories of a SeaweedFS filer. The node
    service runs on every node. NodeStageVolume asks the mount service, a separate
    process reached over HTTP, to run a [weed mount] process for the volume at
    kubelet's staging path; NodePublishVolume binds the staging path into a pod;
    the two other handlers undo this. A health monitor probes each staged volume
    and, when its mount is dead, takes it down, stages it anew and binds it again
    at every publish path and inside running containers. After a restart the node
    service finds the staged volumes in kubelet's directories. A sweep deletes
    the cache directories of volumes no longer on the node.

    ** Files and the code they model

    Common: [Prelude] (results, errors, the Go result monad), [Calls] (calls of a host
    by straight-line code), [GoLib] (strings, strconv, path, filepath), [WinPath]
    (filepath on Windows), [Hash] (SHA-256, SHA-1, hex), [Json]
    (encoding/json: the parser, the printer, UTF-8, struct decoders).

    Driver and controller: [Params] (datalocality/mapping.go, parameter
    validation of controllerserver.go), [VacStore] (vacstore.go), [Driver]
    (driver.go, identityserver.go, names of utils.go and socket.go), [Controller]
    (controllerserver.go), [K8s] (pkg/k8s), [Command]
    (cmd/seaweedfs-csi-driver/main.go, the listening address of server.go), [Version]
    (version.go).

    Mount service: [MountFlags] (mount_flags.go), [MountArgs] (mounter.go),
    [ProcessOutput] and [Manager] (manager.go, process_linux.go), [Progress] (that its
    requests end), [Target]
    (target_linux.go), [InstanceCache] (instance_cache_linux.go), [MountService]
    (client.go, types.go, the handlers of cmd/seaweedfs-mount/main.go), [ServiceMain]
    (its main function).

    Either system: [Platform] (defaults_*.go, mounter_args_*.go, socket_*.go: default
    directories and the arguments weed mount gets on one system only).

    Windows: [Windows] (mount_util_windows.go, target_windows.go, the command of
    process_windows.go), [WinProcess] (the rest of process_windows.go), [WinFsp]
    (winfsp_install.go), [WinRegistry] (winfsp_install_windows.go,
    prerequisites_windows.go).

    Node plugin: [Host] (the monad of host calls), [MountUtil] (mount_util.go,
    mount_util_linux.go, unpublish_quarantine.go), [Node] (volume.go,
    nodeserver.go), [NodeSpec] and [NodeSuccess] (what its handlers promise),
    [MountInfo] and [Container] (container_remount_linux.go), [VolumeStats]
    (volume_stats.go, volume_stats_linux.go), [CacheSweep] (removeOrphanCacheDirs
    of utils.go), [CacheLock] (cache_sweep.go: the sweep beside the handlers),
    [MountRoots] (mount_roots.go), [Health] and [Recovery] (the checks and the
    recovery of health_monitor.go), [ContainerRepair] (which container mounts they replace),
    [StagingRecovery] (staging_recovery.go),
    [Startup] (NewNodeServer), [Life] (all of them in sequence), and the
    concurrent parts: [KeyMutex] (the per-volume locks), [Probes] (probes in
    flight), [StatsCalls] (shared reads of statistics in volume_stats.go), [Monitor]
    (the goroutines of the health monitor), [Serial] (actions interleaved step by step),
    [Locked] (under the key mutex), [Simulation] (while a part of the state they do not
    use changes), [Concurrency] (the handlers and recoveries so interleaved), and
    [Server] (Run of driver.go and server.go: the whole process from start to exit).

    Both processes: [Processes] (what the steps of [Manager] do to weed processes over
    time), [Requests] (what the sections of the plugin ask of the service) and [System]
    (plugin and service as one transition system, joined by the calls of client.go).

    ** How it is modelled

    Pure code is a function; code that can fail returns a [result]. Code of the
    node plugin that calls the operating system or the mount service is a
    program of [Host.act]: a tree whose nodes are calls ([hostE]), answered by an
    arbitrary host and logged, and reads and updates of the tracked volumes. Theorems about programs hold for every host, that is for
    every sequence of answers, timeouts included; they are proved with the
    weakest precondition [wpp] and its rules, and with [keeps] for properties of
    single calls. Goroutines and processes that interleave are transition
    systems ([Manager], [KeyMutex], [Probes], [StatsCalls], [Monitor], [CacheLock],
    [Server], [System]): theorems are about every reachable state. A handler of the node
    service and a recovery hold the lock of their volume throughout. [Life] sequences
    whole handlers, checks, sweeps and restarts. [Serial] shows that actions that touch
    one key only, interleaved at every node of their trees with one action per key at a
    time, do what they do one after the other; [Locked] gets the exclusion from the key
    mutex, provided no mutex is taken out of its map while another goroutine waits for
    it: a removal may come at any time, and the state records in [contended] that one came
    while others waited ([KeyMutex] shows that the proviso is needed); [Concurrency] shows that handlers
    and recoveries are such actions, so that what [Life] shows of them holds of any
    interleaving. What a check notes of a volume's health while it holds no lock may
    change at any time: [Simulation] shows that this makes no difference to actions that
    do not look at it, and [Concurrency] that handlers and recoveries are such actions and
    that a check outside them changes nothing else. [System] joins the plugin of
    [Concurrency] and the service of [Manager]: a call of the plugin becomes a request that
    the service decodes and serves beside others; it succeeds only by the answer of that
    request and may fail at any time; the plugin may die and start again while the service
    lives. [CacheLock] counts a mount as asked for from the request until the service has
    done with it, also when the client gave it up. The filer client, grpc-go, the Kubernetes API server, the HTTP transport, mount-utils
    and viper are parameters, as classes with the operations the code uses.

    ** What the theorems show

    - Recovery and the node service. A staging mount is detached, cleaned,
      remounted and bound only in order and only after it was found dead
      ([Recovery.recovery_protocol]); handlers touch only paths their request
      allows ([NodeSpec.node_stays_within_limits]); any sequence of requests,
      checks, sweeps and restarts keeps the tracked volumes well formed and
      follows an abstract lifecycle ([Life]), also when handlers and recoveries
      interleave ([Concurrency.handlers_serializable]) and up to the end of the process
      ([Server.run_returns_quiet]); success is backed by what the
      host answered ([NodeSuccess]); stale targets, mounts of containers and
      probes are handled without harm to live mounts ([MountUtil], [ContainerRepair],
      [Health], [Probes], [Monitor]).
    - Caches. No sweep deletes the cache of a tracked volume or one a stage or a mount is
      using, with the exceptions named ([CacheSweep], [CacheLock], [Startup], [InstanceCache]).
    - Controller. Volumes get directories of their own, a deletion empties the
      bucket before it removes it, a modification persists only valid parameters
      ([Controller]), the parameter store refines a map ([VacStore]), volumes
      resolve to their persistent volume ([K8s]).
    - Mount service. At most one process per volume, tracked while it runs ([Manager]), and
      every request ends by steps of its own volume ([Progress]); every process was started for a request ([Processes]); requests and answers survive the wire
      ([MountService]); the command line identifies the volume and passes
      parameters through ([MountArgs], [MountFlags]); waits end ([Target]); a host
      gets WinFsp once, never another version, and the registry then says so
      ([WinRegistry]); handles of Windows are closed on every path ([WinProcess]).
    - Data. Parsers against printers ([Json], [MountInfo], [MountFlags],
      [VacStore]), 64-bit arithmetic of usage ([VolumeStats]), quotas.

    ** Bounds and fuel

    The JSON parser has fuel of twice the length of its input and two more, which
    is proved enough for every printed document, and the nesting limit of 10000
    of encoding/json. The emptying of a bucket takes its number of rounds as
    fuel, and more rounds than the bucket has children are proved enough; the
    waits for a mount have fuel for every poll of their timeout and are proved to
    end. Waits for statfs and health probes are calls whose
    answer tells whether they timed out. Recursion is otherwise structural.
    Machine integers are [Z] with the wrap-around written out where the code
    computes with them.

    ** Not modelled

    [System] follows one life of the mount service: its end takes the weed processes with
    it. The strings of a call are taken to be UTF-8, as those of gRPC requests are.
    Letter case is that of ASCII. The texts of errors of
    encoding/json, of durations and of log lines are left out. The goroutines
    behind a probe are calls of the host in programs and are modelled for
    themselves in [Probes]. grpc-go is a parameter of [Server], whose sweeps of the cache are left out, since they do
    not change the tracked volumes. The
    interceptor that logs requests and [waitForMount] of mount_util_linux.go, which nothing
    calls, are left out. Of Windows, device paths are left out; the stubs for other
    systems do nothing or refuse the call. [recordMountRoots] and [forgetMountRoots] do nothing on Linux, where
    the lookup they need is not configured; they are modelled in [MountRoots] for
    a platform that has it. *)

From Stdlib Require Export Ascii.
From stdpp Require Export base tactics option list gmap strings.
From Stdlib Require Export ZArith Lia.

#[global] Set Default Goal Selector "!".

#[global] Arguments String.append : simpl nomatch.

(** ** Errors and results *)

Declare Scope go_scope.
Delimit Scope go_scope with go.

(** The gRPC status codes the driver answers with. *)
Inductive code :=
  | InvalidArgument | Internal | NotFound | PermissionDenied
  | Unavailable | DeadlineExceeded | Canceled | Unimplemented.

#[export] Instance code_eq_dec : EqDecision code.
Proof. solve_decision. Defined.

(** The errno values the code tells apart; [EOTHER] is any other one. *)
Inductive errno :=
  | ENOENT | EACCES | EPERM | ENOTCONN | ECONNABORTED | EINVAL | EBUSY
  | ENOTEMPTY | EIO | ESTALE | EOTHER (n : nat).

#[export] Instance errno_eq_dec : EqDecision errno.
Proof. solve_decision. Defined.

(** A Go [error]: a plain one ([errors.New], [fmt.Errorf]), a gRPC status, or
    an [*os.PathError]-like wrapper of an errno. *)
Inductive error :=
  | Errorf (msg : string)
  | Status (c : code) (msg : string)
  | SysErr (e : errno) (msg : string).

#[export] Instance error_eq_dec : EqDecision error.
Proof. solve_decision. Defined.

Definition code_name (c : code) : string :=
  match c with
  | InvalidArgument => "InvalidArgument" | Internal => "Internal"
  | NotFound => "NotFound" | PermissionDenied => "PermissionDenied"
  | Unavailable => "Unavailable" | DeadlineExceeded => "DeadlineExceeded"
  | Canceled => "Canceled" | Unimplemented => "Unimplemented"
  end.

(** [err.Error()]. *)
Definition err_msg (e : error) : string :=
  match e with
  | Errorf m => m
  | Status c m => "rpc error: code = " +:+ code_name c +:+ " desc = " +:+ m
  | SysErr _ m => m
  end.

(** [os.IsNotExist] and [os.IsPermission]: they look at the errno of a path
    error and do not unwrap [fmt.Errorf("%w")]. *)
Definition is_not_exist (e : error) : bool :=
  match e with SysErr ENOENT _ => true | _ => false end.

Definition is_permission (e : error) : bool :=
  match e with SysErr EACCES _ | SysErr EPERM _ => true | _ => false end.

(** A Go [(T, error)] pair: one of the two is meaningful. *)
Inductive result (A : Type) :=
  | Ok (a : A)
  | Err (e : error).
Arguments Ok {A} a.
Arguments Err {A} e.

Definition is_ok {A} (r : result A) : bool :=
  match r with Ok _ => true | Err _ => false end.

#[export] Instance result_eq_dec `{EqDecision A} : EqDecision (result A).
Proof. solve_decision. Defined.

Definition rbind {A B} (r : result A) (k : A → result B) : result B :=
  match r with Ok a => k a | Err e => Err e end.

(** [if err != nil { return nil, f(err) }]. *)
Definition rmap_err {A} (f : error → error) (r : result A) : result A :=
  match r with Ok a => Ok a | Err e => Err (f e) end.

Definition guard_err (b : bool) (e : error) : result unit :=
  if b then Err e else Ok tt.

Notation "'try!' x := m 'in' k" := (rbind m (λ x, k))
  (at level 10, x pattern, m at level 100, k at level 200) : go_scope.
Notation "m ;;? k" := (rbind m (λ _, k))
  (at level 100, k at level 200, right associativity) : go_scope.

(** ** Stateful code that can fail *)

Definition M (S A : Type) : Type := S → result A * S.

Section monad.
Context {S : Type}.

Definition ret {A} (a : A) : M S A := λ s, (Ok a, s).
Definition throw {A} (e : error) : M S A := λ s, (Err e, s).
Definition bind {A B} (m : M S A) (k : A → M S B) : M S B := λ s,
  match m s with
  | (Ok a, s') => k a s'
  | (Err e, s') => (Err e, s')
  end.
(** Run [m] and look at its error instead of returning it. *)
Definition attempt {A} (m : M S A) : M S (result A) := λ s,
  let '(r, s') := m s in (Ok r, s').
Definition gets {A} (f : S → A) : M S A := λ s, (Ok (f s), s).
Definition modify (f : S → S) : M S unit := λ s, (Ok tt, f s).
Definition of_result {A} (r : result A) : M S A := λ s, (r, s).
Definition with_err {A} (f : error → error) (m : M S A) : M S A := λ s,
  let '(r, s') := m s in (rmap_err f r, s').
Fixpoint for_each {A} (f : A → M S unit) (l : list A) : M S unit :=
  match l with
  | [] => ret tt
  | x :: l => bind (f x) (λ _, for_each f l)
  end.
Definition when (b : bool) (m : M S unit) : M S unit :=
  if b then m else ret tt.
End monad.

Notation "'let!' x := m 'in' k" := (bind m (λ x, k))
  (at level 10, x pattern, m at level 100, k at level 200) : go_scope.
Notation "m ;;! k" := (bind m (λ _, k))
  (at level 100, k at level 200, right associativity) : go_scope.

(** *** Weakest preconditions

    [wp m Q s]: running [m] from [s] ends in a result and a state that
    satisfy [Q], whether the result is a value or an error. *)
Definition wp {S A} (m : M S A) (Q : result A → S → Prop) (s : S) : Prop :=
  Q (m s).1 (m s).2.

Section wp.
Context {S : Type}.
Implicit Types s : S.

Lemma wp_ret {A} (a : A) Q s : Q (Ok a) s → wp (ret a) Q s.
Proof. done. Qed.

Lemma wp_throw {A} e (Q : result A → S → Prop) s : Q (Err e) s → wp (throw e) Q s.
Proof. done. Qed.

Lemma wp_bind {A B} (m : M S A) (k : A → M S B) Q s :
  wp m (λ r s', match r with
                | Ok a => wp (k a) Q s'
                | Err e => Q (Err e) s'
                end) s →
  wp (bind m k) Q s.
Proof. unfold wp, bind. by destruct (m s) as [[a|e] s']. Qed.

Lemma wp_attempt {A} (m : M S A) Q s :
  wp m (λ r s', Q (Ok r) s') s → wp (attempt m) Q s.
Proof. unfold wp, attempt. by destruct (m s) as [r s']. Qed.

Lemma wp_gets {A} (f : S → A) Q s : Q (Ok (f s)) s → wp (gets f) Q s.
Proof. done. Qed.

Lemma wp_modify (f : S → S) Q s : Q (Ok tt) (f s) → wp (modify f) Q s.
Proof. done. Qed.

Lemma wp_of_result {A} (r : result A) Q s : Q r s → wp (of_result r) Q s.
Proof. done. Qed.

Lemma wp_with_err {A} f (m : M S A) Q s :
  wp m (λ r s', Q (rmap_err f r) s') s → wp (with_err f m) Q s.
Proof. unfold wp, with_err. by destruct (m s) as [r s']. Qed.

Lemma wp_when b (m : M S unit) Q s :
  (b = true → wp m Q s) → (b = false → Q (Ok tt) s) → wp (when b m) Q s.
Proof. destruct b; unfold when; intros H1 H2; [by apply H1 | by apply H2]. Qed.

Lemma wp_mono {A} (m : M S A) (Q Q' : result A → S → Prop) s :
  wp m Q s → (∀ r s', Q r s' → Q' r s') → wp m Q' s.
Proof. unfold wp. auto. Qed.

Lemma wp_and {A} (m : M S A) (Q Q' : result A → S → Prop) s :
  wp m Q s → wp m Q' s → wp m (λ r s', Q r s' ∧ Q' r s') s.
Proof. by split. Qed.

(** A loop keeps whatever every iteration keeps, whether it ends or stops
    at an error. *)
Lemma wp_for_each {A} (f : A → M S unit) (l : list A) (I : S → Prop) s :
  (∀ x s', x ∈ l → I s' → wp (f x) (λ _, I) s') → I s →
  wp (for_each f l) (λ _, I) s.
Proof.
  revert s. induction l as [|x l IH]; intros s Hf HI; [done|].
  apply wp_bind. eapply wp_mono; [apply Hf; [left|done]|].
  intros [] s' HI'; [|done]. apply IH; [|done].
  intros y s'' Hy. apply Hf. by right.
Qed.
End wp.

Create HintDb wp.
#[export] Hint Resolve wp_ret wp_throw wp_gets wp_modify wp_of_result : wp.

(** One structural step of a weakest-precondition goal. *)
Ltac wp_step :=
  lazymatch goal with
  | |- wp (ret _) _ _ => apply wp_ret
  | |- wp (throw _) _ _ => apply wp_throw
  | |- wp (bind _ _) _ _ => apply wp_bind
  | |- wp (attempt _) _ _ => apply wp_attempt
  | |- wp (gets _) _ _ => apply wp_gets
  | |- wp (modify _) _ _ => apply wp_modify
  | |- wp (of_result _) _ _ => apply wp_of_result
  | |- wp (with_err _ _) _ _ => apply wp_with_err
  | |- wp (when _ _) _ _ => apply wp_when
  | |- wp (match ?x with _ => _ end) _ _ => destruct x eqn:?
  | |- wp (if ?x then _ else _) _ _ => destruct x eqn:?
  end; cbn beta iota.
Ltac wp_steps := repeat wp_step.

(** ** Generic lemmas *)

Lemma bool_decide_ite {A} P `{Decision P} (x y : A) :
  (if bool_decide P then x else y) = if decide P then x else y.
Proof. by destruct (decide P); [rewrite bool_decide_true | rewrite bool_decide_false]. Qed.

(** Injectivity without reducing the values. *)
Lemma Ok_inj {A} (x y : A) : Ok x = Ok y → x = y.
Proof. by injection 1. Qed.

Lemma rbind_Ok {A B} (r : result A) (k : A → result B) b :
  rbind r k = Ok b ↔ ∃ a, r = Ok a ∧ k a = Ok b.
Proof. destruct r; naive_solver. Qed.

Lemma guard_err_Ok b e u : guard_err b e = Ok u ↔ b = false.
Proof. destruct b, u; naive_solver. Qed.

(** Inserting the bindings of a map one by one, in any order, makes the map. *)
Lemma foldl_insert_perm {A} (l : list (string * A)) (m : gmap string A) :
  l ≡ₚ map_to_list m → foldl (λ m (p : string * A), <[p.1 := p.2]> m) ∅ l = m.
Proof.
  intros Hperm.
  assert (foldl (λ m (p : string * A), <[p.1 := p.2]> m) ∅ l = (list_to_map (reverse l) : gmap string A)) as ->.
  { clear Hperm. induction l as [|p l IH] using rev_ind; [done|].
    rewrite foldl_app, reverse_snoc, IH. by destruct p. }
  rewrite <- (list_to_map_to_list m). apply list_to_map_proper.
  - rewrite reverse_Permutation, Hperm. apply NoDup_fst_map_to_list.
  - by rewrite reverse_Permutation, Hperm.
Qed.

(** How many entries of a table satisfy [f], after one entry changed. *)
Section count.
Context {A : Type} (f : A → bool).
Implicit Types m : gmap nat A.

Definition count m : nat := size (filter (λ kp : nat * A, f kp.2 = true) m).

Lemma count_insert_new m i x :
  m !! i = None → count (<[i := x]> m) = (if f x then 1 else 0) + count m.
Proof.
  intros Hi. unfold count. destruct (f x) eqn:Hx.
  - rewrite map_filter_insert_True by done. rewrite map_size_insert_None; [done|].
    apply map_lookup_filter_None. by left.
  - rewrite map_filter_insert_not'; [done|cbn; congruence|]. intros y. by rewrite Hi.
Qed.

Lemma count_insert_old m i x y :
  m !! i = Some y →
  count (<[i := x]> m) + (if f y then 1 else 0) = (if f x then 1 else 0) + count m.
Proof.
  intros Hi. rewrite <- insert_delete_eq, count_insert_new by apply lookup_delete_eq.
  assert (count m = (if f y then 1 else 0) + count (delete i m)) as ->; [|lia].
  rewrite <- (count_insert_new (delete i m) i y) by apply lookup_delete_eq.
  by rewrite insert_delete_eq, insert_id.
Qed.
End count.

(** Split a successful [rbind] chain in a hypothesis into its steps. *)
Ltac inv_ok :=
  repeat match goal with
  | H : rbind _ _ = Ok _ |- _ =>
      let a := fresh "a" in let H1 := fresh H in
      apply rbind_Ok in H as (a & H1 & H)
  | H : guard_err _ _ = Ok _ |- _ => apply guard_err_Ok in H
  | H : Ok _ = Ok _ |- _ => simplify_eq H
  | H : Err _ = Ok _ |- _ => discriminate H
  end.
