(* ===== verification/GoLib.v ===== *)
(** * The Go standard library the driver uses

    Executable versions of the functions of [strings], [strconv], [path] and
    [path/filepath] (Unix) that the modelled code calls. A Go string is a byte
    string. Case conversion is that of ASCII text; the driver's keys, flags and
    endpoints are ASCII. White space is that of [unicode.IsSpace], in UTF-8. *)

From Stdlib Require Import DecimalString DecimalZ DecimalPos.
From Stdlib Require Decimal.
From S2P Require Import Prelude.

Create HintDb golib.

(** ** Characters *)

Definition chr_eqb (a b : ascii) : bool := bool_decide (a = b).
Definition code_of (a : ascii) : Z := Z.of_N (Ascii.N_of_ascii a).
Definition of_code (z : Z) : ascii := Ascii.ascii_of_N (Z.to_N (z mod 256)).

Definition to_lower_chr (a : ascii) : ascii :=
  let z := code_of a in
  if (65 <=? z)%Z && (z <=? 90)%Z then of_code (z + 32) else a.

(** ** Package strings *)
Module Strings.
Fixpoint smap (f : ascii → ascii) (s : string) : string :=
  match s with
  | EmptyString => EmptyString
  | String c s => String (f c) (smap f s)
  end.

Definition ToLower : string → string := smap to_lower_chr.

Fixpoint sdrop (n : nat) (s : string) : string :=
  match n, s with
  | S n, String _ s => sdrop n s
  | _, _ => s
  end.

Fixpoint stake (n : nat) (s : string) : string :=
  match n, s with
  | S n, String c s => String c (stake n s)
  | _, _ => EmptyString
  end.

Definition HasPrefix (s p : string) : bool := String.prefix p s.
Definition TrimPrefix (s p : string) : string :=
  if HasPrefix s p then sdrop (String.length p) s else s.

(** [strings.Cut]; [None] is [found = false]. *)
Fixpoint cut_opt (sep s : string) : option (string * string) :=
  if String.prefix sep s then Some ("", sdrop (String.length sep) s)
  else match s with
       | EmptyString => None
       | String c s =>
           match cut_opt sep s with
           | Some (a, b) => Some (String c a, b)
           | None => None
           end
       end.
Definition Cut (s sep : string) : string * string * bool :=
  match cut_opt sep s with
  | Some (a, b) => (a, b, true)
  | None => (s, "", false)
  end.
Definition Contains (s sub : string) : bool := bool_decide (is_Some (cut_opt sub s)).

Definition rev_string (s : string) : string :=
  String.string_of_list_ascii (rev (String.list_ascii_of_string s)).
Definition HasSuffix (s p : string) : bool := HasPrefix (rev_string s) (rev_string p).
Definition TrimSuffix (s p : string) : string :=
  if HasSuffix s p then stake (String.length s - String.length p) s else s.

(** The pieces between the bytes that satisfy [p]; always one piece more
    than there are such bytes. *)
Fixpoint split_by (p : ascii → bool) (s : string) : list string :=
  match s with
  | EmptyString => [""]
  | String c s =>
      if p c then "" :: split_by p s
      else match split_by p s with
           | x :: l => String c x :: l
           | [] => [String c ""]
           end
  end.

(** [strings.Split] for a one-byte separator. *)
Definition Split (s : string) (c : ascii) : list string := split_by (chr_eqb c) s.
Definition Join (l : list string) (sep : string) : string := String.concat sep l.

Definition is_space (a : ascii) : bool := strings.Ascii.is_space a.

(** The bytes of the white space beyond ASCII: U+0085, U+00A0, U+1680, U+2000 to U+200A,
    U+2028, U+2029, U+202F, U+205F and U+3000. Their first bytes occur in no other place of
    a rune and start no shorter one, so they are found wherever they stand. *)
Definition bytes (l : list Z) : string := String.string_of_list_ascii (map of_code l).
Definition wide_spaces : list string := Eval vm_compute in map bytes (
  [[194; 133]; [194; 160]; [225; 154; 128]]%Z ++
  map (λ n, [226; 128; 128 + Z.of_nat n]%Z) (seq 0 11) ++
  [[226; 128; 168]; [226; 128; 169]; [226; 128; 175]; [226; 129; 159]; [227; 128; 128]]%Z).

(** How many bytes the white space at the start of a string has. *)
Definition space_len (s : string) : nat :=
  match s with
  | EmptyString => 0
  | String c _ =>
      if is_space c then 1
      else match List.find (λ w, String.prefix w s) wide_spaces with
           | Some w => String.length w
           | None => 0
           end
  end.

(** [strings.Fields]: the pieces between runes that are white space; [skip] bytes of the
    last one are left. *)
Fixpoint split_space (skip : nat) (s : string) : list string :=
  match s with
  | EmptyString => [""]
  | String c s' =>
      match skip with
      | S k => split_space k s'
      | 0 =>
          match space_len s with
          | S k => "" :: split_space k s'
          | 0 => match split_space 0 s' with
                 | x :: l => String c x :: l
                 | [] => [String c ""]
                 end
          end
      end
  end.
Definition Fields (s : string) : list string := filter (λ x, x ≠ "") (split_space 0 s).

(** [strings.TrimSpace]. *)
Fixpoint trim_left (skip : nat) (s : string) : string :=
  match s with
  | EmptyString => ""
  | String c s' =>
      match skip, space_len s with
      | S k, _ => trim_left k s'
      | 0, S k => trim_left k s'
      | 0, 0 => s
      end
  end.
Fixpoint blank (skip : nat) (s : string) : bool :=
  match s with
  | EmptyString => true
  | String c s' =>
      match skip, space_len s with
      | S k, _ => blank k s'
      | 0, S k => blank k s'
      | 0, 0 => false
      end
  end.
Fixpoint trim_right (s : string) : string :=
  match s with
  | EmptyString => ""
  | String c s' => if blank 0 s then "" else String c (trim_right s')
  end.
Definition TrimSpace (s : string) : string := trim_right (trim_left 0 s).

Definition ReplaceChr (s : string) (a b : ascii) : string :=
  smap (λ c, if chr_eqb c a then b else c) s.

Fixpoint sexists (p : ascii → bool) (s : string) : bool :=
  match s with
  | EmptyString => false
  | String c s => p c || sexists p s
  end.
Definition ContainsByte (s : string) (a : ascii) : bool := sexists (chr_eqb a) s.
Definition ContainsAny (s chars : string) : bool := sexists (ContainsByte chars) s.

(** White space stands somewhere in the string. *)
Fixpoint has_space (s : string) : bool :=
  match s with
  | EmptyString => false
  | String c s' => negb (space_len s =? 0) || has_space s'
  end.
End Strings.

(** ** Package strconv *)
Module Strconv.
Definition max_int64 : Z := 2 ^ 63 - 1.
Definition min_int64 : Z := - 2 ^ 63.
Definition in_int64 (z : Z) : bool := (min_int64 <=? z)%Z && (z <=? max_int64)%Z.

(** [strconv.FormatInt(z, 10)] and [strconv.Itoa]. *)
Definition FormatInt (z : Z) : string := NilZero.string_of_int (Z.to_int z).

(** An unsigned decimal numeral: at least one digit and nothing else. *)
Definition parse_digits (s : string) : option Z :=
  if String.eqb s "" then None
  else d ← NilZero.uint_of_string s; Some (Z.of_uint d).

(** [strconv.ParseInt(s, 10, 64)]; [strconv.Atoi] is the same where [int]
    has 64 bits. [None] is a syntax or a range error. *)
Definition ParseInt (s : string) : option Z :=
  z ← match s with
      | String "+" s => parse_digits s
      | String "-" s => Z.opp <$> parse_digits s
      | _ => parse_digits s
      end;
  if in_int64 z then Some z else None.
Definition Atoi : string → option Z := ParseInt.

Definition ParseBool (s : string) : option bool :=
  if bool_decide (s ∈ ["1"; "t"; "T"; "TRUE"; "true"; "True"]) then Some true
  else if bool_decide (s ∈ ["0"; "f"; "F"; "FALSE"; "false"; "False"]) then Some false
  else None.

Definition hex_digit (z : Z) : ascii :=
  if (z <? 10)%Z then of_code (48 + z) else of_code (87 + z).

(** One byte of a [%q] operand. *)
Definition dquote : ascii := of_code 34.
Definition quote_chr (a : ascii) : string :=
  let z := code_of a in
  if chr_eqb a dquote then String "\" (String dquote "") else if chr_eqb a "\" then "\\"
  else if (z =? 10)%Z then "\n" else if (z =? 13)%Z then "\r"
  else if (z =? 9)%Z then "\t"
  else if (32 <=? z)%Z && (z <=? 126)%Z then String a ""
  else "\x" +:+ String (hex_digit (z / 16)) (String (hex_digit (z mod 16)) "").
Fixpoint quote_body (s : string) : string :=
  match s with
  | EmptyString => ""
  | String c s => quote_chr c +:+ quote_body s
  end.
Definition Quote (s : string) : string := String dquote (quote_body s +:+ String dquote "").
End Strconv.

(** ** Packages path and path/filepath (Unix) *)
Module Path.
Import Strings.

Definition IsAbs (p : string) : bool := HasPrefix p "/".

(** The stack of output elements (innermost first) after one more element,
    by the rules of [path.Clean]. *)
Definition push_elem (rooted : bool) (out : list string) (c : string) : list string :=
  if bool_decide (c = "" ∨ c = ".") then out
  else if bool_decide (c = "..") then
    match out with
    | x :: out' => if bool_decide (x = "..") then c :: out else out'
    | [] => if rooted then [] else [c]
    end
  else c :: out.

Definition clean_elems (rooted : bool) (l : list string) : list string :=
  rev (foldl (push_elem rooted) [] l).

Definition Clean (p : string) : string :=
  let rooted := IsAbs p in
  let body := Join (clean_elems rooted (Split p "/")) "/" in
  if rooted then String "/" body
  else if String.eqb body "" then "." else body.

Definition JoinPath (l : list string) : string :=
  match filter (λ x, x ≠ "") l with
  | [] => ""
  | l => Clean (Join l "/")
  end.

Definition Dir (p : string) : string :=
  match removelast (Split p "/") with
  | [] => Clean ""
  | l => Clean (Join l "/" +:+ "/")
  end.

Fixpoint strip_slashes (s : string) : string :=
  match s with
  | String c s' =>
      match strip_slashes s' with
      | EmptyString => if chr_eqb c "/" then "" else String c ""
      | r => String c r
      end
  | EmptyString => ""
  end.

Definition Base (p : string) : string :=
  if String.eqb p "" then "."
  else let q := strip_slashes p in
       if String.eqb q "" then "/" else default "" (last (Split q "/")).

Fixpoint strip_common (a b : list string) : list string * list string :=
  match a, b with
  | x :: a', y :: b' => if bool_decide (x = y) then strip_common a' b' else (a, b)
  | _, _ => (a, b)
  end.

Definition rel_elems (p : string) : list string :=
  filter (λ x, x ≠ "") (Split p "/").

(** [filepath.Rel]; [None] is its error. *)
Definition Rel (base targ : string) : option string :=
  let b := Clean base in
  let t := Clean targ in
  if String.eqb t b then Some "."
  else
    let b := if String.eqb b "." then "" else b in
    if negb (bool_decide (IsAbs b = IsAbs t)) then None
    else
      let '(bl, tl) := strip_common (rel_elems b) (rel_elems t) in
      if bool_decide (head bl = Some "..") then None
      else Some (Join (replicate (length bl) ".." ++ tl) "/").
End Path.

Example clean_1 : map Path.Clean ["/a/../b//c/."; ""; "a/../../b"; "/.."; "/buckets/"; "a/.."]
  = ["/b/c"; "."; "../b"; "/"; "/buckets"; "."].
Proof. vm_compute. reflexivity. Qed.
Example dir_base : map (λ p, (Path.Dir p, Path.Base p)) ["/a/b"; "/a"; "a"; "/"; "a/b/"]
  = [("/a", "b"); ("/", "a"); (".", "a"); ("/", "/"); ("a/b", "b")].
Proof. vm_compute. reflexivity. Qed.
Example rel_1 : map (λ p, Path.Rel "/k/pods" p) ["/k/pods/u/v"; "/k/x"; "/k/pods"; "a"; "/k/pods/../z"]
  = [Some "u/v"; Some "../x"; Some "."; None; Some "../z"].
Proof. vm_compute. reflexivity. Qed.
Example parse_int : map Strconv.ParseInt ["12"; "-7"; "+5"; ""; "-"; "1_0"; "9223372036854775808"; "-9223372036854775808"; " 1"]
  = [Some 12; Some (-7); Some 5; None; None; None; None; Some (-9223372036854775808); None]%Z.
Proof. vm_compute. reflexivity. Qed.

(** ** Lemmas *)

Section string_lemmas.
Import Strings.
Implicit Types s a b : string.

Lemma sapp_nil_r s : s +:+ "" = s.
Proof. induction s as [|c s IH]; [done|]. cbn. by f_equal. Qed.

Lemma sapp_assoc a b s : a +:+ (b +:+ s) = (a +:+ b) +:+ s.
Proof. induction a as [|c a IH]; [done|]. cbn. by f_equal. Qed.

Lemma length_sapp a b : String.length (a +:+ b) = String.length a + String.length b.
Proof. induction a as [|c a IH]; [done|]. cbn. by rewrite IH. Qed.

Lemma length_stake n s : String.length (stake n s) = min n (String.length s).
Proof. revert s. induction n as [|n IH]; intros [|c s]; cbn; auto. Qed.

Lemma length_smap f s : String.length (smap f s) = String.length s.
Proof. induction s; cbn; auto. Qed.

Lemma prefix_app a s : String.prefix a (a +:+ s) = true.
Proof. induction a as [|c a IH]; [by destruct s|]. cbn. by destruct (ascii_dec c c). Qed.

Lemma sdrop_app a s : sdrop (String.length a) (a +:+ s) = s.
Proof. by induction a. Qed.

Lemma prefix_inv a s : String.prefix a s = true → s = a +:+ sdrop (String.length a) s.
Proof.
  revert s. induction a as [|c a IH]; intros s; [done|].
  destruct s as [|d s]; [done|]. cbn. destruct (ascii_dec c d) as [->|]; [|done].
  intros H. f_equal. by apply IH.
Qed.

Definition no_byte (c : ascii) s : Prop := ContainsByte s c = false.

Lemma no_byte_cons c d s : no_byte c (String d s) ↔ c ≠ d ∧ no_byte c s.
Proof.
  unfold no_byte, ContainsByte, chr_eqb. cbn. rewrite orb_false_iff, bool_decide_eq_false.
  naive_solver.
Qed.

Lemma no_byte_app c a b : no_byte c (a +:+ b) ↔ no_byte c a ∧ no_byte c b.
Proof.
  induction a as [|d a IH]; [by split; [|intros []]|].
  cbn. rewrite !no_byte_cons, IH. naive_solver.
Qed.

Lemma sexists_app p a b : sexists p (a +:+ b) = sexists p a || sexists p b.
Proof. induction a as [|c a IH]; [done|]. cbn. by rewrite IH, orb_assoc. Qed.

Lemma split_by_nonnil p s : split_by p s ≠ [].
Proof. destruct s as [|c s]; cbn; [done|]. destruct (p c); [done|]. by destruct (split_by p s). Qed.

Lemma Split_cons_sep c s : Split (String c s) c = "" :: Split s c.
Proof. unfold Split, chr_eqb. cbn. by rewrite bool_decide_true. Qed.

Lemma Split_cons_ne c d s :
  c ≠ d → ∃ x l, Split s c = x :: l ∧ Split (String d s) c = String d x :: l.
Proof.
  intros Hd. unfold Split. cbn. unfold chr_eqb at 2. rewrite bool_decide_false by done.
  pose proof (split_by_nonnil (chr_eqb c) s).
  destruct (split_by (chr_eqb c) s) as [|x l]; [done|]. by exists x, l.
Qed.

Lemma Split_app_sep c a b : Split (a +:+ String c b) c = Split a c ++ Split b c.
Proof.
  induction a as [|d a IH]; [apply Split_cons_sep|].
  cbn [String.append]. destruct (decide (c = d)) as [<-|Hd].
  - rewrite !Split_cons_sep, IH. done.
  - destruct (Split_cons_ne c d a Hd) as (x & l & E1 & ->).
    destruct (Split_cons_ne c d (a +:+ String c b) Hd) as (y & k & E2 & ->).
    rewrite IH, E1 in E2. cbn in E2. by injection E2 as <- <-.
Qed.

Lemma Split_no_byte c s : no_byte c s → Split s c = [s].
Proof.
  induction s as [|d s IH]; [done|]. rewrite no_byte_cons. intros [Hd Hs].
  destruct (Split_cons_ne c d s Hd) as (x & l & E & ->).
  rewrite (IH Hs) in E. by injection E as <- <-.
Qed.

Lemma Split_pieces c s : Forall (no_byte c) (Split s c).
Proof.
  induction s as [|d s IH]; [by repeat constructor|].
  destruct (decide (c = d)) as [<-|Hd]; [rewrite Split_cons_sep; by constructor|].
  destruct (Split_cons_ne c d s Hd) as (x & l & E & ->). rewrite E in IH.
  inversion IH; subst. constructor; [|done]. by apply no_byte_cons.
Qed.

Lemma Join_cons x l sep : l ≠ [] → Join (x :: l) sep = x +:+ sep +:+ Join l sep.
Proof. by destruct l. Qed.

Lemma Join_app l k sep :
  l ≠ [] → k ≠ [] → Join (l ++ k) sep = Join l sep +:+ sep +:+ Join k sep.
Proof.
  intros Hl Hk. induction l as [|x [|y l] IH]; [done| |].
  - cbn [app]. by rewrite Join_cons.
  - cbn [app] in *. rewrite Join_cons, IH, (Join_cons x (y :: l)) by done. by rewrite !sapp_assoc.
Qed.

Lemma Join_Split c s : Join (Split s c) (String c "") = s.
Proof.
  induction s as [|d s IH]; [done|].
  destruct (decide (c = d)) as [<-|Hd].
  - rewrite Split_cons_sep, Join_cons by apply split_by_nonnil. by rewrite IH.
  - destruct (Split_cons_ne c d s Hd) as (x & l & E & ->). rewrite E in IH.
    destruct l; cbn in *; by f_equal.
Qed.

Lemma Split_Join c l :
  l ≠ [] → Forall (no_byte c) l → Split (Join l (String c "")) c = l.
Proof.
  induction l as [|x l IH]; [done|]. intros _ Hl. inversion_clear Hl as [|?? Hx Hl'].
  destruct l as [|y l]; [by apply Split_no_byte|].
  rewrite Join_cons by done. change (String c "" +:+ ?s) with (String c s).
  rewrite Split_app_sep, (Split_no_byte c x Hx). cbn. f_equal. by apply IH.
Qed.
End string_lemmas.

Section path_lemmas.
Import Strings Path.
Implicit Types (p x : string) (l : list string).

(** A path element that [Clean] keeps as it is. *)
Definition elem_ok x : Prop := x ≠ "" ∧ x ≠ "." ∧ x ≠ ".." ∧ no_byte "/" x.

#[export] Instance elem_ok_dec x : Decision (elem_ok x).
Proof. unfold elem_ok, no_byte. apply _. Defined.

(** The clean absolute path with these elements. *)
Definition abs_path l : string := String "/" (Join l "/").

Lemma push_elem_ok r l x : elem_ok x → push_elem r l x = x :: l.
Proof.
  intros (? & ? & ? & _). unfold push_elem.
  rewrite bool_decide_false by naive_solver. by rewrite bool_decide_false.
Qed.

Lemma foldl_push_ok r acc l :
  Forall elem_ok l → foldl (push_elem r) acc l = rev l ++ acc.
Proof.
  intros Hl. revert acc. induction Hl as [|x l Hx Hl IH]; intros acc; [done|].
  cbn. rewrite push_elem_ok, IH by done. by rewrite <- app_assoc.
Qed.

Lemma push_elem_rooted acc x :
  no_byte "/" x → Forall elem_ok acc → Forall elem_ok (push_elem true acc x).
Proof.
  intros Hx Hacc. unfold push_elem. repeat case_bool_decide; [done| |].
  - destruct Hacc as [|y acc Hy Hacc]; [by constructor|].
    case_bool_decide; [|done]. subst y. by destruct Hy as (_ & _ & ? & _).
  - constructor; [|done]. unfold elem_ok. naive_solver.
Qed.

Lemma foldl_push_rooted acc l :
  Forall (no_byte "/") l → Forall elem_ok acc →
  Forall elem_ok (foldl (push_elem true) acc l).
Proof.
  intros Hl. revert acc. induction Hl as [|x l Hx Hl IH]; intros acc Hacc; [done|].
  cbn. apply IH. by apply push_elem_rooted.
Qed.

Lemma Clean_abs_elems p :
  IsAbs p = true → ∃ l, Forall elem_ok l ∧ Clean p = abs_path l.
Proof.
  intros Hp. exists (clean_elems true (Split p "/")). split.
  - unfold clean_elems. apply Forall_rev, foldl_push_rooted; [|done]. apply Split_pieces.
  - unfold Clean. by rewrite Hp.
Qed.

Lemma IsAbs_slash p : IsAbs (String "/" p) = true.
Proof. by destruct p. Qed.

Lemma IsAbs_abs_path l : IsAbs (abs_path l) = true.
Proof. apply IsAbs_slash. Qed.

Lemma IsAbs_app p x : IsAbs p = true → IsAbs (p +:+ x) = true.
Proof.
  unfold IsAbs, HasPrefix. destruct p as [|c p]; [done|]. cbn.
  case_match; [|done]. intros _. by destruct (p +:+ x).
Qed.

Lemma elems_no_byte l : Forall elem_ok l → Forall (no_byte "/") l.
Proof. intros Hl. eapply Forall_impl; [exact Hl|]. unfold elem_ok. tauto. Qed.

Lemma Split_abs_path l :
  Forall elem_ok l →
  Split (abs_path l) "/" = "" :: match l with [] => [""] | _ => l end.
Proof.
  intros Hl. unfold abs_path. rewrite Split_cons_sep. f_equal.
  destruct l; [done|]. apply Split_Join; [done|]. by apply elems_no_byte.
Qed.

Lemma clean_elems_app_ok r l k :
  Forall elem_ok k → foldl (push_elem r) [] (l ++ k) = rev k ++ foldl (push_elem r) [] l.
Proof. intros. rewrite foldl_app. by apply foldl_push_ok. Qed.

Lemma foldl_push_abs_path l :
  Forall elem_ok l → foldl (push_elem true) [] (Split (abs_path l) "/") = rev l.
Proof.
  intros Hl. rewrite Split_abs_path by done. cbn [foldl].
  change (push_elem true [] "") with (@nil string).
  destruct l as [|x l]; [done|]. rewrite foldl_push_ok by done. apply app_nil_r.
Qed.

Lemma Clean_abs_path l : Forall elem_ok l → Clean (abs_path l) = abs_path l.
Proof.
  intros Hl. unfold Clean, clean_elems. rewrite IsAbs_abs_path.
  rewrite foldl_push_abs_path by done. by rewrite rev_involutive.
Qed.

(** [path.Join(dir, name)] appends a plain name to a clean directory. *)
Lemma JoinPath_abs_path l x :
  Forall elem_ok l → elem_ok x → JoinPath [abs_path l; x] = abs_path (l ++ [x]).
Proof.
  intros Hl Hx. pose proof Hx as (Hx1 & _ & _ & Hx2). unfold JoinPath.
  rewrite !filter_cons_True, filter_nil by done.
  change (Join [abs_path l; x] "/") with (abs_path l +:+ String "/" x).
  unfold Clean. rewrite IsAbs_app by apply IsAbs_abs_path. unfold clean_elems.
  rewrite Split_app_sep, (Split_no_byte "/" x) by done.
  rewrite clean_elems_app_ok by (by apply Forall_singleton).
  rewrite foldl_push_abs_path by done. cbn [rev app].
  by rewrite rev_involutive.
Qed.

Lemma Join_snoc l x sep : l ≠ [] → Join (l ++ [x]) sep = Join l sep +:+ sep +:+ x.
Proof.
  induction l as [|y l IH]; [done|]. intros _. destruct l as [|z l]; [done|].
  rewrite <- app_comm_cons, (Join_cons y ((z :: l) ++ [x])) by (by destruct l).
  rewrite (Join_cons y (z :: l)), IH by done. by rewrite !sapp_assoc.
Qed.

Lemma Join_snoc_empty l sep : l ≠ [] → Join l sep +:+ sep = Join (l ++ [""]) sep.
Proof. intros Hl. rewrite Join_snoc by done. by rewrite sapp_nil_r. Qed.

(** [path.Dir] takes the last element off. *)
Lemma Dir_abs_path l x :
  Forall elem_ok l → elem_ok x → Dir (abs_path (l ++ [x])) = abs_path l.
Proof.
  intros Hl Hx. unfold Dir.
  rewrite Split_abs_path by (apply Forall_app; split; [done|by constructor]).
  replace (match l ++ [x] with [] => [""] | _ => l ++ [x] end) with (l ++ [x])
    by (by destruct l).
  change ("" :: l ++ [x]) with (("" :: l) ++ [x]). rewrite removelast_last.
  unfold Clean. replace (Join ("" :: l) "/" +:+ "/") with (Join (("" :: l) ++ [""]) "/")
    by (by rewrite Join_snoc_empty).
  assert (Forall (no_byte "/") (("" :: l) ++ [""])) as Hn.
  { apply Forall_app; split; [|by repeat constructor].
    constructor; [done|]. by apply elems_no_byte. }
  assert (IsAbs (Join (("" :: l) ++ [""]) "/") = true) as ->.
  { rewrite <- app_comm_cons, Join_cons by (by destruct l). apply IsAbs_slash. }
  unfold clean_elems. rewrite Split_Join; [|discriminate|exact Hn].
  cbn [app foldl]. change (push_elem true [] "") with (@nil string).
  rewrite foldl_app, (foldl_push_ok _ _ l), app_nil_r by done.
  change (foldl (push_elem true) (rev l) [""]) with (rev l). by rewrite rev_involutive.
Qed.

Lemma strip_slashes_no_byte x : no_byte "/" x → strip_slashes x = x.
Proof.
  induction x as [|c x IH]; [done|]. rewrite no_byte_cons. intros [Hc Hx].
  cbn. rewrite (IH Hx). destruct x; [|done]. unfold chr_eqb. by rewrite bool_decide_false.
Qed.

Lemma strip_slashes_app p x : x ≠ "" → no_byte "/" x → strip_slashes (p +:+ x) = p +:+ x.
Proof.
  intros Hx Hn. induction p as [|c p IH]; [by apply strip_slashes_no_byte|].
  cbn. rewrite IH. destruct (p +:+ x) eqn:E; [|done].
  by destruct p, x.
Qed.

(** [path.Base] is the last element. *)
Lemma Base_abs_path l x :
  Forall elem_ok l → elem_ok x → Base (abs_path (l ++ [x])) = x.
Proof.
  intros Hl Hx. assert (Forall elem_ok (l ++ [x])) as Hlx
    by (apply Forall_app; split; [done|by constructor]).
  unfold Base. assert (strip_slashes (abs_path (l ++ [x])) = abs_path (l ++ [x])) as ->.
  { destruct Hx as (Hx & _ & _ & Hn). unfold abs_path. destruct l as [|y l].
    - apply (strip_slashes_app "/" x Hx Hn).
    - rewrite Join_snoc by done. rewrite sapp_assoc.
      apply (strip_slashes_app (String "/" (Join (y :: l) "/" +:+ "/")) x Hx Hn). }
  cbn [String.eqb abs_path]. rewrite Split_abs_path by done.
  replace (match l ++ [x] with [] => [""] | _ => l ++ [x] end) with (l ++ [x])
    by (by destruct l).
  change ("" :: l ++ [x]) with (("" :: l) ++ [x]). by rewrite last_snoc.
Qed.

(** The last element of any path that ends in a plain name. *)
Lemma Base_last p x : elem_ok x → Base (p +:+ String "/" x) = x ∧ Base x = x.
Proof.
  intros (Hx & _ & _ & Hn). unfold Base.
  assert (∀ y, y ≠ "" → (if String.eqb y "" then "." else y) = y) as Hne
    by (intros y Hy; by destruct (String.eqb_spec y "")).
  split.
  - change (String "/" x) with ("/" +:+ x). rewrite sapp_assoc.
    rewrite (strip_slashes_app (p +:+ "/") x) by done. rewrite <- sapp_assoc. cbn [String.append].
    assert (p +:+ String "/" x ≠ "") as Hpx by (by destruct p).
    destruct (String.eqb_spec (p +:+ String "/" x) ""); [done|].
    rewrite Split_app_sep, (Split_no_byte "/" x) by done. by rewrite last_snoc.
  - rewrite strip_slashes_no_byte by done. destruct (String.eqb_spec x ""); [done|].
    by rewrite Split_no_byte.
Qed.

Lemma Base_Clean s l x : elem_ok x → Split s "/" = l ++ [x] → Base (Clean s) = x.
Proof.
  intros Hx Hs. unfold Clean, clean_elems. rewrite Hs, foldl_app. cbn [foldl].
  rewrite push_elem_ok by done. cbn [rev].
  set (out := rev (foldl (push_elem (IsAbs s)) [] l)).
  assert (∃ q, Join (out ++ [x]) "/" = q +:+ String "/" x ∨ Join (out ++ [x]) "/" = x) as [q Hq].
  { destruct out as [|y out]; [by exists ""; right|]. exists (Join (y :: out) "/"). left.
    by rewrite Join_snoc. }
  destruct (Base_last q x Hx) as [H1 H2]. destruct (IsAbs s).
  - destruct Hq as [->| ->]; [apply (Base_last (String "/" q) x Hx)|apply (Base_last "" x Hx)].
  - destruct (String.eqb_spec (Join (out ++ [x]) "/") "") as [E|_].
    { destruct Hx as [Hx _]. destruct Hq as [Hq|Hq]; rewrite Hq in E; [by destruct q|done]. }
    destruct Hq as [->| ->]; done.
Qed.

Lemma Base_JoinPath p x : elem_ok x → Base (JoinPath [p; x]) = x.
Proof.
  intros Hx. pose proof Hx as (Hx1 & _ & _ & Hx2). unfold JoinPath.
  destruct (decide (p = "")) as [->|Hp].
  - rewrite filter_cons_False, filter_cons_True, filter_nil by tauto.
    apply (Base_Clean x []); [done|]. by apply Split_no_byte.
  - rewrite !filter_cons_True, filter_nil by done.
    change (Join [p; x] "/") with (p +:+ String "/" x). apply (Base_Clean _ (Split p "/")); [done|].
    by rewrite Split_app_sep, (Split_no_byte "/" x).
Qed.

(** A clean path is absolute exactly when the path is. *)
Lemma IsAbs_Clean p : IsAbs p = true → IsAbs (Clean p) = true.
Proof. intros Hp. destruct (Clean_abs_elems p Hp) as (l & _ & ->). apply IsAbs_abs_path. Qed.
End path_lemmas.

Section strconv_lemmas.
Import Strconv.

Lemma parse_digits_uint d :
  d ≠ Decimal.Nil → parse_digits (NilZero.string_of_uint d) = Some (Z.of_uint d).
Proof.
  intros Hd. unfold parse_digits. destruct (String.eqb_spec (NilZero.string_of_uint d) "") as [E|_].
  - by destruct d.
  - by rewrite NilZero.usu.
Qed.

Lemma ParseInt_uint d :
  d ≠ Decimal.Nil → in_int64 (Z.of_uint d) = true →
  ParseInt (NilZero.string_of_uint d) = Some (Z.of_uint d).
Proof.
  intros Hd Hr. pose proof (parse_digits_uint d Hd) as Hp. unfold ParseInt.
  assert (∀ A (f g : string → option A) (h : option A),
    match NilZero.string_of_uint d with
    | String "+" s => f s | String "-" s => g s | _ => h end = h) as E.
  { intros. by destruct d. }
  rewrite E, Hp. cbn. by rewrite Hr.
Qed.

Lemma to_int_nonnil z : Z.to_int z ≠ Decimal.Pos Decimal.Nil ∧ Z.to_int z ≠ Decimal.Neg Decimal.Nil.
Proof.
  destruct z as [|p|p]; cbn; split; try discriminate; intros [= H];
    pose proof (DecimalPos.Unsigned.to_uint_nonnil p); done.
Qed.

(** [ParseInt(FormatInt(z))] gives [z] back for every 64-bit [z]. *)
Lemma ParseInt_FormatInt z : in_int64 z = true → ParseInt (FormatInt z) = Some z.
Proof.
  intros Hz. unfold FormatInt. destruct (to_int_nonnil z) as [H1 H2].
  pose proof (DecimalZ.of_to z) as Hof.
  destruct (Z.to_int z) as [d|d] eqn:E; cbn [NilZero.string_of_int Z.of_int] in *.
  - rewrite <- Hof. apply ParseInt_uint; [by intros ->|by rewrite Hof].
  - unfold ParseInt. rewrite parse_digits_uint by (by intros ->). cbn.
    rewrite Hof. by rewrite Hz.
Qed.

Lemma FormatInt_nonempty z : FormatInt z ≠ "".
Proof.
  unfold FormatInt. destruct (Z.to_int z) as [d|d]; cbn; [|done]. by destruct d.
Qed.

Lemma ParseInt_range s z : ParseInt s = Some z → in_int64 z = true.
Proof.
  unfold ParseInt. destruct (match s with EmptyString => _ | _ => _ end); cbn; [|done].
  destruct (in_int64 _) eqn:E; naive_solver.
Qed.
End strconv_lemmas.

#[export] Hint Resolve IsAbs_abs_path IsAbs_app IsAbs_Clean FormatInt_nonempty : golib.
#[export] Hint Rewrite sapp_nil_r length_sapp length_stake length_smap : golib.
