(* ===== verification/Hash.v ===== *)
(** * crypto/sha256, crypto/sha1 and encoding/hex

    The two hash functions of the Go standard library the driver derives names
    from (cache directories, local sockets, sanitised bucket names), written
    out so that the model computes the same names. Words are 32-bit values with
    their wrap-around written out. *)

From S2P Require Import Prelude GoLib.
#[local] Open Scope Z_scope.

Definition w32 (z : Z) : Z := z mod 2 ^ 32.
Definition add32 (a b : Z) : Z := w32 (a + b).
Definition not32 (a : Z) : Z := Z.lxor a (2 ^ 32 - 1).
Definition rotl32 (a n : Z) : Z := Z.lor (w32 (Z.shiftl a n)) (Z.shiftr a (32 - n)).
Definition rotr32 (a n : Z) : Z := rotl32 a (32 - n).
Definition xor3 (a b c : Z) : Z := Z.lxor (Z.lxor a b) c.
Definition ch (x y z : Z) : Z := Z.lxor (Z.land x y) (Z.land (not32 x) z).
Definition maj (x y z : Z) : Z := xor3 (Z.land x y) (Z.land x z) (Z.land y z).

(** ** Padding and blocks (the same for both functions) *)
Definition bytes_of (s : string) : list Z := map code_of (String.list_ascii_of_string s).

Fixpoint be_bytes (n : nat) (z : Z) : list Z :=
  match n with
  | O => []
  | S n => be_bytes n (z / 256) ++ [z mod 256]
  end.

Definition pad (bs : list Z) : list Z :=
  let len := Z.of_nat (length bs) in
  bs ++ [128] ++ replicate (Z.to_nat ((55 - len) mod 64)) 0 ++ be_bytes 8 (8 * len).

Fixpoint words (bs : list Z) : list Z :=
  match bs with
  | a :: b :: c :: d :: bs => (((a * 256 + b) * 256 + c) * 256 + d) :: words bs
  | _ => []
  end.

Fixpoint blocks (n : nat) (ws : list Z) : list (list Z) :=
  match n with
  | O => []
  | S n => match ws with [] => [] | _ => take 16 ws :: blocks n (drop 16 ws) end
  end.
Definition message_blocks (s : string) : list (list Z) :=
  let ws := words (pad (bytes_of s)) in blocks (length ws) ws.

(** ** Hexadecimal output *)
Definition hex_byte (z : Z) : string :=
  String (Strconv.hex_digit (z / 16)) (String (Strconv.hex_digit (z mod 16)) "").
Fixpoint hex_encode (bs : list Z) : string :=
  match bs with
  | [] => ""
  | b :: bs => hex_byte b +:+ hex_encode bs
  end.

(** ** SHA-256 *)

(** The round constants and the initial state are the first 32 bits of the
    fractional parts of the cube and square roots of the first primes. *)
Definition is_prime (n : nat) : bool :=
  (2 <=? n)%nat && forallb (λ d, negb (n mod d =? 0)%nat) (seq 2 (n - 2)).
Definition first_primes (k : nat) : list Z :=
  Z.of_nat <$> take k (filter (λ n, is_prime n = true) (seq 0 320)).

(** The integer cube root of [x], by bisection over [bits] bits. *)
Fixpoint icbrt (bits : nat) (x r : Z) : Z :=
  match bits with
  | O => r
  | S bits =>
      let r' := r + 2 ^ Z.of_nat bits in
      icbrt bits x (if r' * r' * r' <=? x then r' else r)
  end.

Definition sha256_k : list Z := Eval vm_compute in
  (λ p, w32 (icbrt 36 (p * 2 ^ 96) 0)) <$> first_primes 64.

Record hash8 := Hash8 { ha : Z; hb : Z; hc : Z; hd : Z; he : Z; hf : Z; hg : Z; hh : Z }.

Definition sha256_init : hash8 := Eval vm_compute in
  match (λ p, w32 (Z.sqrt (p * 2 ^ 64))) <$> first_primes 8 with
  | [a; b; c; d; e; f; g; h] => Hash8 a b c d e f g h
  | _ => Hash8 0 0 0 0 0 0 0 0
  end.

(** The message schedule, most recent word first. *)
Fixpoint sha256_extend (n : nat) (w : list Z) : list Z :=
  match n with
  | O => w
  | S n =>
      let w2 := nth 1 w 0 in let w15 := nth 14 w 0 in
      let s1 := xor3 (rotr32 w2 17) (rotr32 w2 19) (Z.shiftr w2 10) in
      let s0 := xor3 (rotr32 w15 7) (rotr32 w15 18) (Z.shiftr w15 3) in
      sha256_extend n (w32 (s1 + nth 6 w 0 + s0 + nth 15 w 0) :: w)
  end.

Definition sha256_round (h : hash8) (kw : Z * Z) : hash8 :=
  let '(Hash8 a b c d e f g i) := h in
  let t1 := i + xor3 (rotr32 e 6) (rotr32 e 11) (rotr32 e 25) + ch e f g + kw.1 + kw.2 in
  let t2 := xor3 (rotr32 a 2) (rotr32 a 13) (rotr32 a 22) + maj a b c in
  Hash8 (w32 (t1 + t2)) a b c (add32 d t1) e f g.

Definition sha256_block (h : hash8) (blk : list Z) : hash8 :=
  let w := rev (sha256_extend 48 (rev blk)) in
  let r := foldl sha256_round h (combine sha256_k w) in
  Hash8 (add32 (ha h) (ha r)) (add32 (hb h) (hb r)) (add32 (hc h) (hc r)) (add32 (hd h) (hd r))
        (add32 (he h) (he r)) (add32 (hf h) (hf r)) (add32 (hg h) (hg r)) (add32 (hh h) (hh r)).

Definition sha256_bytes (s : string) : list Z :=
  let h := foldl sha256_block sha256_init (message_blocks s) in
  flat_map (be_bytes 4) [ha h; hb h; hc h; hd h; he h; hf h; hg h; hh h].
Definition sha256_hex (s : string) : string := hex_encode (sha256_bytes s).

(** ** SHA-1 *)
Record hash5 := Hash5 { ga : Z; gb : Z; gc : Z; gd : Z; ge : Z }.

Definition sha1_init : hash5 :=
  Hash5 0x67452301 0xefcdab89 0x98badcfe 0x10325476 0xc3d2e1f0.

Fixpoint sha1_extend (n : nat) (w : list Z) : list Z :=
  match n with
  | O => w
  | S n =>
      let x := Z.lxor (xor3 (nth 2 w 0) (nth 7 w 0) (nth 13 w 0)) (nth 15 w 0) in
      sha1_extend n (rotl32 x 1 :: w)
  end.

Definition sha1_f (t : nat) (b c d : Z) : Z * Z :=
  if (t <? 20)%nat then (ch b c d, 0x5a827999)
  else if (t <? 40)%nat then (xor3 b c d, 0x6ed9eba1)
  else if (t <? 60)%nat then (maj b c d, 0x8f1bbcdc)
  else (xor3 b c d, 0xca62c1d6).

Definition sha1_round (h : hash5) (tw : nat * Z) : hash5 :=
  let '(Hash5 a b c d e) := h in
  let '(f, k) := sha1_f tw.1 b c d in
  Hash5 (w32 (rotl32 a 5 + f + e + k + tw.2)) a (rotl32 b 30) c d.

Definition sha1_block (h : hash5) (blk : list Z) : hash5 :=
  let w := rev (sha1_extend 64 (rev blk)) in
  let r := foldl sha1_round h (combine (seq 0 80) w) in
  Hash5 (add32 (ga h) (ga r)) (add32 (gb h) (gb r)) (add32 (gc h) (gc r))
        (add32 (gd h) (gd r)) (add32 (ge h) (ge r)).

Definition sha1_bytes (s : string) : list Z :=
  let h := foldl sha1_block sha1_init (message_blocks s) in
  flat_map (be_bytes 4) [ga h; gb h; gc h; gd h; ge h].
Definition sha1_hex (s : string) : string := hex_encode (sha1_bytes s).

(** Published test vectors. *)
Example sha256_abc : sha256_hex "abc" =
  "ba7816bf8f01cfea414140de5dae2223b00361a396177a9cb410ff61f20015ad".
Proof. vm_compute. reflexivity. Qed.
Example sha256_two_blocks :
  sha256_hex "abcdbcdecdefdefgefghfghighijhijkijkljklmklmnlmnomnopnopq" =
  "248d6a61d20638b8e5c026930c3e6039a33ce45964ff2167f6ecedd419db06c1".
Proof. vm_compute. reflexivity. Qed.
Example sha1_abc : sha1_hex "abc" = "a9993e364706816aba3e25717850c26c9cd0d89d".
Proof. vm_compute. reflexivity. Qed.
Example sha1_empty : sha1_hex "" = "da39a3ee5e6b4b0d3255bfef95601890afd80709".
Proof. vm_compute. reflexivity. Qed.

(** ** Lengths and alphabet *)
Lemma length_hex_encode bs : String.length (hex_encode bs) = (2 * length bs)%nat.
Proof. induction bs as [|b bs IH]; [done|]. cbn. rewrite IH. lia. Qed.

Lemma length_be_bytes n z : length (be_bytes n z) = n.
Proof. revert z. induction n as [|n IH]; intros z; [done|]. cbn. rewrite length_app, IH. cbn. lia. Qed.

Lemma length_sha256_hex s : String.length (sha256_hex s) = 64%nat.
Proof.
  unfold sha256_hex. rewrite length_hex_encode. unfold sha256_bytes.
  cbn [flat_map]. rewrite !length_app, !length_be_bytes. done.
Qed.

Lemma length_sha1_hex s : String.length (sha1_hex s) = 40%nat.
Proof.
  unfold sha1_hex. rewrite length_hex_encode. unfold sha1_bytes.
  cbn [flat_map]. rewrite !length_app, !length_be_bytes. done.
Qed.

(** No byte of a hexadecimal name is one that [path] treats specially. *)
Lemma hex_digit_no_byte z c :
  (code_of c < 48 ∨ 57 < code_of c)%Z → (code_of c < 97 ∨ 102 < code_of c)%Z →
  0 <= z < 16 → Strconv.hex_digit z ≠ c.
Proof.
  intros H1 H2 Hz <-.
  assert (code_of (Strconv.hex_digit z) = if z <? 10 then 48 + z else 87 + z) as E.
  { assert (Forall (λ n, code_of (Strconv.hex_digit (Z.of_nat n)) =
      if Z.of_nat n <? 10 then 48 + Z.of_nat n else 87 + Z.of_nat n) (seq 0 16)) as HF
      by (vm_compute; repeat constructor).
    rewrite Forall_forall in HF. specialize (HF (Z.to_nat z)).
    rewrite Z2Nat.id in HF by lia. apply HF, elem_of_seq. lia. }
  destruct (Z.ltb_spec z 10); lia.
Qed.

Lemma hex_encode_no_byte c bs :
  (code_of c < 48 ∨ 57 < code_of c)%Z → (code_of c < 97 ∨ 102 < code_of c)%Z →
  Forall (λ b, 0 <= b < 256) bs → no_byte c (hex_encode bs).
Proof.
  intros H1 H2 Hbs. induction Hbs as [|b bs Hb Hbs IH]; [done|].
  cbn [hex_encode]. unfold hex_byte. cbn [String.append]. rewrite !no_byte_cons.
  pose proof (Z.mod_pos_bound b 16). pose proof (Z.div_pos b 16).
  pose proof (Z.div_lt_upper_bound b 16 16).
  repeat split; [| |exact IH]; apply not_eq_sym, hex_digit_no_byte; try done; lia.
Qed.

Lemma be_bytes_range n z : Forall (λ b, 0 <= b < 256) (be_bytes n z).
Proof.
  revert z. induction n as [|n IH]; intros z; [constructor|].
  cbn [be_bytes]. apply Forall_app. split; [apply IH|].
  apply Forall_singleton, Z.mod_pos_bound. lia.
Qed.

Lemma sha256_bytes_range s : Forall (λ b, 0 <= b < 256) (sha256_bytes s).
Proof.
  unfold sha256_bytes. cbn [flat_map]. rewrite !Forall_app.
  split_and!; try apply be_bytes_range. constructor.
Qed.

Lemma sha1_bytes_range s : Forall (λ b, 0 <= b < 256) (sha1_bytes s).
Proof.
  unfold sha1_bytes. cbn [flat_map]. rewrite !Forall_app.
  split_and!; try apply be_bytes_range. constructor.
Qed.

Lemma sha256_hex_no_byte c s :
  (code_of c < 48 ∨ 57 < code_of c)%Z → (code_of c < 97 ∨ 102 < code_of c)%Z →
  no_byte c (sha256_hex s).
Proof. intros H1 H2. by apply hex_encode_no_byte; [..|apply sha256_bytes_range]. Qed.

(** A hashed name is a plain path element. *)
Lemma sha256_hex_elem s : elem_ok (sha256_hex s).
Proof.
  assert (no_byte "." (sha256_hex s)) as Hdot
    by (apply sha256_hex_no_byte; vm_compute; intuition discriminate).
  repeat split.
  - intros H. pose proof (length_sha256_hex s) as Hl. by rewrite H in Hl.
  - intros H. by rewrite H in Hdot.
  - intros H. by rewrite H in Hdot.
  - apply sha256_hex_no_byte; vm_compute; intuition discriminate.
Qed.

#[export] Hint Resolve length_sha256_hex length_sha1_hex sha256_hex_elem : golib.
