(* ===== verification/Params.v ===== *)
(** * Mount parameters: data locality and VolumeAttributesClass validation

    Models [pkg/datalocality/mapping.go], the parameter validation of
    [pkg/driver/controllerserver.go], [CheckDataLocality] of [utils.go] and
    [mergePersistedVolumeAttributes] of [vacstore.go]. A Go
    [map[string]string] is a [gmap]; the order in which [range] visits it is
    unspecified in Go and is a parameter here ([MapRange]). *)

From S2P Require Import Prelude GoLib.
#[local] Open Scope go_scope.

Abbreviation strmap := (gmap string string).

(** The order in which [range] visits a map: any enumeration of it. *)
Class MapRange := {
  range : strmap → list (string * string);
  range_perm m : range m ≡ₚ map_to_list m;
}.

(** The enumeration stdpp computes, used to run the model. *)
Definition range_sorted : MapRange :=
  {| range := map_to_list; range_perm m := reflexivity _ |}.
Definition range_reversed : MapRange :=
  {| range m := reverse (map_to_list m); range_perm m := reverse_Permutation _ |}.

Section map_range.
Context {MR : MapRange}.
Implicit Types m : strmap.

Lemma elem_of_range m k v : (k, v) ∈ range m ↔ m !! k = Some v.
Proof. rewrite range_perm. apply elem_of_map_to_list. Qed.

Lemma NoDup_range_keys m : NoDup (range m).*1.
Proof. rewrite range_perm. apply NoDup_fst_map_to_list. Qed.

Lemma range_to_map m : (list_to_map (range m) : strmap) = m.
Proof.
  transitivity (list_to_map (map_to_list m) : strmap); [|apply list_to_map_to_list].
  apply list_to_map_proper; [apply NoDup_range_keys|apply range_perm].
Qed.

(** [m[key] = value] for the keys that satisfy [p]. *)
Definition insert_where (p : string → bool) m (kv : string * string) : strmap :=
  if p kv.1 then <[kv.1:=kv.2]> m else m.

Lemma insert_where_foldl p l m k :
  NoDup l.*1 →
  foldl (insert_where p) m l !! k =
    match (list_to_map l : strmap) !! k with
    | Some v => if p k then Some v else m !! k
    | None => m !! k
    end.
Proof.
  revert m. induction l as [|[k' v] l IH]; intros m Hnd; cbn in *; [done|].
  apply NoDup_cons in Hnd as [Hk' Hnd]. rewrite IH by done. unfold insert_where. cbn.
  destruct (decide (k' = k)) as [<-|Hne].
  - rewrite lookup_insert_eq, not_elem_of_list_to_map_1 by done.
    destruct (p k'); [by rewrite lookup_insert_eq|done].
  - rewrite lookup_insert_ne by done.
    destruct (p k'); [by rewrite lookup_insert_ne|done].
Qed.

(** The loop [for k, v := range m2 { if p(k) { m1[k] = v } }], in any order. *)
Lemma insert_where_range p m1 m2 k :
  foldl (insert_where p) m1 (range m2) !! k =
    match m2 !! k with
    | Some v => if p k then Some v else m1 !! k
    | None => m1 !! k
    end.
Proof.
  rewrite insert_where_foldl by apply NoDup_range_keys. by rewrite range_to_map.
Qed.
End map_range.

(** Go's [m[k]]: the zero value for an absent key. *)
Definition get (m : strmap) (k : string) : string := default "" (m !! k).

(** ** Data locality *)
Inductive DataLocality := DL_None | Write_preferLocalDc.

#[export] Instance DataLocality_eq_dec : EqDecision DataLocality.
Proof. solve_decision. Defined.

Definition stringDataLocalityMap (s : string) : option DataLocality :=
  if String.eqb s "none" then Some DL_None
  else if String.eqb s "write_preferlocaldc" then Some Write_preferLocalDc
  else None.

Definition FromString (s : string) : option DataLocality :=
  stringDataLocalityMap (Strings.ToLower s).

Definition dataLocality_String (d : DataLocality) : string :=
  match d with DL_None => "none" | Write_preferLocalDc => "write_preferlocaldc" end.

Definition CheckDataLocality (dataLocality : DataLocality) (dataCenter : string) : result unit :=
  guard_err (negb (bool_decide (dataLocality = DL_None)) && String.eqb dataCenter "")
    (Errorf "dataLocality set, but not all locality-definitions were set").

(** ** Mutable parameters *)
Definition mutableMountParameters : list string :=
  ["diskType"; "replication"; "ttl"; "dataCenter"; "dataLocality"; "uidMap";
   "gidMap"; "chunkSizeLimitMB"; "volumeServerAccess"; "readRetryTime";
   "concurrentReaders"; "concurrentWriters"; "cacheCapacityMB";
   "wholeCacheCapacityMB"; "readerCacheSizeMB"; "cacheMetaTtlSec";
   "writebackCache"; "metadataFlushSeconds"; "dlm"].

Definition is_mutable (key : string) : bool := bool_decide (key ∈ mutableMountParameters).

Definition integer_params : list string :=
  ["concurrentReaders"; "concurrentWriters"; "cacheCapacityMB"; "wholeCacheCapacityMB";
   "readerCacheSizeMB"; "cacheMetaTtlSec"; "chunkSizeLimitMB"; "metadataFlushSeconds"].

Definition validateMutableParameterValues (key value : string) : result unit :=
  if String.eqb value "" then Ok tt
  else if String.eqb key "dataLocality" then
    match FromString value with
    | Some _ => Ok tt
    | None => Err (Errorf ("invalid dataLocality " +:+ Strconv.Quote value))
    end
  else if bool_decide (key ∈ integer_params) then
    match Strconv.Atoi value with
    | Some _ => Ok tt
    | None => Err (Errorf (key +:+ " must be an integer, got " +:+ Strconv.Quote value))
    end
  else if bool_decide (key ∈ ["writebackCache"; "dlm"]) then
    match Strconv.ParseBool value with
    | Some _ => Ok tt
    | None => Err (Errorf (key +:+ " must be a boolean, got " +:+ Strconv.Quote value))
    end
  else Ok tt.

Definition validateWritebackDlmCombo (params : strmap) : result unit :=
  let wb := get params "writebackCache" in
  let dlm := get params "dlm" in
  if negb (String.eqb wb "") && negb (String.eqb dlm "") then
    match Strconv.ParseBool wb, Strconv.ParseBool dlm with
    | Some true, Some true => Err (Errorf "writebackCache and dlm are mutually exclusive: weed mount disables the distributed lock manager when writeback caching is enabled")
    | _, _ => Ok tt
    end
  else Ok tt.

Section validation.
Context {MR : MapRange}.

(** The [unknown] and [invalid] slices after the loop over [l]. *)
Fixpoint classifyParameters (l : list (string * string)) : list string * list string :=
  match l with
  | [] => ([], [])
  | (key, value) :: l =>
      let '(unknown, invalid) := classifyParameters l in
      if negb (is_mutable key) then (key :: unknown, invalid)
      else match validateMutableParameterValues key value with
           | Err e => (unknown, err_msg e :: invalid)
           | Ok _ => (unknown, invalid)
           end
  end.

Definition validateMutableParameters (params : strmap) : result unit :=
  let '(unknown, invalid) := classifyParameters (range params) in
  if negb (bool_decide (unknown = [])) then
    Err (Errorf ("parameters are not modifiable on SeaweedFS volumes (structural or unknown): "
           +:+ Strings.Join unknown ", "))
  else if negb (bool_decide (invalid = [])) then
    Err (Errorf ("invalid parameter values: " +:+ Strings.Join invalid "; "))
  else validateWritebackDlmCombo params.

Fixpoint validateConstrained_loop (l : list (string * string)) : result unit :=
  match l with
  | [] => Ok tt
  | (key, value) :: l =>
      if negb (is_mutable key) then validateConstrained_loop l
      else validateMutableParameterValues key value ;;? validateConstrained_loop l
  end.

Definition validateConstrainedParameterValues (params : strmap) : result unit :=
  validateConstrained_loop (range params).

(** [mergePersistedVolumeAttributes]; it updates the map it is given. *)
Definition mergePersistedVolumeAttributes (volContext persisted : strmap) : strmap :=
  foldl (insert_where is_mutable) volContext (range persisted).

(** The effective set [ControllerModifyVolume] validates: the mutable part of
    the PV attributes with the request on top. *)
Definition effectiveParameters (attrs req : strmap) : strmap :=
  foldl (insert_where (λ _, true)) (foldl (insert_where is_mutable) ∅ (range attrs))
    (range req).
End validation.

(** ** What the validation accepts *)
Section validation_lemmas.
Context {MR : MapRange}.
Implicit Types m : strmap.

Definition value_ok (key value : string) : Prop :=
  validateMutableParameterValues key value = Ok tt.

#[export] Instance value_ok_dec key value : Decision (value_ok key value).
Proof. unfold value_ok. apply _. Defined.

Lemma is_mutable_true key : is_mutable key = true ↔ key ∈ mutableMountParameters.
Proof. apply bool_decide_eq_true. Qed.

Lemma classifyParameters_nil l :
  classifyParameters l = ([], []) ↔
  ∀ k v, (k, v) ∈ l → is_mutable k = true ∧ value_ok k v.
Proof.
  induction l as [|[k v] l IH].
  { split; [|done]. intros _ k v H. by apply elem_of_nil in H. }
  cbn [classifyParameters]. destruct (classifyParameters l) as [u i].
  setoid_rewrite elem_of_cons. unfold value_ok in *. split.
  - destruct (is_mutable k) eqn:Hk; cbn; [|done].
    destruct (validateMutableParameterValues k v) as [[]|e] eqn:Hv; [|done].
    intros [= -> ->] k' v' [[= -> ->]|Hin]; [done|]. by apply IH.
  - intros H. destruct (H k v) as [-> ->]; [by left|]. cbn.
    apply IH. intros k' v' Hin. apply H. by right.
Qed.

Lemma validateConstrained_loop_Ok l :
  validateConstrained_loop l = Ok tt ↔
  ∀ k v, (k, v) ∈ l → is_mutable k = true → value_ok k v.
Proof.
  induction l as [|[k v] l IH].
  { split; [|done]. intros _ k v H. by apply elem_of_nil in H. }
  cbn [validateConstrained_loop]. setoid_rewrite elem_of_cons. unfold value_ok in *.
  destruct (is_mutable k) eqn:Hk; cbn.
  - rewrite rbind_Ok. split.
    + intros ([] & Hv & Hl) k' v' [[= -> ->]|Hin] Hm; [done|]. by eapply IH.
    + intros H. exists tt. split; [by apply H; [left|]|]. apply IH. eauto.
  - rewrite IH. split.
    + intros H k' v' [[= -> ->]|Hin] Hm; [congruence|]. by apply H.
    + intros H k' v' Hin Hm. apply H; [by right|done].
Qed.

(** The validation at stage time looks only at the mutable keys. *)
Lemma validateConstrained_Ok m :
  validateConstrainedParameterValues m = Ok tt ↔
  ∀ k v, m !! k = Some v → is_mutable k = true → value_ok k v.
Proof.
  unfold validateConstrainedParameterValues. rewrite validateConstrained_loop_Ok.
  by setoid_rewrite elem_of_range.
Qed.

Lemma validateMutableParameters_inv m :
  validateMutableParameters m = Ok tt ↔
  (∀ k v, m !! k = Some v → is_mutable k = true ∧ value_ok k v) ∧
  validateWritebackDlmCombo m = Ok tt.
Proof.
  unfold validateMutableParameters.
  setoid_rewrite <- elem_of_range. rewrite <- classifyParameters_nil.
  destruct (classifyParameters (range m)) as [u i].
  destruct u; cbn; [|naive_solver]. destruct i; cbn; naive_solver.
Qed.

(** Merging keeps every structural key of the volume context and takes the
    persisted value of every mutable key that has one. *)
Lemma merge_lookup m p k :
  mergePersistedVolumeAttributes m p !! k =
    match p !! k with
    | Some v => if is_mutable k then Some v else m !! k
    | None => m !! k
    end.
Proof. apply insert_where_range. Qed.

Lemma combo_ext m1 m2 :
  m1 !! "writebackCache" = m2 !! "writebackCache" → m1 !! "dlm" = m2 !! "dlm" →
  validateWritebackDlmCombo m1 = validateWritebackDlmCombo m2.
Proof. unfold validateWritebackDlmCombo, get. by intros -> ->. Qed.

Lemma effectiveParameters_lookup attrs req k :
  is_mutable k = true →
  effectiveParameters attrs req !! k =
    match req !! k with Some v => Some v | None => attrs !! k end.
Proof.
  intros Hk. unfold effectiveParameters. rewrite !insert_where_range, Hk.
  destruct (req !! k); [done|]. by destruct (attrs !! k).
Qed.

(** What the controller accepted for a PV passes the node's own validation
    of the merged context. *)
Lemma accepted_merge_valid attrs req :
  (∀ k v, req !! k = Some v → is_mutable k = true) →
  validateConstrainedParameterValues (effectiveParameters attrs req) = Ok tt →
  validateWritebackDlmCombo (effectiveParameters attrs req) = Ok tt →
  validateConstrainedParameterValues (mergePersistedVolumeAttributes attrs req) = Ok tt ∧
  validateWritebackDlmCombo (mergePersistedVolumeAttributes attrs req) = Ok tt.
Proof.
  intros Hreq Hc Hw.
  assert (∀ k, is_mutable k = true →
    mergePersistedVolumeAttributes attrs req !! k = effectiveParameters attrs req !! k) as Heq.
  { intros k Hk. rewrite merge_lookup, effectiveParameters_lookup by done. by rewrite Hk. }
  split.
  - rewrite validateConstrained_Ok in Hc |- *. intros k v Hv Hk.
    rewrite Heq in Hv by done. by apply Hc.
  - rewrite <- Hw. apply combo_ext; by apply Heq.
Qed.
End validation_lemmas.

#[export] Hint Rewrite @merge_lookup : golib.
