(* ===== verification/Json.v ===== *)
(** * Package encoding/json

    The part of Go's [encoding/json] that the driver calls: [Marshal] and
    [Unmarshal] of documents of objects, arrays and strings. Strings are byte
    strings; [Marshal] escapes them as Go does, HTML characters included, and
    bytes that are not UTF-8 are lost. *)

From stdpp Require Import sorting.
From S2P Require Import Prelude GoLib.
#[local] Open Scope go_scope.
#[local] Set Warnings "-register-all".

(** ** UTF-8 *)
Module Utf8.
Definition within (lo hi : Z) (c : ascii) : bool :=
  (lo <=? code_of c)%Z && (code_of c <=? hi)%Z.
Definition cont : ascii → bool := within 128 191.

(** The second byte that may follow a lead byte of three or four. *)
Definition second_ok (a b : ascii) : bool :=
  let z := code_of a in
  if (z =? 224)%Z then within 160 191 b
  else if (z =? 237)%Z then within 128 159 b
  else if (z =? 240)%Z then within 144 191 b
  else if (z =? 244)%Z then within 128 143 b
  else cont b.

(** The number of bytes of the rune that begins with a byte over 127; zero
    where there is none. *)
Definition width (s : string) : nat :=
  match s with
  | String a s =>
      if within 194 223 a then
        match s with String b _ => if cont b then 2 else 0 | _ => 0 end
      else if within 224 239 a then
        match s with
        | String b (String c _) => if second_ok a b && cont c then 3 else 0
        | _ => 0
        end
      else if within 240 244 a then
        match s with
        | String b (String c (String d _)) =>
            if second_ok a b && cont c && cont d then 4 else 0
        | _ => 0
        end
      else 0
  | _ => 0
  end.

Definition is_ascii (c : ascii) : bool := (code_of c <? 128)%Z.

(** A string cut into runes; a byte that begins no rune is a piece of its own. *)
Fixpoint runes (s : string) : list string :=
  match s with
  | EmptyString => []
  | String a s1 =>
      if is_ascii a then String a "" :: runes s1
      else match width s, s1 with
           | 2, String b s2 => String a (String b "") :: runes s2
           | 3, String b (String c s3) => String a (String b (String c "")) :: runes s3
           | 4, String b (String c (String d s4)) =>
               String a (String b (String c (String d ""))) :: runes s4
           | _, _ => String a "" :: runes s1
           end
  end.

Definition rune_ok (r : string) : bool :=
  match r with
  | String a "" => is_ascii a
  | String a _ => negb (is_ascii a) && (width r =? String.length r)
  | _ => false
  end.
Definition valid (s : string) : bool := forallb rune_ok (runes s).

(** The encoding of a code point outside the surrogates. *)
Definition EncodeRune (r : Z) : string :=
  let b k := of_code (128 + (r / 64 ^ k) mod 64) in
  if (r <? 128)%Z then String (of_code r) ""
  else if (r <? 2048)%Z then String (of_code (192 + r / 64)) (String (b 0%Z) "")
  else if (r <? 65536)%Z then
    String (of_code (224 + r / 64 ^ 2)) (String (b 1%Z) (String (b 0%Z) ""))
  else String (of_code (240 + r / 64 ^ 3))
         (String (b 2%Z) (String (b 1%Z) (String (b 0%Z) ""))).
Definition RuneError : Z := 65533.
End Utf8.

(** ** Strings *)
Import Utf8.

Definition bslash : ascii := of_code 92.
Definition esc (c : ascii) : string := String bslash (String c "").

(** [\u00XX]. *)
Definition u00 (a : ascii) : string :=
  "\u00" +:+ String (Strconv.hex_digit (code_of a / 16))
               (String (Strconv.hex_digit (code_of a mod 16)) "").

(** One piece of [runes] in a JSON string, with HTML escaping. *)
Definition quote_rune (r : string) : string :=
  match r with
  | String a "" =>
      let z := code_of a in
      if negb (is_ascii a) then "\ufffd"
      else if (z =? 34)%Z || (z =? 92)%Z then esc a
      else if (z =? 8)%Z then esc "b" else if (z =? 12)%Z then esc "f"
      else if (z =? 10)%Z then esc "n" else if (z =? 13)%Z then esc "r"
      else if (z =? 9)%Z then esc "t"
      else if (z <? 32)%Z || (z =? 60)%Z || (z =? 62)%Z || (z =? 38)%Z then u00 a
      else r
  | _ =>
      if String.eqb r (EncodeRune 8232) then "\u2028"
      else if String.eqb r (EncodeRune 8233) then "\u2029"
      else r
  end.

Definition sconcat (l : list string) : string := foldr String.append "" l.
Definition quote_body (s : string) : string := sconcat (map quote_rune (runes s)).
Definition quote (s : string) : string :=
  String Strconv.dquote (quote_body s +:+ String Strconv.dquote "").

Definition hex_val (c : ascii) : option Z :=
  let z := code_of c in
  if within 48 57 c then Some (z - 48)%Z
  else if within 97 102 c then Some (z - 87)%Z
  else if within 65 70 c then Some (z - 55)%Z
  else None.
Definition hex4 (a b c d : ascii) : option Z :=
  w ← hex_val a; x ← hex_val b; y ← hex_val c; z ← hex_val d;
  Some (((w * 16 + x) * 16 + y) * 16 + z)%Z.

(** The byte an escape other than [\u] stands for. *)
Definition simple_escape (c : ascii) : option ascii :=
  let z := code_of c in
  if (z =? 34)%Z || (z =? 92)%Z || (z =? 47)%Z then Some c
  else if (z =? 98)%Z then Some (of_code 8) else if (z =? 102)%Z then Some (of_code 12)
  else if (z =? 110)%Z then Some (of_code 10) else if (z =? 114)%Z then Some (of_code 13)
  else if (z =? 116)%Z then Some (of_code 9) else None.

Definition is_surrogate (r : Z) : bool := (55296 <=? r)%Z && (r <? 57344)%Z.
(** [utf16.DecodeRune]. *)
Definition utf16_pair (r1 r2 : Z) : option Z :=
  if (55296 <=? r1)%Z && (r1 <? 56320)%Z && (56320 <=? r2)%Z && (r2 <? 57344)%Z
  then Some ((r1 - 55296) * 1024 + (r2 - 56320) + 65536)%Z else None.

Definition prepend (a : string) (r : option (string * string)) : option (string * string) :=
  '(b, t) ← r; Some (a +:+ b, t).

(** The content of a string after its opening quote, and what follows its
    closing one. *)
Fixpoint unquote (s : string) : option (string * string) :=
  match s with
  | EmptyString => None
  | String a s1 =>
      if (code_of a =? 34)%Z then Some ("", s1)
      else if (code_of a =? 92)%Z then
        match s1 with
        | String e s2 =>
            match simple_escape e with
            | Some c => prepend (String c "") (unquote s2)
            | None =>
                if negb (chr_eqb e "u") then None
                else match s2 with
                | String h1 (String h2 (String h3 (String h4 s3))) =>
                    match hex4 h1 h2 h3 h4 with
                    | None => None
                    | Some r =>
                        if negb (is_surrogate r) then prepend (EncodeRune r) (unquote s3)
                        else match s3 with
                        | String b (String u (String g1 (String g2 (String g3 (String g4 s4))))) =>
                            match (if chr_eqb b bslash && chr_eqb u "u"
                                   then r2 ← hex4 g1 g2 g3 g4; utf16_pair r r2 else None) with
                            | Some full => prepend (EncodeRune full) (unquote s4)
                            | None => prepend (EncodeRune RuneError) (unquote s3)
                            end
                        | _ => prepend (EncodeRune RuneError) (unquote s3)
                        end
                    end
                | _ => None
                end
            end
        | _ => None
        end
      else if (code_of a <? 32)%Z then None
      else if is_ascii a then prepend (String a "") (unquote s1)
      else match width s, s1 with
           | 2, String b s2 => prepend (String a (String b "")) (unquote s2)
           | 3, String b (String c s3) => prepend (String a (String b (String c ""))) (unquote s3)
           | 4, String b (String c (String d s4)) =>
               prepend (String a (String b (String c (String d "")))) (unquote s4)
           | _, _ => prepend (EncodeRune RuneError) (unquote s1)
           end
  end.

(** ** Documents *)
Inductive value :=
  | Null
  | Bool (b : bool)
  | Num (literal : string)
  | Str (s : string)
  | Arr (l : list value)
  | Obj (l : list (string * value)).

(** [json.Marshal], the members of an object being in order already. *)
Fixpoint print (v : value) : string :=
  match v with
  | Null => "null"
  | Bool b => if b then "true" else "false"
  | Num literal => literal
  | Str s => quote s
  | Arr l => "[" +:+ Strings.Join (map print l) "," +:+ "]"
  | Obj l =>
      "{" +:+ Strings.Join (map (λ kv : string * value, quote kv.1 +:+ ":" +:+ print kv.2) l) ","
      +:+ "}"
  end.

(** [json.MarshalIndent]: what stands after a bracket and between members at each level,
    and after a colon. *)
Fixpoint render (nl : nat → string) (sp : string) (n : nat) (v : value) : string :=
  match v with
  | Arr ((_ :: _) as l) =>
      "[" +:+ nl (S n) +:+ Strings.Join (map (render nl sp (S n)) l) ("," +:+ nl (S n)) +:+ nl n +:+ "]"
  | Obj ((_ :: _) as l) =>
      "{" +:+ nl (S n) +:+
      Strings.Join (map (λ kv : string * value, quote kv.1 +:+ ":" +:+ sp +:+ render nl sp (S n) kv.2) l)
        ("," +:+ nl (S n)) +:+ nl n +:+ "}"
  | _ => print v
  end.

Definition newline (prefix indent : string) (n : nat) : string :=
  String "010" (prefix +:+ sconcat (repeat indent n)).
Definition MarshalIndent (prefix indent : string) (v : value) : string :=
  render (newline prefix indent) " " 0 v.

Definition is_ws (c : ascii) : bool :=
  let z := code_of c in (z =? 32)%Z || (z =? 9)%Z || (z =? 13)%Z || (z =? 10)%Z.
Fixpoint skip_ws (s : string) : string :=
  match s with
  | String c s' => if is_ws c then skip_ws s' else s
  | EmptyString => ""
  end.

(** *** Numbers: kept as their literal *)
Definition is_digit : ascii → bool := within 48 57.
Fixpoint span_digits (s : string) : string * string :=
  match s with
  | String c s' =>
      if is_digit c then let '(a, r) := span_digits s' in (String c a, r) else ("", s)
  | EmptyString => ("", "")
  end.
(** At least one digit. *)
Definition digits1 (s : string) : option (string * string) :=
  let '(a, r) := span_digits s in if String.eqb a "" then None else Some (a, r).
Definition int_part (s : string) : option (string * string) :=
  match s with
  | String c r => if chr_eqb c "0" then Some ("0", r) else digits1 s
  | EmptyString => None
  end.
Definition frac_part (s : string) : option (string * string) :=
  match s with
  | String c r =>
      if chr_eqb c "." then '(a, r) ← digits1 r; Some (String "." a, r) else Some ("", s)
  | EmptyString => Some ("", "")
  end.
(** One of the bytes [cs], if there is one. *)
Definition sign_part (cs s : string) : string * string :=
  match s with
  | String c r => if Strings.ContainsByte cs c then (String c "", r) else ("", s)
  | EmptyString => ("", "")
  end.
Definition exp_part (s : string) : option (string * string) :=
  match s with
  | String e r =>
      if chr_eqb e "e" || chr_eqb e "E" then
        let '(sg, r) := sign_part "+-" r in
        '(a, r) ← digits1 r; Some (String e (sg +:+ a), r)
      else Some ("", s)
  | EmptyString => Some ("", "")
  end.
Definition number (s : string) : option (string * string) :=
  let '(sg, r) := sign_part "-" s in
  '(i, r) ← int_part r; '(f, r) ← frac_part r; '(e, r) ← exp_part r;
  Some (sg +:+ i +:+ f +:+ e, r).

(** *** Values

    [depth] is how many more objects and arrays may be opened; [fuel] bounds
    the recursion, and twice the length of the text is enough. *)
Definition maxNestingDepth : Z := 10000.

Definition literal (s : string) : option (value * string) :=
  if String.prefix "null" s then Some (Null, Strings.sdrop 4 s)
  else if String.prefix "true" s then Some (Bool true, Strings.sdrop 4 s)
  else if String.prefix "false" s then Some (Bool false, Strings.sdrop 5 s)
  else '(n, r) ← number s; Some (Num n, r).

(** The first byte that is not white space, and what follows it. *)
Definition next (s : string) : option (ascii * string) :=
  match skip_ws s with String c r => Some (c, r) | EmptyString => None end.

Fixpoint parse_value (fuel : nat) (depth : Z) (s : string) : option (value * string) :=
  match fuel with
  | O => None
  | S fuel =>
      '(c, s1) ← next s;
      if (code_of c =? 34)%Z then '(x, r) ← unquote s1; Some (Str x, r)
      else if chr_eqb c "[" then
        if (depth <=? 0)%Z then None
        else
          '(c1, r) ← next s1;
          if chr_eqb c1 "]" then Some (Arr [], r)
          else '(l, r) ← parse_elems fuel (depth - 1) s1; Some (Arr l, r)
      else if chr_eqb c "{" then
        if (depth <=? 0)%Z then None
        else
          '(c1, r) ← next s1;
          if chr_eqb c1 "}" then Some (Obj [], r)
          else '(l, r) ← parse_members fuel (depth - 1) s1; Some (Obj l, r)
      else literal (skip_ws s)
  end
with parse_elems (fuel : nat) (depth : Z) (s : string) : option (list value * string) :=
  match fuel with
  | O => None
  | S fuel =>
      '(v, r) ← parse_value fuel depth s;
      '(c, r) ← next r;
      if chr_eqb c "," then '(l, r) ← parse_elems fuel depth r; Some (v :: l, r)
      else if chr_eqb c "]" then Some ([v], r)
      else None
  end
with parse_members (fuel : nat) (depth : Z) (s : string) : option (list (string * value) * string) :=
  match fuel with
  | O => None
  | S fuel =>
      '(q, s) ← next s;
      if negb (code_of q =? 34)%Z then None
      else
        '(k, r) ← unquote s;
        '(c, r) ← next r;
        if negb (chr_eqb c ":") then None
        else
          '(v, r) ← parse_value fuel depth r;
          '(c, r) ← next r;
          if chr_eqb c "," then '(l, r) ← parse_members fuel depth r; Some ((k, v) :: l, r)
          else if chr_eqb c "}" then Some ([(k, v)], r)
          else None
  end.

Definition enough (s : string) : nat := 2 * String.length s + 2.
Definition parse (s : string) : option value :=
  '(v, r) ← parse_value (enough s) maxNestingDepth s;
  if String.eqb (skip_ws r) "" then Some v else None.

(** ** Lemmas *)

(** *** Strings round-trip *)
Section strings.

Lemma prepend_prepend a b r : prepend a (prepend b r) = prepend (a +:+ b) r.
Proof. destruct r as [[x t]|]; [|done]. unfold prepend. cbn. by rewrite sapp_assoc. Qed.

Lemma not_ascii_code a : is_ascii a = false → (128 <= code_of a)%Z.
Proof. unfold is_ascii. lia. Qed.

(** The width of a rune is not changed by what follows it. *)
Lemma width_app r t : width r ≠ 0 → width (r +:+ t) = width r.
Proof.
  destruct r as [|a r1]; [done|]. cbn [String.append].
  destruct r1 as [|b r2]; [cbn; by repeat case_match|].
  destruct r2 as [|c r3]; [cbn; repeat case_match; try done; congruence|].
  destruct r3 as [|d r4]; cbn; repeat case_match; try done; congruence.
Qed.

Lemma unquote_ascii a t :
  is_ascii a = true → unquote (quote_rune (String a "") +:+ t) = prepend (String a "") (unquote t).
Proof. destruct a as [[] [] [] [] [] [] [] []]; intros H; first [discriminate H | reflexivity]. Qed.

Lemma unquote_wide r t :
  rune_ok r = true → (2 <= String.length r)%nat → unquote (r +:+ t) = prepend r (unquote t).
Proof.
  destruct r as [|a [|b r]]; [done|cbn; lia|]. intros Hok _. cbn [rune_ok] in Hok.
  apply andb_true_iff in Hok as [Ha%negb_true_iff Hw%Nat.eqb_eq].
  pose proof (not_ascii_code a Ha) as Hc.
  assert (width (String a (String b r) +:+ t) = width (String a (String b r))) as Happ
    by (apply width_app; rewrite Hw; done).
  cbn [String.append] in *. cbn [unquote].
  assert ((code_of a =? 34)%Z = false) as -> by lia.
  assert ((code_of a =? 92)%Z = false) as -> by lia.
  assert ((code_of a <? 32)%Z = false) as -> by lia.
  rewrite Ha, Happ, Hw. destruct r as [|c [|d [|e r]]]; [done..|].
  cbn in Hw. repeat case_match; discriminate.
Qed.

Lemma unquote_rune r t : rune_ok r = true → unquote (quote_rune r +:+ t) = prepend r (unquote t).
Proof.
  destruct r as [|a [|b r']] eqn:Er; [done|apply unquote_ascii|]. rewrite <- Er. intros Hok.
  assert (quote_rune r = if String.eqb r (EncodeRune 8232) then "\u2028"
      else if String.eqb r (EncodeRune 8233) then "\u2029" else r) as -> by (by subst r).
  destruct (String.eqb_spec r (EncodeRune 8232)) as [->|_]; [reflexivity|].
  destruct (String.eqb_spec r (EncodeRune 8233)) as [->|_]; [reflexivity|].
  apply unquote_wide; [done|]. subst r. cbn. lia.
Qed.

Lemma concat_runes s : sconcat (runes s) = s.
Proof.
  revert s. fix IH 1. intros [|a s1]; [done|]. cbn [runes].
  pose proof (IH s1) as IH1. destruct (is_ascii a); [by cbn; f_equal|].
  assert (sconcat (String a "" :: runes s1) = String a s1) as H1 by (by cbn; f_equal).
  destruct (width (String a s1)) as [|[|[|[|[|n]]]]]; try exact H1.
  - destruct s1 as [|b s2]; [exact H1|]. cbn. do 2 f_equal. apply IH.
  - destruct s1 as [|b [|c s3]]; try exact H1. cbn. do 3 f_equal. apply IH.
  - destruct s1 as [|b [|c [|d s4]]]; try exact H1. cbn. do 4 f_equal. apply IH.
Qed.

Lemma unquote_runes rs t :
  forallb rune_ok rs = true →
  unquote (sconcat (map quote_rune rs) +:+ t) = prepend (sconcat rs) (unquote t).
Proof.
  induction rs as [|r rs IH]; cbn [forallb map].
  { intros _. cbn. by destruct (unquote t) as [[? ?]|]. }
  change (sconcat (?x :: ?l)) with (x +:+ sconcat l).
  intros [Hr Hrs]%andb_true_iff. rewrite <- sapp_assoc, unquote_rune by done.
  by rewrite IH, prepend_prepend.
Qed.

(** A UTF-8 string comes back from its quotes. *)
Lemma unquote_quote s t :
  valid s = true → unquote (quote_body s +:+ String Strconv.dquote t) = Some (s, t).
Proof.
  intros Hs. unfold quote_body. rewrite unquote_runes by done. rewrite concat_runes.
  change (unquote (String Strconv.dquote t)) with (Some ("", t)). unfold prepend. cbn [mbind option_bind].
  by rewrite sapp_nil_r.
Qed.

Lemma prepend_Some a o b t : prepend a o = Some (b, t) → ∃ c, o = Some (c, t).
Proof. destruct o as [[c t']|]; [|done]. cbn. intros [= _ <-]. eauto. Qed.

Lemma unquote_shorter s a t :
  unquote s = Some (a, t) → (String.length t < String.length s)%nat.
Proof.
  revert s a t. fix IH 1. intros [|c s1] a t; [done|].
  assert (∀ u b, prepend u (unquote s1) = Some (b, t) → String.length t < String.length (String c s1)) as H1.
  { intros u b (? & H)%prepend_Some. apply IH in H. cbn. lia. }
  cbn [unquote]. destruct (code_of c =? 34)%Z; [intros [= _ <-]; cbn; lia|].
  destruct (code_of c =? 92)%Z.
  - destruct s1 as [|e s2]; [done|]. destruct (simple_escape e).
    { intros (? & H)%prepend_Some. apply IH in H. cbn. lia. }
    destruct (negb _); [done|]. destruct s2 as [|h1 [|h2 [|h3 [|h4 s3]]]]; try done.
    destruct (hex4 h1 h2 h3 h4) as [r|]; [|done].
    assert (∀ u b, prepend u (unquote s3) = Some (b, t) →
      String.length t < String.length (String c (String e (String h1 (String h2 (String h3 (String h4 s3))))))) as H3.
    { intros u b (? & H)%prepend_Some. apply IH in H. cbn. lia. }
    destruct (negb _); [apply H3|].
    destruct s3 as [|b1 [|u [|g1 [|g2 [|g3 [|g4 s4]]]]]]; try (apply H3).
    destruct (if chr_eqb b1 bslash && chr_eqb u "u" then _ else _); [|apply H3].
    intros (? & H)%prepend_Some. apply IH in H. cbn. lia.
  - destruct (code_of c <? 32)%Z; [done|]. destruct (is_ascii c); [apply H1|].
    destruct (width (String c s1)) as [|[|[|[|[|n]]]]]; try (apply H1).
    + destruct s1 as [|b s2]; [apply H1|]. intros (? & H)%prepend_Some. apply IH in H. cbn. lia.
    + destruct s1 as [|b [|d s3]]; try (apply H1).
      intros (? & H)%prepend_Some. apply IH in H. cbn. lia.
    + destruct s1 as [|b [|d [|e s4]]]; try (apply H1).
      intros (? & H)%prepend_Some. apply IH in H. cbn. lia.
Qed.
End strings.

(** *** The parser consumes its input, and its fuel is enough *)
Section fuel.
Implicit Types s r : string.
#[local] Abbreviation len := String.length.

Lemma skip_ws_length s : (len (skip_ws s) <= len s)%nat.
Proof. induction s as [|c s IH]; cbn; [done|]. destruct (is_ws c); cbn; lia. Qed.

Lemma next_shorter s c r : next s = Some (c, r) → (len r < len s)%nat.
Proof.
  unfold next. pose proof (skip_ws_length s) as H. destruct (skip_ws s); [done|].
  intros [= _ <-]. cbn in H. lia.
Qed.

Lemma span_digits_length s : (len (span_digits s).1 + len (span_digits s).2 = len s)%nat.
Proof.
  induction s as [|c s IH]; cbn; [done|]. destruct (is_digit c); [|done].
  destruct (span_digits s) as [a r]. cbn in *. lia.
Qed.

Lemma digits1_shorter s a r : digits1 s = Some (a, r) → (len r < len s)%nat.
Proof.
  unfold digits1. pose proof (span_digits_length s) as H. destruct (span_digits s) as [[|c b] r'].
  - done.
  - cbn in *. intros [= _ ->]. lia.
Qed.

Lemma sign_part_length cs s : (len (sign_part cs s).2 <= len s)%nat.
Proof. destruct s as [|c s]; [done|]. cbn. destruct (Strings.ContainsByte _ _); cbn; lia. Qed.

(** Take a chain of parsers in a hypothesis apart. *)
Ltac inv_parse :=
  repeat match goal with
  | H : (match ?o with Some _ => _ | None => None end) = Some _ |- _ =>
      let p := fresh "p" in let E := fresh "E" in
      destruct o as [p|] eqn:E; [destruct p; cbv beta iota in H|discriminate H]
  | H : mbind _ _ = Some _ |- _ => unfold mbind, option_bind in H; cbv beta iota in H
  | H : (if ?b then _ else _) = Some _ |- _ => destruct b eqn:?
  | H : Some _ = Some _ |- _ => injection H as ??; subst
  | H : None = Some _ |- _ => discriminate H
  end.

Lemma int_part_shorter s a r : int_part s = Some (a, r) → (len r < len s)%nat.
Proof.
  destruct s as [|c s]; [done|]. cbn [int_part]. intros H.
  inv_parse; [cbn; lia|by apply digits1_shorter in H].
Qed.

Lemma frac_part_length s a r : frac_part s = Some (a, r) → (len r <= len s)%nat.
Proof.
  destruct s as [|c s]; [by intros [= _ <-]|]. cbn [frac_part]. intros H. inv_parse; [|done].
  apply digits1_shorter in E. cbn. lia.
Qed.

Lemma exp_part_length s a r : exp_part s = Some (a, r) → (len r <= len s)%nat.
Proof.
  destruct s as [|c s]; [by intros [= _ <-]|]. cbn [exp_part].
  destruct (_ || _); [|by intros [= _ <-]].
  pose proof (sign_part_length "+-" s). destruct (sign_part "+-" s). intros H1. inv_parse.
  apply digits1_shorter in E. cbn in *. lia.
Qed.

Lemma number_shorter s a r : number s = Some (a, r) → (len r < len s)%nat.
Proof.
  unfold number. pose proof (sign_part_length "-" s) as Hs.
  destruct (sign_part "-" s) as [sg s1]. cbn in Hs. intros H. inv_parse.
  apply int_part_shorter in E. apply frac_part_length in E0. apply exp_part_length in E1. lia.
Qed.

Lemma sdrop_shorter p s n : String.prefix p s = true → len p = S n → (len (Strings.sdrop (S n) s) < len s)%nat.
Proof.
  intros H Hn. apply prefix_inv in H. rewrite Hn in H.
  apply (f_equal len) in H. rewrite length_sapp in H. lia.
Qed.

Lemma literal_shorter s v r : literal s = Some (v, r) → (len r < len s)%nat.
Proof.
  unfold literal. intros H. inv_parse; first [by eapply number_shorter | by apply (sdrop_shorter "null" s 3)
    | by apply (sdrop_shorter "true" s 3) | by apply (sdrop_shorter "false" s 4)].
Qed.

(** Each parser leaves less than it was given. *)
Lemma parse_shorter f :
  (∀ d s v r, parse_value f d s = Some (v, r) → len r < len s)%nat ∧
  (∀ d s v r, parse_elems f d s = Some (v, r) → len r < len s)%nat ∧
  (∀ d s v r, parse_members f d s = Some (v, r) → len r < len s)%nat.
Proof.
  induction f as [|f (IHv & IHe & IHm)]; [by repeat split|].
  split_and!; intros d s v r H; cbn [parse_value parse_elems parse_members] in H; inv_parse;
    repeat match goal with
    | H : next _ = Some _ |- _ => apply next_shorter in H
    | H : unquote _ = Some _ |- _ => apply unquote_shorter in H
    | H : parse_value _ _ _ = Some _ |- _ => apply IHv in H
    | H : parse_elems _ _ _ = Some _ |- _ => apply IHe in H
    | H : parse_members _ _ _ = Some _ |- _ => apply IHm in H
    | H : literal _ = Some _ |- _ => apply literal_shorter in H
    end; try lia.
  pose proof (skip_ws_length s). lia.
Qed.

(** More fuel than enough changes nothing. *)
Lemma parse_fuel f :
  (∀ f' d s, 2 * len s + 1 ≤ f → 2 * len s + 1 ≤ f' → parse_value f d s = parse_value f' d s) ∧
  (∀ f' d s, 2 * len s + 2 ≤ f → 2 * len s + 2 ≤ f' → parse_elems f d s = parse_elems f' d s) ∧
  (∀ f' d s, 2 * len s + 2 ≤ f → 2 * len s + 2 ≤ f' → parse_members f d s = parse_members f' d s).
Proof.
  induction f as [|f (IHv & IHe & IHm)]; [split_and!; intros; lia|].
  split_and!; intros [|f'] d s H1 H2; try lia; cbn [parse_value parse_elems parse_members].
  - destruct (next s) as [[c s1]|] eqn:Hn; [|done]. apply next_shorter in Hn. cbn.
    by rewrite (IHe f'), (IHm f') by lia.
  - rewrite (IHv f') by lia. destruct (parse_value f' d s) as [[v r]|] eqn:Hv; [|done].
    apply parse_shorter in Hv. cbn. destruct (next r) as [[c r1]|] eqn:Hn; [|done].
    apply next_shorter in Hn. cbn. by rewrite (IHe f') by lia.
  - destruct (next s) as [[q s1]|] eqn:Hn; [|done]. apply next_shorter in Hn. cbn.
    destruct (unquote s1) as [[k r]|] eqn:Hu; [|done]. apply unquote_shorter in Hu. cbn.
    destruct (next r) as [[c r1]|] eqn:Hn1; [|done]. apply next_shorter in Hn1. cbn.
    rewrite (IHv f') by lia. destruct (parse_value f' d r1) as [[v r2]|] eqn:Hv; [|done].
    apply parse_shorter in Hv. cbn. destruct (next r2) as [[c' r3]|] eqn:Hn2; [|done].
    apply next_shorter in Hn2. cbn. by rewrite (IHm f') by lia.
Qed.
End fuel.

(** *** A document comes back from its text *)
Section value_ind.
Context (P : value → Prop).
Context (HNull : P Null) (HBool : ∀ b, P (Bool b)) (HNum : ∀ n, P (Num n)) (HStr : ∀ s, P (Str s)).
Context (HArr : ∀ l, Forall P l → P (Arr l)).
Context (HObj : ∀ l : list (string * value), Forall (λ kv, P kv.2) l → P (Obj l)).

Fixpoint value_nested_ind (v : value) : P v :=
  match v with
  | Null => HNull
  | Bool b => HBool b
  | Num n => HNum n
  | Str s => HStr s
  | Arr l => HArr l ((fix go l : Forall P l :=
      match l with
      | [] => Forall_nil_2 _
      | v :: l => Forall_cons_2 _ _ _ (value_nested_ind v) (go l)
      end) l)
  | Obj l => HObj l ((fix go l : Forall (λ kv : string * value, P kv.2) l :=
      match l with
      | [] => Forall_nil_2 _
      | kv :: l => Forall_cons_2 _ _ _ (value_nested_ind kv.2) (go l)
      end) l)
  end.
End value_ind.

(** The documents the driver writes: no numbers, and UTF-8 strings. *)
Fixpoint plain (v : value) : bool :=
  match v with
  | Null | Bool _ => true
  | Num _ => false
  | Str s => valid s
  | Arr l => forallb plain l
  | Obj l => forallb (λ kv : string * value, valid kv.1 && plain kv.2) l
  end.

Fixpoint depth_of (v : value) : Z :=
  match v with
  | Arr l => (1 + foldr (λ v n, Z.max (depth_of v) n) 0 l)%Z
  | Obj l => (1 + foldr (λ (kv : string * value) n, Z.max (depth_of kv.2) n) 0 l)%Z
  | _ => 0%Z
  end.

Section roundtrip.

Lemma depth_nonneg v : (0 <= depth_of v)%Z.
Proof.
  induction v as [| | | |l IH|l IH] using value_nested_ind; cbn [depth_of]; try lia.
  - induction IH; cbn; lia.
  - induction IH; cbn; lia.
Qed.

(** What a parser does with enough fuel. *)
Definition eventually {A} (p : nat → option A) (x : A) : Prop :=
  ∃ f0, ∀ f, f0 ≤ f → p f = Some x.

(** *** White space *)

Lemma skip_ws_app w s : skip_ws w = "" → skip_ws (w +:+ s) = skip_ws s.
Proof. induction w as [|c w IH]; cbn; [done|]. destruct (is_ws c); [apply IH|done]. Qed.

Lemma next_ws w s : skip_ws w = "" → next (w +:+ s) = next s.
Proof. unfold next. intros H. by rewrite skip_ws_app. Qed.

Lemma parse_value_ws f d w s : skip_ws w = "" → parse_value f d (w +:+ s) = parse_value f d s.
Proof. intros H. destruct f; [done|]. cbn [parse_value]. by rewrite next_ws, skip_ws_app. Qed.

Lemma parse_elems_ws f d w s : skip_ws w = "" → parse_elems f d (w +:+ s) = parse_elems f d s.
Proof. intros H. destruct f; [done|]. cbn [parse_elems]. by rewrite parse_value_ws. Qed.

Lemma parse_members_ws f d w s : skip_ws w = "" → parse_members f d (w +:+ s) = parse_members f d s.
Proof. intros H. destruct f; [done|]. cbn [parse_members]. by rewrite next_ws. Qed.

Lemma next_cons c t : is_ws c = false → next (String c t) = Some (c, t).
Proof. unfold next. cbn. by intros ->. Qed.

Lemma parse_open_arr f d t : (0 < d)%Z →
  parse_value (S f) d ("[" +:+ t) =
  ('(c, r) ← next t;
   if chr_eqb c "]" then Some (Arr [], r)
   else '(l, r) ← parse_elems f (d - 1) t; Some (Arr l, r)).
Proof.
  intros Hd. cbn [parse_value String.append]. rewrite next_cons by done. cbn [mbind option_bind].
  cbv beta iota. assert ((d <=? 0)%Z = false) as -> by lia. reflexivity.
Qed.

Lemma parse_open_obj f d t : (0 < d)%Z →
  parse_value (S f) d ("{" +:+ t) =
  ('(c, r) ← next t;
   if chr_eqb c "}" then Some (Obj [], r)
   else '(l, r) ← parse_members f (d - 1) t; Some (Obj l, r)).
Proof.
  intros Hd. cbn [parse_value String.append]. rewrite next_cons by done. cbn [mbind option_bind].
  cbv beta iota. assert ((d <=? 0)%Z = false) as -> by lia. reflexivity.
Qed.

(** *** Any layout reads back *)
Section layout.
Context (nl : nat → string) (sp : string).
Hypothesis nl_ws : ∀ n, skip_ws (nl n) = "".
Hypothesis sp_ws : skip_ws sp = "".

Notation show := (render nl sp).
Definition member (n : nat) (kv : string * value) : string := quote kv.1 +:+ ":" +:+ sp +:+ show n kv.2.

Definition parses (v : value) : Prop :=
  ∀ n d t, plain v = true → (depth_of v <= d)%Z → eventually (λ f, parse_value f d (show n v +:+ t)) (v, t).

(** A text never begins with white space or the end of an array or object. *)
Lemma show_head n v : plain v = true → ∃ c r, show n v = String c r ∧ is_ws c = false ∧
  chr_eqb c "]" = false ∧ chr_eqb c "}" = false.
Proof.
  destruct v as [|[]| | |[]|[]]; cbn [plain]; intros H; try discriminate;
    eexists _, _; split; try reflexivity; done.
Qed.

Lemma next_show n v t : plain v = true → ∃ c r, next (show n v +:+ t) = Some (c, r) ∧
  chr_eqb c "]" = false.
Proof.
  intros H. destruct (show_head n v H) as (c & r & -> & Hw & Hc & _). exists c, (r +:+ t).
  unfold next. cbn. by rewrite Hw.
Qed.

Lemma elems_show n l d t :
  l ≠ [] → Forall parses l → forallb plain l = true →
  (foldr (λ v n, Z.max (depth_of v) n) 0 l <= d)%Z →
  eventually (λ f, parse_elems f d
    (Strings.Join (map (show (S n)) l) ("," +:+ nl (S n)) +:+ nl n +:+ String "]" t)) (l, t).
Proof.
  intros Hne Hl. revert Hne. induction Hl as [|v l Hv Hl IH]; [done|]. intros _. cbn [forallb foldr].
  intros [Hp Hps]%andb_true_iff Hd. destruct l as [|w l].
  - destruct (Hv (S n) d (nl n +:+ String "]" t) Hp) as [f0 H0]; [lia|]. exists (S f0). intros [|f] Hf; [lia|].
    cbn [parse_elems map Strings.Join String.concat]. rewrite H0 by lia.
    unfold mbind, option_bind; cbv beta iota. by rewrite next_ws.
  - cbn [map]. rewrite Join_cons by done. rewrite <- !sapp_assoc.
    destruct (Hv (S n) d ("," +:+ nl (S n) +:+ Strings.Join (map (show (S n)) (w :: l)) ("," +:+ nl (S n)) +:+
      nl n +:+ String "]" t) Hp) as [f0 H0]; [lia|].
    destruct IH as [f1 H1]; [done..|lia|]. exists (S (f0 + f1)). intros [|f] Hf; [lia|].
    cbn [parse_elems]. cbn [map] in H0, H1 |- *. rewrite H0 by lia.
    cbn [mbind option_bind String.append]. rewrite next_cons by done.
    unfold mbind, option_bind; cbv beta iota. change (chr_eqb "," ",") with true. cbv beta iota.
    by rewrite parse_elems_ws, H1 by (done || lia).
Qed.

(** One member and what follows it. *)
Lemma parse_member f d n k v u : valid k = true →
  parse_members (S f) d (member n (k, v) +:+ u) =
    ('(v, r) ← parse_value f d (show n v +:+ u);
     '(c, r) ← next r;
     if chr_eqb c "," then '(l, r) ← parse_members f d r; Some ((k, v) :: l, r)
     else if chr_eqb c "}" then Some ([(k, v)], r) else None).
Proof.
  intros Hk. unfold member, quote. cbn [parse_members fst snd String.append].
  rewrite next_cons by done. cbn [mbind option_bind]. cbv beta iota.
  change (code_of Strconv.dquote =? 34)%Z with true. cbn [negb]. rewrite <- !sapp_assoc.
  cbn [String.append]. rewrite unquote_quote by done.
  unfold mbind, option_bind; cbv beta iota. rewrite next_cons by done. cbv beta iota.
  change (chr_eqb ":" ":") with true. cbn [negb].
  rewrite <- sapp_assoc. by rewrite parse_value_ws.
Qed.

Lemma members_show n (l : list (string * value)) d t :
  l ≠ [] → Forall (λ kv, parses kv.2) l →
  forallb (λ kv : string * value, valid kv.1 && plain kv.2) l = true →
  (foldr (λ (kv : string * value) n, Z.max (depth_of kv.2) n) 0 l <= d)%Z →
  eventually (λ f, parse_members f d
    (Strings.Join (map (member (S n)) l) ("," +:+ nl (S n)) +:+ nl n +:+ String "}" t)) (l, t).
Proof.
  intros Hne Hl. revert Hne. induction Hl as [|[k v] l Hv Hl IH]; [done|]. intros _. cbn [forallb foldr fst snd].
  intros [[Hk Hp]%andb_true_iff Hps]%andb_true_iff Hd. cbn [snd] in Hv. destruct l as [|kw l].
  - destruct (Hv (S n) d (nl n +:+ String "}" t) Hp) as [f0 H0]; [cbn; lia|]. exists (S f0). intros [|f] Hf; [lia|].
    cbn [map Strings.Join String.concat]. rewrite parse_member, H0 by (done || lia).
    unfold mbind, option_bind; cbv beta iota. by rewrite next_ws.
  - cbn [map]. rewrite Join_cons by done. rewrite <- !sapp_assoc.
    destruct (Hv (S n) d ("," +:+ nl (S n) +:+ Strings.Join (map (member (S n)) (kw :: l)) ("," +:+ nl (S n)) +:+
      nl n +:+ String "}" t) Hp) as [f0 H0]; [cbn; lia|].
    destruct IH as [f1 H1]; [done..|lia|]. exists (S (f0 + f1)). intros [|f] Hf; [lia|].
    rewrite parse_member by done. cbn [map] in H0, H1 |- *. rewrite H0 by lia.
    cbn [mbind option_bind String.append]. rewrite next_cons by done.
    unfold mbind, option_bind; cbv beta iota. change (chr_eqb "," ",") with true. cbv beta iota.
    by rewrite parse_members_ws, H1 by (done || lia).
Qed.

Lemma show_string n s d t : valid s = true → eventually (λ f, parse_value f d (show n (Str s) +:+ t)) (Str s, t).
Proof.
  intros Hp. exists 1. intros [|f] Hf; [lia|]. cbn [render print parse_value]. unfold quote. cbn [String.append].
  rewrite next_cons by done. unfold mbind, option_bind; cbv beta iota.
  change (code_of Strconv.dquote =? 34)%Z with true. cbv beta iota. rewrite <- sapp_assoc.
  cbn [String.append]. by rewrite unquote_quote.
Qed.

Lemma show_array l : Forall parses l → parses (Arr l).
Proof.
  intros IH n d t Hp Hd. cbn [depth_of plain] in *.
  assert (0 <= foldr (λ v n, Z.max (depth_of v) n) 0 l)%Z as H0 by (clear; induction l; cbn; lia).
  destruct l as [|v l].
  { exists 1. intros [|f] Hf; [lia|]. cbn [render print]. rewrite <- sapp_assoc, parse_open_arr by lia. reflexivity. }
  destruct (elems_show n (v :: l) (d - 1) t) as [f0 Hf0]; [done..|lia|].
  exists (S f0). intros [|f] Hf; [lia|]. cbn [render]. rewrite <- !sapp_assoc, parse_open_arr by lia.
  cbn [forallb] in Hp. apply andb_true_iff in Hp as [Hv _].
  assert (∃ u, Strings.Join (map (show (S n)) (v :: l)) ("," +:+ nl (S n)) +:+ nl n +:+ "]" +:+ t =
    show (S n) v +:+ u) as [u Hu].
  { destruct l; cbn [map]; [by eexists|]. rewrite Join_cons by done. rewrite <- sapp_assoc. by eexists. }
  specialize (Hf0 f). change (String "]" t) with ("]" +:+ t) in Hf0. rewrite Hu in *.
  rewrite next_ws, parse_elems_ws by done.
  destruct (next_show (S n) v u Hv) as (c & r & -> & Hc). unfold mbind, option_bind.
  by rewrite Hc, Hf0 by lia.
Qed.

Lemma show_object l : Forall (λ kv : string * value, parses kv.2) l → parses (Obj l).
Proof.
  intros IH n d t Hp Hd. cbn [depth_of plain] in *.
  assert (0 <= foldr (λ (kv : string * value) n, Z.max (depth_of kv.2) n) 0 l)%Z as H0
    by (clear; induction l; cbn; lia).
  destruct l as [|kv l].
  { exists 1. intros [|f] Hf; [lia|]. cbn [render print]. rewrite <- sapp_assoc, parse_open_obj by lia. reflexivity. }
  destruct (members_show n (kv :: l) (d - 1) t) as [f0 Hf0]; [done..|lia|].
  exists (S f0). intros [|f] Hf; [lia|]. cbn [render]. fold (member (S n)).
  rewrite <- !sapp_assoc, parse_open_obj by lia.
  assert (∃ u, Strings.Join (map (member (S n)) (kv :: l)) ("," +:+ nl (S n)) +:+ nl n +:+ "}" +:+ t =
    String Strconv.dquote u) as [u Hu].
  { destruct l; cbn [map]; [|rewrite Join_cons by done]; unfold member, quote; cbn [String.append]; by eexists. }
  specialize (Hf0 f). change (String "}" t) with ("}" +:+ t) in Hf0. rewrite Hu in *.
  rewrite next_ws, parse_members_ws, next_cons by done. unfold mbind, option_bind. cbv beta iota.
  change (chr_eqb Strconv.dquote "}") with false. cbv beta iota. by rewrite Hf0 by lia.
Qed.

Lemma all_render v : parses v.
Proof.
  induction v as [|b|n|s|l IH|l IH] using value_nested_ind; [| | | |by apply show_array|by apply show_object];
    intros n' d t Hp Hd.
  - exists 1. intros [|f] Hf; [lia|]. change (literal ("null" +:+ t) = Some (Null, t)).
    unfold literal. by rewrite (prefix_app "null").
  - exists 1. intros [|f] Hf; [lia|]. destruct b; cbn [render print].
    + change (literal ("true" +:+ t) = Some (Bool true, t)).
      unfold literal. by rewrite (prefix_app "true").
    + change (literal ("false" +:+ t) = Some (Bool false, t)).
      unfold literal. by rewrite (prefix_app "false").
  - done.
  - by apply show_string.
Qed.

(** A rendered document followed by white space parses to itself. *)
Lemma parse_render n v t :
  plain v = true → (depth_of v <= maxNestingDepth)%Z → skip_ws t = "" → parse (show n v +:+ t) = Some v.
Proof.
  intros Hp Hd Ht. destruct (all_render v n maxNestingDepth t Hp Hd) as [f0 H0]. unfold parse.
  rewrite (proj1 (parse_fuel _) (f0 + enough (show n v +:+ t))) by (unfold enough; lia).
  rewrite H0 by lia. unfold mbind, option_bind. by rewrite Ht.
Qed.
End layout.

(** [Marshal] is the layout without white space. *)
Lemma render_print n v : render (λ _, "") "" n v = print v.
Proof.
  revert n. induction v as [| | | |l IH|l IH] using value_nested_ind; intros lvl; try done.
  - destruct l as [|v l]; [done|]. cbn [render print]. f_equal. cbn [String.append]. f_equal.
    f_equal. apply map_ext_Forall. eapply List.Forall_impl; [|exact IH]. by intros.
  - destruct l as [|v l]; [done|]. cbn [render print]. f_equal. cbn [String.append]. f_equal.
    f_equal. apply map_ext_Forall. eapply List.Forall_impl; [|exact IH]. intros kv Hkv. cbn beta in Hkv. by rewrite Hkv.
Qed.

Lemma all_parse v d t : plain v = true → (depth_of v <= d)%Z → eventually (λ f, parse_value f d (print v +:+ t)) (v, t).
Proof. rewrite <- (render_print 0). by apply all_render. Qed.

(** [Unmarshal] reads back what [Marshal] wrote. *)
Lemma parse_print v :
  plain v = true → (depth_of v <= maxNestingDepth)%Z → parse (print v) = Some v.
Proof. intros Hp Hd. rewrite <- (sapp_nil_r (print v)), <- (render_print 0). by apply parse_render. Qed.
End roundtrip.

(** ** Go values

    A decoder stores a document into a Go variable, given the variable's value;
    [None] is a type error, after which the callers do not look at the value. *)
Definition decoder (A : Type) : Type := A → value → option A.

(** Field names match without regard to case; two letters have a relative
    outside ASCII. *)
Definition fold_rune (r : string) : string :=
  if String.eqb r (EncodeRune 8490) then "k"
  else if String.eqb r (EncodeRune 383) then "s"
  else Strings.ToLower r.
Definition foldName (s : string) : string := sconcat (map fold_rune (runes s)).

Definition dec_string : decoder string := λ old v,
  match v with Str s => Some s | Null => Some old | _ => None end.

(** A map is extended; [null] makes it nil. The elements start as [zero]. *)
Definition dec_map {A} (zero : A) (dec : decoder A) : decoder (option (gmap string A)) := λ old v,
  match v with
  | Null => Some None
  | Obj l =>
      Some <$> foldl (λ acc (kv : string * value),
                 m ← acc; x ← dec zero kv.2; Some (<[kv.1 := x]> m)) (Some (default ∅ old)) l
  | _ => None
  end.

(** A fresh slice. *)
Definition dec_list {A} (zero : A) (dec : decoder A) : decoder (option (list A)) := λ _ v,
  match v with
  | Null => Some None
  | Arr l => Some <$> mapM (dec zero) l
  | _ => None
  end.

(** Members that match no field are skipped. *)
Definition dec_struct {A} (fields : list (string * decoder A)) : decoder A := λ old v,
  match v with
  | Null => Some old
  | Obj l =>
      foldl (λ acc (kv : string * value),
        a ← acc;
        match list_find (λ f, foldName f.1 = foldName kv.1) fields with
        | Some (_, f) => f.2 a kv.2
        | None => Some a
        end) (Some old) l
  | _ => None
  end.

Definition Unmarshal {A} (dec : decoder A) (zero : A) (data : string) : result A :=
  match parse data with
  | None => Err (Errorf "invalid JSON")
  | Some v =>
      match dec zero v with
      | Some a => Ok a
      | None => Err (Errorf "json: cannot unmarshal")
      end
  end.

(** [json.NewDecoder(r).Decode]: the first document of the text; what follows it
    is not looked at. *)
Definition Decode {A} (dec : decoder A) (zero : A) (data : string) : result A :=
  match parse_value (enough data) maxNestingDepth data with
  | None => Err (Errorf "invalid JSON")
  | Some (v, _) =>
      match dec zero v with
      | Some a => Ok a
      | None => Err (Errorf "json: cannot unmarshal")
      end
  end.

(** [json.NewEncoder(w).Encode]. *)
Definition Encode (v : value) : string := print v +:+ String "010" "".

(** The members of a map are written in the order of their keys. *)
Definition key_le {A} (p q : string * A) : Prop := String.leb p.1 q.1 = true.
#[export] Instance key_le_dec {A} (p q : string * A) : Decision (key_le p q).
Proof. unfold key_le. apply _. Defined.

Definition enc_map {A} (enc : A → value) (m : gmap string A) : value :=
  Obj (map (λ kv : string * A, (kv.1, enc kv.2)) (merge_sort key_le (map_to_list m))).

(** A nil map or slice is [null]. *)
Definition enc_opt {A} (enc : A → value) (o : option A) : value :=
  match o with Some a => enc a | None => Null end.

Section codec.
Context {A : Type} (zero : A) (dec : decoder A) (enc : A → value).

Lemma dec_enc_map m :
  (∀ k x, m !! k = Some x → dec zero (enc x) = Some x) →
  dec_map zero dec None (enc_map enc m) = Some (Some m).
Proof.
  intros Hx. unfold enc_map, dec_map. cbn [default].
  pose proof (merge_sort_Permutation key_le (map_to_list m)) as Hperm.
  assert (Forall (λ kv : string * A, dec zero (enc kv.2) = Some kv.2) (merge_sort key_le (map_to_list m))) as Hall.
  { rewrite Hperm. apply Forall_forall. intros [k x] Hkx%elem_of_map_to_list. by eapply Hx. }
  assert (∀ l (m0 : gmap string A), Forall (λ kv : string * A, dec zero (enc kv.2) = Some kv.2) l →
    foldl (λ acc (kv : string * value), m ← acc; x ← dec zero kv.2; Some (<[kv.1 := x]> m)) (Some m0)
      (map (λ kv : string * A, (kv.1, enc kv.2)) l) =
    Some (foldl (λ m (p : string * A), <[p.1 := p.2]> m) m0 l)) as Hfold.
  { induction l as [|[k x] l IH]; intros m0; [done|]. inversion_clear 1 as [|?? Hk Hl].
    cbn. cbn in Hk. rewrite Hk. cbn. by apply IH. }
  unfold default; rewrite Hfold by done. cbn. do 2 f_equal. by apply foldl_insert_perm.
Qed.

Lemma dec_enc_list l :
  Forall (λ x, dec zero (enc x) = Some x) l → dec_list zero dec None (Arr (map enc l)) = Some (Some l).
Proof.
  intros Hl. unfold dec_list. assert (mapM (dec zero) (map enc l) = Some l) as ->; [|done].
  induction Hl as [|x l Hx Hl IH]; [done|]. cbn. by rewrite Hx, IH.
Qed.

Lemma plain_enc_map m :
  (∀ k x, m !! k = Some x → valid k = true ∧ plain (enc x) = true) → plain (enc_map enc m) = true.
Proof.
  intros Hm. unfold enc_map. cbn. apply Is_true_true_1, forallb_True, Forall_map.
  rewrite merge_sort_Permutation. apply Forall_forall.
  intros [k x] Hkx%elem_of_map_to_list. destruct (Hm k x Hkx) as [H1 H2]. cbn [fst snd].
  by rewrite H1, H2.
Qed.

Lemma depth_enc_map m n :
  (0 <= n)%Z → (∀ x, (depth_of (enc x) <= n)%Z) → (depth_of (enc_map enc m) <= 1 + n)%Z.
Proof.
  intros Hn Hx. unfold enc_map. cbn [depth_of].
  assert (∀ l : list (string * A), (foldr (λ (kv : string * value) n, Z.max (depth_of kv.2) n) 0
    (map (λ kv : string * A, (kv.1, enc kv.2)) l) <= n)%Z) as H.
  { induction l as [|kv l IH]; cbn; [done|]. specialize (Hx kv.2). lia. }
  specialize (H (merge_sort key_le (map_to_list m))). lia.
Qed.
End codec.

Lemma Unmarshal_print {A} (dec : decoder A) zero v a :
  plain v = true → (depth_of v <= maxNestingDepth)%Z → dec zero v = Some a →
  Unmarshal dec zero (print v) = Ok a.
Proof. intros Hp Hd Ha. unfold Unmarshal. by rewrite parse_print, Ha. Qed.

(** A decoder reads back what an encoder wrote, whatever follows. *)
Lemma Decode_print {A} (dec : decoder A) zero v a t :
  plain v = true → (depth_of v <= maxNestingDepth)%Z → dec zero v = Some a →
  Decode dec zero (print v +:+ t) = Ok a.
Proof.
  intros Hp Hd Ha. unfold Decode. destruct (all_parse v maxNestingDepth t Hp Hd) as [f0 H0].
  rewrite (proj1 (parse_fuel _) (f0 + enough (print v +:+ t))) by (unfold enough; lia).
  rewrite H0 by lia. by rewrite Ha.
Qed.

Lemma Decode_Encode {A} (dec : decoder A) zero v a :
  plain v = true → (depth_of v <= maxNestingDepth)%Z → dec zero v = Some a →
  Decode dec zero (Encode v) = Ok a.
Proof. apply Decode_print. Qed.

(** One member of an object that a field matches. *)
Lemma dec_struct_cons {A} (fields : list (string * decoder A)) old kv l i f :
  list_find (λ f, foldName f.1 = foldName kv.1) fields = Some (i, f) →
  dec_struct fields old (Obj (kv :: l)) =
    match f.2 old kv.2 with Some a => dec_struct fields a (Obj l) | None => None end.
Proof.
  intros Hf. cbn [dec_struct foldl mbind option_bind]. rewrite Hf.
  destruct (f.2 old kv.2) as [a|]; [done|]. induction l as [|kv' l IH]; [done|exact IH].
Qed.

Lemma depth_foldr {A} (enc : A → value) (l : list A) n :
  (0 <= n)%Z → (∀ x, (depth_of (enc x) <= n)%Z) →
  (foldr (λ v n, Z.max (depth_of v) n) 0 (map enc l) <= n)%Z.
Proof. intros Hn Hx. induction l as [|x l IH]; cbn; [done|]. specialize (Hx x). lia. Qed.
