(* ===== verification/VacStore.v ===== *)
(** * Persisted VolumeAttributesClass parameters

    Models [pkg/driver/vacstore.go]: the entry path, the request loop over the
    configured filers, the JSON form of an entry, and the store's three
    operations. The HTTP exchange, the JWT generator and the filer address
    syntax are parameters. *)

From S2P Require Import Prelude GoLib Json Params.
#[local] Open Scope go_scope.

(** ** base64.RawURLEncoding *)
Module Base64.
Definition alphabet : string :=
  "ABCDEFGHIJKLMNOPQRSTUVWXYZabcdefghijklmnopqrstuvwxyz0123456789-_".

Definition chr (z : Z) : ascii :=
  default "A"%char (String.get (Z.to_nat z) alphabet).

Fixpoint index_of (c : ascii) (s : string) : option Z :=
  match s with
  | EmptyString => None
  | String d s => if chr_eqb c d then Some 0%Z else Z.succ <$> index_of c s
  end.

(** The [i]-th base-64 digit of [val], most significant first. *)
Definition digit (val : Z) (shift : Z) : ascii :=
  chr (Z.land (Z.shiftr val shift) 63).

Fixpoint EncodeToString (s : string) : string :=
  match s with
  | EmptyString => ""
  | String a EmptyString =>
      let val := Z.shiftl (code_of a) 16 in
      String (digit val 18) (String (digit val 12) "")
  | String a (String b EmptyString) =>
      let val := Z.lor (Z.shiftl (code_of a) 16) (Z.shiftl (code_of b) 8) in
      String (digit val 18) (String (digit val 12) (String (digit val 6) ""))
  | String a (String b (String c s)) =>
      let val := Z.lor (Z.lor (Z.shiftl (code_of a) 16) (Z.shiftl (code_of b) 8)) (code_of c) in
      String (digit val 18) (String (digit val 12)
        (String (digit val 6) (String (digit val 0) (EncodeToString s))))
  end.

(** The inverse, used to state that the encoding loses nothing. *)
Definition val4 (a b c d : Z) : Z := a * 2^18 + b * 2^12 + c * 2^6 + d.
Definition byte_at (v : Z) (k : Z) : ascii := of_code (v / 2 ^ k).
Fixpoint Decode (s : string) : option string :=
  match s with
  | EmptyString => Some ""
  | String a (String b EmptyString) =>
      x ← index_of a alphabet; y ← index_of b alphabet;
      Some (String (byte_at (val4 x y 0 0) 16) "")
  | String a (String b (String c EmptyString)) =>
      x ← index_of a alphabet; y ← index_of b alphabet; z ← index_of c alphabet;
      let v := val4 x y z 0 in Some (String (byte_at v 16) (String (byte_at v 8) ""))
  | String a (String b (String c (String d s))) =>
      x ← index_of a alphabet; y ← index_of b alphabet;
      z ← index_of c alphabet; w ← index_of d alphabet;
      r ← Decode s;
      let v := val4 x y z w in
      Some (String (byte_at v 16) (String (byte_at v 8) (String (byte_at v 0) r)))
  | _ => None
  end.
End Base64.

Definition vacRootDir : string := "/.csi/vac".

Definition vacPath (volumeID : string) : string :=
  vacRootDir +:+ "/" +:+ Base64.EncodeToString volumeID.

(** ** The store *)
Record http_req := HttpReq {
  req_method : string;
  req_target : string;
  req_body : option string;
  req_token : string;
}.

Definition StatusOK : Z := 200.
Definition StatusCreated : Z := 201.
Definition StatusNoContent : Z := 204.
Definition StatusNotFound : Z := 404.

Record filerVacStore := FilerVacStore {
  filers : list string;
  scheme : string;
  signingKey : string;
  expiresAfterSec : Z;
  readSigningKey : string;
  readExpiresAfterSec : Z;
}.

(** [vacEntry] and its JSON form. *)
Record vacEntry := VacEntry { Parameters : option strmap }.

Definition vacEntry_fields : list (string * decoder vacEntry) :=
  [("parameters", λ e v, VacEntry <$> dec_map "" dec_string (Parameters e) v)].
Definition marshal_entry (e : vacEntry) : string :=
  print (Obj [("parameters", enc_opt (enc_map Str) (Parameters e))]).
Definition unmarshal_entry : string → result vacEntry :=
  Unmarshal (dec_struct vacEntry_fields) (VacEntry None).

(** What the store uses of other packages: one HTTP exchange (its answer is a
    transport error or a status and a body), URL syntax, the JWT generator and
    the HTTP form of a filer address. *)
Class VacEnv (W : Type) := {
  do_request : http_req → M W (Z * string);
  url_valid : string → bool;
  gen_jwt : string → Z → string;
  to_http : string → string;
}.

(** The strings of a gRPC request are UTF-8; JSON would lose any other byte. *)
Definition utf8_map (m : strmap) : Prop :=
  map_Forall (λ k v, Utf8.valid k && Utf8.valid v = true) m.
#[export] Instance utf8_map_dec m : Decision (utf8_map m).
Proof. unfold utf8_map. apply _. Defined.

(** ** The interface the controller and the node server use

    [abs w σ]: in world [w] the entries of the volumes are [σ]. An operation
    that fails may or may not have taken effect on the filer. *)
Class VacStore (W : Type) := {
  vac_read : string → M W strmap;
  vac_write : string → strmap → M W unit;
  vac_delete : string → M W unit;
}.

Class VacStoreLaws (W : Type) `{!VacStore W} (abs : W → gmap string strmap → Prop) : Prop := {
  vac_read_law v w σ :
    abs w σ →
    wp (vac_read v) (λ r w', abs w' σ ∧ ∀ m, r = Ok m → m = default ∅ (σ !! v)) w;
  vac_write_law v p w σ :
    abs w σ → p ≠ ∅ → utf8_map p →
    wp (vac_write v p) (λ r w',
      abs w' (<[v:=p]> σ) ∨ is_ok r = false ∧ abs w' σ) w;
  vac_delete_law v w σ :
    abs w σ →
    wp (vac_delete v) (λ r w', abs w' (delete v σ) ∨ is_ok r = false ∧ abs w' σ) w;
}.

Section store.
Context {W : Type} {E : VacEnv W}.

Definition target_of (s : filerVacStore) (filer volumeID : string) : string :=
  scheme s +:+ "://" +:+ to_http filer +:+ vacPath volumeID.

Definition is_write (method : string) : bool :=
  negb (String.eqb method "GET") && negb (String.eqb method "HEAD").

Definition make_req (s : filerVacStore) (filer method volumeID : string)
    (body : option string) : http_req :=
  let '(key, expires) :=
    if is_write method then (signingKey s, expiresAfterSec s)
    else (readSigningKey s, readExpiresAfterSec s) in
  HttpReq method (target_of s filer volumeID) body (gen_jwt key expires).

Fixpoint roundTrip_loop (s : filerVacStore) (method volumeID : string)
    (body : option string) (okCodes : list Z) (fs : list string) (lastErr : option error)
    : M W string :=
  match fs with
  | [] => throw (default (Errorf "no filer configured") lastErr)
  | filer :: fs =>
      if negb (url_valid (target_of s filer volumeID)) then
        throw (Errorf ("parse " +:+ Strconv.Quote (target_of s filer volumeID)))
      else
        let! r := attempt (do_request (make_req s filer method volumeID body)) in
        match r with
        | Err e =>
            roundTrip_loop s method volumeID body okCodes fs
              (Some (Errorf ("filer " +:+ filer +:+ ": " +:+ err_msg e)))
        | Ok (status, respBody) =>
            if bool_decide (status ∈ okCodes) then ret respBody
            else throw (Errorf ("filer " +:+ filer +:+ ": unexpected status "
                   +:+ Strconv.FormatInt status))
        end
  end.

Definition roundTrip (s : filerVacStore) (method volumeID : string)
    (body : option string) (okCodes : list Z) : M W string :=
  roundTrip_loop s method volumeID body okCodes (filers s) None.

(** A nil map is read back as the empty one. *)
Definition Read (s : filerVacStore) (volumeID : string) : M W strmap :=
  if bool_decide (filers s = []) then ret ∅
  else
    let! body := roundTrip s "GET" volumeID None [StatusOK; StatusNotFound] in
    if String.eqb body "" then ret ∅
    else match unmarshal_entry body with
         | Err e => throw (Errorf ("corrupt persisted parameters for " +:+ volumeID
                      +:+ ": " +:+ err_msg e))
         | Ok entry => ret (default ∅ (Parameters entry))
         end.

Definition Write (s : filerVacStore) (volumeID : string) (params : strmap) : M W unit :=
  if bool_decide (params = ∅) then ret tt
  else roundTrip s "PUT" volumeID (Some (marshal_entry (VacEntry (Some params)))) [StatusOK; StatusCreated] ;;!
       ret tt.

Definition Delete (s : filerVacStore) (volumeID : string) : M W unit :=
  roundTrip s "DELETE" volumeID None [StatusOK; StatusNotFound; StatusNoContent] ;;! ret tt.
End store.

(** ** Construction *)

(** The configuration store (viper) and the CA files it names. *)
Record Config := {
  cfg_string : string → string;
  cfg_int : string → Z;
  cfg_bool : string → bool;
  read_file : string → result string;
  pem_certs : string → option string;
}.

(** A TLS configuration: [None] is the system trust store. *)
Definition vacStoreTLSConfig (v : Config) : result (option (option string)) :=
  if negb (cfg_bool v "vac.use_tls") then Ok None
  else
    let caFile := if String.eqb (cfg_string v "vac.ca") "" then cfg_string v "grpc.ca"
                  else cfg_string v "vac.ca" in
    if String.eqb caFile "" then Ok (Some None)
    else
      try! caCert := rmap_err (λ e, Errorf ("could not read VAC store CA " +:+ caFile
                       +:+ ": " +:+ err_msg e)) (read_file v caFile) in
      match pem_certs v caCert with
      | None => Err (Errorf ("could not parse VAC store CA " +:+ caFile))
      | Some pool => Ok (Some (Some pool))
      end.

Definition newFilerVacStore (v : Config) (fs : list string)
    : result (filerVacStore * option (option string)) :=
  try! tlsConfig := vacStoreTLSConfig v in
  let sch := match tlsConfig with Some _ => "https" | None => "http" end in
  let exp := cfg_int v "jwt.filer_signing.expires_after_seconds" in
  let rexp := cfg_int v "jwt.filer_signing.read.expires_after_seconds" in
  Ok (FilerVacStore fs sch (cfg_string v "jwt.filer_signing.key")
        (if (exp =? 0)%Z then 10%Z else exp)
        (cfg_string v "jwt.filer_signing.read.key")
        (if (rexp =? 0)%Z then 60%Z else rexp), tlsConfig).

(** [CheckRedirect]: [via] holds the schemes of the requests made so far,
    oldest first; [auth] is the request's Authorization header. *)
Definition checkRedirect (req_scheme host auth : string) (via : list string) : result unit :=
  if (10 <=? length via) then Err (Errorf "stopped after 10 redirects")
  else guard_err (bool_decide (last via = Some "https") && String.eqb req_scheme "http"
                  && negb (String.eqb auth ""))
         (Errorf ("refusing HTTPS-to-HTTP redirect to " +:+ host
            +:+ " that would expose the filer JWT")).

(** The requests one call sends: each redirect target (scheme, host) that the
    policy lets through, until it refuses. *)
Fixpoint follow_redirects (auth : string) (via : list string) (targets : list (string * string))
    : list string :=
  match targets with
  | [] => via
  | (sch, host) :: targets =>
      if is_ok (checkRedirect sch host auth via)
      then follow_redirects auth (via ++ [sch]) targets else via
  end.

(** ** Lemmas *)
Section base64.
Import Base64.

Lemma code_of_range a : (0 <= code_of a < 256)%Z.
Proof.
  unfold code_of. pose proof (N_ascii_bounded a). lia.
Qed.

Lemma of_code_code_of a : of_code (code_of a) = a.
Proof.
  unfold of_code. pose proof (code_of_range a). rewrite Z.mod_small by done.
  unfold code_of. rewrite N2Z.id. apply ascii_N_embedding.
Qed.

Lemma lor_shiftl a b n :
  (0 <= n)%Z → (0 <= b < 2 ^ n)%Z → Z.lor (Z.shiftl a n) b = (a * 2 ^ n + b)%Z.
Proof.
  intros Hn Hb. assert (Z.land (Z.shiftl a n) b = 0%Z) as Hland.
  { apply Z.bits_inj'. intros i Hi. rewrite Z.land_spec, Z.bits_0.
    destruct (Z.lt_ge_cases i n).
    - by rewrite Z.shiftl_spec_low.
    - replace b with (b mod 2 ^ n)%Z by (by apply Z.mod_small).
      rewrite Z.mod_pow2_bits_high by lia. apply andb_false_r. }
  rewrite <- Z.lxor_lor by done. rewrite <- Z.add_nocarry_lxor by done.
  by rewrite Z.shiftl_mul_pow2.
Qed.

Lemma digit_eq val k : (0 <= k)%Z → digit val k = chr ((val / 2 ^ k) mod 64).
Proof.
  intros Hk. unfold digit. change 63%Z with (Z.ones 6).
  rewrite Z.land_ones, Z.shiftr_div_pow2 by lia. done.
Qed.

Lemma index_of_chr z : (0 <= z < 64)%Z → index_of (chr z) alphabet = Some z.
Proof.
  intros Hz.
  assert (Forall (λ n, index_of (chr (Z.of_nat n)) alphabet = Some (Z.of_nat n)) (seq 0 64))
    as HF by (vm_compute; repeat constructor).
  rewrite Forall_forall in HF. specialize (HF (Z.to_nat z)).
  rewrite Z2Nat.id in HF by lia. apply HF, elem_of_seq. lia.
Qed.

Definition byte24 (a b c : ascii) : Z :=
  code_of a * 2 ^ 16 + code_of b * 2 ^ 8 + code_of c.

Lemma byte24_lor a b c :
  Z.lor (Z.lor (Z.shiftl (code_of a) 16) (Z.shiftl (code_of b) 8)) (code_of c)
  = byte24 a b c.
Proof.
  pose proof (code_of_range a). pose proof (code_of_range b). pose proof (code_of_range c).
  rewrite <- Z.lor_assoc, (lor_shiftl (code_of b)), lor_shiftl by lia.
  unfold byte24. lia.
Qed.

Lemma val4_digits v :
  (0 <= v < 2 ^ 24)%Z →
  val4 ((v / 2^18) mod 64) ((v / 2^12) mod 64) ((v / 2^6) mod 64) ((v / 2^0) mod 64) = v.
Proof.
  intros Hv. change (2 ^ 24)%Z with 16777216%Z in Hv. rewrite Z.pow_0_r, Z.div_1_r.
  replace (v / 2 ^ 18)%Z with (v / 64 / 64 / 64)%Z by (rewrite !Z.div_div by lia; done).
  replace (v / 2 ^ 12)%Z with (v / 64 / 64)%Z by (rewrite !Z.div_div by lia; done).
  change (v / 2 ^ 6)%Z with (v / 64)%Z. unfold val4.
  change (2 ^ 18)%Z with 262144%Z. change (2 ^ 12)%Z with 4096%Z. change (2 ^ 6)%Z with 64%Z.
  assert (v / 64 / 64 / 64 < 64)%Z as H3.
  { rewrite !Z.div_div by lia. apply Z.div_lt_upper_bound; lia. }
  pose proof (Z.div_pos v 64). pose proof (Z.div_pos (v / 64) 64).
  pose proof (Z.div_pos (v / 64 / 64) 64).
  rewrite (Z.mod_small (v / 64 / 64 / 64) 64) by lia.
  pose proof (Z.div_mod v 64). pose proof (Z.div_mod (v / 64) 64).
  pose proof (Z.div_mod (v / 64 / 64) 64). lia.
Qed.

Lemma of_code_eq v a : (v mod 256)%Z = code_of a → of_code v = a.
Proof.
  intros Hv. rewrite <- (of_code_code_of a). unfold of_code.
  rewrite Hv. pose proof (code_of_range a). by rewrite (Z.mod_small (code_of a)).
Qed.

Lemma bytes_of_byte24 a b c :
  byte_at (byte24 a b c) 16 = a ∧ byte_at (byte24 a b c) 8 = b ∧
  byte_at (byte24 a b c) 0 = c.
Proof.
  pose proof (code_of_range a). pose proof (code_of_range b). pose proof (code_of_range c).
  unfold byte_at, byte24. change (2 ^ 16)%Z with 65536%Z. change (2 ^ 8)%Z with 256%Z.
  rewrite Z.pow_0_r, Z.div_1_r. repeat split; apply of_code_eq.
  - replace (_ / 65536)%Z with (code_of a) by (apply Z.div_unique with (code_of b * 256 + code_of c)%Z; lia).
    by apply Z.mod_small.
  - replace (_ / 256)%Z with (code_of a * 256 + code_of b)%Z
      by (apply Z.div_unique with (code_of c); lia).
    rewrite Z.add_comm, Z.mod_add by lia. by apply Z.mod_small.
  - replace (_ + _)%Z with (code_of c + (code_of a * 256 + code_of b) * 256)%Z by lia.
    rewrite Z.mod_add by lia. by apply Z.mod_small.
Qed.

Lemma byte24_range a b c : (0 <= byte24 a b c < 2 ^ 24)%Z.
Proof.
  pose proof (code_of_range a). pose proof (code_of_range b). pose proof (code_of_range c).
  unfold byte24. lia.
Qed.

Lemma val4_group1 a (v := byte24 a "000" "000") :
  val4 ((v / 2^18) mod 64) ((v / 2^12) mod 64) 0 0 = v.
Proof.
  rewrite <- (val4_digits v) at 3 by apply byte24_range. subst v. unfold byte24.
  change (code_of "000") with 0%Z. change (2 ^ 8)%Z with 256%Z. change (2 ^ 16)%Z with 65536%Z.
  f_equal; change (2 ^ 6)%Z with 64%Z; rewrite ?Z.pow_0_r; symmetry.
  - replace (_ / 64)%Z with ((code_of a * 16) * 64)%Z by (apply Z.div_unique with 0%Z; lia).
    apply Z.mod_mul. lia.
  - rewrite Z.div_1_r. replace (_ + _)%Z with ((code_of a * 1024) * 64)%Z by lia.
    apply Z.mod_mul. lia.
Qed.

Lemma val4_group2 a b (v := byte24 a b "000") :
  val4 ((v / 2^18) mod 64) ((v / 2^12) mod 64) ((v / 2^6) mod 64) 0 = v.
Proof.
  rewrite <- (val4_digits v) at 4 by apply byte24_range. subst v. unfold byte24.
  change (code_of "000") with 0%Z. change (2 ^ 8)%Z with 256%Z. change (2 ^ 16)%Z with 65536%Z.
  f_equal. rewrite Z.pow_0_r, Z.div_1_r. symmetry.
  replace (_ + _ + _)%Z with ((code_of a * 1024 + code_of b * 4) * 64)%Z by lia.
  apply Z.mod_mul. lia.
Qed.

(** The bytes of a group come back from its base-64 digits; a short group is
    one padded with zero bytes whose last digits are zero. *)
Lemma DecodeString_Encode s : Decode (EncodeToString s) = Some s.
Proof.
  assert (∀ v k, index_of (chr ((v / 2 ^ k) mod 64)) alphabet = Some ((v / 2 ^ k) mod 64)%Z)
    as Hidx by (intros; apply index_of_chr, Z.mod_pos_bound; lia).
  revert s. fix IH 1. intros [|a [|b [|c s]]]; [done| | |].
  - specialize (byte24_lor a "000" "000") as Hv. change (code_of "000") with 0%Z in Hv.
    rewrite Z.shiftl_0_l, !Z.lor_0_r in Hv.
    cbn [EncodeToString Decode]. rewrite Hv, !digit_eq, !Hidx by lia. cbn [mbind option_bind].
    rewrite val4_group1. by destruct (bytes_of_byte24 a "000" "000") as (-> & _ & _).
  - specialize (byte24_lor a b "000") as Hv. change (code_of "000") with 0%Z in Hv.
    rewrite Z.lor_0_r in Hv.
    cbn [EncodeToString Decode]. rewrite Hv, !digit_eq, !Hidx by lia. cbn [mbind option_bind].
    rewrite val4_group2. by destruct (bytes_of_byte24 a b "000") as (-> & -> & _).
  - cbn [EncodeToString Decode]. rewrite byte24_lor, !digit_eq, !Hidx by lia.
    cbn [mbind option_bind]. rewrite (IH s). cbn [mbind option_bind].
    rewrite val4_digits by apply byte24_range.
    by destruct (bytes_of_byte24 a b c) as (-> & -> & ->).
Qed.
End base64.

Section vacPath.
Import Base64 Strings.

Lemma index_of_chr_some z : is_Some (index_of (chr z) alphabet).
Proof.
  destruct (decide (0 <= z < 64)%Z) as [Hz|Hz]; [by rewrite index_of_chr|].
  unfold chr. destruct (le_lt_dec 64 (Z.to_nat z)) as [Hn|Hn].
  - replace (Z.to_nat z) with (64 + (Z.to_nat z - 64)) by lia. by eexists.
  - replace (Z.to_nat z) with 0 by lia. by eexists.
Qed.

Lemma encoded_no_byte c s : index_of c alphabet = None → no_byte c (EncodeToString s).
Proof.
  intros Hc. assert (∀ z, c ≠ chr z) as Hne.
  { intros z ->. destruct (index_of_chr_some z) as [? H]. congruence. }
  revert s. fix IH 1.
  intros [|a [|b [|d s]]]; [done| | |]; cbn [EncodeToString]; unfold digit;
    rewrite !no_byte_cons; repeat split; auto.
Qed.

Lemma encoded_elem s : s ≠ "" → elem_ok (EncodeToString s).
Proof.
  intros Hs. pose proof (encoded_no_byte "." s eq_refl) as Hdot.
  split; [|split; [|split]].
  - by destruct s as [|? [|? [|? ?]]].
  - intros He. by rewrite He in Hdot.
  - intros He. by rewrite He in Hdot.
  - by apply encoded_no_byte.
Qed.

Lemma encode_inj s1 s2 : EncodeToString s1 = EncodeToString s2 → s1 = s2.
Proof. intros H. apply (f_equal Decode) in H. rewrite !DecodeString_Encode in H. congruence. Qed.
End vacPath.

(** A successful or failed loop over the filers, by an invariant [P] of the
    world between two exchanges. *)
Lemma wp_roundTrip_loop {W} {E : VacEnv W} s method v body okCodes fs le (P : W → Prop) Q w :
  (∀ f w, P w → wp (do_request (make_req s f method v body)) (λ r w',
     match r with
     | Err _ => P w'
     | Ok (st, b) => if bool_decide (st ∈ okCodes) then Q (Ok b) w' else ∀ e, Q (Err e) w'
     end) w) →
  (∀ e w, P w → Q (Err e) w) → P w →
  wp (roundTrip_loop s method v body okCodes fs le) Q w.
Proof.
  intros Hreq Herr. revert le w. induction fs as [|f fs IH]; intros le w Hw.
  { apply wp_throw. auto. }
  cbn [roundTrip_loop]. destruct (negb _); [apply wp_throw; auto|].
  apply wp_bind, wp_attempt. eapply wp_mono; [by apply Hreq|].
  intros [[st b]|e] w' Hw'; [|by apply IH].
  destruct (bool_decide _); [by apply wp_ret|by apply wp_throw].
Qed.

(** ** The filer as a key-value server

    What the store relies on of the filer's HTTP API: entries are keyed by
    path; an exchange that fails or is refused may have been applied; a 404
    answer has an empty body. *)
Class FilerHttp (W : Type) `{!VacEnv W} (s : filerVacStore) := {
  content : W → gmap string string;
  http_put f v b w :
    wp (do_request (make_req s f "PUT" v (Some b))) (λ r w',
      content w' = <[vacPath v := b]> (content w) ∨
      content w' = content w ∧
        ∀ st b', r = Ok (st, b') → st ∉ [StatusOK; StatusCreated]) w;
  http_get f v w :
    wp (do_request (make_req s f "GET" v None)) (λ r w',
      content w' = content w ∧
      (∀ b, r = Ok (StatusOK, b) → content w !! vacPath v = Some b) ∧
      (∀ b, r = Ok (StatusNotFound, b) → b = "" ∧ content w !! vacPath v = None)) w;
  http_delete f v w :
    wp (do_request (make_req s f "DELETE" v None)) (λ r w',
      content w' = delete (vacPath v) (content w) ∨
      content w' = content w ∧
        ∀ st b', r = Ok (st, b') → st ∉ [StatusOK; StatusNotFound; StatusNoContent]) w;
}.

(** *** An entry comes back from its JSON form *)
Lemma dec_string_Str old s : dec_string old (Str s) = Some s.
Proof. done. Qed.

Lemma entry_roundtrip p :
  utf8_map p → unmarshal_entry (marshal_entry (VacEntry (Some p))) = Ok (VacEntry (Some p)).
Proof.
  intros Hp. apply Unmarshal_print.
  - cbn [plain forallb enc_opt Parameters fst snd]. rewrite plain_enc_map; [done|].
    intros k x Hk. specialize (Hp k x Hk). by apply andb_true_iff in Hp.
  - cbn [depth_of foldr enc_opt Parameters snd]. unfold maxNestingDepth.
    assert (depth_of (enc_map Str p) <= 1 + 0)%Z by (apply depth_enc_map; [lia|by intros]). lia.
  - assert (list_find (λ f : string * decoder vacEntry, foldName f.1 = foldName "parameters")
      vacEntry_fields = Some (0, ("parameters", λ e v, VacEntry <$> dec_map "" dec_string (Parameters e) v)))
      as Hfind by reflexivity.
    cbn [dec_struct foldl mbind option_bind enc_opt Parameters fst snd]. rewrite Hfind.
    cbn [snd Parameters]. rewrite dec_enc_map by done. done.
Qed.

Lemma marshal_entry_nonempty e : marshal_entry e ≠ "".
Proof. done. Qed.

Section filer_laws.
Context {W : Type} {E : VacEnv W} (s : filerVacStore) {F : FilerHttp W s}.

(** The entries on the filer are exactly those of [σ]. *)
Definition filer_abs (w : W) (σ : gmap string strmap) : Prop :=
  map_Forall (λ _ p, utf8_map p) σ ∧
  ∀ v, content w !! vacPath v = (λ p, marshal_entry (VacEntry (Some p))) <$> σ !! v.

Lemma vacPath_inj v1 v2 : vacPath v1 = vacPath v2 → v1 = v2.
Proof.
  unfold vacPath. rewrite !sapp_assoc. intros H.
  apply (f_equal (Strings.sdrop (String.length (vacRootDir +:+ "/")))) in H.
  rewrite !sdrop_app in H. by apply encode_inj.
Qed.

Lemma filer_abs_insert w w' σ v p :
  filer_abs w σ → utf8_map p →
  content w' = <[vacPath v := marshal_entry (VacEntry (Some p))]> (content w) →
  filer_abs w' (<[v:=p]> σ).
Proof.
  intros [Hu Hw] Hp Hc. split; [by apply map_Forall_insert_2|]. intros u. rewrite Hc.
  destruct (decide (u = v)) as [->|Hne]; [by rewrite !lookup_insert_eq|].
  rewrite !lookup_insert_ne; [done|done|]. intros H%vacPath_inj. congruence.
Qed.

Lemma filer_abs_delete w w' σ v :
  filer_abs w σ → content w' = delete (vacPath v) (content w) →
  filer_abs w' (delete v σ).
Proof.
  intros [Hu Hw] Hc. split; [by apply map_Forall_delete|]. intros u. rewrite Hc.
  destruct (decide (u = v)) as [->|Hne]; [by rewrite !lookup_delete_eq|].
  rewrite !lookup_delete_ne; [done|done|]. intros H%vacPath_inj. congruence.
Qed.

Lemma filer_abs_same w w' σ : filer_abs w σ → content w' = content w → filer_abs w' σ.
Proof. intros [Hu Hw] Hc. split; [done|]. intros u. by rewrite Hc. Qed.

(** The bytes of an entry on the filer. *)
Lemma filer_abs_entry w σ v b :
  filer_abs w σ → content w !! vacPath v = Some b →
  b ≠ "" ∧ ∃ p, σ !! v = Some p ∧ unmarshal_entry b = Ok (VacEntry (Some p)).
Proof.
  intros [Hu Hw] Hb. rewrite Hw in Hb. destruct (σ !! v) as [p|] eqn:Hp; [|done].
  injection Hb as <-. split; [done|]. exists p. split; [done|]. apply entry_roundtrip. by eapply Hu.
Qed.

Lemma filer_abs_none w σ v : filer_abs w σ → content w !! vacPath v = None → σ !! v = None.
Proof. intros [_ Hw] Hb. rewrite Hw in Hb. by destruct (σ !! v). Qed.

#[export] Instance filer_store : VacStore W :=
  {| vac_read := Read s; vac_write := Write s; vac_delete := Delete s |}.

Lemma Read_law v w σ :
  filer_abs w σ →
  wp (Read s v) (λ r w', filer_abs w' σ ∧ ∀ m, r = Ok m → filers s ≠ [] →
    m = default ∅ (σ !! v)) w.
Proof.
  intros Hw. unfold Read. case_bool_decide as Hfs.
  { apply wp_ret. naive_solver. }
  apply wp_bind. eapply (wp_roundTrip_loop _ _ _ _ _ _ _ (λ w, filer_abs w σ)); [|naive_solver|done].
  intros f w1 Hw1. eapply wp_mono; [apply http_get|].
  intros [[st b]|e] w2 (Hc & H200 & H404); [|by eapply filer_abs_same].
  assert (filer_abs w2 σ) as Hw2 by by eapply filer_abs_same.
  case_bool_decide as Hst; [|naive_solver].
  apply list_elem_of_In in Hst as [<-|[<-|[]]].
  - destruct (filer_abs_entry w1 σ v b Hw1 (H200 b eq_refl)) as (Hb & p & -> & ->).
    destruct (String.eqb_spec b ""); [done|]. apply wp_ret. cbn. naive_solver.
  - destruct (H404 b) as [-> Hnone]; [done|]. rewrite (filer_abs_none w1 σ v) by done.
    apply wp_ret. naive_solver.
Qed.

Lemma Write_law v p w σ :
  filer_abs w σ → p ≠ ∅ → utf8_map p →
  wp (Write s v p) (λ r w',
    filer_abs w' (<[v:=p]> σ) ∨ is_ok r = false ∧ filer_abs w' σ) w.
Proof.
  intros Hw Hp Hutf. unfold Write. rewrite bool_decide_false by done. apply wp_bind.
  eapply (wp_roundTrip_loop _ _ _ _ _ _ _
    (λ w, filer_abs w (<[v:=p]> σ) ∨ filer_abs w σ)); [|naive_solver|by right].
  intros f w1 Hw1. eapply wp_mono; [apply http_put|].
  intros r w2 Hw2.
  assert (filer_abs w2 (<[v:=p]> σ) ∨ filer_abs w2 σ ∧
    ∀ st b', r = Ok (st, b') → st ∉ [StatusOK; StatusCreated]) as H.
  { destruct Hw2 as [Hc|[Hc Hst]].
    - left. destruct Hw1 as [Hw1|Hw1].
      + rewrite <- (insert_insert_eq σ v p p). by eapply filer_abs_insert.
      + by eapply filer_abs_insert.
    - destruct Hw1 as [Hw1|Hw1]; [left|right; split; [|done]]; by eapply filer_abs_same. }
  destruct r as [[st b]|e]; [|naive_solver].
  case_bool_decide as Hst; [apply wp_ret|]; naive_solver.
Qed.

Lemma Delete_law v w σ :
  filer_abs w σ →
  wp (Delete s v) (λ r w',
    filer_abs w' (delete v σ) ∨ is_ok r = false ∧ filer_abs w' σ) w.
Proof.
  intros Hw. unfold Delete. apply wp_bind.
  eapply (wp_roundTrip_loop _ _ _ _ _ _ _
    (λ w, filer_abs w (delete v σ) ∨ filer_abs w σ)); [|naive_solver|by right].
  intros f w1 Hw1. eapply wp_mono; [apply http_delete|].
  intros r w2 Hw2.
  assert (filer_abs w2 (delete v σ) ∨ filer_abs w2 σ ∧
    ∀ st b', r = Ok (st, b') → st ∉ [StatusOK; StatusNotFound; StatusNoContent]) as H.
  { destruct Hw2 as [Hc|[Hc Hst]].
    - left. destruct Hw1 as [Hw1|Hw1].
      + rewrite <- (delete_delete_eq σ v). by eapply filer_abs_delete.
      + by eapply filer_abs_delete.
    - destruct Hw1 as [Hw1|Hw1]; [left|right; split; [|done]]; by eapply filer_abs_same. }
  destruct r as [[st b]|e]; [|naive_solver].
  case_bool_decide as Hst; [apply wp_ret|]; naive_solver.
Qed.
End filer_laws.

(** ** Properties *)

(** The entry of a volume is a single path element directly under the root
    directory of the entries, and the volume ID can be read back from it: no
    two volumes share an entry and no volume ID escapes the directory. *)
Theorem vacPath_roundtrip (volumeID : string) :
  volumeID ≠ "" →
  Path.Dir (vacPath volumeID) = vacRootDir ∧
  Base64.Decode (Path.Base (vacPath volumeID)) = Some volumeID.
Proof.
  intros Hv. pose proof (encoded_elem volumeID Hv) as He.
  assert (vacPath volumeID = abs_path ([".csi"; "vac"] ++ [Base64.EncodeToString volumeID])) as ->
    by done.
  assert (Forall elem_ok [".csi"; "vac"]) as Hl by (apply (bool_decide_unpack _); done).
  rewrite Dir_abs_path, Base_abs_path by done. split; [done|]. apply DecodeString_Encode.
Qed.

Lemma vacPath_roundtrip_witness :
  "/a/../b" ≠ "" ∧ Path.Dir (vacPath "/a/../b") = vacRootDir ∧
  Base64.Decode (Path.Base (vacPath "/a/../b")) = Some "/a/../b".
Proof. split; [discriminate|]. apply (vacPath_roundtrip "/a/../b"). discriminate. Defined.

Section refinement.
Context {W : Type} {E : VacEnv W} (s : filerVacStore) {F : FilerHttp W s}.


Lemma filer_store_laws : filers s ≠ [] → @VacStoreLaws W (filer_store s) (filer_abs s).
Proof.
  intros Hfs. split.
  - intros v w σ Hw. eapply wp_mono; [by apply Read_law|]. naive_solver.
  - intros. by apply Write_law.
  - intros. by apply Delete_law.
Qed.
End refinement.

(** *** A concrete filer, for the witnesses *)
Section demo.
(** The answer of a filer that keeps bodies by path, below "http://h". *)
Definition demo_http (r : http_req) : M (gmap string string) (Z * string) := λ w,
  let p := Strings.sdrop 8 (req_target r) in
  if String.eqb (req_method r) "PUT" then
    (Ok (StatusCreated, ""), <[p := default "" (req_body r)]> w)
  else if String.eqb (req_method r) "DELETE" then (Ok (StatusNoContent, ""), delete p w)
  else match w !! p with
       | Some b => (Ok (StatusOK, b), w)
       | None => (Ok (StatusNotFound, ""), w)
       end.

#[export] Instance demo_env : VacEnv (gmap string string) := {|
  do_request := demo_http;
  url_valid _ := true;
  gen_jwt k _ := k;
  to_http _ := "h";
|}.

Definition demo_store : filerVacStore :=
  FilerVacStore ["filer-0:8888"; "filer-1:8888"] "http" "k" 10 "rk" 60.

#[export] Instance demo_filer : FilerHttp (gmap string string) demo_store.
Proof.
  refine {| content := λ w, w |}.
  - intros f v b w. left. done.
  - intros f v w. unfold wp. cbn. destruct (w !! _) eqn:Hv; cbn; split_and!; naive_solver.
  - intros f v w. left. done.
Defined.

Definition demo_params : strmap := {["ttl" := "5m"]}.
End demo.


(** The redirect policy bounds a chain of redirects and never lets a request
    that carries the filer's token go from https to http. *)
Theorem redirect_keeps_token_encrypted (auth first : string) (targets : list (string * string)) :
  auth ≠ "" →
  let hops := follow_redirects auth [first] targets in
  length hops ≤ 10 ∧
  ∀ i, hops !! i = Some "https" → hops !! S i ≠ Some "http".
Proof.
  intros Hauth. cbn zeta.
  assert (∀ via, length via ≤ 10 →
    (∀ i, via !! i = Some "https" → via !! S i ≠ Some "http") →
    length (follow_redirects auth via targets) ≤ 10 ∧
    ∀ i, follow_redirects auth via targets !! i = Some "https" →
         follow_redirects auth via targets !! S i ≠ Some "http") as H.
  { induction targets as [|[sch host] ts IH]; intros via Hlen Hvia; [done|].
    cbn [follow_redirects]. unfold checkRedirect. destruct (Nat.leb_spec 10 (length via)); [done|].
    unfold guard_err. destruct (bool_decide _ && _ && _) eqn:Hb; [done|]. cbn [is_ok].
    apply IH; [rewrite length_app; cbn; lia|].
    intros i Hi Hsi. destruct (decide (S i < length via)) as [Hlt|Hge].
    - rewrite lookup_app_l in Hi, Hsi by lia. by eapply Hvia.
    - apply lookup_lt_Some in Hsi as Hlen'. rewrite length_app in Hlen'. cbn in Hlen'.
      rewrite lookup_app_r in Hsi by lia. rewrite lookup_app_l in Hi by lia.
      replace (S i - length via) with 0 in Hsi by lia. injection Hsi as ->.
      apply (f_equal negb) in Hb. cbn in Hb. rewrite last_lookup in Hb.
      replace (pred (length via)) with i in Hb by lia.
      rewrite Hi, bool_decide_true in Hb by done.
      destruct (String.eqb_spec auth ""); [done|]. done. }
  apply H; [cbn; lia|]. intros [|i]; [done|]. by rewrite lookup_cons.
Qed.

Lemma redirect_keeps_token_encrypted_witness :
  "Bearer t" ≠ "" ∧
  let hops := follow_redirects "Bearer t" ["https"] [("https", "f1"); ("http", "f2")] in
  length hops ≤ 10 ∧ ∀ i, hops !! i = Some "https" → hops !! S i ≠ Some "http".
Proof.
  assert ("Bearer t" ≠ "") as H by discriminate. split; [exact H|].
  exact (redirect_keeps_token_encrypted "Bearer t" "https" [("https", "f1"); ("http", "f2")] H).
Defined.
