(* ===== verification/Driver.v ===== *)
(** * The driver object: configuration, capabilities, endpoints and names

    Models [pkg/driver/driver.go], [identityserver.go], the endpoint, topology
    key, cache and socket names of [utils.go] and [pkg/mountmanager/socket.go],
    [endpoint.go]. *)

From S2P Require Import Prelude GoLib Hash Params.
#[local] Open Scope go_scope.

(** ** CSI enumerations *)
Inductive AccessMode :=
  | MODE_UNKNOWN | SINGLE_NODE_WRITER | SINGLE_NODE_READER_ONLY
  | MULTI_NODE_READER_ONLY | MULTI_NODE_SINGLE_WRITER | MULTI_NODE_MULTI_WRITER
  | SINGLE_NODE_SINGLE_WRITER | SINGLE_NODE_MULTI_WRITER.

#[export] Instance AccessMode_eq_dec : EqDecision AccessMode.
Proof. solve_decision. Defined.

Inductive RpcType :=
  | RPC_UNKNOWN | RPC_CREATE_DELETE_VOLUME | RPC_PUBLISH_UNPUBLISH_VOLUME
  | RPC_LIST_VOLUMES | RPC_EXPAND_VOLUME | RPC_SINGLE_NODE_MULTI_WRITER
  | RPC_MODIFY_VOLUME.

#[export] Instance RpcType_eq_dec : EqDecision RpcType.
Proof. solve_decision. Defined.

Definition rpc_name (r : RpcType) : string :=
  match r with
  | RPC_UNKNOWN => "UNKNOWN" | RPC_CREATE_DELETE_VOLUME => "CREATE_DELETE_VOLUME"
  | RPC_PUBLISH_UNPUBLISH_VOLUME => "PUBLISH_UNPUBLISH_VOLUME"
  | RPC_LIST_VOLUMES => "LIST_VOLUMES" | RPC_EXPAND_VOLUME => "EXPAND_VOLUME"
  | RPC_SINGLE_NODE_MULTI_WRITER => "SINGLE_NODE_MULTI_WRITER"
  | RPC_MODIFY_VOLUME => "MODIFY_VOLUME"
  end.

Inductive PluginCapability :=
  | CONTROLLER_SERVICE | VOLUME_EXPANSION_ONLINE | VOLUME_ACCESSIBILITY_CONSTRAINTS.

(** A [csi.VolumeCapability] as the driver reads it: its access mode, which may
    be absent. [GetMode] of an absent mode is the zero value. *)
Record VolumeCapability := { AccessMode_ : option AccessMode }.
Definition GetMode (c : VolumeCapability) : AccessMode := default MODE_UNKNOWN (AccessMode_ c).

(** ** Endpoints *)

(** [ParseEndpoint] of the CSI driver (utils.go). *)
Definition ParseEndpoint (ep : string) : result (string * string) :=
  let bad := Err (Errorf ("invalid endpoint: " +:+ ep)) in
  if Strings.HasPrefix (Strings.ToLower ep) "unix://"
     || Strings.HasPrefix (Strings.ToLower ep) "tcp://" then
    match Strings.cut_opt "://" ep with
    | Some (proto, addr) => if String.eqb addr "" then bad else Ok (proto, addr)
    | None => bad
    end
  else bad.

(** [mountmanager.ParseEndpoint]. *)
Definition mm_ParseEndpoint (endpoint : string) : result (string * string) :=
  match Strings.cut_opt "://" endpoint with
  | Some (scheme, addr) =>
      if String.eqb addr "" then Err (Errorf ("invalid endpoint: " +:+ endpoint))
      else Ok (Strings.ToLower scheme, addr)
  | None => Err (Errorf ("invalid endpoint: " +:+ endpoint))
  end.

(** ** Names derived from a volume ID *)
Definition DefaultSocketDir : string := "/var/lib/seaweedfs-mount".
Definition TempDir : string := "/tmp".

Definition LocalSocketPathForHash (baseDir volumeHash : string) : string :=
  let baseDir := if String.eqb baseDir "" then DefaultSocketDir else baseDir in
  Path.JoinPath [baseDir; "seaweedfs-mount-" +:+ Strings.stake 16 volumeHash +:+ ".sock"].

Definition LocalSocketPath (baseDir volumeID : string) : string :=
  let baseDir := if String.eqb baseDir "" then DefaultSocketDir else baseDir in
  LocalSocketPathForHash baseDir (sha256_hex volumeID).

Definition MountRootsPath (baseDir volumeID : string) : string :=
  Strings.TrimSuffix (LocalSocketPath baseDir volumeID) ".sock" +:+ ".roots.json".

Definition GetLocalSocket (volumeSocketDir volumeID : string) : string :=
  LocalSocketPath volumeSocketDir volumeID.

Definition sharedChunkCacheDirName : string := "chunks".

Definition SharedChunkCacheDir (cacheBase : string) : string :=
  let cacheBase := if String.eqb cacheBase "" then TempDir else cacheBase in
  Path.JoinPath [cacheBase; sharedChunkCacheDirName].

Definition GetCacheDir (cacheBase volumeID : string) : string :=
  let cacheBase := if String.eqb cacheBase "" then TempDir else cacheBase in
  Path.JoinPath [cacheBase; sha256_hex volumeID].

(** ** The driver *)
Record SeaweedFsDriver := {
  name : string;
  nodeID : string;
  version : string;
  endpoint : string;
  mountEndpoint : string;
  volumeSocketDir : string;
  vcap : list AccessMode;
  cscap : list RpcType;
  filers : list string;
  filerIndex : nat;
  ConcurrentWriters : Z;
  ConcurrentReaders : Z;
  MountExtraArgs : list string;
  CacheCapacityMB : Z;
  WriteBufferSizeMB : Z;
  CacheMetaTtlSec : Z;
  CacheDir : string;
  UidMap : string;
  GidMap : string;
  DataCenter : string;
  DataLocality_ : DataLocality;
  TopologyKeys : list string;
  StagingScanDir : string;
  KubeletRootDir : string;
  KubeletRootMount : string;
}.

Definition AddVolumeCapabilityAccessModes (vc : list AccessMode) (d : SeaweedFsDriver)
    : list AccessMode := vcap d ++ vc.
Definition AddControllerServiceCapabilities (cl : list RpcType) (d : SeaweedFsDriver)
    : list RpcType := cscap d ++ cl.

Definition base_access_modes : list AccessMode :=
  [MULTI_NODE_MULTI_WRITER; SINGLE_NODE_WRITER; SINGLE_NODE_MULTI_WRITER;
   SINGLE_NODE_SINGLE_WRITER].
Definition base_capabilities : list RpcType :=
  [RPC_CREATE_DELETE_VOLUME; RPC_SINGLE_NODE_MULTI_WRITER; RPC_EXPAND_VOLUME;
   RPC_MODIFY_VOLUME].

Definition socketDirOf (mountEndpoint : string) : string :=
  if String.eqb mountEndpoint "" then DefaultSocketDir
  else match mm_ParseEndpoint mountEndpoint with
       | Err _ => DefaultSocketDir
       | Ok (_, address) => if String.eqb address "" then DefaultSocketDir else Path.Dir address
       end.

(** [to_addresses] is [pb.ServerAddresses.ToAddresses]. *)
Definition NewSeaweedFsDriver (to_addresses : string → list string)
    (name filer nodeID endpoint mountEndpoint : string) (enableAttacher : bool)
    : SeaweedFsDriver := {|
  Driver.name := name; Driver.nodeID := nodeID; version := "1.0.0";
  Driver.endpoint := endpoint; Driver.mountEndpoint := mountEndpoint;
  volumeSocketDir := socketDirOf mountEndpoint;
  vcap := base_access_modes;
  cscap := base_capabilities ++ (if enableAttacher then [RPC_PUBLISH_UNPUBLISH_VOLUME] else []);
  filers := to_addresses filer; filerIndex := 0;
  ConcurrentWriters := 0; ConcurrentReaders := 0; MountExtraArgs := [];
  CacheCapacityMB := 0; WriteBufferSizeMB := 0; CacheMetaTtlSec := 0; CacheDir := "";
  UidMap := ""; GidMap := ""; DataCenter := ""; DataLocality_ := DL_None;
  TopologyKeys := []; StagingScanDir := ""; KubeletRootDir := ""; KubeletRootMount := "" |}.

Definition ValidateControllerServiceRequest (d : SeaweedFsDriver) (c : RpcType) : result unit :=
  if bool_decide (c = RPC_UNKNOWN) then Ok tt
  else if bool_decide (c ∈ cscap d) then Ok tt
  else Err (Status InvalidArgument (rpc_name c)).

Definition GetPluginCapabilities (d : SeaweedFsDriver) : list PluginCapability :=
  [CONTROLLER_SERVICE; VOLUME_EXPANSION_ONLINE]
  ++ (if bool_decide (TopologyKeys d = []) then [] else [VOLUME_ACCESSIBILITY_CONSTRAINTS]).

(** The plugin's name and its version. *)
Definition GetPluginInfo (d : SeaweedFsDriver) : string * string := (name d, version d).

Definition ControllerGetCapabilities (d : SeaweedFsDriver) : list RpcType := cscap d.

(** The calls the driver accepts are those it announces. *)
Lemma announced_accepted d c :
  c ≠ RPC_UNKNOWN → ValidateControllerServiceRequest d c = Ok tt ↔ c ∈ ControllerGetCapabilities d.
Proof.
  intros Hc. unfold ValidateControllerServiceRequest, ControllerGetCapabilities.
  rewrite bool_decide_eq_false_2 by done. by case_bool_decide.
Qed.

(** Whatever its flags, a driver announces that it creates and modifies volumes, and
    attachment exactly when the attacher is enabled. *)
Lemma announced_capabilities addrs n f i e me a c :
  c ∈ ControllerGetCapabilities (NewSeaweedFsDriver addrs n f i e me a) ↔
  c ∈ base_capabilities ∨ a = true ∧ c = RPC_PUBLISH_UNPUBLISH_VOLUME.
Proof.
  unfold ControllerGetCapabilities, NewSeaweedFsDriver. cbn [cscap]. rewrite elem_of_app.
  destruct a; [rewrite list_elem_of_singleton|rewrite elem_of_nil]; naive_solver.
Qed.

Definition isValidVolumeCapabilities (driverVolumeCaps : list AccessMode)
    (volCaps : list VolumeCapability) : bool :=
  forallb (λ c, existsb (λ m, bool_decide (m = GetMode c)) driverVolumeCaps) volCaps.

Definition isReadOnlyAccessMode (m : AccessMode) : bool :=
  bool_decide (m ∈ [SINGLE_NODE_READER_ONLY; MULTI_NODE_READER_ONLY]).

(** ** Topology keys *)
Definition ParseTopologyKeys (keys : string) : list string :=
  filter (λ k, k ≠ "") (map Strings.TrimSpace (Strings.Split keys ",")).

Definition prefix_of (key : string) : string :=
  let '(prefix, _, found) := Strings.Cut key "/" in if found then prefix else "".

(** ** The filer client's failover loop

    One pass of [WithFilerClient]: try every filer once, starting at the index
    that worked last, and remember the one that worked. *)
Section with_filer_client.
Context {W A : Type} (fn : string → M W A).

Fixpoint filer_loop (fs : list string) (i : nat) (x : nat) (err : option error)
    : M W (option (A * nat) * option error) :=
  match x with
  | O => ret (None, err)
  | S x =>
      let! r := attempt (fn (nth i fs "")) in
      match r with
      | Ok a => ret (Some (a, i), None)
      | Err e => filer_loop fs (if length fs <=? S i then 0 else S i) x (Some e)
      end
  end.
End with_filer_client.
