(* ===== verification/Controller.v ===== *)
(** * The controller service

    Models [pkg/driver/controllerserver.go]. The filer, the Kubernetes lookup
    of PV attributes and the S3 bucket name check are parameters; the parameter
    store is used through its interface ([VacStore]). *)

From S2P Require Import Prelude GoLib Json Hash Params VacStore Driver.
#[local] Open Scope go_scope.

Definition defaultBucketDir : string := "/buckets".
Definition bucketChildrenPageSize : nat := 1000.
Definition volumeCapacityKey : string := "volumeCapacity".

(** What the controller uses of the filer client, of Kubernetes and of the
    bucket name rules. *)
Class ControllerEnv (W : Type) := {
  filer_mkdir : string → string → (strmap → strmap) → M W unit;
  filer_exists : string → string → M W bool;
  (** [filer_pb.SeaweedList]: the entries it hands to the callback, each with
      its [isLast] flag. *)
  filer_list : string → string → nat → M W (list (string * bool));
  (** [filer_pb.Remove] of a parent's child, recursive; the flag is
      [ignoreRecursiveError]. *)
  filer_remove : string → string → bool → M W unit;
  filer_dir_buckets : M W string;
  is_filer_not_found : error → bool;
  ErrNotFound_text : string;
  ExtAllowEmptyFolders : string;
  k8s_volume_attributes : string → M W strmap;
  verify_bucket_name : string → bool;
}.

(** ** Requests and responses *)
Record CreateVolumeRequest := {
  cv_name : string;
  cv_parameters : option strmap;
  cv_mutable : strmap;
  cv_capabilities : option (list VolumeCapability);
  cv_required_bytes : Z;
  cv_requisite : list strmap;
  cv_preferred : list strmap;
}.

Record CreateVolumeResponse := {
  r_volume_id : string;
  r_capacity : Z;
  r_context : strmap;
  r_topology : list strmap;
}.

Inductive ValidateResponse :=
  | Confirmed (caps : list VolumeCapability)
  | NotConfirmed
  | Message (m : string).

Definition unsafe_chr (a : ascii) : bool :=
  let z := code_of a in
  negb (chr_eqb a "-" || chr_eqb a "." ||
        (97 <=? z)%Z && (z <=? 122)%Z || (65 <=? z)%Z && (z <=? 90)%Z ||
        (48 <=? z)%Z && (z <=? 57)%Z).

(** [unsafeVolumeIdChars.ReplaceAllString]: each unsafe rune, and each byte that is part
    of none, becomes a dash. *)
Definition replace_rune (r : string) : string :=
  match r with String a "" => if unsafe_chr a then "-" else r | _ => "-" end.
Definition replaceUnsafe (s : string) : string :=
  sconcat (map replace_rune (Utf8.runes s)).

Section controller.
Context {W : Type} {E : ControllerEnv W} {V : VacStore W} {MR : MapRange}.
Context (Driver : SeaweedFsDriver).

Definition sanitizeVolumeIdS3 (volumeId : string) : string :=
  let volumeId := Strings.ToLower volumeId in
  let volumeId := if (63 <? String.length volumeId) then sha1_hex volumeId else volumeId in
  if verify_bucket_name volumeId then volumeId
  else
    let hexhash := sha1_hex volumeId in
    let volumeId := Strings.ToLower volumeId in
    let sanitized := replaceUnsafe volumeId in
    let sanitized := if (21 <? String.length sanitized) then Strings.stake 21 sanitized
                     else sanitized in
    sanitized +:+ "." +:+ hexhash.

(** The volume path, its parent directory and its name. *)
Definition resolveVolumePath (params : strmap) (requestedVolumeId : string)
    : string * string * string :=
  let volumePath := get params "path" in
  if String.eqb volumePath "" then
    let parentDir := if String.eqb (get params "parentDir") "" then "/buckets"
                     else get params "parentDir" in
    let volumeName := if String.eqb parentDir "/buckets"
                      then sanitizeVolumeIdS3 requestedVolumeId else requestedVolumeId in
    (Path.JoinPath [parentDir; volumeName], parentDir, volumeName)
  else
    let volumePath := Path.Clean volumePath in
    (volumePath, Path.Dir volumePath, Path.Base volumePath).

Definition accessibleTopology (requisite preferred : list strmap) : list strmap :=
  match requisite with [] => preferred | _ => requisite end.

Definition CreateVolume (req : CreateVolumeRequest) : M W CreateVolumeResponse :=
  let params := default ∅ (cv_parameters req) in
  let requestedVolumeId := cv_name req in
  if String.eqb requestedVolumeId "" then
    throw (Status InvalidArgument "Name missing in request")
  else
  let '(volumePath, parentDir, volumeName) := resolveVolumePath params requestedVolumeId in
  let params := <["volumeName" := volumeName]> (<["parentDir" := parentDir]> params) in
  let! params :=
    if bool_decide (cv_mutable req = ∅) then ret params
    else match validateMutableParameters (cv_mutable req) with
         | Err e => throw (Status InvalidArgument (err_msg e))
         | Ok _ => ret (foldl (insert_where (λ _, true)) params (range (cv_mutable req)))
         end in
  of_result (ValidateControllerServiceRequest Driver RPC_CREATE_DELETE_VOLUME) ;;!
  match cv_capabilities req with
  | None => throw (Status InvalidArgument "Volume Capabilities missing in request")
  | Some _ =>
      let capacity := cv_required_bytes req in
      let params := if (0 <? capacity)%Z
                    then <[volumeCapacityKey := Strconv.FormatInt capacity]> params
                    else params in
      with_err (λ e, Errorf ("error creating volume: " +:+ err_msg e))
        (filer_mkdir parentDir volumeName (insert ExtAllowEmptyFolders "true")) ;;!
      ret {| r_volume_id := volumePath; r_capacity := capacity; r_context := params;
             r_topology := accessibleTopology (cv_requisite req) (cv_preferred req) |}
  end.

(** *** Emptying a bucket *)
Definition page_step (acc : list string * string * bool) (entry : string * bool)
    : list string * string * bool :=
  let '(page, last, sawLast) := acc in
  let '(name, isLast) := entry in
  let '(page, last) := if String.eqb name "" then (page, last) else (page ++ [name], name) in
  (page, last, sawLast || isLast).

Definition listFilerChildrenPage (dirPath after : string) (limit : nat)
    : M W (list string * string * bool) :=
  let! entries := filer_list dirPath after limit in
  let '(page, last, sawLast) := foldl page_step ([], "", false) entries in
  ret (page, last, negb (bool_decide (page = [])) && negb sawLast).

Definition isNotFoundError (e : error) : bool :=
  is_filer_not_found e || Strings.Contains (err_msg e) ErrNotFound_text.

Definition filerBucketDir : M W string :=
  let! dir := with_err (λ e, Errorf ("get filer bucket directory: " +:+ err_msg e))
                filer_dir_buckets in
  ret (if String.eqb dir "" then defaultBucketDir else dir).

Definition deleteChild (bucketPath child : string) : M W unit :=
  with_err (λ e, Errorf ("delete child " +:+ child +:+ " of volume " +:+ bucketPath
                         +:+ ": " +:+ err_msg e))
    (filer_remove bucketPath child false).

(** The listing loop; [None] when [fuel] pages did not reach its end. *)
Fixpoint emptyBucket_loop (fuel : nat) (bucketPath after : string) : M W (option unit) :=
  match fuel with
  | O => ret None
  | S fuel =>
      let! r := attempt (listFilerChildrenPage bucketPath after bucketChildrenPageSize) in
      match r with
      | Err e => if isNotFoundError e then ret (Some tt) else throw e
      | Ok (page, last, hasMore) =>
          for_each (deleteChild bucketPath) page ;;!
          if negb hasMore || String.eqb last "" then ret (Some tt)
          else emptyBucket_loop fuel bucketPath last
      end
  end.

Definition emptyBucketChildren (fuel : nat) (bucketPath : string) : M W (option unit) :=
  let! bucketDir := filerBucketDir in
  if negb (String.eqb (Path.Dir bucketPath) bucketDir) then ret (Some tt)
  else emptyBucket_loop fuel bucketPath "".

(** The parent directory and name a volume ID stands for. *)
Definition splitVolumeId (volumeId : string) : string * string :=
  if Path.IsAbs volumeId then (Path.Dir volumeId, Path.Base volumeId)
  else ("/buckets", volumeId).

Definition DeleteVolume (fuel : nat) (volumeId : string) : M W (option unit) :=
  if String.eqb volumeId "" then
    throw (Status InvalidArgument "Volume ID missing in request")
  else
  of_result (ValidateControllerServiceRequest Driver RPC_CREATE_DELETE_VOLUME) ;;!
  let '(parentDir, volumeName) := splitVolumeId volumeId in
  let bucketPath := Path.JoinPath [parentDir; volumeName] in
  let! done := with_err (λ e, Errorf ("error emptying volume " +:+ volumeId +:+ ": "
                                      +:+ err_msg e))
                 (emptyBucketChildren fuel bucketPath) in
  match done with
  | None => ret None
  | Some _ =>
      with_err (λ e, Errorf ("error deleting volume " +:+ volumeId +:+ ": " +:+ err_msg e))
        (filer_remove parentDir volumeName true) ;;!
      attempt (vac_delete volumeId) ;;!
      ret (Some tt)
  end.

(** *** The other calls *)
Definition ControllerPublishVolume (volumeId nodeId : string) : result unit :=
  guard_err (String.eqb volumeId "") (Status InvalidArgument "Volume ID missing in request") ;;?
  guard_err (String.eqb nodeId "") (Status InvalidArgument "Node ID missing in request").

Definition ControllerUnpublishVolume (volumeId : string) : result unit :=
  guard_err (String.eqb volumeId "") (Status InvalidArgument "Volume ID missing in request").

Definition ValidateVolumeCapabilities (volumeId : string)
    (caps : option (list VolumeCapability)) : M W ValidateResponse :=
  if String.eqb volumeId "" then
    throw (Status InvalidArgument "Volume ID missing in request")
  else match caps with
  | None => throw (Status InvalidArgument "Volume capabilities missing in request")
  | Some volCaps =>
      let '(parentDir, volumeName) := splitVolumeId volumeId in
      let! exists_ := with_err (λ e, Errorf ("error checking bucket " +:+ volumeId
                                 +:+ " exists: " +:+ err_msg e))
                        (filer_exists parentDir volumeName) in
      if negb exists_ then
        throw (Status NotFound ("Volume with id " +:+ volumeId +:+ " does not exist"))
      else if existsb (λ c, negb (bool_decide (GetMode c = SINGLE_NODE_WRITER))) volCaps then
        ret (Message "Only single node writer is supported")
      else match volCaps with
      | [] => throw (Status InvalidArgument "Volume capabilities not provided")
      | _ => ret (if isValidVolumeCapabilities (vcap Driver) volCaps
                  then Confirmed volCaps else NotConfirmed)
      end
  end.

Definition ControllerModifyVolume (volumeID : string) (params : strmap) : M W unit :=
  if String.eqb volumeID "" then
    throw (Status InvalidArgument "volume id missing in request")
  else if bool_decide (params = ∅) then
    throw (Status InvalidArgument "mutable parameters missing in request")
  else
  of_result (rmap_err (λ e, Status InvalidArgument (err_msg e))
               (validateMutableParameters params)) ;;!
  let! attrs := with_err (λ e, Status Internal ("reading PV attributes for " +:+ volumeID
                                 +:+ ": " +:+ err_msg e))
                  (k8s_volume_attributes volumeID) in
  let effective := effectiveParameters attrs params in
  of_result (rmap_err (λ e, Status InvalidArgument (err_msg e))
               (validateConstrainedParameterValues effective)) ;;!
  of_result (rmap_err (λ e, Status InvalidArgument (err_msg e))
               (validateWritebackDlmCombo effective)) ;;!
  with_err (λ e, Status Internal ("persisting modified parameters for " +:+ volumeID
                                  +:+ ": " +:+ err_msg e))
    (vac_write volumeID params).

Definition ControllerExpandVolume (capacity : Z) : Z * bool := (capacity, true).
End controller.

(** ** Names and paths *)
Section names.
Context {W : Type} {E : ControllerEnv W}.

Lemma sexists_stake p n s : Strings.sexists p s = false → Strings.sexists p (Strings.stake n s) = false.
Proof.
  revert s. induction n as [|n IH]; intros [|c s]; cbn; [done..|].
  rewrite !orb_false_iff. intros [Hc Hs]. split; [done|by apply IH].
Qed.

Lemma replaceUnsafe_safe s : Strings.sexists unsafe_chr (replaceUnsafe s) = false.
Proof.
  unfold replaceUnsafe, sconcat. induction (Utf8.runes s) as [|r rs IH]; [done|]. cbn. rewrite sexists_app, IH, orb_false_r.
  destruct r as [|c [|]]; [done| |done]. cbn. by destruct (unsafe_chr c) eqn:Hc; cbn; rewrite ?Hc.
Qed.

(** A hexadecimal string has only safe characters. *)
Lemma sexists_hex p s :
  (∀ c, p c = true → no_byte c s) → Strings.sexists p s = false.
Proof.
  induction s as [|c s IH]; intros H; [done|]. cbn. apply orb_false_iff. split.
  - destruct (p c) eqn:Hc; [|done]. apply H, no_byte_cons in Hc. by destruct Hc.
  - apply IH. intros d Hd. by apply H, no_byte_cons in Hd as [_ Hd].
Qed.

Lemma unsafe_chr_code c :
  unsafe_chr c = true →
  (code_of c < 48 ∨ 57 < code_of c)%Z ∧ (code_of c < 97 ∨ 102 < code_of c)%Z.
Proof.
  unfold unsafe_chr. cbv zeta. rewrite negb_true_iff, !orb_false_iff, !andb_false_iff, !Z.leb_gt.
  intros (((_ & H1) & _) & H2). lia.
Qed.

Lemma sha1_hex_safe s : Strings.sexists unsafe_chr (sha1_hex s) = false.
Proof.
  apply sexists_hex. intros c [H1 H2]%unsafe_chr_code.
  apply hex_encode_no_byte; [done|done|apply sha1_bytes_range].
Qed.

(** The two outcomes of sanitising: a name the bucket rules accept, or
    a prefix of at most 21 safe bytes, a dot and a SHA-1 hash. *)
Lemma sanitizeVolumeIdS3_cases v :
  (verify_bucket_name (sanitizeVolumeIdS3 v) = true ∧
   String.length (sanitizeVolumeIdS3 v) ≤ 63) ∨
  ∃ pre h, sanitizeVolumeIdS3 v = pre +:+ "." +:+ sha1_hex h ∧ String.length pre ≤ 21 ∧
    Strings.sexists unsafe_chr pre = false.
Proof.
  unfold sanitizeVolumeIdS3. set (v1 := if (63 <? _) then _ else _).
  assert (String.length v1 ≤ 63) as Hv1.
  { subst v1. destruct (Nat.ltb_spec 63 (String.length (Strings.ToLower v))); [|done].
    rewrite length_sha1_hex. lia. }
  destruct (verify_bucket_name v1) eqn:Hverify; [by left|]. right.
  eexists _, v1. split; [done|].
  set (m := replaceUnsafe _). assert (Strings.sexists unsafe_chr m = false) as Hm
    by apply replaceUnsafe_safe.
  destruct (Nat.ltb_spec 21 (String.length m)); [|done]. split; [|by apply sexists_stake].
  rewrite length_stake. lia.
Qed.

Lemma safe_no_slash s : Strings.sexists unsafe_chr s = false → no_byte "/" s.
Proof.
  induction s as [|c s IH]; [done|]. cbn. rewrite orb_false_iff. intros [Hc Hs].
  apply no_byte_cons. split; [|by apply IH]. by intros <-.
Qed.

(** A generated bucket name is a plain path element. *)
Lemma sanitizeVolumeIdS3_elem v :
  (∀ n, verify_bucket_name n = true → elem_ok n) → elem_ok (sanitizeVolumeIdS3 v).
Proof.
  intros Hok. destruct (sanitizeVolumeIdS3_cases v) as [[Hv _]|(pre & h & -> & _ & Hpre)];
    [by apply Hok|].
  assert (40 < String.length (pre +:+ "." +:+ sha1_hex h)) as Hlen.
  { rewrite !length_sapp, length_sha1_hex. cbn. lia. }
  repeat split; [intros He; rewrite He in Hlen; cbn in Hlen; lia..|].
  apply safe_no_slash. rewrite !sexists_app, Hpre, sha1_hex_safe. done.
Qed.

(** The path and the name under which a volume is created are those its ID
    stands for. *)
Lemma splitVolumeId_abs l x :
  Forall elem_ok l → elem_ok x →
  splitVolumeId (Path.JoinPath [abs_path l; x]) = (abs_path l, x).
Proof.
  intros Hl Hx. unfold splitVolumeId.
  rewrite JoinPath_abs_path, IsAbs_abs_path, Dir_abs_path, Base_abs_path by done. done.
Qed.

Lemma buckets_abs_path : "/buckets" = abs_path ["buckets"].
Proof. done. Qed.

Lemma buckets_elems : Forall elem_ok ["buckets"].
Proof. apply (bool_decide_unpack _). done. Qed.

Lemma Dir_Base_Clean p :
  Path.IsAbs p = true → Path.JoinPath [Path.Dir (Path.Clean p); Path.Base (Path.Clean p)] = Path.Clean p.
Proof.
  intros Hp. destruct (Clean_abs_elems p Hp) as (l & Hl & ->).
  destruct l as [|x l _] using rev_ind; [done|].
  apply Forall_app in Hl as [Hl Hx]. rewrite Forall_singleton in Hx.
  by rewrite Dir_abs_path, Base_abs_path, JoinPath_abs_path.
Qed.
End names.

(** ** The filer's directories

    What the controller relies on of the filer: listing a directory changes
    nothing and hands out its entries in the order of their names, flagging the
    last one; removing an entry touches nothing that is not below its
    directory; nobody else creates entries in between. *)
Class FilerDirs (W : Type) {E : ControllerEnv W} {V : VacStore W} := {
  kids : W → string → gset string;
  buckets_dir : string;
  name_lt : string → string → Prop;
  list_law d after limit w :
    wp (filer_list d after limit) (λ r w', w' = w ∧
      (∀ e, r = Err e → isNotFoundError e = true → kids w d = ∅) ∧
      (∀ es, r = Ok es →
        (∀ n fl, (n, fl) ∈ es → n ≠ "" ∧ n ∈ kids w d) ∧
        (∀ n, n ∈ kids w d → after = "" ∨ name_lt after n →
           n ∈ es.*1 ∨
           (∀ m fl, (m, fl) ∈ es → fl = false) ∧ ∃ l, last es.*1 = Some l ∧ name_lt l n))) w;
  remove_law d n ign w :
    wp (filer_remove d n ign) (λ r w',
      (∀ d', kids w' d' ⊆ kids w d') ∧
      (r = Ok tt → n ∉ kids w' d) ∧
      (∀ d', String.length d' ≤ String.length d → d' ≠ d → kids w' d' = kids w d')) w;
  buckets_law w :
    wp filer_dir_buckets (λ r w', w' = w ∧ ∀ d, r = Ok d → d = buckets_dir) w;
  mkdir_law d n f w : wp (filer_mkdir d n f) (λ r w', r = Ok tt → n ∈ kids w' d) w;
  vac_delete_kids v w :
    wp (vac_delete v) (λ _ w', ∀ d, kids w' d ⊆ kids w d) w;
}.

Section emptying.
Context {W : Type} {E : ControllerEnv W} {V : VacStore W} {F : FilerDirs W}.
Implicit Types (w : W) (d : string).

(** What [filerBucketDir] answers. *)
Definition effective_buckets_dir : string :=
  if String.eqb buckets_dir "" then defaultBucketDir else buckets_dir.

Lemma page_step_foldl es page last0 sawLast :
  (∀ n fl, (n, fl) ∈ es → n ≠ "") →
  foldl page_step (page, last0, sawLast) es =
    (page ++ es.*1, default last0 (last es.*1), sawLast || existsb snd es).
Proof.
  revert page last0 sawLast. induction es as [|[n fl] es IH]; intros page last0 sawLast Hne.
  { cbn. by rewrite app_nil_r, orb_false_r. }
  cbn [foldl]. unfold page_step at 2.
  destruct (String.eqb_spec n "") as [->|Hn]; [by destruct (Hne "" fl (list_elem_of_here _ _))|].
  rewrite IH by (intros m fl' Hm; eapply Hne; by right).
  rewrite fmap_cons, last_cons. cbn [fst existsb snd]. rewrite <- app_assoc, orb_assoc.
  by destruct (last es.*1).
Qed.

(** A page of the listing: part of the children, and every other child
    beyond [after] comes behind it when there is more to list. *)
Lemma listFilerChildrenPage_spec d after limit w :
  (∀ n, n ∈ kids w d → after = "" ∨ name_lt after n) →
  wp (listFilerChildrenPage d after limit) (λ r w', w' = w ∧
    match r with
    | Err e => isNotFoundError e = true → kids w d = ∅
    | Ok (page, last, hasMore) =>
        (∀ n, n ∈ page → n ∈ kids w d) ∧
        if negb hasMore || String.eqb last "" then ∀ n, n ∈ kids w d → n ∈ page
        else page ≠ [] ∧ ∀ n, n ∈ kids w d → n ∈ page ∨ name_lt last n
    end) w.
Proof.
  intros Hafter. unfold listFilerChildrenPage. apply wp_bind.
  eapply wp_mono; [apply list_law|]. intros [es|e] w' (-> & Herr & Hes); [|split; [done|]; by apply Herr].
  destruct (Hes es eq_refl) as [Hin Hcov].
  rewrite page_step_foldl by (intros; by eapply Hin). apply wp_ret. split; [done|].
  cbn [app orb]. split.
  { intros n ((n' & fl) & -> & Hn)%list_elem_of_fmap. by eapply Hin. }
  destruct (decide (es = [])) as [->|Hne].
  { cbn. intros n Hn. destruct (Hcov n Hn (Hafter n Hn)) as [H|(_ & l & Hl & _)]; [done|done]. }
  assert (es.*1 ≠ []) as Hne1 by by destruct es.
  rewrite bool_decide_false by done. cbn [negb andb].
  destruct (last es.*1) as [l|] eqn:Hl; [|by apply last_None in Hl].
  change (default "" (Some l)) with l.
  assert (l ≠ "") as Hl0.
  { apply last_Some_elem_of, list_elem_of_fmap in Hl as ((n' & fl) & -> & Hn). by eapply Hin. }
  apply String.eqb_neq in Hl0 as ->. rewrite orb_false_r, negb_involutive.
  destruct (existsb snd es) eqn:Hex.
  - intros n Hn. destruct (Hcov n Hn (Hafter n Hn)) as [H|(Hfl & _)]; [done|].
    apply existsb_exists in Hex as ([m fl] & Hm%list_elem_of_In & Hflt). cbn in Hflt.
    by rewrite (Hfl m fl Hm) in Hflt.
  - split; [done|]. intros n Hn.
    destruct (Hcov n Hn (Hafter n Hn)) as [H|(_ & l' & [= <-] & Hlt)]; [by left|by right].
Qed.

(** Deleting a page: only the page's names go. *)
Lemma delete_page_spec p page w :
  wp (for_each (deleteChild p) page) (λ r w',
    (∀ d, kids w' d ⊆ kids w d) ∧
    (∀ d, String.length d ≤ String.length p → d ≠ p → kids w' d = kids w d) ∧
    (r = Ok tt → ∀ n, n ∈ page → n ∉ kids w' p)) w.
Proof.
  revert w. induction page as [|x page IH]; intros w.
  { apply wp_ret. split_and!; [done|done|]. intros _ n Hn. by apply elem_of_nil in Hn. }
  apply wp_bind, wp_with_err. eapply wp_mono; [apply remove_law|].
  intros [[]|e] w1 (Hsub & Hx & Hsame); cbn; [|by split_and!].
  eapply wp_mono; [apply IH|]. intros r w2 (Hsub2 & Hsame2 & Hpage).
  split_and!.
  - intros d. etrans; [apply Hsub2|apply Hsub].
  - intros d Hd Hne. rewrite Hsame2 by done. by apply Hsame.
  - intros -> n [->|Hn]%elem_of_cons; [|by apply Hpage].
    intros Hn. apply Hsub2 in Hn. by apply Hx.
Qed.

Lemma emptyBucket_loop_spec fuel p after w :
  size (kids w p) < fuel →
  (∀ n, n ∈ kids w p → after = "" ∨ name_lt after n) →
  wp (emptyBucket_loop fuel p after) (λ r w',
    (∀ d, kids w' d ⊆ kids w d) ∧
    (∀ d, String.length d ≤ String.length p → d ≠ p → kids w' d = kids w d) ∧
    r ≠ Ok None ∧ (r = Ok (Some tt) → kids w' p = ∅)) w.
Proof.
  revert after w. induction fuel as [|fuel IH]; intros after w Hsize Hafter; [lia|].
  cbn [emptyBucket_loop]. apply wp_bind, wp_attempt.
  eapply wp_mono; [by apply listFilerChildrenPage_spec|].
  intros [[[page last] hasMore]|e] w0 [-> Hpage].
  2:{ destruct (isNotFoundError e) eqn:He; [apply wp_ret|apply wp_throw]; split_and!; naive_solver. }
  destruct Hpage as [Hin Hpage]. apply wp_bind.
  eapply wp_mono; [apply delete_page_spec|]. intros [[]|e] w1 (Hsub & Hsame & Hdel); [|by split_and!].
  specialize (Hdel eq_refl).
  destruct (negb hasMore || String.eqb last "").
  { apply wp_ret. split_and!; [done|done|done|]. intros _. apply set_eq. intros n.
    split; [|set_solver]. intros Hn. by destruct (Hdel n (Hpage n (Hsub p n Hn))). }
  destruct Hpage as [Hne Hlt].
  assert (size (kids w1 p) < size (kids w p)) as Hsize1.
  { apply subset_size. split; [apply Hsub|]. destruct page as [|x page]; [done|].
    intros H. apply (Hdel x (list_elem_of_here _ _)), H, Hin. left. }
  eapply wp_mono; [apply IH; [lia|]|].
  - intros n Hn. right. destruct (Hlt n (Hsub p n Hn)) as [H|H]; [by destruct (Hdel n H)|done].
  - intros r w2 (Hsub2 & Hsame2 & Hr1 & Hr2). split_and!; [| |done|done].
    + intros d. by etrans; [apply Hsub2|].
    + intros d Hd1 Hd2. rewrite Hsame2 by done. by apply Hsame.
Qed.

Lemma filerBucketDir_spec w :
  wp filerBucketDir (λ r w', w' = w ∧ ∀ d, r = Ok d → d = effective_buckets_dir) w.
Proof.
  unfold filerBucketDir. apply wp_bind, wp_with_err. eapply wp_mono; [apply buckets_law|].
  intros [d|e] w' [-> Hd]; cbn; [|done]. rewrite (Hd d eq_refl). by apply wp_ret; naive_solver.
Qed.

Lemma emptyBucketChildren_wp fuel p w :
  size (kids w p) < fuel →
  wp (emptyBucketChildren fuel p) (λ r w',
    (∀ d, kids w' d ⊆ kids w d) ∧
    (∀ d, String.length d ≤ String.length p → d ≠ p → kids w' d = kids w d) ∧
    r ≠ Ok None ∧
    (r = Ok (Some tt) → Path.Dir p = effective_buckets_dir → kids w' p = ∅)) w.
Proof.
  intros Hsize. unfold emptyBucketChildren. apply wp_bind.
  eapply wp_mono; [apply filerBucketDir_spec|]. intros [d|e] w0 [-> Hd]; [|by split_and!].
  rewrite (Hd d eq_refl). destruct (String.eqb_spec (Path.Dir p) effective_buckets_dir) as [Heq|Hne].
  - cbn [negb]. eapply wp_mono; [apply emptyBucket_loop_spec; [done|by left]|]. naive_solver.
  - cbn [negb]. apply wp_ret. naive_solver.
Qed.
End emptying.

(** ** Properties *)

(** A created bucket name never exceeds the 63 bytes S3 allows, and is one the
    bucket rules accept or one made of letters, digits, dots and dashes. *)
Theorem sanitizeVolumeIdS3_bounded {W} {E : ControllerEnv W} (v : string) :
  String.length (sanitizeVolumeIdS3 v) ≤ 63 ∧
  (verify_bucket_name (sanitizeVolumeIdS3 v) = true ∨
   Strings.sexists unsafe_chr (sanitizeVolumeIdS3 v) = false).
Proof.
  destruct (sanitizeVolumeIdS3_cases v) as [[Hv Hlen]|(pre & h & -> & Hlen & Hpre)]; [auto|].
  split; [rewrite !length_sapp, length_sha1_hex; cbn; lia|].
  right. by rewrite !sexists_app, Hpre, sha1_hex_safe.
Qed.

Section properties.
Context {W : Type} {E : ControllerEnv W} {V : VacStore W} {MR : MapRange}.
Context (Driver : SeaweedFsDriver).

(** Where the storage class puts the volume: an absolute path, or a name
    under an absolute parent directory. *)
Definition plain_location (params : strmap) (name : string) : Prop :=
  if String.eqb (get params "path") "" then
    get params "parentDir" = "" ∨
    ∃ l, Forall elem_ok l ∧ get params "parentDir" = abs_path l ∧ elem_ok name
  else Path.IsAbs (get params "path") = true.

Lemma resolveVolumePath_split params name vp parent vname :
  (∀ n, verify_bucket_name n = true → elem_ok n) →
  plain_location params name →
  resolveVolumePath params name = (vp, parent, vname) →
  splitVolumeId vp = (parent, vname).
Proof.
  intros Hv. unfold plain_location, resolveVolumePath.
  destruct (String.eqb_spec (get params "path") "") as [_|Hp].
  - intros Hloc [= <- <- <-].
    assert (∃ l, Forall elem_ok l ∧ (if String.eqb (get params "parentDir") "" then "/buckets"
      else get params "parentDir") = abs_path l ∧ (l ≠ ["buckets"] → elem_ok name)) as (l & Hl & -> & Hn).
    { destruct Hloc as [->|(l & Hl & -> & Hn)]; [exists ["buckets"]|exists l].
      - split; [apply buckets_elems|done].
      - split; [done|]. by destruct (String.eqb_spec (abs_path l) ""). }
    apply splitVolumeId_abs; [done|].
    destruct (String.eqb_spec (abs_path l) "/buckets") as [Heq|Hne].
    + by apply sanitizeVolumeIdS3_elem.
    + apply Hn. by intros ->.
  - intros Habs [= <- <- <-]. unfold splitVolumeId. by rewrite IsAbs_Clean.
Qed.

(** Mutable parameters never change a structural key of the context. *)
Lemma mutable_context_wp (params m : strmap) (w : W) :
  wp (if bool_decide (m = ∅) then ret params
      else match validateMutableParameters m with
           | Err e => throw (Status InvalidArgument (err_msg e))
           | Ok _ => ret (foldl (insert_where (λ _, true)) params (range m))
           end)
    (λ r w', (∀ p, r = Ok p → ∀ k, is_mutable k = false → p !! k = params !! k) ∧ w' = w) w.
Proof.
  case_bool_decide; [by apply wp_ret; naive_solver|].
  destruct (validateMutableParameters m) as [[]|e] eqn:Hm; [|by apply wp_throw].
  apply validateMutableParameters_inv in Hm as [Hm _]. apply wp_ret. split; [|done].
  intros p [= <-] k Hk. rewrite insert_where_range.
  destruct (m !! k) eqn:Hmk; [|done]. apply Hm in Hmk as [? _]. congruence.
Qed.

(** C23. A volume is created as an entry of its parent directory; the volume
    context records exactly that directory and name, whatever the mutable
    parameters say. The requested capacity is recorded and returned. The volume ID stands
    for the directory and the name, so that deletion finds the same entry, if the explicit
    path is absolute or, without one, the parent directory is absent or a clean absolute
    path and the name an element of a path, the names of buckets being such elements. *)
Theorem CreateVolume_directory {F : FilerDirs W} (req : CreateVolumeRequest) (w : W) :
  wp (CreateVolume Driver req) (λ r w', ∀ resp, r = Ok resp →
    ∃ parent name,
      r_context resp !! "parentDir" = Some parent ∧
      r_context resp !! "volumeName" = Some name ∧
      name ∈ kids w' parent ∧
      r_capacity resp = cv_required_bytes req ∧
      ((0 < cv_required_bytes req)%Z →
         r_context resp !! volumeCapacityKey =
           Some (Strconv.FormatInt (cv_required_bytes req))) ∧
      ((∀ n, verify_bucket_name n = true → elem_ok n) →
       plain_location (default ∅ (cv_parameters req)) (cv_name req) →
       splitVolumeId (r_volume_id resp) = (parent, name))) w.
Proof.
  unfold CreateVolume.
  set (params0 := default ∅ (cv_parameters req)) in *.
  destruct (String.eqb (cv_name req) ""); [by apply wp_throw|].
  destruct (resolveVolumePath params0 (cv_name req)) as [[vp parent] name] eqn:Hres.
  assert ((∀ n, verify_bucket_name n = true → elem_ok n) → plain_location params0 (cv_name req) →
    splitVolumeId vp = (parent, name)) as Hsplit by (intros; by eapply resolveVolumePath_split).
  clear Hres. apply wp_bind. eapply wp_mono; [apply mutable_context_wp|].
  intros [p|e] w1 [Hp ->]; [|done]. specialize (Hp p eq_refl).
  pose proof (Hp "parentDir" eq_refl) as Hpd. pose proof (Hp "volumeName" eq_refl) as Hvn.
  rewrite lookup_insert_eq in Hvn. rewrite lookup_insert_ne, lookup_insert_eq in Hpd by done.
  apply wp_bind.
  destruct (ValidateControllerServiceRequest Driver _) as [[]|e]; apply wp_of_result; [|done].
  destruct (cv_capabilities req); [|by apply wp_throw].
  apply wp_bind, wp_with_err. eapply wp_mono; [apply mkdir_law|].
  intros [[]|e] w2 Hmk; [|done]. apply wp_ret. intros resp [= <-]. cbn.
  exists parent, name. destruct (Z.ltb_spec 0 (cv_required_bytes req)).
  - split_and!; try rewrite lookup_insert_ne by done; auto. by rewrite lookup_insert_eq.
  - split_and!; auto; lia.
Qed.

(** C9. Deleting a volume empties its bucket before it removes the bucket's
    entry: for the directory [p] of a volume in the buckets directory, given
    more listing rounds than [p] has children the call ends; when it succeeds
    the entry and the children are gone; when it fails with children left,
    the entry of the bucket is still there for a retry; and no directory ever
    gains an entry. *)
Theorem DeleteVolume_empties_first {F : FilerDirs W} (fuel : nat) (volumeId : string)
  (l : list string) (x : string) (w : W) :
  Forall elem_ok l → elem_ok x →
  splitVolumeId volumeId = (abs_path l, x) → effective_buckets_dir = abs_path l →
  size (kids w (abs_path (l ++ [x]))) < fuel →
  wp (DeleteVolume Driver fuel volumeId) (λ r w',
    r ≠ Ok None ∧
    (∀ d, kids w' d ⊆ kids w d) ∧
    (r = Ok (Some tt) →
       x ∉ kids w' (abs_path l) ∧ kids w' (abs_path (l ++ [x])) = ∅) ∧
    (kids w' (abs_path (l ++ [x])) ≠ ∅ → kids w' (abs_path l) = kids w (abs_path l))) w.
Proof.
  intros Hl Hx Hsplit Hb Hfuel. unfold DeleteVolume.
  destruct (String.eqb volumeId ""); [by apply wp_throw|].
  apply wp_bind. destruct (ValidateControllerServiceRequest Driver _); apply wp_of_result; [|done].
  rewrite Hsplit, JoinPath_abs_path by done. apply wp_bind, wp_with_err.
  eapply wp_mono; [by apply emptyBucketChildren_wp|].
  assert (String.length (abs_path l) ≤ String.length (abs_path (l ++ [x])) ∧
          abs_path l ≠ abs_path (l ++ [x])) as [Hlen Hne].
  { destruct (decide (l = [])) as [->|Hl0].
    - cbn. split; [lia|]. intros [= <-]. by destruct Hx.
    - assert (String.length (abs_path l) < String.length (abs_path (l ++ [x]))) as H
        by (unfold abs_path; rewrite Join_snoc by done; cbn; rewrite !length_sapp; cbn; lia).
      split; [lia|]. intros Heq. rewrite <- Heq in H. lia. }
  intros [[[]|]|e] w1 (Hsub & Hsame & Hnone & Hempty); cbn; [|done|by split_and!; auto].
  rewrite Dir_abs_path in Hempty by done. specialize (Hempty eq_refl (eq_sym Hb)).
  apply wp_bind, wp_with_err. eapply wp_mono; [apply remove_law|].
  intros [[]|e] w2 (Hsub2 & Hgone & Hsame2); cbn.
  2:{ split_and!; [done| |done|].
      - intros d. by etrans; [apply Hsub2|].
      - intros Hk. destruct Hk. pose proof (Hsub2 (abs_path (l ++ [x]))). set_solver. }
  apply wp_bind, wp_attempt. eapply wp_mono; [apply vac_delete_kids|].
  intros rv w3 Hsub3. apply wp_ret. specialize (Hgone eq_refl).
  pose proof (Hsub2 (abs_path (l ++ [x]))). pose proof (Hsub3 (abs_path (l ++ [x]))).
  split_and!; [done| | |set_solver].
  - intros d. etrans; [apply Hsub3|]. by etrans; [apply Hsub2|].
  - intros _. pose proof (Hsub3 (abs_path l)). set_solver.
Qed.

(** C22. A volume modification is persisted exactly as requested or not at all;
    what is persisted, merged into the PV attributes as the node does at
    staging, passes the node's validation; and a request answered with
    [InvalidArgument] has persisted nothing. *)
Theorem ControllerModifyVolume_sound {abs : W → gmap string strmap → Prop}
    {L : VacStoreLaws W abs} (pv : strmap) (volumeID : string) (params : strmap)
    (w : W) (σ : gmap string strmap) :
  (∀ w, abs w σ → wp (k8s_volume_attributes volumeID)
     (λ r w', abs w' σ ∧ ∀ m, r = Ok m → m = pv) w) →
  abs w σ → utf8_map params →
  wp (ControllerModifyVolume volumeID params) (λ r w',
    (r = Ok tt → abs w' (<[volumeID:=params]> σ)) ∧
    ((∃ m, r = Err (Status InvalidArgument m)) → abs w' σ) ∧
    (abs w' σ ∨
     abs w' (<[volumeID:=params]> σ) ∧ validateMutableParameters params = Ok tt ∧
     validateConstrainedParameterValues (mergePersistedVolumeAttributes pv params) = Ok tt ∧
     validateWritebackDlmCombo (mergePersistedVolumeAttributes pv params) = Ok tt)) w.
Proof.
  intros Hk8s Hw Hutf. unfold ControllerModifyVolume.
  destruct (String.eqb volumeID ""); [by apply wp_throw; split_and!; [done|auto..]|].
  case_bool_decide as Hp; [by apply wp_throw; split_and!; [done|auto..]|].
  apply wp_bind, wp_of_result.
  destruct (validateMutableParameters params) as [[]|e] eqn:Hmut; cbn; [|by split_and!; [done|auto..]].
  apply wp_bind, wp_with_err. eapply wp_mono; [by apply Hk8s|].
  intros [attrs|e] w1 [Hw1 Hattrs]; cbn; [|by split_and!; [done|auto..]].
  rewrite (Hattrs attrs eq_refl). clear attrs Hattrs. apply wp_bind, wp_of_result.
  destruct (validateConstrainedParameterValues _) as [[]|e] eqn:Hcon; cbn; [|by split_and!; [done|auto..]].
  apply wp_bind, wp_of_result.
  destruct (validateWritebackDlmCombo _) as [[]|e] eqn:Hcombo; cbn; [|by split_and!; [done|auto..]].
  destruct (accepted_merge_valid pv params) as [H1 H2]; [|done..|].
  { intros k v Hk. apply validateMutableParameters_inv in Hmut as [Hmut _].
    by apply Hmut in Hk as [? _]. }
  apply wp_with_err. eapply wp_mono; [by apply vac_write_law|].
  intros [[]|e] w2 [Hw2|[Hr Hw2]]; cbn in *; try done; naive_solver.
Qed.
End properties.

(** A relative [path] parameter is accepted and creates the directory below
    the filer's root, but the ID handed out stands for another entry: deletion
    and validation look for it in the buckets directory. *)
Theorem relative_path_mismatch {W} {E : ControllerEnv W} (name : string) :
  resolveVolumePath {["path" := "data/vol"]} name = ("data/vol", "data", "vol") ∧
  splitVolumeId "data/vol" = ("/buckets", "data/vol").
Proof. split; reflexivity. Qed.

(** *** A concrete cluster, for the witnesses

    A filer that keeps directories of names and a map of parameters. *)
Section demo.
Record demo_cluster := DemoCluster {
  demo_dirs : gmap string (list string);
  demo_vac : gmap string strmap;
}.

Definition demo_children (w : demo_cluster) (d : string) : list string :=
  default [] (demo_dirs w !! d).
Definition demo_set (w : demo_cluster) (d : string) (l : list string) : demo_cluster :=
  {| demo_dirs := <[d := l]> (demo_dirs w); demo_vac := demo_vac w |}.

(** Flag the last entry of a listing. *)
Fixpoint flag_last (l : list string) : list (string * bool) :=
  match l with
  | [] => []
  | [x] => [(x, true)]
  | x :: l => (x, false) :: flag_last l
  end.

Definition demo_listing (w : demo_cluster) (d after : string) : list string :=
  filter (λ n, n ≠ "" ∧ (after = "" ∨ String.ltb after n = true)) (demo_children w d).

#[export] Instance demo_controller_env : ControllerEnv demo_cluster := {|
  filer_mkdir d n _ :=
    if String.eqb n "" then throw (Errorf "empty name")
    else modify (λ w, demo_set w d (n :: demo_children w d));
  filer_exists d n := gets (λ w, bool_decide (n ∈ demo_children w d));
  filer_list d after _ := gets (λ w, flag_last (demo_listing w d after));
  filer_remove d n _ :=
    modify (λ w, demo_set w d (filter (λ m, m ≠ n) (demo_children w d)));
  filer_dir_buckets := ret "/buckets";
  is_filer_not_found _ := false;
  ErrNotFound_text := "filer: no entry is found in filer store";
  ExtAllowEmptyFolders := "Seaweed-X-Amz-Allow-Empty-Folders";
  k8s_volume_attributes _ := ret {["ttl" := "1h"]};
  verify_bucket_name n := bool_decide (elem_ok n);
|}.

#[export] Instance demo_vac_store : VacStore demo_cluster := {|
  vac_read v := gets (λ w, default ∅ (demo_vac w !! v));
  vac_write v p := modify (λ w, {| demo_dirs := demo_dirs w; demo_vac := <[v:=p]> (demo_vac w) |});
  vac_delete v := modify (λ w, {| demo_dirs := demo_dirs w; demo_vac := delete v (demo_vac w) |});
|}.

Definition demo_abs (w : demo_cluster) (σ : gmap string strmap) : Prop := demo_vac w = σ.

#[export] Instance demo_vac_laws : VacStoreLaws demo_cluster demo_abs.
Proof.
  split.
  - intros v w σ <-. split; [done|]. by intros m [= <-].
  - intros v p w σ <- _ _. by left.
  - intros v w σ <-. by left.
Qed.

Definition demo_kids (w : demo_cluster) (d : string) : gset string :=
  list_to_set (filter (λ n, n ≠ "") (demo_children w d)).

Lemma demo_children_set w d l d' :
  demo_children (demo_set w d l) d' = if decide (d' = d) then l else demo_children w d'.
Proof.
  unfold demo_children, demo_set. cbn. rewrite lookup_insert.
  repeat case_decide; naive_solver.
Qed.

Lemma flag_last_fst l : (flag_last l).*1 = l.
Proof. induction l as [|x [|y l] IH]; [done|done|]. cbn in *. by rewrite IH. Qed.

#[export] Instance demo_filer_dirs : FilerDirs demo_cluster.
Proof.
  refine {| kids := demo_kids; buckets_dir := "/buckets";
            name_lt a b := String.ltb a b = true |}.
  - intros d after limit w. split; [done|]. split; [done|]. intros es [= <-].
    split.
    + intros n fl Hn. apply (list_elem_of_fmap_2 fst) in Hn. rewrite flag_last_fst in Hn. cbn in Hn.
      apply list_elem_of_filter in Hn as [[Hn _] Hin]. split; [done|].
      apply elem_of_list_to_set, list_elem_of_filter. done.
    + intros n Hn Ha. left. rewrite flag_last_fst.
      apply elem_of_list_to_set, list_elem_of_filter in Hn. apply list_elem_of_filter. naive_solver.
  - intros d n ign w. unfold wp. cbn. split_and!.
    + intros d' m. unfold demo_kids. rewrite demo_children_set. case_decide as Hd; [|done].
      subst d'. rewrite !elem_of_list_to_set, !list_elem_of_filter. naive_solver.
    + intros _. unfold demo_kids. rewrite demo_children_set, decide_True by done.
      rewrite elem_of_list_to_set, !list_elem_of_filter. naive_solver.
    + intros d' _ Hd. unfold demo_kids. by rewrite demo_children_set, decide_False.
  - intros w. split; [done|]. by intros d [= <-].
  - intros d n f w. unfold wp. cbn.
    destruct (String.eqb_spec n ""); [done|]. intros _. cbn. unfold demo_kids.
    rewrite demo_children_set, decide_True by done.
    rewrite elem_of_list_to_set, list_elem_of_filter. split; [done|left].
  - by intros v w d.
Defined.

Definition demo_driver : SeaweedFsDriver := NewSeaweedFsDriver (λ s, [s])
  "seaweedfs-csi-driver" "filer:8888" "node-1" "unix:///csi.sock" "unix:///m.sock" true.

Definition demo_request : CreateVolumeRequest := {|
  cv_name := "pvc-1"; cv_parameters := Some {["replication" := "001"]};
  cv_mutable := {["ttl" := "5m"]}; cv_capabilities := Some [];
  cv_required_bytes := 1000; cv_requisite := []; cv_preferred := [] |}.

(** A bucket "b" with two entries. *)
Definition demo_full : demo_cluster := {|
  demo_dirs := {["/buckets" := ["b"]; "/buckets/b" := ["f"; "g"]]}; demo_vac := ∅ |}.
End demo.

#[local] Existing Instance range_sorted.

Lemma CreateVolume_directory_witness :
  (∀ n, verify_bucket_name n = true → elem_ok n) ∧
  plain_location (default ∅ (cv_parameters demo_request)) (cv_name demo_request) ∧
  ∃ resp, (CreateVolume demo_driver demo_request (DemoCluster ∅ ∅)).1 = Ok resp ∧
    r_capacity resp = 1000%Z ∧
    ∃ parent name,
      splitVolumeId (r_volume_id resp) = (parent, name) ∧
      name ∈ kids (CreateVolume demo_driver demo_request (DemoCluster ∅ ∅)).2 parent.
Proof.
  assert (∀ n, verify_bucket_name n = true → elem_ok n) as H1
    by (intros n Hn; by apply bool_decide_eq_true in Hn).
  assert (plain_location (default ∅ (cv_parameters demo_request)) (cv_name demo_request)) as H2
    by (left; vm_compute; reflexivity).
  split; [exact H1|]. split; [exact H2|].
  pose proof (CreateVolume_directory demo_driver demo_request (DemoCluster ∅ ∅)) as H.
  unfold wp in H. destruct (CreateVolume demo_driver demo_request (DemoCluster ∅ ∅)) as [[resp|e] w'] eqn:Hr.
  - exists resp. destruct (H resp eq_refl) as (parent & name & _ & _ & Hk & Hc & _ & Hs).
    split; [reflexivity|]. split; [exact Hc|]. exists parent, name. split; [exact (Hs H1 H2)|exact Hk].
  - exfalso. vm_compute in Hr. discriminate Hr.
Defined.

Lemma DeleteVolume_empties_first_witness :
  Forall elem_ok ["buckets"] ∧ elem_ok "b" ∧
  splitVolumeId "/buckets/b" = (abs_path ["buckets"], "b") ∧
  effective_buckets_dir = abs_path ["buckets"] ∧
  size (kids demo_full (abs_path (["buckets"] ++ ["b"]))) < 3 ∧
  wp (DeleteVolume demo_driver 3 "/buckets/b") (λ r w',
    r ≠ Ok None ∧
    (∀ d, kids w' d ⊆ kids demo_full d) ∧
    (r = Ok (Some tt) →
       "b" ∉ kids w' (abs_path ["buckets"]) ∧
       kids w' (abs_path (["buckets"] ++ ["b"])) = ∅) ∧
    (kids w' (abs_path (["buckets"] ++ ["b"])) ≠ ∅ →
       kids w' (abs_path ["buckets"]) = kids demo_full (abs_path ["buckets"]))) demo_full ∧
  (DeleteVolume demo_driver 3 "/buckets/b" demo_full).1 = Ok (Some tt).
Proof.
  assert (Forall elem_ok ["buckets"]) as H1 by apply buckets_elems.
  assert (elem_ok "b") as H2 by (apply (bool_decide_unpack _); done).
  assert (splitVolumeId "/buckets/b" = (abs_path ["buckets"], "b")) as H3 by reflexivity.
  assert (effective_buckets_dir = abs_path ["buckets"]) as H4 by reflexivity.
  assert (size (kids demo_full (abs_path (["buckets"] ++ ["b"]))) < 3) as H5
    by (apply (bool_decide_unpack _); vm_compute; done).
  split; [exact H1|]. split; [exact H2|]. split; [exact H3|]. split; [exact H4|].
  split; [exact H5|]. split; [|vm_compute; reflexivity].
  exact (DeleteVolume_empties_first demo_driver 3 "/buckets/b" ["buckets"] "b" demo_full
           H1 H2 H3 H4 H5).
Defined.

Lemma ControllerModifyVolume_sound_witness :
  (∀ w, demo_abs w ∅ → wp (k8s_volume_attributes "/buckets/b")
     (λ r w', demo_abs w' ∅ ∧ ∀ m, r = Ok m → m = {["ttl" := "1h"]}) w) ∧
  demo_abs demo_full ∅ ∧ utf8_map {["ttl" := "5m"]} ∧
  wp (ControllerModifyVolume "/buckets/b" {["ttl" := "5m"]}) (λ r w',
    (r = Ok tt → demo_abs w' (<["/buckets/b":={["ttl" := "5m"]}]> ∅)) ∧
    ((∃ m, r = Err (Status InvalidArgument m)) → demo_abs w' ∅) ∧
    (demo_abs w' ∅ ∨
     demo_abs w' (<["/buckets/b":={["ttl" := "5m"]}]> ∅) ∧
     validateMutableParameters {["ttl" := "5m"]} = Ok tt ∧
     validateConstrainedParameterValues
       (mergePersistedVolumeAttributes {["ttl" := "1h"]} {["ttl" := "5m"]}) = Ok tt ∧
     validateWritebackDlmCombo
       (mergePersistedVolumeAttributes {["ttl" := "1h"]} {["ttl" := "5m"]}) = Ok tt)) demo_full ∧
  (ControllerModifyVolume "/buckets/b" {["ttl" := "5m"]} demo_full).1 = Ok tt.
Proof.
  assert (∀ w, demo_abs w ∅ → wp (k8s_volume_attributes "/buckets/b")
     (λ r w', demo_abs w' ∅ ∧ ∀ m, r = Ok m → m = {["ttl" := "1h"]}) w) as H1
    by (intros w Hw; apply wp_ret; split; [exact Hw|]; intros m [= <-]; reflexivity).
  assert (demo_abs demo_full ∅) as H2 by reflexivity.
  assert (utf8_map {["ttl" := "5m"]}) as H3 by (apply (bool_decide_unpack _); vm_compute; done).
  split; [exact H1|]. split; [exact H2|]. split; [exact H3|]. split; [|vm_compute; reflexivity].
  exact (ControllerModifyVolume_sound (abs := demo_abs) {["ttl" := "1h"]} "/buckets/b"
           {["ttl" := "5m"]} demo_full ∅ H1 H2 H3).
Defined.
