(* ===== verification/MountFlags.v ===== *)
(** * What the mount service's weed accepts

    Models [pkg/mountmanager/mount_flags.go]: the flags listed by
    [weed mount -h], the flags a mount must not run without, and the filter
    that drops the others. Running the binary is a parameter. *)

From S2P Require Import Prelude GoLib.
#[local] Open Scope go_scope.

Definition RequiredMountFlags : list string :=
  ["dir"; "dirAutoCreate"; "filer"; "filer.path"; "collection"; "collectionQuotaMB";
   "readOnly"; "localSocket"; "cacheDir"; "umask"; "winfspMountRoots"; "map.uid";
   "map.gid"; "replication"; "ttl"; "disk"; "dlm"].

Record weedMountFlags := { defined : gset string; version : string }.

(** ** [bufio.Scanner] with its default line splitter

    A line ends at a newline and loses one trailing carriage return; a line
    that does not fit the 64 KiB buffer ends the scan. *)
Definition MaxScanTokenSize : Z := 65536.

Definition drop_cr (line : string) : string := Strings.TrimSuffix line (String "013" "").

Fixpoint scan_lines_list (l : list string) : list string :=
  match l with
  | [] => []
  | [line] => if String.eqb line "" || (MaxScanTokenSize <=? Z.of_nat (String.length line))%Z then []
              else [drop_cr line]
  | line :: l => if (MaxScanTokenSize <=? Z.of_nat (String.length line))%Z then []
                 else drop_cr line :: scan_lines_list l
  end.
Definition scan_lines (s : string) : list string := scan_lines_list (Strings.Split s "010").

(** The regular expression [^  -([^\s=]+)]: its first submatch. *)
Definition is_flag_chr (c : ascii) : bool :=
  negb (existsb (chr_eqb c) ["009"; "010"; "012"; "013"; " "; "="])%char.

Fixpoint take_flag (s : string) : string :=
  match s with
  | String c s => if is_flag_chr c then String c (take_flag s) else ""
  | EmptyString => ""
  end.

Definition helpFlagLine (line : string) : option string :=
  if Strings.HasPrefix line "  -" then
    let name := take_flag (Strings.sdrop 3 line) in
    if String.eqb name "" then None else Some name
  else None.

Definition parseWeedMountHelp (help : string) : gset string :=
  list_to_set (omap helpFlagLine (scan_lines help)).

(** [probeWeedMountFlags]: [help] is the outcome of [weed mount -h], the output
    with the exit error if any, or the error of a command that did not run;
    [ver] is the outcome of [weed version]. *)
Definition probeWeedMountFlags (binary : string) (help : string * option error + error)
    (ver : result string)
    : result weedMountFlags :=
  match help with
  | inr e => Err (Errorf ("running " +:+ binary +:+ " mount -h: " +:+ err_msg e))
  | inl (help, err) =>
      let defined := parseWeedMountHelp help in
      if bool_decide (defined = ∅) then
        let first := (Strings.Cut (Strings.TrimSpace help) (String "010" "")).1.1 in
        Err (Errorf (binary +:+ " mount -h listed no flags (" +:+ from_option err_msg "<nil>" err
               +:+ "): " +:+ Strconv.Quote first))
      else
        let version :=
          match ver with
          | Err _ => "unknown version"
          | Ok out =>
              default "unknown version"
                (head (filter (λ l, l ≠ "") (Strings.TrimSpace <$> Strings.Split out "010")))
          end in
        Ok {| defined := defined; version := version |}
  end.

(** [Manager.mountFlags]: the flags read once are kept; a probe that fails is
    repeated by the next mount. The result, and what the manager keeps. *)
Definition mountFlags (binary : string) (kept : option weedMountFlags)
    (help : string * option error + error) (ver : result string)
    : option weedMountFlags * option weedMountFlags :=
  match kept with
  | Some flags => (Some flags, kept)
  | None =>
      match probeWeedMountFlags binary help ver with
      | Err _ => (None, None)
      | Ok flags => (Some flags, Some flags)
      end
  end.

(** ** Filtering the arguments *)
Definition mountFlagName (arg : string) : string :=
  (Strings.Cut (Strings.TrimPrefix (Strings.TrimPrefix arg "-") "-") "=").1.1.

Definition requiredSet (required : list string) : gset string :=
  list_to_set RequiredMountFlags ∪ list_to_set required.

(** One iteration of the loop over the arguments after [mount]. *)
Definition filter_step (flags : weedMountFlags) (req : gset string)
    (acc : list string * list string * list string) (arg : string)
    : list string * list string * list string :=
  let '(filtered, missing, dropped) := acc in
  let name := mountFlagName arg in
  if bool_decide (name ∈ defined flags) || negb (Strings.HasPrefix arg "-") then
    (filtered ++ [arg], missing, dropped)
  else if bool_decide (name ∈ req) then (filtered, missing ++ ["-" +:+ name], dropped)
  else (filtered, missing, dropped ++ [arg]).

(** The arguments up to and with the first [mount], and those after it. *)
Fixpoint cut_mount (args : list string) : option (list string * list string) :=
  match args with
  | [] => None
  | arg :: args =>
      if String.eqb arg "mount" then Some ([arg], args)
      else '(pre, rest) ← cut_mount args; Some (arg :: pre, rest)
  end.

Definition filterMountArgs (args : list string) (flags : weedMountFlags) (required : list string)
    : result (list string) :=
  match cut_mount args with
  | None => Ok args
  | Some (pre, rest) =>
      let '(filtered, missing, _) :=
        foldl (filter_step flags (requiredSet required)) (pre, [], []) rest in
      if negb (bool_decide (missing = [])) then
        Err (Errorf ("weed mount (" +:+ version flags +:+ ") in the mount service does not define required flag(s) "
               +:+ Strings.Join missing ", "
               +:+ "; the seaweedfs-mount image is older than the CSI node plugin needs"))
      else Ok filtered
  end.

(** ** Lemmas *)

(** The flags a manager has read never change. *)
Lemma mountFlags_stable binary kept help ver help' ver' flags :
  (mountFlags binary kept help ver).1 = Some flags →
  (mountFlags binary (mountFlags binary kept help ver).2 help' ver').1 = Some flags.
Proof.
  unfold mountFlags. destruct kept as [f|]; [done|].
  by destruct (probeWeedMountFlags binary help ver).
Qed.

Section filter.
Context (flags : weedMountFlags) (required : list string).

(** The arguments weed accepts as they are. *)
Definition accepted (arg : string) : Prop :=
  mountFlagName arg ∈ defined flags ∨ Strings.HasPrefix arg "-" = false.

#[export] Instance accepted_dec arg : Decision (accepted arg).
Proof. apply _. Defined.

(** A flag that must reach weed and that weed does not define. *)
Definition missing_flag (arg : string) : Prop :=
  ¬ accepted arg ∧ mountFlagName arg ∈ requiredSet required.

#[export] Instance missing_flag_dec arg : Decision (missing_flag arg).
Proof. apply _. Defined.

Lemma filter_step_foldl rest f m d :
  ∃ d', foldl (filter_step flags (requiredSet required)) (f, m, d) rest =
    (f ++ filter accepted rest,
     m ++ ((λ a, "-" +:+ mountFlagName a) <$> filter missing_flag rest), d').
Proof.
  revert f m d. induction rest as [|a rest IH]; intros f m d.
  { exists d. cbn. by rewrite !app_nil_r. }
  cbn [foldl]. unfold filter_step at 2. cbn zeta.
  destruct (bool_decide (mountFlagName a ∈ defined flags) || negb (Strings.HasPrefix a "-")) eqn:Ha.
  - assert (accepted a) as Hacc.
    { apply orb_true_iff in Ha as [Ha%bool_decide_eq_true|Ha%negb_true_iff]; [by left|by right]. }
    destruct (IH (f ++ [a]) m d) as [d' ->]. exists d'.
    rewrite filter_cons_True by done. rewrite (filter_cons_False missing_flag) by (by intros []).
    by rewrite <- app_assoc.
  - assert (¬ accepted a) as Hacc.
    { intros [Hin|Hp]; [by rewrite bool_decide_true in Ha|]. rewrite Hp, orb_true_r in Ha. done. }
    rewrite filter_cons_False by done.
    destruct (bool_decide (mountFlagName a ∈ requiredSet required)) eqn:Hreq;
      [apply bool_decide_eq_true in Hreq|apply bool_decide_eq_false in Hreq].
    + destruct (IH f (m ++ ["-" +:+ mountFlagName a]) d) as [d' ->]. exists d'.
      rewrite (filter_cons_True missing_flag) by done. by rewrite <- app_assoc.
    + destruct (IH f m (d ++ [a])) as [d' ->]. exists d'.
      rewrite (filter_cons_False missing_flag) by (by intros []). done.
Qed.

Lemma cut_mount_Some args pre rest :
  cut_mount args = Some (pre, rest) →
  args = pre ++ rest ∧ ∃ pre', pre = pre' ++ ["mount"] ∧ "mount" ∉ pre'.
Proof.
  revert pre. induction args as [|a args IH]; intros pre; [done|]. cbn.
  destruct (String.eqb_spec a "mount") as [->|Ha].
  - intros [= <- <-]. split; [done|]. exists []. split; [done|]. apply not_elem_of_nil.
  - destruct (cut_mount args) as [[pre1 rest1]|]; [|done]. intros [= <- <-].
    destruct (IH pre1 eq_refl) as (-> & pre' & -> & Hn). split; [done|].
    exists (a :: pre'). split; [done|]. apply not_elem_of_cons. by split.
Qed.

Lemma cut_mount_app pre rest :
  "mount" ∉ pre → cut_mount (pre ++ "mount" :: rest) = Some (pre ++ ["mount"], rest).
Proof.
  induction pre as [|a pre IH]; [done|]. intros [Ha Hpre]%not_elem_of_cons. cbn.
  destruct (String.eqb_spec a "mount"); [by subst|]. by rewrite IH.
Qed.

(** The filter as a function of the arguments before and after [mount]. *)
Lemma filterMountArgs_app pre rest :
  "mount" ∉ pre →
  (Forall (λ a, ¬ missing_flag a) rest ∧
   filterMountArgs (pre ++ "mount" :: rest) flags required =
     Ok (pre ++ "mount" :: filter accepted rest)) ∨
  ((∃ a, a ∈ rest ∧ missing_flag a) ∧
   ∃ e, filterMountArgs (pre ++ "mount" :: rest) flags required = Err e).
Proof.
  intros Hpre. unfold filterMountArgs. rewrite cut_mount_app by done.
  destruct (filter_step_foldl rest (pre ++ ["mount"]) [] []) as [d ->]. cbn [app].
  destruct (filter missing_flag rest) as [|a l] eqn:Hm; cbn.
  - left. split; [|by rewrite <- app_assoc].
    apply Forall_forall. intros a Ha Hma.
    assert (a ∈ filter missing_flag rest) as H by (by apply list_elem_of_filter).
    rewrite Hm in H. by apply elem_of_nil in H.
  - right. split; [|by eexists]. exists a.
    assert (a ∈ filter missing_flag rest) as H by (rewrite Hm; left).
    apply list_elem_of_filter in H. naive_solver.
Qed.
End filter.

(** *** The text [flag.PrintDefaults] prints

    A flag with its type as the usage text names it, empty for a boolean, and its
    usage text with the default value. A flag whose line is that short has its usage on
    the same line; every later line of the usage is indented. *)
Record flag_help := { f_name : string; f_type : string; f_usage : string }.

Definition nl : ascii := "010".
Definition flag_line (f : flag_help) : string :=
  "  -" +:+ f_name f +:+ (if String.eqb (f_type f) "" then "" else " " +:+ f_type f).
Definition usage_line (usage : string) : string := "    " +:+ String "009" usage.
Definition flag_lines (f : flag_help) : list string :=
  match Strings.Split (f_usage f) nl with
  | usage :: more =>
      if String.length (flag_line f) <=? 4
      then (flag_line f +:+ String "009" usage) :: (usage_line <$> more)
      else flag_line f :: usage_line usage :: (usage_line <$> more)
  | [] => [flag_line f]
  end.
Definition print_lines (l : list string) : string :=
  String.concat "" ((λ line, line +:+ String nl "") <$> l).
Definition PrintDefaults (l : list flag_help) : string := print_lines (concat (flag_lines <$> l)).

Definition line_ok (line : string) : Prop :=
  no_byte nl line ∧ no_byte "013" line ∧ (Z.of_nat (String.length line) < MaxScanTokenSize)%Z.
#[export] Instance line_ok_dec line : Decision (line_ok line).
Proof. unfold line_ok, no_byte. apply _. Defined.

(** A flag whose lines the scanner reads whole. *)
Definition flag_ok (f : flag_help) : Prop :=
  f_name f ≠ "" ∧ Strings.sexists (negb ∘ is_flag_chr) (f_name f) = false ∧
  Forall line_ok (flag_lines f).
#[export] Instance flag_ok_dec f : Decision (flag_ok f).
Proof. apply _. Defined.

Lemma drop_cr_ok line : no_byte "013" line → drop_cr line = line.
Proof.
  intros Hn. unfold drop_cr, Strings.TrimSuffix, Strings.HasSuffix, Strings.HasPrefix.
  destruct (String.prefix _ _) eqn:Hp; [|done]. exfalso.
  assert ("013"%char ∈ String.list_ascii_of_string line) as Hin.
  { apply prefix_inv in Hp. apply (f_equal String.list_ascii_of_string) in Hp.
    unfold Strings.rev_string at 1 in Hp.
    rewrite String.list_ascii_of_string_of_list_ascii in Hp. cbn in Hp.
    apply list_elem_of_In, in_rev, list_elem_of_In. rewrite Hp. left. }
  clear Hp. induction line as [|c line IH]; [by apply elem_of_nil in Hin|].
  apply no_byte_cons in Hn as [Hc Hn]. cbn in Hin.
  apply elem_of_cons in Hin as [?|Hin]; [done|by apply IH].
Qed.

Lemma helpFlagLine_flag f tail :
  f_name f ≠ "" → Strings.sexists (negb ∘ is_flag_chr) (f_name f) = false → take_flag tail = "" →
  helpFlagLine (flag_line f +:+ tail) = Some (f_name f).
Proof.
  intros Hne Hchr Htail. unfold helpFlagLine, flag_line, Strings.HasPrefix.
  rewrite <- !sapp_assoc, prefix_app. rewrite (sdrop_app "  -").
  set (rest := (if String.eqb (f_type f) "" then _ else _) +:+ tail).
  assert (take_flag rest = "") as Hrest by (subst rest; by destruct (String.eqb _ _)).
  assert (take_flag (f_name f +:+ rest) = f_name f) as ->.
  { induction (f_name f) as [|c s IH]; [done|].
    cbn in Hchr. apply orb_false_iff in Hchr as [Hc%negb_false_iff Hs]. cbn. rewrite Hc.
    destruct s as [|d s]; [cbn; by rewrite Hrest|]. by rewrite IH. }
  by apply String.eqb_neq in Hne as ->.
Qed.

(** The lines of a flag give its name, once. *)
Lemma helpFlagLine_lines f : flag_ok f → omap helpFlagLine (flag_lines f) = [f_name f].
Proof.
  intros (Hne & Hchr & _).
  assert (∀ l, omap helpFlagLine (usage_line <$> l) = []) as Hnone by (intros l; by induction l).
  unfold flag_lines. pose proof (helpFlagLine_flag f "" Hne Hchr eq_refl) as Hf.
  rewrite sapp_nil_r in Hf.
  destruct (Strings.Split (f_usage f) nl) as [|u us]; [cbn [omap list_omap]; by rewrite Hf|].
  destruct (_ <=? 4); cbn [omap list_omap].
  - by rewrite helpFlagLine_flag, Hnone.
  - by rewrite Hf, Hnone.
Qed.

Lemma scan_lines_cons line s :
  line_ok line → scan_lines (line +:+ String nl s) = line :: scan_lines s.
Proof.
  intros (Hnl & Hcr & Hlen). unfold scan_lines. rewrite Split_app_sep, Split_no_byte by done.
  cbn [app]. pose proof (split_by_nonnil (chr_eqb "010") s) as Hs.
  change (Strings.split_by _ s) with (Strings.Split s "010") in Hs.
  destruct (Strings.Split s "010") as [|x l] eqn:E; [done|]. cbn [scan_lines_list].
  destruct (Z.leb_spec MaxScanTokenSize (Z.of_nat (String.length line))); [lia|].
  by rewrite drop_cr_ok.
Qed.

Lemma scan_lines_print l : Forall line_ok l → scan_lines (print_lines l) = l.
Proof.
  induction 1 as [|line l Hl Hls IH]; [done|]. unfold print_lines. cbn [fmap list_fmap].
  assert (∀ a l, String.concat "" (a :: l) = a +:+ String.concat "" l) as ->.
  { intros a []; [by rewrite sapp_nil_r|done]. }
  rewrite <- sapp_assoc. cbn [String.append]. rewrite scan_lines_cons by done. by f_equal.
Qed.

(** ** Properties *)

(** C40. The probe reads back the flags of a help text: parsing what
    [flag.PrintDefaults] prints for a list of flags, after any usage lines
    that are not flag lines, gives exactly their names. *)
Theorem parseWeedMountHelp_PrintDefaults (header : string) (l : list flag_help) :
  line_ok header → helpFlagLine header = None → Forall flag_ok l →
  parseWeedMountHelp (header +:+ String nl (PrintDefaults l)) = list_to_set (f_name <$> l).
Proof.
  intros Hh Hnone Hl. unfold parseWeedMountHelp. rewrite scan_lines_cons by done.
  cbn [omap list_omap]. rewrite Hnone. f_equal. unfold PrintDefaults.
  rewrite scan_lines_print.
  - clear Hh Hnone. induction Hl as [|f l Hf Hl IH]; [done|]. cbn [fmap list_fmap concat].
    by rewrite omap_app, helpFlagLine_lines, IH.
  - clear Hh Hnone. induction Hl as [|f l (_ & _ & Hf) Hl IH]; [constructor|].
    cbn [fmap list_fmap concat]. by apply Forall_app.
Qed.

Section properties.
Context (flags : weedMountFlags) (required : list string).

(** C34. Filtering an argument list either reports a required flag that weed does
    not define, or keeps everything up to [mount] and, in order, exactly the
    later arguments weed accepts: no required flag is ever dropped, no
    undefined flag reaches weed, and filtering again changes nothing. *)
Theorem filterMountArgs_spec (pre rest : list string) :
  "mount" ∉ pre →
  match filterMountArgs (pre ++ "mount" :: rest) flags required with
  | Ok out =>
      out = pre ++ "mount" :: filter (accepted flags) rest ∧
      (∀ a, a ∈ rest → mountFlagName a ∈ RequiredMountFlags ++ required → a ∈ out) ∧
      (∀ a, a ∈ rest → Strings.HasPrefix a "-" = true → a ∈ drop (length pre) out →
         mountFlagName a ∈ defined flags) ∧
      filterMountArgs out flags required = Ok out
  | Err _ =>
      ∃ a, a ∈ rest ∧ Strings.HasPrefix a "-" = true ∧ mountFlagName a ∉ defined flags ∧
        mountFlagName a ∈ RequiredMountFlags ++ required
  end.
Proof.
  intros Hpre.
  destruct (filterMountArgs_app flags required pre rest Hpre) as
    [[Hall Heq]|[(a & Ha & Hna & Hreq) [e Heq]]]; rewrite Heq.
  - rewrite Forall_forall in Hall. split_and!; [done| | |].
    + intros a Ha Hreq. apply elem_of_app. right. right. apply list_elem_of_filter.
      split; [|done]. destruct (decide (accepted flags a)) as [|Hna]; [done|].
      destruct (Hall a Ha). split; [done|]. unfold requiredSet. set_solver.
    + intros a Ha Hd. rewrite drop_app_length. intros [->|Hin]%elem_of_cons; [done|].
      apply list_elem_of_filter in Hin as [[?|?] _]; [done|congruence].
    + destruct (filterMountArgs_app flags required pre (filter (accepted flags) rest) Hpre) as
        [[_ ->]|[(b & Hb & Hnb & _) _]].
      * do 2 f_equal. f_equal. rewrite list_filter_filter_l; [done|]. done.
      * by apply list_elem_of_filter in Hb as [? _].
  - exists a. unfold accepted in Hna. split_and!; [done| |set_solver|].
    + destruct (Strings.HasPrefix a "-"); [done|]. destruct Hna. by right.
    + unfold requiredSet in Hreq. set_solver.
Qed.
End properties.

Definition demo_flags : weedMountFlags :=
  {| defined := {["dir"; "filer"]}; version := "weed 3.80" |}.

Lemma filterMountArgs_spec_witness :
  "mount" ∉ ["-logtostderr=true"] ∧
  (let rest := ["-dir=/t"; "-filer=f:8888"; "-cacheMetaTtlSec=60"] in
   match filterMountArgs (["-logtostderr=true"] ++ "mount" :: rest) demo_flags ["filer"] with
   | Ok out =>
       out = ["-logtostderr=true"] ++ "mount" :: filter (accepted demo_flags) rest ∧
       (∀ a, a ∈ rest → mountFlagName a ∈ RequiredMountFlags ++ ["filer"] → a ∈ out) ∧
       (∀ a, a ∈ rest → Strings.HasPrefix a "-" = true → a ∈ drop 1 out →
          mountFlagName a ∈ defined demo_flags) ∧
       filterMountArgs out demo_flags ["filer"] = Ok out
   | Err _ =>
       ∃ a, a ∈ rest ∧ Strings.HasPrefix a "-" = true ∧ mountFlagName a ∉ defined demo_flags ∧
         mountFlagName a ∈ RequiredMountFlags ++ ["filer"]
   end) ∧
  filterMountArgs ["mount"; "-dir=/t"; "-cacheMetaTtlSec=60"] demo_flags [] = Ok ["mount"; "-dir=/t"].
Proof.
  assert ("mount" ∉ ["-logtostderr=true"]) as H by (apply (bool_decide_unpack _); vm_compute; done).
  split; [exact H|]. split; [|vm_compute; reflexivity].
  exact (filterMountArgs_spec demo_flags ["filer"] ["-logtostderr=true"]
           ["-dir=/t"; "-filer=f:8888"; "-cacheMetaTtlSec=60"] H).
Defined.

Definition demo_help : list flag_help :=
  [{| f_name := "dir"; f_type := "string"; f_usage := "mount weed filer to this directory" |};
   {| f_name := "readOnly"; f_type := ""; f_usage := "read only" +:+ String nl "files cannot be written" |};
   {| f_name := "v"; f_type := ""; f_usage := "verbose" |}].

Lemma parseWeedMountHelp_PrintDefaults_witness :
  line_ok "Example: weed mount -filer=localhost:8888" ∧
  helpFlagLine "Example: weed mount -filer=localhost:8888" = None ∧
  Forall flag_ok demo_help ∧
  parseWeedMountHelp ("Example: weed mount -filer=localhost:8888"
                      +:+ String nl (PrintDefaults demo_help)) =
    list_to_set (f_name <$> demo_help).
Proof.
  assert (line_ok "Example: weed mount -filer=localhost:8888") as H1
    by (apply (bool_decide_unpack _); vm_compute; done).
  assert (helpFlagLine "Example: weed mount -filer=localhost:8888" = None) as H2 by reflexivity.
  assert (Forall flag_ok demo_help) as H3 by (apply (bool_decide_unpack _); vm_compute; done).
  split; [exact H1|]. split; [exact H2|]. split; [exact H3|].
  exact (parseWeedMountHelp_PrintDefaults _ demo_help H1 H2 H3).
Defined.
