(* ===== verification/Calls.v ===== *)
(** * Calls of a host by straight-line code

    Code that runs alone and calls its host, for which the monad [M] is enough: the
    state is the host's own, of any type, with the calls made so far and their
    answers. The host is any function from a call and its state to an answer and its
    next state. [Host] has the actions of the node plugin, which interleave. *)

From S2P Require Import Prelude.
#[local] Open Scope go_scope.

Section calls.
Context {E : Type → Type}.

Inductive seen :=
  | Seen (X : Type) (e : E X) (x : X).
Definition calls : Type := list seen.

Context {W : Type} (host : ∀ X, E X → W → X * W).

Definition perform {X} (e : E X) : M (W * calls) X := λ s,
  let '(x, w) := host X e s.1 in (Ok x, (w, s.2 ++ [Seen X e x])).

(** A call whose error is returned. *)
Definition call {X} (e : E (result X)) : M (W * calls) X :=
  let! r := perform e in of_result r.

Lemma wp_perform_host {X} (e : E X) Q w l :
  (∀ x w', host X e w = (x, w') → Q (Ok x) (w', l ++ [Seen X e x])) → wp (perform e) Q (w, l).
Proof. intros H. unfold wp, perform. cbn. destruct (host X e w) as [x w'] eqn:He. by apply H. Qed.

Lemma wp_call_host {X} (e : E (result X)) Q w l :
  (∀ r w', host _ e w = (r, w') → Q r (w', l ++ [Seen _ e r])) → wp (call e) Q (w, l).
Proof. intros H. apply wp_bind, wp_perform_host. intros x w' Hx. by apply H. Qed.

Lemma wp_perform {X} (e : E X) Q w l :
  (∀ x w', Q (Ok x) (w', l ++ [Seen X e x])) → wp (perform e) Q (w, l).
Proof. intros H. apply wp_perform_host. auto. Qed.

Lemma wp_call {X} (e : E (result X)) Q w l :
  (∀ r w', Q r (w', l ++ [Seen _ e r])) → wp (call e) Q (w, l).
Proof. intros H. apply wp_call_host. auto. Qed.
End calls.

Arguments seen E : clear implicits.
Arguments calls E : clear implicits.
Arguments Seen {E X} e x.

(** A host whose answers depend on the calls before them only. *)
Definition scripted {E : Type → Type} (answers : ∀ X, E X → calls E → X) (X : Type) (e : E X)
    (l : calls E) : X * calls E :=
  let x := answers X e l in (x, l ++ [Seen e x]).
