(* ===== verification/WinPath.v ===== *)
(** * Package path/filepath on Windows

    The functions the Windows build uses, for paths that start with a drive or with
    a share ([\\host\share]); device paths ([\\.\], [\\?\]) are left out. *)

From S2P Require Import Prelude GoLib.
#[local] Open Scope go_scope.

Module WinPath.
Import Strings.

Definition is_sep (c : ascii) : bool := chr_eqb c "\" || chr_eqb c "/".
Definition ToSlash (p : string) : string := ReplaceChr p "\" "/".
Definition FromSlash (p : string) : string := ReplaceChr p "/" "\".

(** The bytes before the first separator, and the rest. *)
Fixpoint span_elem (p : string) : string * string :=
  match p with
  | EmptyString => ("", "")
  | String c p' => if is_sep c then ("", p) else let '(a, b) := span_elem p' in (String c a, b)
  end.

(** The volume of a path, and what follows it. *)
Definition split_volume (p : string) : string * string :=
  match p with
  | String d (String ":" rest) => (String d ":", rest)
  | String a (String b rest) =>
      if is_sep a && is_sep b then
        let '(server, rest) := span_elem rest in
        match rest with
        | String c rest =>
            if String.eqb server "" then ("", p)
            else let '(share, rest) := span_elem rest in
                 (String a (String b (server +:+ String c share)), rest)
        | EmptyString => ("", p)
        end
      else ("", p)
  | _ => ("", p)
  end.
Definition VolumeName (p : string) : string := (split_volume p).1.

Definition Clean (p : string) : string :=
  let '(vol, rest) := split_volume p in
  if String.eqb rest "" && (2 <? String.length vol)%nat then FromSlash p
  else FromSlash vol +:+ FromSlash (Path.Clean (ToSlash rest)).

(** Each element after the first non-empty one: no second separator after one, and
    none after the colon of a drive. *)
Fixpoint trim_seps (p : string) : string :=
  match p with
  | String c p' => if is_sep c then trim_seps p' else p
  | EmptyString => ""
  end.
Definition last_byte (p : string) : option ascii := last (String.list_ascii_of_string p).
Definition join_elem (acc e : string) : string :=
  match last_byte acc with
  | None => e
  | Some c =>
      if is_sep c then acc +:+ trim_seps e
      else if chr_eqb c ":" then acc +:+ e
      else acc +:+ String "\" e
  end.
Definition Join (l : list string) : string :=
  let joined := foldl join_elem "" l in
  if String.eqb joined "" then "" else Clean joined.

Definition IsAbs (p : string) : bool :=
  let '(vol, rest) := split_volume p in
  if String.eqb vol "" then false
  else if (2 <? String.length vol)%nat then true
  else match rest with String c _ => is_sep c | EmptyString => false end.

(** The suffix from the last dot of the last element. *)
Fixpoint ext_from (p acc : string) : string :=
  match p with
  | EmptyString => acc
  | String c p' => ext_from p' (if chr_eqb c "." then p else if is_sep c then "" else acc)
  end.
Definition Ext (p : string) : string := ext_from p "".

Definition Dir (p : string) : string :=
  let '(vol, rest) := split_volume p in
  let dir := match removelast (split_by is_sep rest) with
             | [] => Clean ""
             | l => Clean (Strings.Join l "\" +:+ "\")
             end in
  if String.eqb dir "." && (2 <? String.length vol)%nat then vol else vol +:+ dir.

(** [strings.EqualFold] of ASCII texts. *)
Definition EqualFold (a b : string) : bool := String.eqb (ToLower a) (ToLower b).
End WinPath.

Example clean_win : map WinPath.Clean ["C:\a\..\b/c"; "C:"; "c:\"; "\\h\s\x\..\.."; "a\\.\b"; ""; "\\h\s"; "C:x\..\.."]
  = ["C:\b\c"; "C:."; "c:\"; "\\h\s\"; "a\b"; "."; "\\h\s"; "C:.."].
Proof. vm_compute. reflexivity. Qed.
Example join_win : map WinPath.Join [["C:\Windows"; "Temp"]; ["C:"; "x"]; ["C:\"; "\x"]; [""; "a/b"]; []]
  = ["C:\Windows\Temp"; "C:x"; "C:\x"; "a\b"; ""].
Proof. vm_compute. reflexivity. Qed.
Example abs_win : map WinPath.IsAbs ["C:\x"; "C:x"; "\x"; "\\h\s"; "weed.exe"; "C:/x"]
  = [true; false; false; true; false; true].
Proof. vm_compute. reflexivity. Qed.
Example ext_dir_win : map (λ p, (WinPath.Ext p, WinPath.Dir p)) ["C:\a.b\weed"; "weed.EXE"; "C:\x\weed.exe"; "weed."]
  = [("", "C:\a.b"); (".EXE", "."); (".exe", "C:\x"); (".", ".")].
Proof. vm_compute. reflexivity. Qed.
