(* ===== verification/WinFsp.v ===== *)
(** * Installing WinFsp

    Models [pkg/mountmanager/winfsp_install.go], which is compiled on every
    platform and is given the registry and msiexec as functions: the check, the
    copy of the installer, its run and the clean-up. The host answers every call;
    the log keeps the calls with their answers. Paths are those of Windows, where it
    runs; [WinRegistry] puts the registry and msiexec in. *)

From S2P Require Import Prelude GoLib WinPath Calls.
#[local] Open Scope go_scope.

Definition PinnedWinFspVersion : string := "2.1.25156".

Record WinFspInstaller := { MSI : string; Version : string; StagingDir : string }.

Inductive installE : Type → Type :=
  | Installed : installE (result (string * bool))
  | RunMsiexec (args : list string) : installE (result Z)
  | Open (p : string) : installE (result unit)
  | OpenFile (p : string) : installE (result unit)       (** write, create, truncate *)
  | Copy (dst src : string) : installE (result unit)     (** [io.Copy] *)
  | Close (p : string) : installE (result unit)
  | Remove (p : string) : installE (result unit).

Section install.
Context {W : Type} (host : ∀ X, installE X → W → X * W) (w : WinFspInstaller).
#[local] Abbreviation M := (M (W * calls installE)).
#[local] Abbreviation perform := (perform host).
#[local] Abbreviation call := (call host).

Definition requireVersion (installed : string) : result unit :=
  if negb (String.eqb (Version w) "") && negb (String.eqb installed (Version w)) then
    Err (Errorf ("host runs WinFsp " +:+ Strconv.Quote installed
           +:+ ", but this mount image ships the DLL for WinFsp " +:+ Version w
           +:+ "; install WinFsp " +:+ Version w +:+ " on the host"))
  else Ok tt.

Definition copyFile (source target : string) : M unit :=
  call (Open source) ;;!
  let! r := attempt (
    call (OpenFile target) ;;!
    let! copied := perform (Copy target source) in
    let! closed := perform (Close target) in
    of_result (match copied with Err e => Err e | Ok _ => closed end)) in
  perform (Close source) ;;!
  of_result r.

Definition staged : string := WinPath.Join [StagingDir w; "winfsp.msi"].
Definition logPath : string := WinPath.Join [StagingDir w; "seaweedfs-winfsp-install.log"].
Definition msiArgs : list string := ["/i"; staged; "/qn"; "INSTALLLEVEL=1000"; "/l*v"; logPath].

(** What follows the copy, until the deferred removal of the copy. *)
Definition install : M unit :=
  let! code := with_err (λ e, Errorf ("running msiexec (log " +:+ logPath +:+ "): " +:+ err_msg e))
    (call (RunMsiexec msiArgs)) in
  if negb (Z.eqb code 0) then
    throw (Errorf ("WinFsp " +:+ Version w +:+ " MSI install failed with exit code "
             +:+ Strconv.FormatInt code +:+ "; msiexec log " +:+ logPath))
  else
    let! (version, installed) :=
      with_err (λ e, Errorf ("checking for WinFsp after install: " +:+ err_msg e)) (call Installed) in
    if negb installed then
      throw (Errorf ("WinFsp is still not installed after a successful MSI install; msiexec log " +:+ logPath))
    else
      with_err (λ e, Errorf ("after install: " +:+ err_msg e +:+ "; msiexec log " +:+ logPath))
        (of_result (requireVersion version)) ;;!
      perform (Remove logPath) ;;!
      ret tt.

Definition Ensure : M unit :=
  let! (version, installed) :=
    with_err (λ e, Errorf ("checking for WinFsp: " +:+ err_msg e)) (call Installed) in
  if installed : bool then of_result (requireVersion version)
  else
    with_err (λ e, Errorf ("copying the WinFsp MSI to " +:+ staged +:+ ": " +:+ err_msg e))
      (copyFile (MSI w) staged) ;;!
    let! r := attempt install in
    perform (Remove staged) ;;!
    of_result r.

(** ** What the log tells *)
Definition checks (l : calls installE) : list (result (string * bool)) :=
  omap (λ '(Seen e x), match e in installE X return X → _ with Installed => Some | _ => λ _, None end x) l.
Definition installs (l : calls installE) : list (list string) :=
  omap (λ '(Seen e _), match e with RunMsiexec args => Some args | _ => None end) l.
Definition removals (l : calls installE) : list string :=
  omap (λ '(Seen e _), match e with Remove p => Some p | _ => None end) l.
(** The latest check, if msiexec did not run after it. *)
Definition latest_step (o : seen installE) (known : option (result (string * bool)))
    : option (result (string * bool)) :=
  let '(Seen e x) := o in
  match e in installE X return X → _ with
  | Installed => Some
  | RunMsiexec _ => λ _, None
  | _ => λ _, known
  end x.
Definition latest (l : calls installE) : option (result (string * bool)) :=
  foldl (λ known o, latest_step o known) None l.

(** Another call than these. *)
Definition quiet {X} (e : installE X) : Prop :=
  match e with Installed | RunMsiexec _ | Remove _ => False | _ => True end.

(** The log as far as it is looked at. *)
Record view := View { v_checks : list (result (string * bool)); v_installs : list (list string);
                      v_removals : list string; v_latest : option (result (string * bool)) }.
Definition as_seen (l : calls installE) : view := View (checks l) (installs l) (removals l) (latest l).
Definition view_add (o : seen installE) (v : view) : view :=
  View (v_checks v ++ checks [o]) (v_installs v ++ installs [o]) (v_removals v ++ removals [o])
    (latest_step o (v_latest v)).

Lemma view_snoc l o : as_seen (l ++ [o]) = view_add o (as_seen l).
Proof. unfold as_seen, view_add, checks, installs, removals, latest. by rewrite !omap_app, foldl_app. Qed.

Lemma view_quiet l {X} (e : installE X) x : quiet e → as_seen (l ++ [Seen e x]) = as_seen l.
Proof.
  intros Hq. rewrite view_snoc. unfold view_add.
  revert x Hq. destruct e; intros x Hq; [done|done| | | | |done]; cbn; by rewrite !app_nil_r.
Qed.

(** ** What Ensure does

    [I] is any property of the host and the log that every call keeps. *)
Section invariant.
Context (I : W → calls installE → Prop).
Hypothesis I_step : ∀ X (e : installE X) v l x v', I v l → host X e v = (x, v') → I v' (l ++ [Seen e x]).

(** The log grew and is looked at as [u], after the result [r]. *)
Definition seen_as {A} (P : result A → view → Prop) (r : result A) (s : W * calls installE) : Prop :=
  I s.1 s.2 ∧ P r (as_seen s.2).

Lemma wp_perform_view {X} (e : installE X) (Q : result X → W * calls installE → Prop) v l :
  I v l → (∀ x s, I s.1 s.2 → as_seen s.2 = view_add (Seen e x) (as_seen l) → Q (Ok x) s) →
  wp (perform e) Q (v, l).
Proof.
  intros HI HQ. apply wp_perform_host. intros x v' Hx. apply HQ; cbn; [by eapply I_step|apply view_snoc].
Qed.

Lemma wp_call_view {X} (e : installE (result X)) (Q : result X → W * calls installE → Prop) v l :
  I v l → (∀ r s, I s.1 s.2 → as_seen s.2 = view_add (Seen e r) (as_seen l) → Q r s) →
  wp (call e) Q (v, l).
Proof. intros HI HQ. apply wp_bind, wp_perform_view; [done|]. intros x s HI' Hs. by apply HQ. Qed.

Lemma wp_perform_quiet {X} (e : installE X) (Q : result X → W * calls installE → Prop) v l :
  quiet e → I v l → (∀ x s, I s.1 s.2 → as_seen s.2 = as_seen l → Q (Ok x) s) → wp (perform e) Q (v, l).
Proof.
  intros Hq HI HQ. apply wp_perform_host. intros x v' Hx.
  apply HQ; cbn; [by eapply I_step|by apply view_quiet].
Qed.

Lemma copyFile_view source target v l :
  I v l → wp (copyFile source target) (seen_as (λ _ u, u = as_seen l)) (v, l).
Proof.
  intros HI. apply wp_bind, wp_bind, wp_perform_quiet; [done..|]. intros r [v1 l1] H1 E1. cbn in *.
  apply wp_of_result. destruct r as [[]|e]; [|by split].
  apply wp_bind, wp_attempt, wp_bind, wp_bind, wp_perform_quiet; [done..|]. intros r [v2 l2] H2 E2. cbn in *.
  apply wp_of_result. destruct r as [[]|e].
  - apply wp_bind, wp_perform_quiet; [done..|]. intros copied [v3 l3] H3 E3. cbn in *.
    apply wp_bind, wp_perform_quiet; [done..|]. intros closed [v4 l4] H4 E4. cbn in *.
    apply wp_of_result, wp_bind, wp_perform_quiet; [done..|]. intros x [v5 l5] H5 E5. cbn in *.
    apply wp_of_result. split; [done|cbn; congruence].
  - apply wp_bind, wp_perform_quiet; [done..|]. intros x [v3 l3] H3 E3. cbn in *.
    apply wp_of_result. split; [done|cbn; congruence].
Qed.

(** Running the installer after a first check: the calls it makes. *)
Lemma install_view v l c k :
  I v l → as_seen l = View [c] [] [] k →
  wp install (seen_as (λ r u,
    match r with
    | Ok _ => ∃ v, u = View [c; Ok (v, true)] [msiArgs] [logPath] (Some (Ok (v, true))) ∧ requireVersion v = Ok tt
    | Err _ => ∃ cs k, u = View (c :: cs) [msiArgs] [] k
    end)) (v, l).
Proof.
  intros HI Hl. apply wp_bind, wp_with_err, wp_call_view; [done|]. intros code [v1 l1] H1 E1.
  rewrite Hl in E1. cbn in *. destruct code as [code|e]; [|by split; [|exists [], None]].
  cbn [rmap_err]. destruct (Z.eqb code 0); [|by split; [|exists [], None]].
  cbn [negb]. apply wp_bind, wp_with_err, wp_call_view; [done|]. intros answer [v2 l2] H2 E2. rewrite E1 in E2. cbn in *.
  destruct answer as [[found []]|e]; cbn [rmap_err negb]; [|by split; [|eexists _, _; exact E2]..].
  apply wp_bind, wp_with_err, wp_of_result.
  destruct (requireVersion found) as [[]|e] eqn:Hv; [|by split; [|eexists _, _; exact E2]].
  apply wp_bind, wp_perform_view; [done|]. intros x [v3 l3] H3 E3. rewrite E2 in E3. cbn in *.
  apply wp_ret. split; [done|]. by exists found.
Qed.

(** A host gets WinFsp at most once and only if it had none, from the image's
    installer; an installed version is never replaced. The copy of the installer is
    removed whatever msiexec did, its log only after a success. If the prerequisite
    is reported as met, the latest look at the host found WinFsp, in the version
    required, and msiexec did not run after it. *)
Lemma Ensure_view v :
  I v [] →
  wp Ensure (seen_as (λ r u,
    (r = Ok tt → ∃ found, v_latest u = Some (Ok (found, true)) ∧ (Version w = "" ∨ found = Version w)) ∧
    (v_installs u = [] ∧ v_removals u = [] ∨
     v_installs u = [msiArgs] ∧ (∃ found, head (v_checks u) = Some (Ok (found, false))) ∧
     v_removals u = if is_ok r then [logPath; staged] else [staged]))) (v, []).
Proof.
  intros HI. assert (∀ v, requireVersion v = Ok tt → Version w = "" ∨ v = Version w) as Hver.
  { intros found. unfold requireVersion.
    destruct (String.eqb_spec (Version w) ""), (String.eqb_spec found (Version w)); cbn; auto; done. }
  apply wp_bind, wp_with_err, wp_call_view; [done|]. intros c [v1 l1] H1 E1.
  change (as_seen []) with (View [] [] [] None) in E1.
  unfold view_add in E1. cbn in *.
  destruct c as [[found []]|e]; cbn [rmap_err].
  - apply wp_of_result. split; [done|]. cbn [snd]. rewrite E1. cbn.
    destruct (requireVersion found) as [[]|e] eqn:Hv; (split; [|by left]); [|done]. intros _. eauto.
  - apply wp_bind, wp_with_err. eapply wp_mono; [by apply copyFile_view|]. intros r [v2 l2] [H2 E2]. cbn in *.
    rewrite E1 in E2. destruct r as [[]|e]; cbn [rmap_err]; [|split; [done|cbn [snd]; rewrite E2; split; [done|by left]]].
    apply wp_bind, wp_attempt. eapply wp_mono; [by eapply install_view|]. intros r [v3 l3] [H3 E3]. cbn in *.
    apply wp_bind, wp_perform_view; [done|]. intros x [v4 l4] H4 E4. apply wp_of_result. split; [done|].
    cbn [snd] in *. rewrite E4. destruct r as [[]|e].
    + destruct E3 as (found' & -> & Hv). cbn. split; [eauto|right; eauto].
    + destruct E3 as (cs & k & ->). cbn. split; [done|right; eauto].
  - split; [done|]. cbn [snd]. rewrite E1. split; [done|by left].
Qed.
End invariant.
End install.

(** A host without WinFsp that gets it. *)
Definition bare_host : ∀ X, installE X → calls installE → X * calls installE :=
  scripted (λ X e l, match e in installE Y return Y with
    | Installed => Ok (match installs l with [] => ("", false) | _ => (PinnedWinFspVersion, true) end)
    | RunMsiexec _ => Ok 0%Z
    | _ => Ok tt
    end).

Example demo_install :
  let '(r, (_, l)) := Ensure bare_host {| MSI := "C:\image\winfsp.msi"; Version := PinnedWinFspVersion; StagingDir := "C:\Windows\Temp" |} ([], []) in
  r = Ok tt ∧ length (installs l) = 1 ∧
  removals l = ["C:\Windows\Temp\seaweedfs-winfsp-install.log"; "C:\Windows\Temp\winfsp.msi"].
Proof. by vm_compute. Qed.
