(* ===== verification/WinRegistry.v ===== *)
(** * WinFsp in the registry of a Windows host

    Models [pkg/mountmanager/winfsp_install_windows.go] and
    [cmd/seaweedfs-mount/prerequisites_windows.go]: how the installed WinFsp is found
    in the registry, how msiexec is run, and the check and the installation together
    ([WinFsp]) on a host whose registry, files and installer are its own. *)

From S2P Require Import Prelude GoLib WinPath Calls WinFsp.
#[local] Open Scope go_scope.

(** ** The registry *)

(** A registry as its calls answer: an error of RegOpenKeyEx by the key's path, the
    names of the sub-keys of a key, and the string values of a key. *)
Record Registry := {
  open_error : string → option error;
  sub_keys : string → result (list string);
  string_value : string → string → result string;
}.

(** The keys held open; a call on a key that is not open fails. *)
Definition handles : Type := list string.
Definition invalid_handle : error := SysErr EINVAL "The handle is invalid.".

Section registry.
Context (R : Registry).

Definition OpenKey (k : string) : M handles string := λ hs,
  match open_error R k with Some e => (Err e, hs) | None => (Ok k, k :: hs) end.
Fixpoint without (k : string) (hs : handles) : handles :=
  match hs with [] => [] | k' :: hs => if String.eqb k k' then hs else k' :: without k hs end.
Definition CloseKey (k : string) : M handles unit := modify (without k).
Definition on_open {A} (k : string) (r : result A) : M handles A := λ hs,
  (if bool_decide (k ∈ hs) then r else Err invalid_handle, hs).
Definition ReadSubKeyNames (k : string) : M handles (list string) := on_open k (sub_keys R k).
Definition GetStringValue (k name : string) : M handles string := on_open k (string_value R k name).

(** ** winfsp_install_windows.go *)
Definition sub (parent name : string) : string := parent +:+ "\" +:+ name.
Definition winFspRegistryKey : string := "SOFTWARE\WOW6432Node\WinFsp".
Definition uninstallKeys : list string :=
  [ "SOFTWARE\WOW6432Node\Microsoft\Windows\CurrentVersion\Uninstall";
    "SOFTWARE\Microsoft\Windows\CurrentVersion\Uninstall" ].

(** The loop over the products. *)
Fixpoint products (parent : string) (names : list string) : M handles (string * bool) :=
  match names with
  | [] => ret ("", false)
  | name :: names =>
      let! opened := attempt (OpenKey (sub parent name)) in
      match opened with
      | Err _ => products parent names
      | Ok product =>
          let! displayName := attempt (GetStringValue product "DisplayName") in
          let! version := attempt (GetStringValue product "DisplayVersion") in
          CloseKey product ;;!
          match displayName, version with
          | Ok displayName, Ok version =>
              if Strings.HasPrefix displayName "WinFsp " then ret (version, true)
              else products parent names
          | _, _ => products parent names
          end
      end
  end.

Definition winFspUninstallVersion (path : string) : M handles (string * bool) :=
  let! opened := attempt (OpenKey path) in
  match opened with
  | Err e => if is_not_exist e then ret ("", false) else throw e
  | Ok parent =>
      let! r := attempt (let! names := ReadSubKeyNames parent in products parent names) in
      CloseKey parent ;;!
      of_result r
  end.

(** The loop over the uninstall keys; a value beside an error is not looked at. *)
Fixpoint first_version (paths : list string) : M handles (string * bool) :=
  match paths with
  | [] => ret ("", true)
  | path :: paths =>
      let! (version, found) := winFspUninstallVersion path in
      if found : bool then ret (version, true) else first_version paths
  end.

Definition winFspInstalled : M handles (string * bool) :=
  let! opened := attempt (OpenKey winFspRegistryKey) in
  match opened with
  | Err e => if is_not_exist e then ret ("", false) else throw e
  | Ok key => CloseKey key ;;! first_version uninstallKeys
  end.

(** ** What the registry says *)

(** The version a product records, if it is WinFsp. *)
Definition product_version (parent name : string) : option string :=
  match open_error R (sub parent name), string_value R (sub parent name) "DisplayName",
        string_value R (sub parent name) "DisplayVersion" with
  | None, Ok displayName, Ok version =>
      if Strings.HasPrefix displayName "WinFsp " then Some version else None
  | _, _, _ => None
  end.

(** The versions of WinFsp an uninstall key records, in its order. *)
Definition recorded (path : string) : list string :=
  match open_error R path, sub_keys R path with
  | None, Ok names => omap (product_version path) names
  | _, _ => []
  end.

(** WinFsp is there in version [v]: the first one recorded, empty if none is. *)
Definition has_winfsp (v : string) : Prop :=
  open_error R winFspRegistryKey = None ∧ v = default "" (head (flat_map recorded uninstallKeys)).

(** WinFsp is not there. *)
Definition no_winfsp : Prop :=
  ∃ e, open_error R winFspRegistryKey = Some e ∧ is_not_exist e = true.

(** An error: a key that is there cannot be read. *)
Definition unreadable (e : error) : Prop :=
  (∃ k, k ∈ winFspRegistryKey :: uninstallKeys ∧ open_error R k = Some e ∧ is_not_exist e = false) ∨
  (∃ k, k ∈ uninstallKeys ∧ open_error R k = None ∧ sub_keys R k = Err e).

Definition tells (a : result (string * bool)) : Prop :=
  match a with
  | Ok (v, true) => has_winfsp v
  | Ok (_, false) => no_winfsp
  | Err e => unreadable e
  end.

(** ** The search finds it and leaves no key open *)
Lemma without_cons k hs : without k (k :: hs) = hs.
Proof. cbn. by rewrite String.eqb_refl. Qed.

Lemma products_spec parent names hs :
  products parent names hs =
    (Ok (match head (omap (product_version parent) names) with Some v => (v, true) | None => ("", false) end), hs).
Proof.
  induction names as [|name names IH]; [done|].
  cbn [products omap list_omap]. unfold bind, attempt, OpenKey, product_version.
  destruct (open_error R (sub parent name)) as [e|]; [exact IH|].
  unfold GetStringValue, on_open. rewrite !bool_decide_true by left.
  unfold CloseKey, modify. rewrite without_cons.
  destruct (string_value R (sub parent name) "DisplayName") as [d|e]; [|exact IH].
  destruct (string_value R (sub parent name) "DisplayVersion") as [v|e]; [|exact IH].
  destruct (Strings.HasPrefix d "WinFsp "); [done|exact IH].
Qed.

Lemma winFspUninstallVersion_spec path hs :
  path ∈ uninstallKeys →
  wp (winFspUninstallVersion path) (λ r hs', hs' = hs ∧
    match r with
    | Ok a => a = match head (recorded path) with Some v => (v, true) | None => ("", false) end
    | Err e => unreadable e
    end) hs.
Proof.
  intros Hp. apply wp_bind, wp_attempt. unfold wp, OpenKey, recorded. destruct (open_error R path) as [e|] eqn:He; cbn.
  { destruct (is_not_exist e) eqn:Hn; [done|]. split; [done|]. left. exists path. split; [by right|done]. }
  apply wp_bind, wp_attempt, wp_bind. unfold wp, ReadSubKeyNames, on_open. rewrite bool_decide_true by left.
  destruct (sub_keys R path) as [names|e] eqn:Hs; cbn [fst snd].
  - rewrite products_spec. cbn [fst snd]. unfold bind, CloseKey, modify, of_result. rewrite without_cons. done.
  - unfold bind, CloseKey, modify, of_result. rewrite without_cons. split; [done|]. right. by exists path.
Qed.

Lemma head_app {A} (l k : list A) : head (l ++ k) = match head l with Some x => Some x | None => head k end.
Proof. by destruct l. Qed.

Lemma first_version_spec paths hs :
  paths ⊆ uninstallKeys →
  wp (first_version paths) (λ r hs', hs' = hs ∧
    match r with
    | Ok a => a = (default "" (head (flat_map recorded paths)), true)
    | Err e => unreadable e
    end) hs.
Proof.
  induction paths as [|path paths IH]; intros Hp; [done|]. cbn [first_version flat_map].
  apply wp_bind. eapply wp_mono; [apply winFspUninstallVersion_spec, Hp; left|].
  intros [[v found]|e] hs' [-> Hr]; [|done]. rewrite head_app.
  destruct (head (recorded path)) as [v'|]; injection Hr as -> ->; [done|].
  apply IH. intros x Hx. apply Hp. by right.
Qed.

Lemma winFspInstalled_spec hs : wp winFspInstalled (λ r hs', hs' = hs ∧ tells r) hs.
Proof.
  apply wp_bind, wp_attempt. unfold wp at 1, OpenKey.
  destruct (open_error R winFspRegistryKey) as [e|] eqn:He; cbn [fst snd].
  - destruct (is_not_exist e) eqn:Hn; (split; [done|]); [by exists e|]. left. exists winFspRegistryKey. split; [left|done].
  - apply wp_bind. unfold wp at 1, CloseKey, modify. cbn [fst snd]. rewrite without_cons.
    eapply wp_mono; [by apply first_version_spec|].
    intros [a|e] hs' [-> Hr]; (split; [done|]); [|done]. subst a. by split.
Qed.
End registry.

(** ** Installing on a host *)

(** How a command ended: it ran and left an exit code, or could not run. *)
Inductive ran := Exited (code : Z) | Failed (e : error).

(** A Windows host: its registry, what msiexec does to it, and its files, whose
    operations leave the registry alone. *)
Class WindowsHost := {
  machine : Type;
  registry : machine → Registry;
  msiexec : list string → machine → ran * machine;
  file_call : ∀ X, installE X → machine → X * machine;
  file_call_registry X (e : installE X) m : registry (file_call X e m).2 = registry m;
  Executable : result string;
}.

Section host.
Context {H : WindowsHost} (env : gmap string string).

Definition runMsiexec (args : list string) (m : machine) : result Z * machine :=
  let '(outcome, m) := msiexec args m in
  (match outcome with Exited code => Ok code | Failed e => Err e end, m).

(** The functions the installer is given; the keys open are kept beside the machine. *)
Definition windows_host (X : Type) (e : installE X) (w : machine * handles) : X * (machine * handles) :=
  let '(m, hs) := w in
  match e in installE Y return Y * (machine * handles) with
  | Installed => let '(a, hs) := winFspInstalled (registry m) hs in (a, (m, hs))
  | RunMsiexec args => let '(a, m) := runMsiexec args m in (a, (m, hs))
  | e => let '(a, m) := file_call _ e m in (a, (m, hs))
  end.

Definition winFspInstaller (msi version : string) : WinFspInstaller :=
  let systemRoot := default "" (env !! "SystemRoot") in
  let systemRoot := if String.eqb systemRoot "" then "C:\Windows" else systemRoot in
  {| MSI := msi; Version := version; StagingDir := WinPath.Join [systemRoot; "Temp"] |}.

Definition EnsureWinFsp (msi version : string) : M (machine * handles * calls installE) unit :=
  Ensure windows_host (winFspInstaller msi version).

Definition DefaultWinFspMSI : result string :=
  try! exe := Executable in Ok (WinPath.Join [WinPath.Dir exe; "winfsp.msi"]).

(** With the flags -winfspMSI and -winfspVersion. *)
Definition ensureHostPrerequisites (winfspMSI winfspVersion : string)
    : M (machine * handles * calls installE) unit :=
  let! msi := if String.eqb winfspMSI "" then
                with_err (λ e, Errorf ("locating the WinFsp MSI: " +:+ err_msg e)) (of_result DefaultWinFspMSI)
              else ret winfspMSI in
  EnsureWinFsp msi winfspVersion.

(** Every call leaves the keys it opened closed, and what is known of WinFsp is what
    the registry says. *)
Definition informed (w : machine * handles) (l : calls installE) : Prop :=
  w.2 = [] ∧ ∀ a, latest l = Some a → tells (registry w.1) a.

Lemma informed_step X (e : installE X) w l x w' :
  informed w l → windows_host X e w = (x, w') → informed w' (l ++ [Seen e x]).
Proof.
  destruct w as [m hs]. intros [Hhs Hl] Hw. cbn in Hhs. subst hs. unfold informed, latest in *.
  rewrite foldl_app. cbn [foldl]. revert x Hw.
  assert (∀ X (e : installE X) x (w2 : machine * handles),
    (let '(a, m) := file_call _ e m in (a, (m, []))) = (x, w2) →
    w2.2 = [] ∧ registry w2.1 = registry m) as Hfile.
  { intros Y f x w2 Hf. pose proof (file_call_registry Y f m) as Hm.
    destruct (file_call Y f m) as [a m']. injection Hf as <- <-. by split. }
  destruct e as [|args| | | | |]; intros x Hw; cbn [latest_step];
    try (apply Hfile in Hw as [-> ->]; by split).
  - unfold windows_host in Hw. pose proof (winFspInstalled_spec (registry m) []) as Hspec. unfold wp in Hspec.
    destruct (winFspInstalled (registry m) []) as [a hs]. injection Hw as <- <-. cbn in *.
    destruct Hspec as [-> Ht]. split; [done|]. by intros a' [= <-].
  - unfold windows_host, runMsiexec in Hw. destruct (msiexec args m) as [o m']. injection Hw as <- <-. by split.
Qed.

(** A first look that did not miss WinFsp ends the matter. *)
Lemma Ensure_first_look m i :
  wp (Ensure windows_host i) (λ _ s, installs s.2 = [] ∨ no_winfsp (registry m)) (m, [], []).
Proof.
  pose proof (winFspInstalled_spec (registry m) []) as [_ Ht].
  apply wp_bind, wp_with_err, wp_call_host. intros a w. unfold windows_host.
  destruct (winFspInstalled (registry m) []) as [b hs]. cbn in Ht. intros [= -> <-].
  destruct a as [[v []]|e]; cbn [rmap_err]; [by left| |by left]. unfold wp. by right.
Qed.

(** C38. Whatever the registry holds and msiexec does: when the prerequisite is reported
    as met, the registry has WinFsp, in the version required if one is; msiexec runs at
    most once, with the installer copied to the Windows directory, and only on a host
    whose registry had no WinFsp before; the copy is then removed, the log of msiexec
    only after a success. No registry key stays open. *)
Theorem EnsureWinFsp_spec m msi version (i := winFspInstaller msi version) :
  wp (EnsureWinFsp msi version) (λ r '(m', hs, l),
    hs = [] ∧
    (r = Ok tt → ∃ v, has_winfsp (registry m') v ∧ (version = "" ∨ v = version)) ∧
    (installs l = [] ∧ removals l = [] ∨
     installs l = [msiArgs i] ∧ no_winfsp (registry m) ∧
     removals l = if is_ok r then [logPath i; staged i] else [staged i])) (m, [], []).
Proof.
  eapply wp_mono.
  { apply wp_and; [apply (Ensure_first_look m i)|].
    by apply (Ensure_view windows_host i informed informed_step (m, [])). }
  intros r [[m' hs] l] [Hfirst ([Hhs Htells] & Hok & Hruns)]. cbn in Hhs, Htells. split_and!; [done| |].
  - intros Hr. destruct (Hok Hr) as (v & Hv & Hver). exists v. split; [exact (Htells _ Hv)|done].
  - destruct Hruns as [?|(Hi & _ & Hrm)]; [by left|right]. split_and!; [done| |done].
    destruct Hfirst as [He|?]; [|done]. cbn in He, Hi. by rewrite Hi in He.
Qed.
End host.

(** ** An example *)

(** A host whose registry gains WinFsp 2.1 when msiexec runs, beside products that
    cannot be read or are others. *)
Definition demo_registry (installed : bool) : Registry := {|
  open_error := λ k,
    if bool_decide (k ∈ uninstallKeys) then None
    else if String.eqb k winFspRegistryKey then
      if installed then None else Some (SysErr ENOENT "The system cannot find the file specified.")
    else if Strings.HasSuffix k "locked" then Some (SysErr EACCES "Access is denied.") else None;
  sub_keys := λ k, Ok (if String.eqb k (default "" (head uninstallKeys)) then
                         ["locked"; "other"] ++ if installed then ["{winfsp}"] else [] else []);
  string_value := λ k name,
    if String.eqb name "DisplayVersion" then Ok PinnedWinFspVersion
    else Ok (if Strings.HasSuffix k "{winfsp}" then "WinFsp 2025" else "Other 1.0") |}.

Definition demo_file (X : Type) (e : installE X) (m : bool) : X * bool :=
  (match e in installE Y return Y with
   | Installed => Ok ("", false) | RunMsiexec _ => Ok 0%Z | _ => Ok tt end, m).

Lemma demo_file_registry X (e : installE X) m : demo_registry (demo_file X e m).2 = demo_registry m.
Proof. done. Qed.

Definition demo_windows : WindowsHost := {|
  machine := bool; registry := demo_registry; msiexec := λ _ _, (Exited 0, true);
  file_call := demo_file; file_call_registry := demo_file_registry;
  Executable := Ok "C:\seaweedfs\seaweedfs-mount.exe" |}.

Definition demo_ensure : result unit * (machine (WindowsHost := demo_windows) * handles * calls installE) :=
  EnsureWinFsp (H := demo_windows) ∅ "C:\seaweedfs\winfsp.msi" PinnedWinFspVersion
    ((false : machine (WindowsHost := demo_windows)), [], []).

Lemma EnsureWinFsp_spec_witness :
  DefaultWinFspMSI (H := demo_windows) = Ok "C:\seaweedfs\winfsp.msi" ∧ demo_ensure.1 = Ok tt ∧
  let '(m, hs, l) := demo_ensure.2 in
  hs = [] ∧ ∃ v, has_winfsp (demo_registry m) v ∧ (PinnedWinFspVersion = "" ∨ v = PinnedWinFspVersion).
Proof.
  split; [vm_compute; reflexivity|]. assert (demo_ensure.1 = Ok tt) as Hr by (vm_compute; reflexivity).
  split; [exact Hr|].
  pose proof (EnsureWinFsp_spec (H := demo_windows) ∅ false "C:\seaweedfs\winfsp.msi" PinnedWinFspVersion) as Hs.
  unfold wp in Hs. fold demo_ensure in Hs. destruct demo_ensure as [r [[m hs] l]]. cbn in Hr.
  destruct Hs as (Hhs & Hok & _). split; [exact Hhs|exact (Hok Hr)].
Defined.
