(* ===== verification/MountArgs.v ===== *)
(** * Building the weed mount command line

    Models [pkg/driver/mounter.go] and the Linux [platformMountArgs]
    ([mounter_args_linux.go]): from the driver's configuration and a volume's
    context to the arguments of [weed mount], and the request sent to the mount
    service. *)

From S2P Require Import Prelude GoLib Hash Params Driver Controller MountFlags.
#[local] Open Scope go_scope.

(** ** Extra arguments *)
Definition managedFlags : list string :=
  ["dir"; "dirAutoCreate"; "localSocket"; "cacheDir"; "readOnly"; "filer"; "filer.path";
   "collection"; "collectionQuotaMB"; "winfspMountRoots"].

Definition blanks : string :=
  String " " (String "009" (String "013" (String "010" ""))).

Definition ValidateMountArg (arg : string) : result unit :=
  let name := (Strings.Cut (Strings.TrimPrefix arg "-") "=").1.1 in
  if negb (Strings.HasPrefix arg "-") || String.eqb name "" || Strings.HasPrefix name "-"
     || Strings.ContainsAny name blanks then
    Err (Errorf ("invalid mount argument " +:+ Strconv.Quote arg
                 +:+ ": use -name=value or boolean -name"))
  else if bool_decide (name ∈ managedFlags) then
    Err (Errorf ("mount argument " +:+ Strconv.Quote name +:+ " is managed by the CSI driver"))
  else Ok tt.

Fixpoint ValidateMountArgs (args : list string) : result unit :=
  match args with
  | [] => Ok tt
  | arg :: args => ValidateMountArg arg ;;? ValidateMountArgs args
  end.

(** ** Values computed from the configuration *)
Definition writeBufferSizeArg (mb : Z) : string :=
  if (mb <=? 0)%Z then "" else Strconv.FormatInt mb.

Definition bytesPerMiB : Z := 1024 * 1024.

(** Go's [/] and [%] truncate towards zero; the operands are positive here. *)
Definition initialCollectionQuotaMB (capacityBytes : string) : string :=
  match Strconv.ParseInt capacityBytes with
  | None => ""
  | Some capacity =>
      if (capacity <=? 1)%Z then ""
      else
        let capacityMB := Z.quot capacity bytesPerMiB in
        let capacityMB := if negb (Z.rem capacity bytesPerMiB =? 0)%Z
                          then (capacityMB + 1)%Z else capacityMB in
        Strconv.FormatInt capacityMB
  end.

Definition platformMountArgs : list string := ["-umask=000"].

(** [fmt.Sprintf("-%s=%s", key, value)]. *)
Definition flag_arg (key value : string) : string := "-" +:+ key +:+ "=" +:+ value.

Definition parameterArgMap (key : string) : string :=
  if String.eqb key "uidMap" then "map.uid"
  else if String.eqb key "gidMap" then "map.gid"
  else if String.eqb key "diskType" then "disk"
  else key.

Definition ignoredArgs : list string :=
  ["collectionQuotaMB"; "dataLocality"; "path"; "parentDir"; "volumeName"; volumeCapacityKey].

(** One iteration of the loop over the volume context. *)
Definition context_step (argsMap : strmap) (kv : string * string) : strmap :=
  let '(key, value) := kv in
  if bool_decide (key ∈ ignoredArgs) then argsMap
  else if String.eqb key "sharedChunkCacheDir" then argsMap
  else
    let key := parameterArgMap key in
    if negb (bool_decide (is_Some (argsMap !! key))) then argsMap
    else if String.eqb value "" then argsMap
    else <[key := value]> argsMap.

(** [mountmanager.MountRequest]. *)
Record MountRequest := {
  VolumeID : string;
  TargetPath : string;
  CacheDir_ : string;
  MountArgs : list string;
  LocalSocket : string;
  RequiredFlags : list string;
}.

(** [mountmanager.NewClient]: the address of the mount service's socket. *)
Definition NewClient (endpoint : string) : result string :=
  try! (scheme, address) := mm_ParseEndpoint endpoint in
  if negb (String.eqb scheme "unix") then
    Err (Errorf ("unsupported endpoint scheme: " +:+ scheme))
  else Ok address.

(** [mountServiceMounter], its client being the mount service's endpoint. *)
Record mountServiceMounter := {
  m_driver : SeaweedFsDriver;
  m_volumeID : string;
  m_readOnly : bool;
  m_volContext : strmap;
}.

Section mounter.
Context {MR : MapRange}.

Definition newMounter (volumeID : string) (readOnly : bool) (driver : SeaweedFsDriver)
    (volContext : strmap) : result mountServiceMounter :=
  NewClient (mountEndpoint driver) ;;?
  Ok {| m_driver := driver; m_volumeID := volumeID; m_readOnly := readOnly;
        m_volContext := volContext |}.

Definition filerPathOf (m : mountServiceMounter) : string :=
  if Path.IsAbs (m_volumeID m) then m_volumeID m
  else
    let contextPath := get (m_volContext m) "path" in
    if String.eqb contextPath "" then Path.JoinPath ["/buckets"; m_volumeID m]
    else contextPath.

Definition collectionOf (m : mountServiceMounter) : string :=
  let collection := get (m_volContext m) "collection" in
  if String.eqb collection "" then Path.Base (filerPathOf m) else collection.

(** The literal of [argsMap]. *)
Definition argsMap0 (m : mountServiceMounter) (filers : list string) : strmap :=
  let d := m_driver m in
  list_to_map [
    ("collection", collectionOf m);
    ("collectionQuotaMB", initialCollectionQuotaMB (get (m_volContext m) volumeCapacityKey));
    ("df.logical", "true");
    ("filer", Strings.Join filers ",");
    ("filer.path", filerPathOf m);
    ("cacheCapacityMB", Strconv.FormatInt (CacheCapacityMB d));
    ("wholeCacheCapacityMB", "");
    ("readerCacheSizeMB", "");
    ("cacheMetaTtlSec", Strconv.FormatInt (CacheMetaTtlSec d));
    ("concurrentReaders", Strconv.FormatInt (ConcurrentReaders d));
    ("concurrentWriters", Strconv.FormatInt (ConcurrentWriters d));
    ("writeBufferSizeMB", writeBufferSizeArg (WriteBufferSizeMB d));
    ("readerCacheMode", "");
    ("winfspOptions", "");
    ("map.uid", UidMap d);
    ("map.gid", GidMap d);
    ("disk", "");
    ("dataCenter", "");
    ("replication", "");
    ("ttl", "");
    ("chunkSizeLimitMB", "");
    ("volumeServerAccess", "");
    ("readRetryTime", "");
    ("writebackCache", "");
    ("metadataFlushSeconds", "");
    ("dlm", "")].

(** The data locality and data centre in force, checked. *)
Definition resolveLocality (m : mountServiceMounter) : result (DataLocality * string) :=
  let ctx := m_volContext m in
  try! dataLocality :=
    if String.eqb (get ctx "dataLocality") "" then Ok (DataLocality_ (m_driver m))
    else match FromString (get ctx "dataLocality") with
         | Some dl => Ok dl
         | None => Err (Errorf ("invalid volumeContext dataLocality: " +:+ get ctx "dataLocality"))
         end in
  let dataCenter := if String.eqb (get ctx "dataCenter") "" then DataCenter (m_driver m)
                    else get ctx "dataCenter" in
  CheckDataLocality dataLocality dataCenter ;;?
  Ok (dataLocality, dataCenter).

(** The final [argsMap]. *)
Definition finalArgsMap (m : mountServiceMounter) (filers : list string) : result strmap :=
  try! (dataLocality, dataCenter) := resolveLocality m in
  let argsMap := argsMap0 m filers in
  let argsMap := match dataLocality with
                 | Write_preferLocalDc => <["dataCenter" := dataCenter]> argsMap
                 | DL_None => argsMap
                 end in
  Ok (foldl context_step argsMap (range (m_volContext m))).

Definition map_args (argsMap : strmap) : list string :=
  (λ kv, flag_arg kv.1 kv.2) <$> filter (λ kv, kv.2 ≠ "") (range argsMap).

Definition fixed_args_on (platform : list string) (m : mountServiceMounter)
    (targetPath cacheDir localSocket : string) : list string :=
  ["-logtostderr=true"; "mount"; "-dirAutoCreate=true"] ++ platform ++
  [flag_arg "dir" targetPath; flag_arg "localSocket" localSocket;
   flag_arg "cacheDir" cacheDir;
   flag_arg "sharedChunkCacheDir" (SharedChunkCacheDir (CacheDir (m_driver m)))] ++
  (if m_readOnly m then ["-readOnly"] else []).

Definition buildMountArgs_on (platform : list string) (m : mountServiceMounter)
    (targetPath cacheDir localSocket : string) (filers : list string) : result (list string) :=
  ValidateMountArgs (MountExtraArgs (m_driver m)) ;;?
  try! argsMap := finalArgsMap m filers in
  Ok (fixed_args_on platform m targetPath cacheDir localSocket ++ map_args argsMap
      ++ MountExtraArgs (m_driver m)).

(** The command line of the Linux build. *)
Definition fixed_args : mountServiceMounter → string → string → string → list string :=
  fixed_args_on platformMountArgs.
Definition buildMountArgs : mountServiceMounter → string → string → string → list string → result (list string) :=
  buildMountArgs_on platformMountArgs.

(** [Mount]: the request handed to the mount service's client. *)
Definition mount_request (m : mountServiceMounter) (target : string) : result MountRequest :=
  if String.eqb target "" then Err (Errorf "target path is required")
  else
    let d := m_driver m in
    let cacheDir := GetCacheDir (CacheDir d) (m_volumeID m) in
    let localSocket := GetLocalSocket (volumeSocketDir d) (m_volumeID m) in
    try! args := buildMountArgs m target cacheDir localSocket (filers d) in
    Ok {| VolumeID := m_volumeID m; TargetPath := target; CacheDir_ := cacheDir;
          MountArgs := args; LocalSocket := localSocket;
          RequiredFlags := RequiredMountFlags |}.
End mounter.

(** ** Lemmas *)

(** Neither an equals sign nor a leading dash. *)
Definition flag_name_ok (name : string) : Prop :=
  no_byte "=" name ∧ Strings.HasPrefix name "-" = false ∧ name ≠ "".
#[export] Instance flag_name_ok_dec name : Decision (flag_name_ok name).
Proof. unfold flag_name_ok, no_byte. apply _. Defined.

Lemma Cut_no_byte c s t :
  no_byte c s → Strings.Cut (s +:+ String c t) (String c "") = (s, t, true).
Proof.
  intros Hs. unfold Strings.Cut.
  assert (Strings.cut_opt (String c "") (s +:+ String c t) = Some (s, t)) as ->; [|done].
  induction s as [|d s IH].
  - cbn. destruct (ascii_dec c c); [|done]. by destruct t.
  - apply no_byte_cons in Hs as [Hd Hs]. cbn.
    destruct (ascii_dec c d) as [|_]; [done|]. cbn in IH. by rewrite IH.
Qed.

Lemma Cut_none c s :
  no_byte c s → Strings.Cut s (String c "") = (s, "", false).
Proof.
  intros Hs. unfold Strings.Cut.
  assert (Strings.cut_opt (String c "") s = None) as ->; [|done].
  induction s as [|d s IH]; [done|]. apply no_byte_cons in Hs as [Hd Hs]. cbn.
  destruct (ascii_dec c d) as [|_]; [done|]. by rewrite IH.
Qed.

Lemma TrimPrefix_app p s : Strings.TrimPrefix (p +:+ s) p = s.
Proof.
  unfold Strings.TrimPrefix, Strings.HasPrefix. by rewrite prefix_app, sdrop_app.
Qed.

Lemma TrimPrefix_none p s : Strings.HasPrefix s p = false → Strings.TrimPrefix s p = s.
Proof. unfold Strings.TrimPrefix. by intros ->. Qed.

Lemma HasPrefix_chr a c s : Strings.HasPrefix (String c s) (String a "") = bool_decide (a = c).
Proof.
  unfold Strings.HasPrefix. cbn -[ascii_dec]. destruct (ascii_dec a c).
  - rewrite bool_decide_true by done. by destruct s.
  - by rewrite bool_decide_false.
Qed.

Lemma HasPrefix_dash_app name s :
  Strings.HasPrefix name "-" = false → name ≠ "" → Strings.HasPrefix (name +:+ s) "-" = false.
Proof.
  destruct name as [|c name]; [done|]. cbn [String.append]. by rewrite !HasPrefix_chr.
Qed.

Lemma mountFlagName_flag_arg key value :
  flag_name_ok key → mountFlagName (flag_arg key value) = key.
Proof.
  intros (Heq & Hdash & Hne). unfold mountFlagName, flag_arg.
  rewrite TrimPrefix_app, TrimPrefix_none by (by apply HasPrefix_dash_app).
  change ("=" +:+ value) with (String "=" value). by rewrite Cut_no_byte.
Qed.

(** What is left of an accepted extra argument is its flag name. *)
Lemma ValidateMountArg_name arg :
  ValidateMountArg arg = Ok tt → mountFlagName arg ∉ managedFlags.
Proof.
  unfold ValidateMountArg, mountFlagName.
  set (rest := Strings.TrimPrefix arg "-").
  destruct (Strings.HasPrefix rest "-") eqn:Hd.
  - assert (Strings.HasPrefix (Strings.Cut rest "=").1.1 "-" = true ∨
            (Strings.Cut rest "=").1.1 = "") as Hbad.
    { destruct rest as [|c rest]; [done|]. rewrite HasPrefix_chr, bool_decide_eq_true in Hd.
      subst c. left. unfold Strings.Cut. cbn [Strings.cut_opt String.prefix].
      destruct (ascii_dec "=" "-"); [done|].
      destruct (Strings.cut_opt "=" rest) as [[a b]|]; cbn [fst]; by rewrite HasPrefix_chr. }
    destruct Hbad as [Hbad|Hbad]; rewrite Hbad; cbn; by rewrite ?orb_true_r.
  - rewrite (TrimPrefix_none "-" rest) by done.
    destruct (negb _ || _ || _ || _); [done|].
    destruct (bool_decide _) eqn:Hb; [done|]. intros _. by apply bool_decide_eq_false in Hb.
Qed.

Lemma ValidateMountArgs_Ok args :
  ValidateMountArgs args = Ok tt → Forall (λ a, mountFlagName a ∉ managedFlags) args.
Proof.
  induction args as [|a args IH]; [constructor|]. cbn. rewrite rbind_Ok.
  intros ([] & Ha & Hargs). constructor; [by apply ValidateMountArg_name|by apply IH].
Qed.

(** The flags [argsMap] can hold. *)
Definition argKeys : list string :=
  ["collection"; "collectionQuotaMB"; "df.logical"; "filer"; "filer.path"; "cacheCapacityMB";
   "wholeCacheCapacityMB"; "readerCacheSizeMB"; "cacheMetaTtlSec"; "concurrentReaders";
   "concurrentWriters"; "writeBufferSizeMB"; "readerCacheMode"; "winfspOptions"; "map.uid";
   "map.gid"; "disk"; "dataCenter"; "replication"; "ttl"; "chunkSizeLimitMB";
   "volumeServerAccess"; "readRetryTime"; "writebackCache"; "metadataFlushSeconds"; "dlm"].

Lemma argKeys_ok : Forall flag_name_ok argKeys.
Proof. apply (bool_decide_unpack _). vm_compute. done. Qed.

(** Context keys that set a flag. *)
Definition usable (k : string) : Prop :=
  k ∉ ignoredArgs ∧ k ≠ "sharedChunkCacheDir" ∧ parameterArgMap k ∈ argKeys.
#[export] Instance usable_dec k : Decision (usable k).
Proof. apply _. Defined.

(** At most one non-empty context key per flag. *)
Definition no_alias (ctx : strmap) : Prop :=
  ∀ k1 k2 v1 v2, ctx !! k1 = Some v1 → ctx !! k2 = Some v2 → v1 ≠ "" → v2 ≠ "" →
    parameterArgMap k1 = parameterArgMap k2 → k1 = k2.

Lemma no_alias_keys (ctx : strmap) :
  NoDup (parameterArgMap <$> (map_to_list ctx).*1) → no_alias ctx.
Proof.
  intros Hnd k1 k2 v1 v2 H1 H2 _ _ Heq.
  apply elem_of_map_to_list, list_elem_of_lookup in H1 as [i Hi].
  apply elem_of_map_to_list, list_elem_of_lookup in H2 as [j Hj].
  assert (i = j) as ->; [|congruence].
  eapply NoDup_lookup; [exact Hnd| |]; rewrite !list_lookup_fmap; [by rewrite Hi|].
  rewrite Hj. cbn. by rewrite Heq.
Qed.

Section args_map.
Context {MR : MapRange}.
Implicit Types (m : mountServiceMounter) (a : strmap) (l : list (string * string)).

Lemma context_step_lookup a k v key :
  context_step a (k, v) !! key =
    if decide (key = parameterArgMap k ∧ k ∉ ignoredArgs ∧ k ≠ "sharedChunkCacheDir" ∧
               is_Some (a !! key) ∧ v ≠ "") then Some v else a !! key.
Proof.
  cbn. destruct (bool_decide (k ∈ ignoredArgs)) eqn:Hi;
    [apply bool_decide_eq_true in Hi|apply bool_decide_eq_false in Hi];
    [by rewrite decide_False by naive_solver|].
  destruct (String.eqb_spec k "sharedChunkCacheDir"); [by rewrite decide_False by naive_solver|].
  destruct (bool_decide (is_Some (a !! parameterArgMap k))) eqn:Hs;
    [apply bool_decide_eq_true in Hs|apply bool_decide_eq_false in Hs]; cbn.
  2:{ rewrite decide_False; [done|]. by intros (-> & _ & _ & ? & _). }
  destruct (String.eqb_spec v ""); [by rewrite decide_False by naive_solver|].
  case_decide as Hd; [destruct Hd as (-> & _); by rewrite lookup_insert_eq|].
  rewrite lookup_insert_ne; [done|]. intros <-. by apply Hd.
Qed.

Lemma context_step_dom a kv : dom (context_step a kv) = dom a.
Proof.
  destruct kv as [k v]. apply set_eq. intros key. rewrite !elem_of_dom, context_step_lookup.
  case_decide; naive_solver.
Qed.

Lemma context_foldl_dom a l : dom (foldl context_step a l) = dom a.
Proof.
  revert a. induction l as [|kv l IH]; intros a; [done|]. cbn [foldl].
  by rewrite IH, context_step_dom.
Qed.

Lemma argsMap0_dom m fs : dom (argsMap0 m fs) = list_to_set argKeys.
Proof. unfold argsMap0. rewrite dom_list_to_map_L. reflexivity. Qed.

Lemma finalArgsMap_dom m fs a : finalArgsMap m fs = Ok a → dom a = list_to_set argKeys.
Proof.
  unfold finalArgsMap. rewrite rbind_Ok. intros ([dl dc] & _ & <-%Ok_inj).
  rewrite context_foldl_dom. destruct dl; [apply argsMap0_dom|].
  rewrite dom_insert_L, argsMap0_dom. apply subseteq_union_1_L, singleton_subseteq_l, elem_of_list_to_set.
  apply (bool_decide_unpack _). done.
Qed.

(** A flag no entry of [l] sets keeps its value. *)
Lemma context_foldl_skip a l key :
  (∀ k v, (k, v) ∈ l → usable k → v ≠ "" → parameterArgMap k ≠ key) →
  key ∈ argKeys →
  foldl context_step a l !! key = a !! key.
Proof.
  revert a. induction l as [|[k v] l IH]; intros a Hl Hkey; [done|]. cbn [foldl].
  rewrite IH, context_step_lookup; [|intros k' v' Hin; apply Hl; by right|done].
  rewrite decide_False; [done|]. intros (-> & Hi & Hs & _ & Hv).
  by eapply Hl; [left| |done|].
Qed.

(** Of the entries that set a flag, the last does. *)
Definition sets (key : string) (kv : string * string) : Prop :=
  usable kv.1 ∧ kv.2 ≠ "" ∧ parameterArgMap kv.1 = key.
#[local] Instance sets_dec key kv : Decision (sets key kv).
Proof. apply _. Defined.

Lemma context_foldl_set a l key :
  key ∈ dom a → key ∈ argKeys → Exists (sets key) l →
  ∃ k v, (k, v) ∈ l ∧ sets key (k, v) ∧ foldl context_step a l !! key = Some v.
Proof.
  intros Ha Hkey. revert a Ha. induction l as [|[k0 v0] l IH]; intros a Ha Hl; [by inversion Hl|]. cbn [foldl].
  destruct (decide (Exists (sets key) l)) as [Hex|Hex].
  - destruct (IH (context_step a (k0, v0))) as (k & v & Hin & Hs & Hv); [by rewrite context_step_dom|done|].
    exists k, v. split_and!; [by right|done..].
  - apply Exists_cons in Hl as [Hs|?]; [|done]. exists k0, v0. split_and!; [by left|done|].
    rewrite context_foldl_skip, context_step_lookup; [| |done].
    + destruct Hs as ((Hi & Hc & _) & Hv & Heq). cbn in *. apply elem_of_dom in Ha. by rewrite decide_True.
    + intros k v Hin Hu Hv Heq. apply Hex, Exists_exists. by exists (k, v).
Qed.

(** At most one argument per key of the map. *)
Lemma map_args_flag a name :
  Forall flag_name_ok (elements (dom a)) →
  filter (λ x, mountFlagName x = name) (map_args a) =
    match a !! name with
    | Some v => if String.eqb v "" then [] else [flag_arg name v]
    | None => []
    end.
Proof.
  intros Hok. unfold map_args.
  assert (∀ l, NoDup l.*1 → (∀ k v, (k, v) ∈ l → flag_name_ok k) →
    filter (λ x, mountFlagName x = name)
      ((λ kv : string * string, flag_arg kv.1 kv.2) <$> filter (λ kv, kv.2 ≠ "") l) =
    match (list_to_map l : strmap) !! name with
    | Some v => if String.eqb v "" then [] else [flag_arg name v]
    | None => []
    end) as H.
  { intros l. induction l as [|[k v] l IH]; intros Hnd Hl; [done|].
    cbn [fmap list_fmap] in Hnd. apply NoDup_cons in Hnd as [Hk Hnd].
    specialize (IH Hnd (λ k v H, Hl k v (list_elem_of_further _ _ _ H))).
    assert (mountFlagName (flag_arg k v) = k) as Hname
      by (apply mountFlagName_flag_arg; eapply Hl; left).
    cbn [list_to_map foldr uncurry fst snd].
    destruct (decide (k = name)) as [->|Hne].
    - rewrite lookup_insert_eq. rewrite (not_elem_of_list_to_map_1 l) in IH by done.
      destruct (String.eqb_spec v "") as [->|Hv].
      + rewrite filter_cons_False by (cbn; tauto). done.
      + rewrite filter_cons_True by done. rewrite fmap_cons, filter_cons_True by done.
        by rewrite IH.
    - rewrite lookup_insert_ne by done. rewrite <- IH.
      destruct (decide (v = "")) as [->|Hv].
      + by rewrite (filter_cons_False _ (k, "")) by (cbn; tauto).
      + rewrite (filter_cons_True _ (k, v)) by done.
        rewrite fmap_cons, (filter_cons_False _ (flag_arg _ _)); [done|].
        cbn [fst snd]. by rewrite Hname. }
  rewrite H; [|apply NoDup_range_keys|].
  - rewrite range_to_map. done.
  - intros k v Hin. rewrite elem_of_range in Hin. rewrite Forall_forall in Hok.
    apply Hok, elem_of_elements, elem_of_dom. by eexists.
Qed.
End args_map.

(** ** Properties *)

Lemma filter_none {A} (P : A → Prop) `{!∀ x, Decision (P x)} l :
  Forall (λ x, ¬ P x) l → filter P l = [].
Proof. induction 1 as [|x l Hx Hl IH]; [done|]. by rewrite filter_cons_False. Qed.

Section properties.
Context {MR : MapRange}.
Implicit Types (m : mountServiceMounter).

(** The arguments that set the flag [name]. *)
Definition args_of (name : string) (args : list string) : list string :=
  filter (λ a, mountFlagName a = name) args.

Lemma args_of_app name l k : args_of name (l ++ k) = args_of name l ++ args_of name k.
Proof. apply filter_app. Qed.

(** Every occurrence of a managed flag: the fixed arguments and the map. *)
Lemma buildMountArgs_flag platform m target cache socket fs args name :
  buildMountArgs_on platform m target cache socket fs = Ok args → name ∈ managedFlags →
  ∃ a, finalArgsMap m fs = Ok a ∧
    args_of name args =
      args_of name (fixed_args_on platform m target cache socket) ++
      match a !! name with
      | Some v => if String.eqb v "" then [] else [flag_arg name v]
      | None => []
      end.
Proof.
  unfold buildMountArgs_on. rewrite !rbind_Ok. intros ([] & Hextra & Hargs) Hname.
  apply rbind_Ok in Hargs as (a & Ha & <-%Ok_inj). exists a. split; [done|].
  rewrite !args_of_app. unfold args_of at 2. rewrite map_args_flag.
  - unfold args_of at 2. rewrite (filter_none _ (MountExtraArgs _)); [by rewrite app_nil_r|].
    apply ValidateMountArgs_Ok in Hextra. eapply Forall_impl; [done|].
    intros x Hx Heq. apply Hx. by rewrite Heq.
  - apply finalArgsMap_dom in Ha. rewrite Ha. apply Forall_forall. intros x.
    rewrite elem_of_elements, elem_of_list_to_set. apply Forall_forall, argKeys_ok.
Qed.

Lemma fixed_args_of platform m target cache socket name :
  args_of name (fixed_args_on platform m target cache socket) =
    args_of name (["-logtostderr=true"; "mount"; "-dirAutoCreate=true"] ++ platform) ++
    (if decide ("dir" = name) then [flag_arg "dir" target] else []) ++
    (if decide ("localSocket" = name) then [flag_arg "localSocket" socket] else []) ++
    (if decide ("cacheDir" = name) then [flag_arg "cacheDir" cache] else []) ++
    (if decide ("sharedChunkCacheDir" = name)
     then [flag_arg "sharedChunkCacheDir" (SharedChunkCacheDir (CacheDir (m_driver m)))] else []) ++
    args_of name (if m_readOnly m then ["-readOnly"] else []).
Proof.
  assert (∀ k v, flag_name_ok k →
    args_of name [flag_arg k v] = if decide (k = name) then [flag_arg k v] else []) as H.
  { intros k v Hk. unfold args_of. case_decide as Hd.
    - by rewrite filter_cons_True by (by rewrite mountFlagName_flag_arg).
    - by rewrite filter_cons_False by (by rewrite mountFlagName_flag_arg). }
  rewrite <- !H by (apply (bool_decide_unpack _); vm_compute; done).
  rewrite <- !args_of_app. unfold fixed_args_on. by rewrite <- !app_assoc.
Qed.

(** The arguments of a platform leave the flags that identify the mount alone. *)
Definition platform_neutral (platform : list string) : Prop :=
  Forall (λ a, mountFlagName a ∉ ["dir"; "localSocket"; "cacheDir"; "dirAutoCreate"; "readOnly";
    "collectionQuotaMB"; "filer"; "filer.path"; "collection"]) platform.

Lemma platform_neutral_of platform name :
  platform_neutral platform →
  name ∈ ["dir"; "localSocket"; "cacheDir"; "dirAutoCreate"; "readOnly";
    "collectionQuotaMB"; "filer"; "filer.path"; "collection"] →
  args_of name platform = [].
Proof. intros Hp Hn. apply filter_none. eapply Forall_impl; [exact Hp|]. by intros a Ha <-. Qed.

(** The managed flags of the built command line. *)
Lemma buildMountArgs_managed platform m target cache socket fs args :
  platform_neutral platform →
  buildMountArgs_on platform m target cache socket fs = Ok args →
  args_of "dir" args = [flag_arg "dir" target] ∧
  args_of "localSocket" args = [flag_arg "localSocket" socket] ∧
  args_of "cacheDir" args = [flag_arg "cacheDir" cache] ∧
  args_of "dirAutoCreate" args = ["-dirAutoCreate=true"] ∧
  args_of "readOnly" args = (if m_readOnly m then ["-readOnly"] else []) ∧
  args_of "winfspMountRoots" args = args_of "winfspMountRoots" platform ∧
  (let quota := initialCollectionQuotaMB (get (m_volContext m) volumeCapacityKey) in
   args_of "collectionQuotaMB" args =
     if String.eqb quota "" then [] else [flag_arg "collectionQuotaMB" quota]) ∧
  Forall (λ name, length (args_of name args) ≤ 1) ["filer"; "filer.path"; "collection"].
Proof.
  intros Hpl Hb.
  assert (∀ name, name ∈ managedFlags → name ∉ argKeys →
    args_of name args = args_of name (fixed_args_on platform m target cache socket)) as Hfixed.
  { intros name Hm Hn. destruct (buildMountArgs_flag _ _ _ _ _ _ _ _ Hb Hm) as (a & Ha & ->).
    apply finalArgsMap_dom in Ha. rewrite (not_elem_of_dom_1 a name).
    - apply app_nil_r.
    - rewrite Ha. by rewrite elem_of_list_to_set. }
  assert (∀ name, name ∈ managedFlags →
    args_of name (fixed_args_on platform m target cache socket) = [] → length (args_of name args) ≤ 1) as Hone.
  { intros name Hm H0. destruct (buildMountArgs_flag _ _ _ _ _ _ _ _ Hb Hm) as (a & Ha & ->).
    rewrite H0. destruct (a !! name) as [v|]; [destruct (String.eqb v "")|]; cbn; lia. }
  split_and!.
  1-6: rewrite Hfixed, fixed_args_of, args_of_app by (apply (bool_decide_unpack _); vm_compute; done);
    try rewrite (platform_neutral_of platform) by (done || (apply (bool_decide_unpack _); vm_compute; done));
    destruct (m_readOnly m); by rewrite ?app_nil_r.
  - cbn zeta. destruct (buildMountArgs_flag _ _ _ _ _ _ _ "collectionQuotaMB" Hb) as (a & Ha & ->);
      [apply (bool_decide_unpack _); vm_compute; done|].
    assert (a !! "collectionQuotaMB" =
      Some (initialCollectionQuotaMB (get (m_volContext m) volumeCapacityKey))) as ->.
    { unfold finalArgsMap in Ha. apply rbind_Ok in Ha as ([dl dc] & _ & <-%Ok_inj).
      rewrite context_foldl_skip.
      - destruct dl; [done|]. by rewrite lookup_insert_ne.
      - intros k v _ (Hi & _) _ Hk. apply Hi. unfold parameterArgMap in Hk.
        repeat case_match; try done. subst k. apply (bool_decide_unpack _). done.
      - apply (bool_decide_unpack _). done. }
    rewrite fixed_args_of, args_of_app, (platform_neutral_of platform)
      by (done || (apply (bool_decide_unpack _); vm_compute; done)).
    by destruct (m_readOnly m).
  - repeat (apply Forall_cons_2;
      [apply Hone; [apply (bool_decide_unpack _); vm_compute; done|];
       rewrite fixed_args_of, args_of_app, (platform_neutral_of platform)
         by (done || (apply (bool_decide_unpack _); vm_compute; done)); by destruct (m_readOnly m)|]).
    apply Forall_nil_2.
Qed.

Lemma elem_of_map_args (a : strmap) k v :
  a !! k = Some v → v ≠ "" → flag_arg k v ∈ map_args a.
Proof.
  intros Ha Hv. apply list_elem_of_fmap. exists (k, v). split; [done|].
  apply list_elem_of_filter. split; [done|]. by apply elem_of_range.
Qed.

Lemma mutable_usable k :
  k ∈ mutableMountParameters → k ≠ "dataLocality" → usable k.
Proof.
  intros Hk Hne.
  assert (Forall (λ k, k = "dataLocality" ∨ usable k) mutableMountParameters) as HF
    by (apply (bool_decide_unpack _); vm_compute; done).
  rewrite Forall_forall in HF. by destruct (HF k Hk).
Qed.

Lemma context_flag m fs a k v :
  finalArgsMap m fs = Ok a → usable k → m_volContext m !! k = Some v → v ≠ "" →
  ∃ k' v', m_volContext m !! k' = Some v' ∧ v' ≠ "" ∧ parameterArgMap k' = parameterArgMap k ∧
    a !! parameterArgMap k = Some v'.
Proof.
  intros Ha Hu Hk Hv. unfold finalArgsMap in Ha. apply rbind_Ok in Ha as ([dl dc] & _ & <-%Ok_inj).
  destruct (context_foldl_set
    (match dl with Write_preferLocalDc => <["dataCenter" := dc]> (argsMap0 m fs) | DL_None => argsMap0 m fs end)
    (range (m_volContext m)) (parameterArgMap k)) as (k' & v' & Hin & (_ & Hv' & Heq) & Hf).
  - destruct dl; rewrite ?dom_insert_L, argsMap0_dom; [|apply elem_of_union_r]; apply elem_of_list_to_set, Hu.
  - apply Hu.
  - apply Exists_exists. exists (k, v). by rewrite elem_of_range.
  - apply elem_of_range in Hin. by exists k', v'.
Qed.

(** The data center of a volume that prefers the local one. *)
Definition local_dc m : string :=
  if String.eqb (get (m_volContext m) "dataCenter") "" then DataCenter (m_driver m)
  else get (m_volContext m) "dataCenter".

Lemma locality_flag m fs a :
  finalArgsMap m fs = Ok a → FromString (get (m_volContext m) "dataLocality") = Some Write_preferLocalDc →
  local_dc m ≠ "" ∧ a !! "dataCenter" = Some (local_dc m).
Proof.
  intros Ha Hl. unfold finalArgsMap in Ha. apply rbind_Ok in Ha as ([dl dc] & Hr & <-%Ok_inj).
  unfold resolveLocality in Hr. rewrite Hl in Hr.
  destruct (String.eqb_spec (get (m_volContext m) "dataLocality") "") as [He|_]; [by rewrite He in Hl|].
  apply rbind_Ok in Hr as (dl' & <-%Ok_inj & Hr). apply rbind_Ok in Hr as ([] & Hc & [= <- <-]%Ok_inj).
  fold (local_dc m) in *. unfold CheckDataLocality in Hc.
  destruct (String.eqb_spec (local_dc m) "") as [|Hne]; [done|]. split; [done|].
  assert (∀ k, parameterArgMap k = "dataCenter" → k = "dataCenter") as Hdc.
  { intros k. unfold parameterArgMap. by repeat case_match. }
  destruct (decide (Exists (sets "dataCenter") (range (m_volContext m)))) as [Hex|Hex].
  - destruct (context_foldl_set (<["dataCenter" := local_dc m]> (argsMap0 m fs)) (range (m_volContext m)) "dataCenter")
      as (k & v & Hin & (_ & Hv & Hk%Hdc) & ->); [set_solver|by apply (bool_decide_unpack _)|done|].
    cbn in Hk, Hv. subst k. apply elem_of_range in Hin. f_equal. unfold local_dc, get. rewrite Hin. cbn.
    by destruct (String.eqb_spec v "").
  - rewrite context_foldl_skip; [by rewrite lookup_insert_eq| |by apply (bool_decide_unpack _)].
    intros k v Hin Hu Hv Hk. apply Hex, Exists_exists. by exists (k, v).
Qed.

(** C31. A parameter a VolumeAttributesClass may set reaches the weed mount, in whatever
    order Go visits the maps. A value other than the empty one is the argument of its
    flag; where other keys of the context stand for the same flag, the value of one of them
    is. The data locality has no flag: one that prefers the local data center makes that of
    the volume, or else that of the node, an argument. *)
Theorem context_parameter_reaches_weed m target cache socket fs args :
  buildMountArgs m target cache socket fs = Ok args →
  (∀ k v, k ∈ mutableMountParameters → k ≠ "dataLocality" → m_volContext m !! k = Some v → v ≠ "" →
    ∃ v', flag_arg (parameterArgMap k) v' ∈ args ∧
      ∃ k', m_volContext m !! k' = Some v' ∧ v' ≠ "" ∧ parameterArgMap k' = parameterArgMap k ∧
        (no_alias (m_volContext m) → v' = v)) ∧
  (FromString (get (m_volContext m) "dataLocality") = Some Write_preferLocalDc →
    local_dc m ≠ "" ∧ flag_arg "dataCenter" (local_dc m) ∈ args).
Proof.
  intros Hb. unfold buildMountArgs, buildMountArgs_on in Hb. apply rbind_Ok in Hb as ([] & _ & Hb).
  apply rbind_Ok in Hb as (a & Ha & <-%Ok_inj). split.
  - intros k v Hk Hne Hctx Hv.
    destruct (context_flag m fs a k v Ha (mutable_usable k Hk Hne) Hctx Hv) as (k' & v' & Hk' & Hv' & Heq & Hf).
    exists v'. split; [apply elem_of_app; right; apply elem_of_app; left; by apply elem_of_map_args|].
    exists k'. split_and!; [done..|]. intros Hal. assert (k' = k) as -> by (by eapply Hal). congruence.
  - intros Hl. destruct (locality_flag m fs a Ha Hl) as [Hne Hf]. split; [done|].
    apply elem_of_app. right. apply elem_of_app. left. by apply elem_of_map_args.
Qed.
End properties.

(** The collection quota is the capacity rounded up to whole MiB: the smallest
    number of MiB that holds the requested bytes. What the controller recorded
    in the volume context is read back, for every capacity a request can
    carry, and the increment never overflows. *)
Theorem initialCollectionQuotaMB_ceil (capacity : Z) :
  (1 < capacity)%Z → Strconv.in_int64 capacity = true →
  ∃ mb, Strconv.ParseInt (initialCollectionQuotaMB (Strconv.FormatInt capacity)) = Some mb ∧
    ((mb - 1) * bytesPerMiB < capacity <= mb * bytesPerMiB)%Z.
Proof.
  intros Hc Hr. unfold initialCollectionQuotaMB. rewrite ParseInt_FormatInt by done.
  destruct (Z.leb_spec capacity 1); [lia|]. unfold Strconv.in_int64 in Hr.
  apply andb_true_iff in Hr as [_ Hr%Z.leb_le].
  change Strconv.max_int64 with 9223372036854775807%Z in Hr.
  rewrite Z.quot_div_nonneg, Z.rem_mod_nonneg by (unfold bytesPerMiB; lia).
  set (mb := if negb _ then _ else _).
  assert (((mb - 1) * bytesPerMiB < capacity <= mb * bytesPerMiB)%Z) as Hmb.
  { subst mb. pose proof (Z.div_mod capacity bytesPerMiB). unfold bytesPerMiB in *.
    pose proof (Z.mod_pos_bound capacity (1024 * 1024)).
    destruct (Z.eqb_spec (capacity mod (1024 * 1024)) 0); cbn [negb]; lia. }
  exists mb. split; [|done]. apply ParseInt_FormatInt. unfold bytesPerMiB in Hmb.
  unfold Strconv.in_int64. apply andb_true_iff. rewrite !Z.leb_le.
  change Strconv.max_int64 with 9223372036854775807%Z.
  change Strconv.min_int64 with (-9223372036854775808)%Z. lia.
Qed.

(** *** What weed is started with *)
Section service.
Context {MR : MapRange} (flags : weedMountFlags) (required : list string).
Implicit Types (m : mountServiceMounter).

Lemma filter_keeps_required pre rest out name :
  "mount" ∉ pre → name ∈ RequiredMountFlags →
  filterMountArgs (pre ++ "mount" :: rest) flags required = Ok out →
  args_of name out = args_of name (pre ++ "mount" :: rest).
Proof.
  intros Hpre Hname Hf.
  destruct (filterMountArgs_app flags required pre rest Hpre) as [[Hall Heq]|[_ [e Heq]]];
    rewrite Heq in Hf; [|done]. injection Hf as <-.
  change ("mount" :: filter _ rest) with (["mount"] ++ filter (accepted flags) rest).
  change ("mount" :: rest) with (["mount"] ++ rest). rewrite !args_of_app.
  f_equal. f_equal. unfold args_of. clear Heq.
  induction rest as [|a rest IH]; [done|]. apply Forall_cons in Hall as [Ha Hall].
  specialize (IH Hall). destruct (decide (accepted flags a)) as [Hacc|Hacc].
  - rewrite (filter_cons_True (accepted flags)) by done.
    destruct (decide (mountFlagName a = name)) as [Hn|Hn].
    + rewrite !(filter_cons_True (λ a, mountFlagName a = name)) by done. by rewrite IH.
    + rewrite !(filter_cons_False (λ a, mountFlagName a = name)) by done. done.
  - rewrite (filter_cons_False (accepted flags)) by done.
    rewrite (filter_cons_False (λ a, mountFlagName a = name) a); [done|].
    intros <-. apply Ha. split; [done|]. unfold requiredSet. set_solver.
Qed.

(** End to end, whatever the weed binary of the mount service defines and
    whatever the volume context and the extra arguments contain: the command
    weed is started with names the driver's target, socket, cache directory
    and access mode, each exactly once; its collection quota is the one
    computed from the provisioned capacity; filer, path and collection are
    given at most once. *)
Lemma command_identity platform m target cache socket fs args out :
  platform_neutral platform →
  buildMountArgs_on platform m target cache socket fs = Ok args →
  filterMountArgs args flags required = Ok out →
  args_of "dir" out = [flag_arg "dir" target] ∧
  args_of "localSocket" out = [flag_arg "localSocket" socket] ∧
  args_of "cacheDir" out = [flag_arg "cacheDir" cache] ∧
  args_of "dirAutoCreate" out = ["-dirAutoCreate=true"] ∧
  args_of "readOnly" out = (if m_readOnly m then ["-readOnly"] else []) ∧
  args_of "winfspMountRoots" out = args_of "winfspMountRoots" platform ∧
  (let quota := initialCollectionQuotaMB (get (m_volContext m) volumeCapacityKey) in
   args_of "collectionQuotaMB" out =
     if String.eqb quota "" then [] else [flag_arg "collectionQuotaMB" quota]) ∧
  Forall (λ name, length (args_of name out) ≤ 1) ["filer"; "filer.path"; "collection"].
Proof.
  intros Hpl Hb Hf.
  assert (∀ name, name ∈ RequiredMountFlags → args_of name out = args_of name args) as Hkeep.
  { unfold buildMountArgs_on in Hb. apply rbind_Ok in Hb as ([] & _ & Hb).
    apply rbind_Ok in Hb as (a & _ & <-%Ok_inj). intros name Hname.
    refine (filter_keeps_required ["-logtostderr=true"] _ out name _ Hname Hf).
    apply (bool_decide_unpack _); vm_compute; done. }
  apply buildMountArgs_managed in Hb; [|done]. rewrite !Hkeep by (apply (bool_decide_unpack _); done).
  destruct Hb as (? & ? & ? & ? & ? & ? & ? & Hle). split_and!; try done.
  eapply Forall_impl; [|intros name Hlen; exact Hlen].
  repeat (apply Forall_cons in Hle as [Hn Hle]; apply Forall_cons_2;
    [by rewrite Hkeep by (apply (bool_decide_unpack _); done)|clear Hn]).
  apply Forall_nil_2.
Qed.

Lemma linux_neutral : platform_neutral platformMountArgs.
Proof. apply (bool_decide_unpack _). vm_compute. done. Qed.
End service.

Definition demo_conflict : mountServiceMounter := {|
  m_driver := demo_driver; m_volumeID := "/buckets/b"; m_readOnly := false;
  m_volContext := {["diskType" := "ssd"; "disk" := "hdd"]} |}.

(** Two context keys that stand for the same flag: the order in which Go visits
    the context decides which disk type weed is given. *)
Theorem alias_order_dependent :
  ∃ o1 o2 : MapRange,
    (args_of "disk" <$> match @buildMountArgs o1 demo_conflict "/t" "/c" "/s" ["f"] with
                        | Ok args => Some args | Err _ => None end) = Some ["-disk=ssd"] ∧
    (args_of "disk" <$> match @buildMountArgs o2 demo_conflict "/t" "/c" "/s" ["f"] with
                        | Ok args => Some args | Err _ => None end) = Some ["-disk=hdd"].
Proof. first [exists range_sorted, range_reversed; by vm_compute | exists range_reversed, range_sorted; by vm_compute]. Qed.

#[local] Existing Instance range_sorted.

Definition demo_mounter : mountServiceMounter := {|
  m_driver := demo_driver; m_volumeID := "/buckets/b"; m_readOnly := true;
  m_volContext := {["diskType" := "ssd"; volumeCapacityKey := "1048577"]} |}.

Definition demo_args : list string :=
  match buildMountArgs demo_mounter "/t" "/c" "/s" ["f"] with Ok args => args | Err _ => [] end.

Definition demo_weed : weedMountFlags :=
  {| defined := list_to_set ("ttl" :: "umask" :: managedFlags ++ argKeys); version := "3.80" |}.
Definition demo_out : list string :=
  match filterMountArgs demo_args demo_weed [] with Ok out => out | Err _ => [] end.

Example command_identity_demo :
  filterMountArgs demo_args demo_weed [] = Ok demo_out ∧
  args_of "dir" demo_out = ["-dir=/t"] ∧
  args_of "readOnly" demo_out = ["-readOnly"] ∧
  args_of "collectionQuotaMB" demo_out = ["-collectionQuotaMB=2"].
Proof. by vm_compute. Qed.

Definition local_mounter : mountServiceMounter := {|
  m_driver := demo_driver; m_volumeID := "/buckets/b"; m_readOnly := false;
  m_volContext := {["diskType" := "ssd"; "dataLocality" := "Write_preferLocalDc"; "dataCenter" := "dc1"]} |}.
Definition local_args : list string :=
  match buildMountArgs local_mounter "/t" "/c" "/s" ["f"] with Ok args => args | Err _ => [] end.

Lemma context_parameter_reaches_weed_witness :
  buildMountArgs local_mounter "/t" "/c" "/s" ["f"] = Ok local_args ∧
  "-disk=ssd" ∈ local_args ∧ "-dataCenter=dc1" ∈ local_args.
Proof.
  assert (buildMountArgs local_mounter "/t" "/c" "/s" ["f"] = Ok local_args) as H1 by (vm_compute; reflexivity).
  assert (no_alias (m_volContext local_mounter)) as H2.
  { apply no_alias_keys. apply (bool_decide_unpack _). vm_compute. done. }
  destruct (context_parameter_reaches_weed local_mounter "/t" "/c" "/s" ["f"] local_args H1) as [Hp Hl].
  split; [exact H1|]. split.
  - assert ("diskType" ∈ mutableMountParameters) as H3 by (apply (bool_decide_unpack _); done).
    destruct (Hp "diskType" "ssd" H3 ltac:(discriminate) ltac:(vm_compute; reflexivity) ltac:(discriminate))
      as (v' & Hin & k' & _ & _ & _ & Hv). rewrite (Hv H2) in Hin. exact Hin.
  - exact (proj2 (Hl ltac:(vm_compute; reflexivity))).
Defined.

Lemma initialCollectionQuotaMB_ceil_witness :
  (1 < 1048577)%Z ∧ Strconv.in_int64 1048577 = true ∧
  ∃ mb, Strconv.ParseInt (initialCollectionQuotaMB (Strconv.FormatInt 1048577)) = Some mb ∧
    ((mb - 1) * bytesPerMiB < 1048577 <= mb * bytesPerMiB)%Z.
Proof.
  assert (1 < 1048577)%Z as H1 by lia.
  assert (Strconv.in_int64 1048577 = true) as H2 by reflexivity.
  split; [exact H1|]. split; [exact H2|]. exact (initialCollectionQuotaMB_ceil 1048577 H1 H2).
Defined.
