(* ===== verification/Platform.v ===== *)
(** * The two systems the driver is built for

    The files with a build tag that hold defaults and arguments of weed mount:
    [defaults_linux.go], [defaults_windows.go], [mounter_args_linux.go],
    [mounter_args_windows.go], [socket_linux.go] and [socket_windows.go], with the paths of
    [socket.go] by the rules of package filepath on either system. *)

From S2P Require Import Prelude GoLib Hash Params Driver WinPath MountFlags MountArgs.
#[local] Open Scope go_scope.

(** [filepath.Base] on Windows. *)
Fixpoint strip_seps (s : string) : string :=
  match s with
  | EmptyString => ""
  | String c s =>
      let t := strip_seps s in
      if String.eqb t "" && WinPath.is_sep c then "" else String c t
  end.
Definition Base_windows (p : string) : string :=
  if String.eqb p "" then "."
  else let q := (WinPath.split_volume (strip_seps p)).2 in
       let e := default "" (last (Strings.split_by WinPath.is_sep q)) in
       if String.eqb e "" then "\" else e.

Example base_windows : map Base_windows ["C:\a\b.json"; "C:\"; ""; "a/b\"; "C:x"] = ["b.json"; "\"; "."; "b"; "x"].
Proof. reflexivity. Qed.

(** What the code takes from the system it is built for. *)
Record Platform := {
  Join : list string → string;
  Dir : string → string;
  Base : string → string;
  SocketDir : string;                                (** [DefaultSocketDir] *)
  mount_args : string → string → list string;        (** [platformMountArgs] *)
  pod_mounts : bool;                                 (** is [platformPodVolumeMounts] not nil *)
}.

(** ** Defaults *)
Definition DefaultSocketDir_windows : string := "C:\var\lib\seaweedfs-mount".
Definition DefaultCacheDir : string := "/var/cache/seaweedfs".
Definition DefaultCacheDir_windows : string := "C:\var\cache\seaweedfs".
Definition DefaultStagingScanDir : string := "/var/lib/kubelet/plugins/kubernetes.io/csi".
Definition DefaultStagingScanDir_windows : string := "C:\var\lib\kubelet\plugins\kubernetes.io\csi".

(** ** The paths of socket.go *)
Section paths.
Context (join : list string → string) (defaultDir : string).

Definition socket_for_hash (baseDir volumeHash : string) : string :=
  let baseDir := if String.eqb baseDir "" then defaultDir else baseDir in
  join [baseDir; "seaweedfs-mount-" +:+ Strings.stake 16 volumeHash +:+ ".sock"].

Definition socket_path (baseDir volumeID : string) : string :=
  let baseDir := if String.eqb baseDir "" then defaultDir else baseDir in
  socket_for_hash baseDir (sha256_hex volumeID).

Definition roots_path (baseDir volumeID : string) : string :=
  Strings.TrimSuffix (socket_path baseDir volumeID) ".sock" +:+ ".roots.json".
End paths.

(** ** Arguments *)
Definition platformMountArgs_windows (volumeSocketDir volumeID : string) : list string :=
  ["-winfspMountRoots=" +:+ roots_path WinPath.Join DefaultSocketDir_windows volumeSocketDir volumeID].
Definition mountRootsRecorded : bool := false.
Definition mountRootsRecorded_windows : bool := true.
(** Is the lookup of the mounts of a pod not nil. *)
Definition platformPodVolumeMounts : bool := false.
Definition platformPodVolumeMounts_windows : bool := true.

Definition linux : Platform := {|
  Join := Path.JoinPath; Dir := Path.Dir; Base := Path.Base; SocketDir := DefaultSocketDir;
  mount_args := λ _ _, platformMountArgs; pod_mounts := platformPodVolumeMounts |}.
Definition windows : Platform := {|
  Join := WinPath.Join; Dir := WinPath.Dir; Base := Base_windows; SocketDir := DefaultSocketDir_windows;
  mount_args := platformMountArgs_windows; pod_mounts := platformPodVolumeMounts_windows |}.

(** [MountRootsPath]. *)
Definition MountRootsPath_on (pf : Platform) : string → string → string := roots_path (Join pf) (SocketDir pf).

(** The paths that the rest of the Linux build is modelled with are those of [linux]. *)
Lemma linux_paths :
  socket_path (Join linux) (SocketDir linux) = LocalSocketPath ∧ MountRootsPath_on linux = MountRootsPath.
Proof. done. Qed.

(** ** What weed is told of the mounts of pods *)
Lemma platform_args_neutral pf baseDir volumeID :
  pf = linux ∨ pf = windows → platform_neutral (mount_args pf baseDir volumeID).
Proof.
  intros [->| ->]; [exact linux_neutral|]. constructor; [|constructor].
  change (mountFlagName (flag_arg "winfspMountRoots" (MountRootsPath_on windows baseDir volumeID))
    ∉ ["dir"; "localSocket"; "cacheDir"; "dirAutoCreate"; "readOnly"; "collectionQuotaMB"; "filer"; "filer.path"; "collection"]).
  rewrite mountFlagName_flag_arg; apply (bool_decide_unpack _); vm_compute; done.
Qed.

Lemma roots_args pf baseDir volumeID :
  pf = linux ∨ pf = windows →
  args_of "winfspMountRoots" (mount_args pf baseDir volumeID) =
    if pod_mounts pf then [flag_arg "winfspMountRoots" (MountRootsPath_on pf baseDir volumeID)] else [].
Proof.
  intros [->| ->]; [by vm_compute|].
  change (args_of "winfspMountRoots" [flag_arg "winfspMountRoots" (MountRootsPath_on windows baseDir volumeID)] =
    [flag_arg "winfspMountRoots" (MountRootsPath_on windows baseDir volumeID)]).
  unfold args_of. by rewrite filter_cons_True
    by (rewrite mountFlagName_flag_arg; [done|apply (bool_decide_unpack _); vm_compute; done]).
Qed.

Example roots_windows :
  mount_args windows "" "/buckets/pvc-1" =
    ["-winfspMountRoots=C:\var\lib\seaweedfs-mount\seaweedfs-mount-" +:+ Strings.stake 16 (sha256_hex "/buckets/pvc-1")
     +:+ ".roots.json"].
Proof. vm_compute. reflexivity. Qed.

(** With the defaults, the cache base is absolute and staged volumes are looked for. *)
Example defaults_usable :
  Path.IsAbs DefaultCacheDir = true ∧ WinPath.IsAbs DefaultCacheDir_windows = true ∧
  DefaultStagingScanDir ≠ "" ∧ WinPath.IsAbs DefaultStagingScanDir_windows = true.
Proof. vm_compute. repeat split. discriminate. Qed.
