(* ===== verification/ProcessOutput.v ===== *)
(** * The output of a weed mount process

    Models [processOutput] and [lineWriter] of [pkg/mountmanager/manager.go]:
    an output stream is split into lines as it is written, each line is logged,
    and the first and last few are kept for the error that reports an exit
    before the mount came up. *)

From S2P Require Import Prelude GoLib MountFlags.

Definition outputKeepLines : nat := 5.
Definition maxLineBytes : Z := 64 * 1024.

Record processOutput := { o_head : list string; o_tail : list string; o_lines : nat }.
Definition empty_output : processOutput := {| o_head := []; o_tail := []; o_lines := 0 |}.

(** [processOutput.add]. *)
Definition add (o : processOutput) (line : string) : processOutput :=
  let lines := S (o_lines o) in
  if length (o_head o) <? outputKeepLines then
    {| o_head := o_head o ++ [line]; o_tail := o_tail o; o_lines := lines |}
  else
    let tail := o_tail o ++ [line] in
    let tail := if outputKeepLines <? length tail then drop 1 tail else tail in
    {| o_head := o_head o; o_tail := tail; o_lines := lines |}.

Definition nl_str : string := String nl "".

Definition summary (o : processOutput) : string :=
  if o_lines o =? 0 then "no output"
  else
    let head := Strings.Join (o_head o) nl_str in
    if bool_decide (o_tail o = []) then head
    else
      let tail := Strings.Join (o_tail o) nl_str in
      let omitted := (Z.of_nat (o_lines o) - Z.of_nat (length (o_head o))
                      - Z.of_nat (length (o_tail o)))%Z in
      if (0 <? omitted)%Z then
        head +:+ nl_str +:+ "... (" +:+ Strconv.FormatInt omitted +:+ " lines omitted) ..."
          +:+ nl_str +:+ tail
      else head +:+ nl_str +:+ tail.

(** ** [lineWriter]

    The state of a writer is its buffer; the output it feeds is threaded
    through. *)

(** The loop of [Write]; one round per newline in the buffer. *)
Fixpoint Write_loop (fuel : nat) (o : processOutput) (buf : string)
    : option (processOutput * string) :=
  match fuel with
  | O => None
  | S fuel =>
      match Strings.cut_opt nl_str buf with
      | None =>
          if (maxLineBytes <=? Z.of_nat (String.length buf))%Z then Some (add o buf, "")
          else Some (o, buf)
      | Some (line, rest) => Write_loop fuel (add o (drop_cr line)) rest
      end
  end.

Definition lineWriter_Write (st : processOutput * string) (p : string)
    : option (processOutput * string) :=
  let buf := st.2 +:+ p in Write_loop (S (String.length buf)) st.1 buf.

Definition flush (st : processOutput * string) : processOutput * string :=
  if 0 <? String.length st.2 then (add st.1 (drop_cr st.2), "") else st.

(** A sequence of writes. *)
Fixpoint write_all (st : processOutput * string) (chunks : list string)
    : option (processOutput * string) :=
  match chunks with
  | [] => Some st
  | p :: chunks => st' ← lineWriter_Write st p; write_all st' chunks
  end.

(** ** Lemmas *)
Definition adds (o : processOutput) (ls : list string) : processOutput := foldl add o ls.

Lemma cut_opt_app (c : ascii) (a b : string) :
  no_byte c a → Strings.cut_opt (String c "") (a +:+ String c b) = Some (a, b).
Proof.
  induction a as [|d a IH]; intros Ha.
  - cbn. destruct (ascii_dec c c); [|done]. by destruct b.
  - apply no_byte_cons in Ha as [Hd Ha]. cbn. destruct (ascii_dec c d) as [|_]; [done|].
    cbn in IH. by rewrite IH.
Qed.

Lemma cut_opt_none (c : ascii) (a : string) :
  no_byte c a → Strings.cut_opt (String c "") a = None.
Proof.
  induction a as [|d a IH]; intros Ha; [done|]. apply no_byte_cons in Ha as [Hd Ha]. cbn.
  destruct (ascii_dec c d) as [|_]; [done|]. by rewrite IH.
Qed.

(** A text as its complete lines and what follows the last newline. *)
Fixpoint split_last (l : list string) : list string * string :=
  match l with
  | [] => ([], "")
  | [x] => ([], x)
  | x :: l => let '(ls, r) := split_last l in (x :: ls, r)
  end.
Definition pieces (s : string) : list string * string := split_last (Strings.Split s nl).
Definition unlines (ls : list string) (rest : string) : string :=
  foldr (λ l s, l +:+ String nl s) rest ls.

Lemma split_last_cons x y l :
  split_last (x :: y :: l) = (x :: (split_last (y :: l)).1, (split_last (y :: l)).2).
Proof. cbn. by destruct (match l with [] => _ | _ :: _ => _ end). Qed.

Lemma split_last_Join l :
  l ≠ [] → Forall (no_byte nl) l →
  unlines (split_last l).1 (split_last l).2 = Strings.Join l nl_str ∧
  Forall (no_byte nl) (split_last l).1 ∧ no_byte nl (split_last l).2.
Proof.
  induction l as [|x l IH]; [done|]. intros _ [Hx Hl]%Forall_cons.
  destruct l as [|y l]; [done|]. destruct (IH ltac:(done) Hl) as (Hu & Hf & Hr).
  rewrite split_last_cons, Join_cons by done. cbn [fst snd]. split_and!; [|by constructor|done].
  cbn [unlines foldr]. fold (unlines (split_last (y :: l)).1 (split_last (y :: l)).2).
  by rewrite Hu.
Qed.

Lemma pieces_unlines s :
  unlines (pieces s).1 (pieces s).2 = s ∧ Forall (no_byte nl) (pieces s).1 ∧
  no_byte nl (pieces s).2.
Proof.
  destruct (split_last_Join (Strings.Split s nl)) as (Hu & H); [apply split_by_nonnil|apply Split_pieces|].
  split; [|done]. unfold pieces. rewrite Hu. apply Join_Split.
Qed.

Lemma Split_unlines ls rest :
  Forall (no_byte nl) ls → no_byte nl rest → pieces (unlines ls rest) = (ls, rest).
Proof.
  intros Hls Hr. unfold pieces.
  assert (Strings.Split (unlines ls rest) nl = ls ++ [rest]) as ->.
  { induction Hls as [|l ls Hl Hls IH]; [by apply Split_no_byte|].
    cbn [unlines foldr]. fold (unlines ls rest).
    rewrite Split_app_sep, Split_no_byte by done. by rewrite IH. }
  clear Hls Hr. induction ls as [|l ls IH]; [done|]. cbn [app].
  destruct (ls ++ [rest]) as [|y k] eqn:E; [by destruct ls|].
  by rewrite split_last_cons, IH.
Qed.

(** The length of a text bounds the number of its lines. *)
Lemma length_unlines ls rest : length ls ≤ String.length (unlines ls rest).
Proof.
  induction ls as [|l ls IH]; [cbn; lia|]. cbn [unlines foldr]. fold (unlines ls rest). rewrite length_sapp. cbn [length String.length]. lia.
Qed.

(** With enough fuel the loop adds every complete line and keeps the rest,
    unless the rest is too long to keep. *)
Lemma Write_loop_unlines fuel o ls rest :
  length ls < fuel → Forall (no_byte nl) ls → no_byte nl rest →
  Write_loop fuel o (unlines ls rest) =
    Some (if (maxLineBytes <=? Z.of_nat (String.length rest))%Z
          then (add (adds o (drop_cr <$> ls)) rest, "")
          else (adds o (drop_cr <$> ls), rest)).
Proof.
  revert fuel o. induction ls as [|l ls IH]; intros fuel o Hf Hls Hr.
  - destruct fuel as [|fuel]; [cbn in Hf; lia|]. cbn [unlines foldr Write_loop].
    unfold nl_str. rewrite cut_opt_none by done. cbn. by destruct (Z.leb _ _).
  - destruct fuel as [|fuel]; [cbn in Hf; lia|]. apply Forall_cons in Hls as [Hl Hls].
    cbn [unlines foldr Write_loop]. unfold nl_str at 1. rewrite cut_opt_app by done.
    fold (unlines ls rest). rewrite IH; [done| |done|done]. cbn in Hf. lia.
Qed.

Lemma lineWriter_Write_pieces o buf p :
  lineWriter_Write (o, buf) p =
    let '(ls, rest) := pieces (buf +:+ p) in
    Some (if (maxLineBytes <=? Z.of_nat (String.length rest))%Z
          then (add (adds o (drop_cr <$> ls)) rest, "")
          else (adds o (drop_cr <$> ls), rest)).
Proof.
  unfold lineWriter_Write. cbn [fst snd].
  destruct (pieces_unlines (buf +:+ p)) as (Hu & Hls & Hr).
  destruct (pieces (buf +:+ p)) as [ls rest]. cbn [fst snd] in *. rewrite <- Hu.
  apply Write_loop_unlines; [|done|done]. pose proof (length_unlines ls rest). lia.
Qed.

Lemma pieces_app s t ls rest :
  pieces s = (ls, rest) →
  pieces (s +:+ t) = (ls ++ (pieces (rest +:+ t)).1, (pieces (rest +:+ t)).2).
Proof.
  intros Hs. destruct (pieces_unlines s) as (Hu & Hls & _). rewrite Hs in Hu, Hls. cbn in Hu, Hls.
  destruct (pieces_unlines (rest +:+ t)) as (Hu2 & Hls2 & Hr2).
  destruct (pieces (rest +:+ t)) as [ls2 r2]. cbn [fst snd] in *.
  assert (s +:+ t = unlines (ls ++ ls2) r2) as ->.
  { rewrite <- Hu. unfold unlines. rewrite foldr_app. fold (unlines ls2 r2). rewrite Hu2.
    clear. induction ls as [|l ls IH]; [done|]. cbn [foldr].
    rewrite <- sapp_assoc. cbn. by rewrite IH. }
  apply Split_unlines; [by apply Forall_app|done].
Qed.

Lemma adds_app o l k : adds o (l ++ k) = adds (adds o l) k.
Proof. apply foldl_app. Qed.

Lemma adds_lines o ls : o_lines (adds o ls) = o_lines o + length ls.
Proof.
  revert o. induction ls as [|l ls IH]; intros o; [cbn; lia|]. cbn [adds foldl].
  change (foldl add (add o l) ls) with (adds (add o l) ls). rewrite IH. unfold add.
  destruct (_ <? _); cbn; lia.
Qed.

(** What the output keeps of the lines it was given. *)
Lemma adds_kept ls :
  o_head (adds empty_output ls) = take outputKeepLines ls ∧
  o_tail (adds empty_output ls) =
    drop (length ls - outputKeepLines - outputKeepLines) (drop outputKeepLines ls).
Proof.
  unfold outputKeepLines. induction ls as [|l ls IH] using rev_ind; [done|].
  destruct IH as [Hh Ht]. rewrite adds_app. cbn [adds foldl]. unfold add.
  rewrite Hh, length_take, Ht, length_app. cbn [length]. unfold outputKeepLines.
  destruct (Nat.ltb_spec (5 `min` length ls) 5) as [Hlt|Hge]; cbn [o_head o_tail].
  - rewrite (take_ge ls), (take_ge (ls ++ [l])) by (rewrite ?length_app; cbn; lia).
    split; [done|]. rewrite !(drop_ge _ 5) by (rewrite ?length_app; cbn; lia). by rewrite !drop_nil.
  - rewrite take_app_le by lia. split; [done|].
    rewrite (drop_app_le ls) by lia. rewrite length_app, !length_drop. cbn [length].
    destruct (Nat.ltb_spec 5 (length ls - 5 - (length ls - 5 - 5) + 1)).
    + rewrite drop_app_le by (rewrite !length_drop; lia).
      rewrite (drop_app_le (drop 5 ls)) by (rewrite length_drop; lia).
      rewrite !drop_drop. do 2 f_equal. lia.
    + replace (length ls - 5 - 5) with 0 by lia. replace (length ls + 1 - 5 - 5) with 0 by lia.
      by rewrite !drop_0.
Qed.

(** ** Properties *)

(** The lines of a text, each without its trailing carriage return. *)
Definition text_lines (s : string) : list string :=
  let '(ls, rest) := pieces s in
  drop_cr <$> (ls ++ if String.eqb rest "" then [] else [rest]).

(** Writing always ends, whatever the chunks, and leaves less than
    [maxLineBytes] in the buffer. *)
Theorem lineWriter_bounded (o : processOutput) (buf p : string) :
  ∃ o' buf', lineWriter_Write (o, buf) p = Some (o', buf') ∧
    (Z.of_nat (String.length buf') < maxLineBytes)%Z.
Proof.
  rewrite lineWriter_Write_pieces. destruct (pieces _) as [ls rest].
  destruct (Z.leb_spec maxLineBytes (Z.of_nat (String.length rest))); eexists _, _; split; done.
Qed.

Lemma write_all_pieces o buf chunks ls rest :
  (Z.of_nat (String.length (unlines [] (buf +:+ String.concat "" chunks))) < maxLineBytes)%Z →
  pieces (buf +:+ String.concat "" chunks) = (ls, rest) → no_byte nl buf →
  write_all (o, buf) chunks = Some (adds o (drop_cr <$> ls), rest).
Proof.
  assert (∀ a l, String.concat "" (a :: l) = a +:+ String.concat "" l) as Hcat
    by (intros a [|]; [by cbn; rewrite sapp_nil_r|done]).
  revert o buf ls rest. induction chunks as [|p chunks IH]; intros o buf ls rest Hlen Hp Hbuf.
  { cbn in Hp |- *. rewrite sapp_nil_r in Hp. unfold pieces in Hp.
    rewrite Split_no_byte in Hp by done. by injection Hp as <- <-. }
  cbn [write_all]. rewrite lineWriter_Write_pieces.
  rewrite Hcat, sapp_assoc in Hp, Hlen. cbn [unlines foldr] in Hlen.
  destruct (pieces_unlines (buf +:+ p)) as (Hu & _ & Hr1).
  destruct (pieces (buf +:+ p)) as [ls1 r1] eqn:E. cbn [fst snd] in *.
  assert (String.length r1 ≤ String.length (buf +:+ p)) as Hr1len.
  { rewrite <- Hu. clear. induction ls1 as [|l ls1 IH]; [done|].
    cbn [unlines foldr]. fold (unlines ls1 r1). rewrite length_sapp. cbn [String.length]. lia. }
  rewrite !length_sapp in *.
  destruct (Z.leb_spec maxLineBytes (Z.of_nat (String.length r1))); [lia|].
  cbn [mbind option_bind]. rewrite (pieces_app _ _ _ _ E) in Hp. injection Hp as <- <-.
  rewrite fmap_app, adds_app. apply IH; [|apply surjective_pairing|done].
  cbn [unlines foldr]. rewrite length_sapp. lia.
Qed.

(** How the output is cut into writes does not matter: after the writes and
    the final flush, exactly the lines of the whole text have been added, for
    any text shorter than the longest line kept. *)
Theorem lineWriter_chunks (o : processOutput) (chunks : list string) :
  (Z.of_nat (String.length (String.concat "" chunks)) < maxLineBytes)%Z →
  flush <$> write_all (o, "") chunks =
    Some (adds o (text_lines (String.concat "" chunks)), "").
Proof.
  intros Hlen. unfold text_lines. destruct (pieces (String.concat "" chunks)) as [ls rest] eqn:E.
  rewrite (write_all_pieces o "" chunks ls rest) by done. cbn [fmap option_fmap option_map].
  unfold flush. cbn [fst snd]. rewrite fmap_app, adds_app.
  destruct rest as [|c rest]; done.
Qed.

Lemma lineWriter_chunks_witness :
  (Z.of_nat (String.length (String.concat "" ["a"; String "010" "b"])) < maxLineBytes)%Z ∧
  flush <$> write_all (empty_output, "") ["a"; String "010" "b"] =
    Some (adds empty_output (text_lines (String.concat "" ["a"; String "010" "b"])), "") ∧
  text_lines (String.concat "" ["a"; String "010" "b"]) = ["a"; "b"].
Proof.
  assert (Z.of_nat (String.length (String.concat "" ["a"; String "010" "b"])) < maxLineBytes)%Z
    as H by (vm_compute; reflexivity).
  split; [exact H|]. split; [exact (lineWriter_chunks empty_output _ H)|vm_compute; reflexivity].
Defined.

(** The error of a failed start shows all the output when it has at most ten
    lines, and otherwise the first five and the last five lines with the exact
    number of lines left out. *)
Theorem summary_spec (ls : list string) :
  summary (adds empty_output ls) =
    if bool_decide (ls = []) then "no output"
    else if length ls <=? 10 then Strings.Join ls nl_str
    else Strings.Join (take 5 ls) nl_str +:+ nl_str +:+
         "... (" +:+ Strconv.FormatInt (Z.of_nat (length ls) - 10) +:+ " lines omitted) ..." +:+
         nl_str +:+ Strings.Join (drop (length ls - 5) ls) nl_str.
Proof.
  destruct (adds_kept ls) as [Hh Ht]. unfold summary. rewrite adds_lines, Hh, Ht.
  unfold outputKeepLines. cbn [o_lines empty_output Nat.add].
  destruct (Nat.eqb_spec (length ls) 0) as [H0|H0]; [by destruct ls|].
  rewrite (bool_decide_false (ls = [])) by (by intros ->).
  rewrite drop_drop, length_take, length_drop.
  destruct (Nat.leb_spec (length ls) 5) as [H5|H5].
  { rewrite bool_decide_true by (apply drop_ge; lia). rewrite take_ge by lia.
    by destruct (Nat.leb_spec (length ls) 10); [|lia]. }
  rewrite bool_decide_false.
  2:{ intros H. apply (f_equal length) in H. rewrite length_drop in H. cbn in H. lia. }
  destruct (Nat.leb_spec (length ls) 10) as [H10|H10].
  - replace (length ls - 5 - 5) with 0 by lia.
    destruct (Z.ltb_spec 0 (Z.of_nat (length ls) - Z.of_nat (5 `min` length ls)
      - Z.of_nat (length ls - (5 + 0)))); [lia|]. cbn [Nat.add].
    rewrite <- (take_drop 5 ls) at 3.
    rewrite Join_app; [done| |]; intros Hnil; apply (f_equal length) in Hnil;
      rewrite ?length_take, ?length_drop in Hnil; change (length (@nil string)) with 0 in Hnil; lia.
  - destruct (Z.ltb_spec 0 (Z.of_nat (length ls) - Z.of_nat (5 `min` length ls)
      - Z.of_nat (length ls - (5 + (length ls - 5 - 5))))); [|lia].
    replace (5 + (length ls - 5 - 5)) with (length ls - 5) by lia.
    replace (Z.of_nat (length ls) - Z.of_nat (5 `min` length ls)
      - Z.of_nat (length ls - (length ls - 5)))%Z with (Z.of_nat (length ls) - 10)%Z by lia.
    done.
Qed.
