(* ===== verification/MountService.v ===== *)
(** * The protocol between the driver and the mount service

    Models the HTTP client of [pkg/mountmanager/client.go], the JSON messages of
    [types.go] and the handlers of [cmd/seaweedfs-mount/main.go]. What the
    manager does with a request is in [Manager]; here it is any function. The
    texts of errors of encoding/json are not modelled. *)

From S2P Require Import Prelude GoLib Json MountArgs.
#[local] Open Scope go_scope.

(** ** Messages *)
Record MountResponse := { r_LocalSocket : string }.
Record UnmountRequest := { u_VolumeID : string }.
Record ErrorResponse := { Error : string }.

Definition zero_request : MountRequest :=
  {| VolumeID := ""; TargetPath := ""; CacheDir_ := ""; MountArgs := []; LocalSocket := "";
     RequiredFlags := [] |}.

Definition dec_strings : decoder (list string) := λ _ v, default [] <$> dec_list "" dec_string None v.

Definition MountRequest_fields : list (string * decoder MountRequest) :=
  let set r id p c a s f := {| VolumeID := default (VolumeID r) id; TargetPath := default (TargetPath r) p;
    CacheDir_ := default (CacheDir_ r) c; MountArgs := default (MountArgs r) a;
    LocalSocket := default (LocalSocket r) s; RequiredFlags := default (RequiredFlags r) f |} in
  [("volumeId", λ r v, (λ x, set r (Some x) None None None None None) <$> dec_string (VolumeID r) v);
   ("targetPath", λ r v, (λ x, set r None (Some x) None None None None) <$> dec_string (TargetPath r) v);
   ("cacheDir", λ r v, (λ x, set r None None (Some x) None None None) <$> dec_string (CacheDir_ r) v);
   ("mountArgs", λ r v, (λ x, set r None None None (Some x) None None) <$> dec_strings (MountArgs r) v);
   ("localSocket", λ r v, (λ x, set r None None None None (Some x) None) <$> dec_string (LocalSocket r) v);
   ("requiredFlags", λ r v, (λ x, set r None None None None None (Some x)) <$> dec_strings (RequiredFlags r) v)].

(** The driver's argument list is never nil. *)
Definition enc_strings (l : list string) : value := Arr (map Str l).
Definition enc_request (r : MountRequest) : value :=
  Obj ([("volumeId", Str (VolumeID r)); ("targetPath", Str (TargetPath r)); ("cacheDir", Str (CacheDir_ r));
        ("mountArgs", enc_strings (MountArgs r)); ("localSocket", Str (LocalSocket r))] ++
       if bool_decide (RequiredFlags r = []) then [] else [("requiredFlags", enc_strings (RequiredFlags r))]).

Definition MountResponse_fields : list (string * decoder MountResponse) :=
  [("localSocket", λ r v, Build_MountResponse <$> dec_string (r_LocalSocket r) v)].
Definition enc_response (r : MountResponse) : value := Obj [("localSocket", Str (r_LocalSocket r))].

Definition UnmountRequest_fields : list (string * decoder UnmountRequest) :=
  [("volumeId", λ r v, Build_UnmountRequest <$> dec_string (u_VolumeID r) v)].
Definition enc_unmount (r : UnmountRequest) : value := Obj [("volumeId", Str (u_VolumeID r))].

(** [UnmountResponse], a struct without fields. *)
Definition dec_empty : decoder unit := dec_struct [].
Definition enc_empty (_ : unit) : value := Obj [].

Definition ErrorResponse_fields : list (string * decoder ErrorResponse) :=
  [("error", λ r v, Build_ErrorResponse <$> dec_string (Error r) v)].
Definition enc_error (message : string) : value := Obj [("error", Str message)].

(** ** The service *)
Definition StatusOK : Z := 200.
Definition StatusBadRequest : Z := 400.
Definition StatusMethodNotAllowed : Z := 405.
Definition StatusInternalServerError : Z := 500.

Section service.
Context {W : Type}.

Definition writeJSON (status : Z) (data : value) : Z * string := (status, Encode data).
Definition writeError (status : Z) (message : string) : Z * string := writeJSON status (enc_error message).

Definition makePostHandler {Req Resp : Type} (dec : string → result Req) (enc : Resp → value)
    (managerFunc : Req → M W Resp) (method body : string) : M W (Z * string) :=
  if negb (String.eqb method "POST") then ret (writeError StatusMethodNotAllowed "method not allowed")
  else
    match dec body with
    | Err e => ret (writeError StatusBadRequest ("invalid request: " +:+ err_msg e))
    | Ok req =>
        let! r := attempt (managerFunc req) in
        match r with
        | Err e => ret (writeError StatusInternalServerError (err_msg e))
        | Ok resp => ret (writeJSON StatusOK (enc resp))
        end
    end.

Definition decode_mount : string → result MountRequest := Decode (dec_struct MountRequest_fields) zero_request.
Definition decode_unmount : string → result UnmountRequest :=
  Decode (dec_struct UnmountRequest_fields) {| u_VolumeID := "" |}.

(** [http.NewServeMux] with the service's handlers. *)
Definition serve_mux (mount : MountRequest → M W MountResponse) (unmount : UnmountRequest → M W unit)
    (method path body : string) : M W (Z * string) :=
  if String.eqb path "/mount" then makePostHandler decode_mount enc_response mount method body
  else if String.eqb path "/unmount" then makePostHandler decode_unmount enc_empty unmount method body
  else if String.eqb path "/healthz" then ret (StatusOK, "ok")
  else ret (404%Z, "404 page not found" +:+ String "010" "").
End service.

(** ** The client

    [do_http] is one exchange over the socket: a transport error, or a status
    and a body. [status_text] is [resp.Status]; [unread body] is what
    [io.ReadAll] returns of a body the decoder has read from. *)
Class HTTPClient (W : Type) := {
  do_http : string → string → string → M W (Z * string);
  status_text : Z → string;
  unread : string → result string;
}.

Section client.
Context {W : Type} {H : HTTPClient W}.

Definition decode_error : string → result ErrorResponse :=
  Decode (dec_struct ErrorResponse_fields) {| Error := "" |}.

(** The error for a status of 400 and above: the one the service names, or the
    status and what is left of the body. *)
Definition unnamed_error (status : Z) (body : string) : error :=
  Errorf ("mount service error: " +:+ status_text status +:+
    match unread body with
    | Err e => " (failed to read body: " +:+ err_msg e +:+ ")"
    | Ok data => " (" +:+ data +:+ ")"
    end).
Definition error_of (status : Z) (body : string) : error :=
  match decode_error body with
  | Ok errResp =>
      if negb (String.eqb (Error errResp) "") then Errorf (Error errResp) else unnamed_error status body
  | Err _ => unnamed_error status body
  end.

Definition doPost {A} (path : string) (payload : value) (out : string → result A) : M W A :=
  let! resp := with_err (λ e, Errorf ("call mount service: " +:+ err_msg e))
                 (do_http "POST" path (Encode payload)) in
  let '(status, body) := resp in
  if (400 <=? status)%Z then throw (error_of status body)
  else with_err (λ e, Errorf ("decode response: " +:+ err_msg e)) (of_result (out body)).

Definition client_Mount (req : MountRequest) : M W MountResponse :=
  doPost "/mount" (enc_request req) (Decode (dec_struct MountResponse_fields) {| r_LocalSocket := "" |}).
Definition client_Unmount (req : UnmountRequest) : M W unit :=
  doPost "/unmount" (enc_unmount req) (Decode dec_empty tt).
End client.

(** ** The messages come back *)

(** The strings of a request are UTF-8, as gRPC strings are. *)
Definition utf8_request (r : MountRequest) : bool :=
  forallb Utf8.valid ([VolumeID r; TargetPath r; CacheDir_ r; LocalSocket r] ++ MountArgs r ++ RequiredFlags r).

Lemma dec_enc_strings old l : dec_strings old (enc_strings l) = Some l.
Proof.
  unfold dec_strings, enc_strings. rewrite (dec_enc_list "" dec_string Str); [done|].
  by apply Forall_forall.
Qed.

(** Read the first member of an object. *)
Ltac member := erewrite dec_struct_cons by reflexivity; cbn [id fst snd prod_map].

Lemma request_roundtrip r : dec_struct MountRequest_fields zero_request (enc_request r) = Some r.
Proof.
  destruct r as [v p c a k f]. unfold enc_request. cbn [VolumeID TargetPath CacheDir_ MountArgs LocalSocket RequiredFlags].
  cbn [app]. do 3 (member; cbn [dec_string fmap option_fmap option_map]).
  member. rewrite dec_enc_strings. cbn [fmap option_fmap option_map].
  member. cbn [dec_string fmap option_fmap option_map].
  case_bool_decide as Hf; [by subst|]. member. rewrite dec_enc_strings. done.
Qed.

Lemma plain_strings l : forallb Utf8.valid l = true → plain (enc_strings l) = true.
Proof. unfold enc_strings. cbn. induction l as [|x l IH]; cbn; [done|]. by intros [-> ->%IH]%andb_true_iff. Qed.

Lemma plain_request r : utf8_request r = true → plain (enc_request r) = true.
Proof.
  unfold utf8_request. rewrite !forallb_app, !andb_true_iff. intros [H [Ha Hf]].
  cbn [forallb] in H. rewrite !andb_true_iff in H. destruct H as (Hv & Hp & Hc & Hk & _).
  unfold enc_request. cbn [plain]. rewrite forallb_app. apply andb_true_iff. split.
  - cbn [forallb fst snd plain]. rewrite Hv, Hp, Hc, Hk, plain_strings by done. reflexivity.
  - case_bool_decide; [done|]. cbn [forallb fst snd]. by rewrite plain_strings.
Qed.

Lemma depth_request r : (depth_of (enc_request r) <= maxNestingDepth)%Z.
Proof.
  assert (∀ l, (depth_of (enc_strings l) <= 1)%Z) as Hl.
  { intros l. unfold enc_strings. cbn [depth_of].
    assert (foldr (λ v n, Z.max (depth_of v) n) 0 (map Str l) <= 0)%Z; [by apply depth_foldr|lia]. }
  pose proof (Hl (MountArgs r)). pose proof (Hl (RequiredFlags r)). unfold maxNestingDepth, enc_request.
  case_bool_decide; cbn [app depth_of foldr snd]; lia.
Qed.

Lemma response_roundtrip r :
  Utf8.valid (r_LocalSocket r) = true →
  Decode (dec_struct MountResponse_fields) {| r_LocalSocket := "" |} (Encode (enc_response r)) = Ok r.
Proof.
  intros Hv. destruct r as [s]. cbn [r_LocalSocket] in Hv. apply Decode_Encode.
  - unfold enc_response. cbn [plain forallb fst snd r_LocalSocket]. rewrite Hv. reflexivity.
  - apply Z.leb_le. reflexivity.
  - unfold enc_response. by member.
Qed.

Lemma unmount_roundtrip r :
  Utf8.valid (u_VolumeID r) = true → decode_unmount (Encode (enc_unmount r)) = Ok r.
Proof.
  intros Hv. destruct r as [s]. cbn [u_VolumeID] in Hv. apply Decode_Encode.
  - unfold enc_unmount. cbn [plain forallb fst snd u_VolumeID]. rewrite Hv. reflexivity.
  - apply Z.leb_le. reflexivity.
  - unfold enc_unmount. by member.
Qed.

(** ** Calls through the service *)
Section calls.
Context {W : Type} {H : HTTPClient W}.
Context (mount : MountRequest → M W MountResponse) (unmount : UnmountRequest → M W unit).

(** The socket leads to the service. *)
Definition connected : Prop :=
  ∀ method path body, do_http method path body = serve_mux mount unmount method path body.

(** An error comes back as its text. *)
Lemma error_of_named status message :
  Utf8.valid message = true → message ≠ "" →
  error_of status (Encode (enc_error message)) = Errorf message.
Proof.
  intros Hv Hne. unfold error_of, decode_error. rewrite (Decode_Encode _ _ _ {| Error := message |}).
  - cbn [Error]. apply String.eqb_neq in Hne. by rewrite Hne.
  - unfold enc_error. cbn [plain forallb fst snd]. rewrite Hv. reflexivity.
  - apply Z.leb_le. reflexivity.
  - unfold enc_error. by member.
Qed.

Lemma handler_decoded {Req Resp} (req : Req) (dec : string → result Req) (enc : Resp → value)
    (f : Req → M W Resp) body w :
  dec body = Ok req →
  makePostHandler dec enc f "POST" body w =
    match f req w with
    | (Ok resp, w') => (Ok (writeJSON StatusOK (enc resp)), w')
    | (Err e, w') => (Ok (writeError StatusInternalServerError (err_msg e)), w')
    end.
Proof.
  intros Hdec. unfold makePostHandler. change (negb (String.eqb "POST" "POST")) with false. cbv beta iota.
  rewrite Hdec. unfold bind, attempt. by destruct (f req w) as [[resp|e] w'].
Qed.

(** A handler behind the socket: its client gets what the function returns. *)
Lemma doPost_handler {Req Resp} (req : Req) (dec : string → result Req) (enc : Resp → value)
    (f : Req → M W Resp) (out : string → result Resp) path (payload : value) w :
  do_http "POST" path (Encode payload) = makePostHandler dec enc f "POST" (Encode payload) →
  dec (Encode payload) = Ok req →
  match f req w with
  | (Ok resp, w') => out (Encode (enc resp)) = Ok resp → doPost path payload out w = (Ok resp, w')
  | (Err e, w') => Utf8.valid (err_msg e) = true → err_msg e ≠ "" →
      doPost path payload out w = (Err (Errorf (err_msg e)), w')
  end.
Proof.
  intros Hhttp Hdec. unfold doPost, bind, with_err. rewrite Hhttp, (handler_decoded req) by done.
  destruct (f req w) as [[resp|e] w']; cbn [rmap_err].
  - intros Hout. change (400 <=? StatusOK)%Z with false. unfold writeJSON, of_result. cbv beta iota.
    by rewrite Hout.
  - intros Hv Hne. change (400 <=? StatusInternalServerError)%Z with true. unfold writeError, writeJSON, throw.
    cbv beta iota. by rewrite error_of_named.
Qed.

(** C16. Over a socket that leads to the service, the client's calls are those of the
    manager: for a request of UTF-8 strings the manager is given that very
    request, once, and the caller gets its answer, or its error under the same
    text, on which the node service decides the status it answers with. To
    mount, another method or a body that is no request reaches no manager. *)
Theorem mount_service_faithful :
  connected →
  (∀ req w, utf8_request req = true →
    match mount req w with
    | (Ok resp, w') =>
        Utf8.valid (r_LocalSocket resp) = true → client_Mount req w = (Ok resp, w')
    | (Err e, w') =>
        Utf8.valid (err_msg e) = true → err_msg e ≠ "" →
        client_Mount req w = (Err (Errorf (err_msg e)), w')
    end) ∧
  (∀ req w, Utf8.valid (u_VolumeID req) = true →
    match unmount req w with
    | (Ok _, w') => client_Unmount req w = (Ok tt, w')
    | (Err e, w') =>
        Utf8.valid (err_msg e) = true → err_msg e ≠ "" →
        client_Unmount req w = (Err (Errorf (err_msg e)), w')
    end) ∧
  (∀ method path body w, method ≠ "POST" ∨ is_ok (decode_mount body) = false →
    path ≠ "/unmount" → (serve_mux mount unmount method path body w).2 = w).
Proof.
  intros Hconn. split_and!.
  - intros req w Hutf.
    pose proof (doPost_handler req decode_mount enc_response mount
      (Decode (dec_struct MountResponse_fields) {| r_LocalSocket := "" |}) "/mount" (enc_request req) w
      (Hconn _ _ _)) as Hcall.
    specialize (Hcall (Decode_Encode _ _ _ _ (plain_request req Hutf) (depth_request req) (request_roundtrip req))).
    unfold client_Mount. destruct (mount req w) as [[resp|e] w']; [|exact Hcall].
    intros Hv. by apply Hcall, response_roundtrip.
  - intros req w Hutf.
    pose proof (doPost_handler req decode_unmount enc_empty unmount (Decode dec_empty tt) "/unmount"
      (enc_unmount req) w (Hconn _ _ _)) as Hcall.
    specialize (Hcall (unmount_roundtrip req Hutf)). unfold client_Unmount. destruct (unmount req w) as [[[]|e] w']; [|exact Hcall].
    apply Hcall. apply Decode_Encode; [reflexivity|by apply Z.leb_le|reflexivity].
  - intros method path body w Hbad Hpath. unfold serve_mux. apply String.eqb_neq in Hpath as ->.
    destruct (String.eqb path "/mount"); [|destruct (String.eqb path "/healthz"); reflexivity].
    unfold makePostHandler. destruct (String.eqb_spec method "POST") as [->|]; cbn [negb]; [|reflexivity].
    destruct Hbad as [Hne|Hbad]; [by destruct (Hne eq_refl)|].
    destruct (decode_mount body); [discriminate Hbad|reflexivity].
Qed.
End calls.

(** ** An example *)

(** A manager that has the volumes in its state mounted. *)
Definition demo_mount (req : MountRequest) : M (list string) MountResponse := λ w,
  if bool_decide (VolumeID req ∈ w) then (Err (Errorf ("volume " +:+ VolumeID req +:+ " already mounted")), w)
  else (Ok {| r_LocalSocket := LocalSocket req |}, VolumeID req :: w).
Definition demo_unmount (req : UnmountRequest) : M (list string) unit := λ w,
  (Ok tt, filter (λ v, v ≠ u_VolumeID req) w).

Definition demo_client : HTTPClient (list string) := {|
  do_http := serve_mux demo_mount demo_unmount;
  status_text := λ _, "500 Internal Server Error";
  unread := λ _, Ok "" |}.

Definition demo_mount_request : MountRequest := {|
  VolumeID := "pvc-1"; TargetPath := "/staging/<1>"; CacheDir_ := "/c"; MountArgs := ["mount"; "-dir=/staging"];
  LocalSocket := "/s.sock"; RequiredFlags := [] |}.

Lemma mount_service_faithful_witness :
  connected (H := demo_client) demo_mount demo_unmount ∧ utf8_request demo_mount_request = true ∧
  client_Mount (H := demo_client) demo_mount_request [] = (Ok {| r_LocalSocket := "/s.sock" |}, ["pvc-1"]) ∧
  client_Mount (H := demo_client) demo_mount_request ["pvc-1"] =
    (Err (Errorf "volume pvc-1 already mounted"), ["pvc-1"]) ∧
  client_Unmount (H := demo_client) {| u_VolumeID := "pvc-1" |} ["pvc-1"] = (Ok tt, []).
Proof.
  assert (connected (H := demo_client) demo_mount demo_unmount) as Hc by (intros m p b; reflexivity).
  assert (utf8_request demo_mount_request = true) as Hu by (vm_compute; reflexivity).
  destruct (mount_service_faithful (H := demo_client) demo_mount demo_unmount Hc) as (Hm & Hun & _).
  split; [exact Hc|]. split; [exact Hu|]. split_and!.
  - refine (Hm demo_mount_request [] Hu _). vm_compute. reflexivity.
  - refine (Hm demo_mount_request ["pvc-1"] Hu _ _); vm_compute; [reflexivity|discriminate].
  - exact (Hun {| u_VolumeID := "pvc-1" |} ["pvc-1"] eq_refl).
Defined.
