(* ===== verification/ServiceMain.v ===== *)
(** * The process of the mount service

    Models [main] of [cmd/seaweedfs-mount/main.go] and [NewManager] of manager.go: what
    the process does before it serves and how it ends. What it serves is in
    [MountService] and [Manager]. *)

From S2P Require Import Prelude GoLib Json Params Driver MountArgs MountService Calls.
#[local] Open Scope go_scope.

Definition DefaultWeedBinary : string := "weed".

Record Manager := { weedBinary : string; procRoot : string }.

(** [resolve] is [resolveWeedBinary]: the identity on Linux, [WinProcess] on Windows. *)
Definition NewManager (resolve : string → string) (weedBinary : string) : Manager :=
  let binary := if String.eqb weedBinary "" then DefaultWeedBinary else weedBinary in
  {| weedBinary := resolve binary; procRoot := "/proc" |}.

(** How the wait for a signal ends: with the signal, or with [Serve] failing in its
    goroutine, which ends the process. *)
Inductive served := Signalled | ServeFailed (e : error).

Inductive serviceE : Type → Type :=
  | EnsureHostPrerequisites : serviceE (result unit)   (** nothing on Linux; [WinRegistry] on Windows *)
  | Remove (p : string) : serviceE (result unit)
  | MkdirAll (p : string) : serviceE (result unit)
  | Listen (address : string) : serviceE (result unit)
  | Serve (m : Manager) : serviceE served
  | Shutdown (ms : Z) : serviceE (result unit)         (** [Server.Shutdown] within its context *)
  | CloseListener : serviceE (result unit).

Section main.
Context {W : Type} (host : ∀ X, serviceE X → W → X * W) (resolve : string → string).
#[local] Abbreviation M := (M (W * calls serviceE)).
#[local] Abbreviation perform := (Calls.perform host).
#[local] Abbreviation call := (Calls.call host).

(** An error is a [glog.Fatalf], which runs no deferred call. *)
Definition main (endpoint weedBinary : string) : M unit :=
  with_err (λ e, Errorf ("host prerequisites: " +:+ err_msg e)) (call EnsureHostPrerequisites) ;;!
  let! (scheme, address) := with_err (λ e, Errorf ("invalid endpoint: " +:+ err_msg e))
    (of_result (mm_ParseEndpoint endpoint)) in
  if negb (String.eqb scheme "unix") then throw (Errorf ("unsupported endpoint scheme: " +:+ scheme))
  else
    let! removed := perform (Remove address) in
    match removed with
    | Err e => if is_not_exist e then ret tt else throw (Errorf ("removing existing socket: " +:+ err_msg e))
    | Ok _ => ret tt
    end ;;!
    with_err (λ e, Errorf ("creating socket directory: " +:+ err_msg e)) (call (MkdirAll (Path.Dir address))) ;;!
    with_err (λ e, Errorf ("failed to listen on " +:+ address +:+ ": " +:+ err_msg e)) (call (Listen address)) ;;!
    let! ended := perform (Serve (NewManager resolve weedBinary)) in
    match ended with
    | ServeFailed e => throw (Errorf ("server error: " +:+ err_msg e))
    | Signalled =>
        perform (Shutdown 5000) ;;!
        perform CloseListener ;;!
        perform (Remove address) ;;!
        ret tt
    end.

Definition serve_of (o : seen serviceE) : option (Manager * served) :=
  let '(Seen e x) := o in
  match e in serviceE X return X → _ with Serve m => λ x, Some (m, x) | _ => λ _, None end x.

(** The calls before the process serves at an address, all well answered. *)
Definition prepared (address : string) (l : calls serviceE) : Prop :=
  ∃ removed, (removed = Ok tt ∨ ∃ e, removed = Err e ∧ is_not_exist e = true) ∧
    l = [Seen EnsureHostPrerequisites (Ok tt); Seen (Remove address) removed;
         Seen (MkdirAll (Path.Dir address)) (Ok tt); Seen (Listen address) (Ok tt)].

(** The process serves only at the path of a unix endpoint, once the host is ready,
    a socket left there is gone, its directory is there and it listens; it ends in order
    only after a signal, and then its socket is closed and removed. *)
Lemma main_serves_ready endpoint weedBinary w :
  wp (main endpoint weedBinary) (λ r s,
    (∀ m x, Seen (Serve m) x ∈ s.2 → m = NewManager resolve weedBinary ∧
       ∃ address l k, mm_ParseEndpoint endpoint = Ok ("unix", address) ∧ prepared address l ∧
         s.2 = l ++ Seen (Serve m) x :: k ∧ (r ≠ Ok tt → k = [])) ∧
    (r = Ok tt → ∃ address l stopped closed removed, prepared address l ∧
       s.2 = l ++ [Seen (Serve (NewManager resolve weedBinary)) Signalled; Seen (Shutdown 5000) stopped;
                   Seen CloseListener closed; Seen (Remove address) removed])) (w, []).
Proof.
  apply wp_bind, wp_with_err, wp_call. intros [[]|e] w1; cbn [rmap_err]; [|split; [set_solver|done]].
  apply wp_bind, wp_with_err, wp_of_result.
  destruct (mm_ParseEndpoint endpoint) as [[scheme address]|e] eqn:He; cbn [rmap_err]; [|split; [set_solver|done]].
  destruct (String.eqb_spec scheme "unix") as [->|]; cbn [negb]; [|split; [set_solver|done]].
  apply wp_bind, wp_perform. intros removed w2. apply wp_bind.
  assert (∀ (Q : result unit → W * calls serviceE → Prop) s,
    ((removed = Ok tt ∨ ∃ e, removed = Err e ∧ is_not_exist e = true) → Q (Ok tt) s) → (∀ e, Q (Err e) s) →
    wp match removed with
       | Err e => if is_not_exist e then ret tt else throw (Errorf ("removing existing socket: " +:+ err_msg e))
       | Ok _ => ret tt end Q s) as Hremoved.
  { intros Q s H1 H2. destruct removed as [[]|e]; [by apply H1; left|].
    destruct (is_not_exist e) eqn:Hn; [apply H1; right; by exists e|apply H2]. }
  apply Hremoved; [intros Hr|intros e; split; [set_solver|done]].
  apply wp_bind, wp_with_err, wp_call. intros [[]|e] w3; cbn [rmap_err]; [|split; [set_solver|done]].
  apply wp_bind, wp_with_err, wp_call. intros [[]|e] w4; cbn [rmap_err]; [|split; [set_solver|done]].
  pose (l := [Seen EnsureHostPrerequisites (Ok tt); Seen (Remove address) removed;
              Seen (MkdirAll (Path.Dir address)) (Ok tt); Seen (Listen address) (Ok tt)] : calls serviceE).
  assert (prepared address l) as Hl by (by exists removed).
  assert (∀ m x, Seen (Serve m) x ∉ l) as Hno by (intros m x; unfold l; set_solver).
  assert (∀ m x y k, Seen (Serve m) x ∈ l ++ Seen (Serve (NewManager resolve weedBinary)) y :: k →
    (∀ m' x', Seen (Serve m') x' ∉ k) → m = NewManager resolve weedBinary ∧ x = y) as Hone.
  { intros m x y k Hin Hk. apply elem_of_app in Hin as [Hin|Hin]; [by destruct (Hno m x)|].
    apply elem_of_cons in Hin as [Hin|Hin]; [|by destruct (Hk m x)].
    apply (f_equal serve_of) in Hin. by injection Hin. }
  apply wp_bind, wp_perform. intros [|e] w5.
  - apply wp_bind, wp_perform. intros stopped w6. apply wp_bind, wp_perform. intros closed w7.
    apply wp_bind, wp_perform. intros gone w8. apply wp_ret. split.
    + intros m x Hin. apply (Hone m x Signalled [_; _; _]) in Hin as [-> ->]; [|set_solver].
      split; [done|]. exists address, l. by eexists.
    + intros _. exists address, l, stopped, closed, gone. split; [exact Hl|reflexivity].
  - apply wp_throw. split; [|done]. intros m x Hin. apply (Hone m x _ []) in Hin as [-> ->]; [|set_solver].
    split; [done|]. exists address, l, []. by split_and!.
Qed.
End main.
