(* ===== verification/Manager.v ===== *)
(** * The mount service: weed mount processes and their bookkeeping

    Models [Manager] of [pkg/mountmanager/manager.go] with the Linux
    [weedMountProcess.stop] ([process_linux.go]) and [waitForMount],
    [ensureTargetClean] ([target_linux.go]), as a transition system: requests
    run concurrently and interleave with the exits of processes and with the
    goroutines that watch them. *)

From S2P Require Import Prelude GoLib MountFlags MountArgs ProcessOutput.
#[local] Open Scope go_scope.

(** ** Requests *)
Definition validateMountRequest (req : MountRequest) : result unit :=
  guard_err (String.eqb (VolumeID req) "") (Errorf "volumeId is required") ;;?
  guard_err (String.eqb (TargetPath req) "") (Errorf "targetPath is required") ;;?
  guard_err (String.eqb (CacheDir_ req) "") (Errorf "cacheDir is required") ;;?
  guard_err (String.eqb (LocalSocket req) "") (Errorf "localSocket is required") ;;?
  guard_err (bool_decide (MountArgs req = [])) (Errorf "mountArgs is required").

(** What [mountFlags] returns and the operating system answers to the calls of
    [startMount]. *)
Record start_answers := {
  a_flags : option weedMountFlags;
  a_clean : result unit;    (** [ensureTargetClean] *)
  a_mkdir : result unit;    (** [os.MkdirAll(cacheDir)] *)
  a_start : result unit;    (** [cmd.Start] *)
}.

(** [startMount] up to the start of the process: the arguments the process is
    started with. *)
Definition startMount (req : MountRequest) (a : start_answers) : result (list string) :=
  guard_err (bool_decide (MountArgs req = [])) (Errorf "mountArgs is required") ;;?
  try! args := match a_flags a with
               | Some flags => filterMountArgs (MountArgs req) flags (RequiredFlags req)
               | None => Ok (MountArgs req)
               end in
  a_clean a ;;?
  guard_err (String.eqb (CacheDir_ req) "") (Errorf "cacheDir is required") ;;?
  rmap_err (λ e, Errorf ("creating cache dir: " +:+ err_msg e)) (a_mkdir a) ;;?
  guard_err (String.eqb (LocalSocket req) "") (Errorf "localSocket is required") ;;?
  rmap_err (λ e, Errorf ("starting weed mount: " +:+ err_msg e)) (a_start a) ;;?
  Ok args.

(** ** State *)

(** A process has exited once [cmd.Wait] returned (channel [exited]) and is done
    once the dead mount point at its target has been cleaned up ([done]). *)
Inductive phase := Running | Exited | Done.
#[export] Instance phase_eq_dec : EqDecision phase.
Proof. solve_decision. Defined.

Record weedMountProcess := { p_volume : string; p_target : string; p_args : list string; p_phase : phase }.

(** [mountEntry]; a pointer to it is identified by its process. *)
Record mountEntry := {
  e_volume : string;
  e_target : string;
  e_cache : string;
  e_socket : string;
  e_pid : nat;
}.

(** Where a request is: the points between which it holds no shared lock but
    the one of its volume. *)
Inductive pc :=
  | MountLock (req : MountRequest)
  | MountCheck (req : MountRequest)
  | MountReap (req : MountRequest) (e : mountEntry)
  | MountStart (req : MountRequest)
  | MountWait (req : MountRequest) (pid : nat)
  | MountAbort (req : MountRequest) (pid : nat)
  | MountKill (req : MountRequest) (pid : nat) (err : error)
  | MountRegister (req : MountRequest) (pid : nat)
  | UnmountLock (v : string)
  | UnmountCheck (v : string)
  | UnmountStop (v : string) (e : mountEntry)
  | UnmountRemove (v : string) (e : mountEntry)
  | Returned (r : result string).

Record state := State {
  mounts : gmap string mountEntry;
  procs : gmap nat weedMountProcess;
  locks : gmap string nat;             (** the request that holds a volume's lock *)
  requests : gmap nat pc;
  watchers : gmap nat string;          (** [watchProcessExit] of a process, and its volume *)
  next_pid : nat;
  abandoned : gset nat;                (** processes a failed start could not stop *)
  caches : gset string;                (** the cache directories that exist *)
}.

Definition init : state := State ∅ ∅ ∅ ∅ ∅ 0 ∅ ∅.

(** The volume whose lock a request holds. *)
Definition holds (p : pc) : option string :=
  match p with
  | MountCheck r | MountReap r _ | MountStart r | MountWait r _ | MountAbort r _
  | MountKill r _ _ | MountRegister r _ => Some (VolumeID r)
  | UnmountCheck v | UnmountStop v _ | UnmountRemove v _ => Some v
  | MountLock _ | UnmountLock _ | Returned _ => None
  end.

(** How a wait of a request ended. *)
Inductive answer :=
  | ANone
  | AStart (a : start_answers)
  | AMounted                (** [waitForMount] saw the mount *)
  | AExited                 (** it saw the channel [exited] closed *)
  | AWaitErr (e : error)    (** it failed or timed out *)
  | AStopped                (** [stop] saw the channel [done] closed *)
  | AStopTimeout            (** [stop] gave up *)
  | AOutput (status : string) (o : processOutput)  (** how the process ended *)
  | ARemoved (ok : bool).   (** [os.RemoveAll] of the cache directory *)

Inductive label :=
  | CallMount (t : nat) (req : MountRequest)
  | CallUnmount (t : nat) (v : string)
  | Run (t : nat) (a : answer)
  | Exit (pid : nat)
  | Cleanup (pid : nat)
  | Watch (pid : nat).

(** ** Steps *)
Definition set_pc (s : state) (t : nat) (p : pc) : state :=
  State (mounts s) (procs s) (locks s) (<[t := p]> (requests s)) (watchers s) (next_pid s)
    (abandoned s) (caches s).

(** [lock.Lock()] by request [t]. *)
Definition acquire (s : state) (t : nat) (v : string) (p : pc) : option state :=
  match locks s !! v with
  | Some _ => None
  | None => Some (State (mounts s) (procs s) (<[v := t]> (locks s)) (<[t := p]> (requests s))
                    (watchers s) (next_pid s) (abandoned s) (caches s))
  end.

(** The return of request [t], with the deferred [lock.Unlock()]. *)
Definition return_ (s : state) (t : nat) (v : string) (r : result string) : state :=
  State (mounts s) (procs s) (delete v (locks s)) (<[t := Returned r]> (requests s))
    (watchers s) (next_pid s) (abandoned s) (caches s).

Definition removeMount (s : state) (v : string) : state :=
  State (delete v (mounts s)) (procs s) (locks s) (requests s) (watchers s) (next_pid s)
    (abandoned s) (caches s).

Definition spawn (s : state) (req : MountRequest) (args : list string) : state :=
  State (mounts s)
    (<[next_pid s := {| p_volume := VolumeID req; p_target := TargetPath req; p_args := args;
                        p_phase := Running |}]> (procs s))
    (locks s) (requests s) (watchers s) (S (next_pid s)) (abandoned s) (caches s).

(** [os.MkdirAll(cacheDir)] and [os.RemoveAll(cacheDir)]. *)
Definition remove_cache (s : state) (dir : string) : state :=
  State (mounts s) (procs s) (locks s) (requests s) (watchers s) (next_pid s) (abandoned s)
    (caches s ∖ {[dir]}).

Definition make_cache (s : state) (req : MountRequest) (a : start_answers) : state :=
  if is_ok (startMount req {| a_flags := a_flags a; a_clean := a_clean a; a_mkdir := a_mkdir a; a_start := Ok tt |})
  then State (mounts s) (procs s) (locks s) (requests s) (watchers s) (next_pid s) (abandoned s)
         ({[CacheDir_ req]} ∪ caches s)
  else s.

Definition set_phase (s : state) (pid : nat) (p : weedMountProcess) (ph : phase) : state :=
  State (mounts s)
    (<[pid := {| p_volume := p_volume p; p_target := p_target p; p_args := p_args p;
                 p_phase := ph |}]> (procs s))
    (locks s) (requests s) (watchers s) (next_pid s) (abandoned s) (caches s).

Definition register (s : state) (v : string) (e : mountEntry) : state :=
  State (<[v := e]> (mounts s)) (procs s) (locks s) (requests s)
    (<[e_pid e := v]> (watchers s)) (next_pid s) (abandoned s) (caches s).

(** A failed start gives up on its process. *)
Definition abandon (s : state) (pid : nat) : state :=
  State (mounts s) (procs s) (locks s) (requests s) (watchers s) (next_pid s)
    ({[pid]} ∪ abandoned s) (caches s).

Definition phase_of (s : state) (pid : nat) : option phase := p_phase <$> procs s !! pid.

Definition entry_of (req : MountRequest) (pid : nat) : mountEntry := {|
  e_volume := VolumeID req; e_target := TargetPath req; e_cache := CacheDir_ req;
  e_socket := LocalSocket req; e_pid := pid |}.

(** [Manager.Mount] from one point to the next. *)
Definition run_mount (s : state) (t : nat) (p : pc) (a : answer) : option state :=
  match p, a with
  | MountLock req, ANone => acquire s t (VolumeID req) (MountCheck req)
  | MountCheck req, ANone =>
      match mounts s !! VolumeID req with
      | None => Some (set_pc s t (MountStart req))
      | Some e =>
          if bool_decide (phase_of s (e_pid e) = Some Running) then
            if String.eqb (e_target e) (TargetPath req) then
              Some (return_ s t (VolumeID req) (Ok (e_socket e)))
            else Some (return_ s t (VolumeID req)
                   (Err (Errorf ("volume " +:+ VolumeID req +:+ " already mounted at "
                                 +:+ e_target e))))
          else Some (set_pc s t (MountReap req e))
      end
  | MountReap req e, ANone =>
      if bool_decide (phase_of s (e_pid e) = Some Done) then
        Some (set_pc (removeMount s (VolumeID req)) t (MountStart req))
      else None
  | MountStart req, AStart ans =>
      let s := make_cache s req ans in
      match startMount req ans with
      | Err e => Some (return_ s t (VolumeID req) (Err e))
      | Ok args => Some (set_pc (spawn s req args) t (MountWait req (next_pid s)))
      end
  | MountWait req pid, AMounted => Some (set_pc s t (MountRegister req pid))
  | MountWait req pid, AExited =>
      if bool_decide (phase_of s pid = Some Running) then None
      else Some (set_pc s t (MountAbort req pid))
  | MountWait req pid, AWaitErr e => Some (set_pc s t (MountKill req pid e))
  | MountAbort req pid, AOutput status o =>
      if bool_decide (phase_of s pid = Some Done) then
        Some (return_ s t (VolumeID req)
          (Err (Errorf ("weed mount exited before mounting " +:+ TargetPath req
                        +:+ " (" +:+ status +:+ "): " +:+ summary o))))
      else None
  | MountKill req pid e, AStopped =>
      if bool_decide (phase_of s pid = Some Done) then Some (return_ s t (VolumeID req) (Err e))
      else None
  | MountKill req pid e, AStopTimeout =>
      Some (return_ (abandon s pid) t (VolumeID req) (Err e))
  | MountRegister req pid, ANone =>
      let e := entry_of req pid in
      Some (return_ (register s (VolumeID req) e) t (VolumeID req) (Ok (e_socket e)))
  | _, _ => None
  end.

(** [Manager.Unmount] from one point to the next. *)
Definition run_unmount (s : state) (t : nat) (p : pc) (a : answer) : option state :=
  match p, a with
  | UnmountLock v, ANone => acquire s t v (UnmountCheck v)
  | UnmountCheck v, ANone =>
      match mounts s !! v with
      | None => Some (return_ s t v (Ok ""))
      | Some e => Some (set_pc s t (UnmountStop v e))
      end
  | UnmountStop v e, AStopped =>
      if bool_decide (phase_of s (e_pid e) = Some Done) then Some (set_pc s t (UnmountRemove v e))
      else None
  | UnmountStop v e, AStopTimeout =>
      Some (return_ s t v (Err (Errorf "timed out waiting for weed mount to stop")))
  | UnmountRemove v e, ARemoved ok =>
      let s := if ok then remove_cache s (e_cache e) else s in
      Some (return_ (removeMount s v) t v (Ok ""))
  | _, _ => None
  end.

(** [watchProcessExit], once the process is done. *)
Definition watchProcessExit (s : state) (pid : nat) (v : string) : state :=
  let s := State (mounts s) (procs s) (locks s) (requests s) (delete pid (watchers s))
             (next_pid s) (abandoned s) (caches s) in
  match mounts s !! v with
  | Some existing => if e_pid existing =? pid then removeMount s v else s
  | None => s
  end.

Definition step (s : state) (l : label) : option state :=
  match l with
  | CallMount t req =>
      match requests s !! t with
      | Some _ => None
      | None => Some (set_pc s t (match validateMountRequest req with
                                  | Err e => Returned (Err e)
                                  | Ok _ => MountLock req
                                  end))
      end
  | CallUnmount t v =>
      match requests s !! t with
      | Some _ => None
      | None => Some (set_pc s t (if String.eqb v "" then
                                    Returned (Err (Errorf "volumeId is required"))
                                  else UnmountLock v))
      end
  | Run t a =>
      match requests s !! t with
      | Some p => match run_mount s t p a with
                  | Some s' => Some s'
                  | None => run_unmount s t p a
                  end
      | None => None
      end
  | Exit pid =>
      match procs s !! pid with
      | Some p => if bool_decide (p_phase p = Running) then Some (set_phase s pid p Exited) else None
      | None => None
      end
  | Cleanup pid =>
      match procs s !! pid with
      | Some p => if bool_decide (p_phase p = Exited) then Some (set_phase s pid p Done) else None
      | None => None
      end
  | Watch pid =>
      match watchers s !! pid with
      | Some v => if bool_decide (phase_of s pid = Some Done)
                  then Some (watchProcessExit s pid v) else None
      | None => None
      end
  end.

Fixpoint steps (s : state) (ls : list label) : option state :=
  match ls with
  | [] => Some s
  | l :: ls => s' ← step s l; steps s' ls
  end.

Definition reachable (s : state) : Prop := ∃ ls, steps init ls = Some s.

(** ** The invariant *)

(** The process a request has started and not registered yet. *)
Definition started (p : pc) : option nat :=
  match p with
  | MountWait _ pid | MountAbort _ pid | MountKill _ pid _ | MountRegister _ pid => Some pid
  | _ => None
  end.

(** The request of a Mount that has not returned. *)
Definition mount_of (p : pc) : option MountRequest :=
  match p with
  | MountLock r | MountCheck r | MountReap r _ | MountStart r | MountWait r _ | MountAbort r _
  | MountKill r _ _ | MountRegister r _ => Some r
  | _ => None
  end.

(** What a request relies on at its point, the lock of its volume held. *)
Definition pc_ok (s : state) (p : pc) : Prop :=
  match p with
  | MountStart r => mounts s !! VolumeID r = None
  | MountWait r pid | MountAbort r pid | MountKill r pid _ | MountRegister r pid =>
      mounts s !! VolumeID r = None ∧ ∃ q, procs s !! pid = Some q ∧ p_volume q = VolumeID r
  | MountReap r e =>
      (∀ e', mounts s !! VolumeID r = Some e' → e_pid e' = e_pid e) ∧
      ∃ q, procs s !! e_pid e = Some q ∧ p_volume q = VolumeID r
  | UnmountStop v e =>
      (∀ e', mounts s !! v = Some e' → e_pid e' = e_pid e) ∧
      ∃ q, procs s !! e_pid e = Some q ∧ p_volume q = v
  | UnmountRemove v e =>
      (∀ e', mounts s !! v = Some e' → e_pid e' = e_pid e) ∧
      ∃ q, procs s !! e_pid e = Some q ∧ p_phase q = Done
  | _ => True
  end.

(** Somebody answers for a process that is not done. *)
Definition tracked (s : state) (pid : nat) (q : weedMountProcess) : Prop :=
  pid ∈ abandoned s ∨
  (∃ e, mounts s !! p_volume q = Some e ∧ e_pid e = pid) ∨
  (∃ t p, requests s !! t = Some p ∧ started p = Some pid).

Record Inv (s : state) : Prop := {
  inv_lock t v : locks s !! v = Some t ↔ ∃ p, requests s !! t = Some p ∧ holds p = Some v;
  inv_mounts v e : mounts s !! v = Some e → ∃ q, procs s !! e_pid e = Some q ∧ p_volume q = v;
  inv_pc t p : requests s !! t = Some p → pc_ok s p;
  inv_tracked pid q : procs s !! pid = Some q → p_phase q ≠ Done → tracked s pid q;
  inv_fresh pid q : procs s !! pid = Some q → pid < next_pid s;
}.

Lemma Inv_init : Inv init.
Proof.
  split; cbn; intros *; rewrite ?lookup_empty; try done. split; [done|]. by intros (p & Hp & _).
Qed.

(** Processes only move forward. *)
Definition proc_le (s s' : state) : Prop :=
  ∀ pid q, procs s !! pid = Some q →
    ∃ q', procs s' !! pid = Some q' ∧ p_volume q' = p_volume q ∧
          (p_phase q = Done → p_phase q' = Done).

Lemma proc_le_same s s' : procs s' = procs s → proc_le s s'.
Proof. intros H pid q Hq. rewrite H. eauto. Qed.

Lemma pc_ok_mono s s' p :
  (∀ v e, holds p = Some v → mounts s' !! v = Some e → mounts s !! v = Some e) →
  proc_le s s' → pc_ok s p → pc_ok s' p.
Proof.
  intros Hm Hp.
  assert (∀ v, holds p = Some v → mounts s !! v = None → mounts s' !! v = None) as HmN.
  { intros v Hv HN. destruct (mounts s' !! v) eqn:E; [|done]. apply Hm in E; [congruence|done]. }
  destruct p; cbn in *; try done.
  - intros [H (q & Hq & Hv)]. split; [intros e' He'; by apply H, Hm|].
    destruct (Hp _ _ Hq) as (q' & ? & Hv' & _). exists q'. by rewrite Hv'.
  - by apply HmN.
  - intros [H (q & Hq & Hv)]. split; [by apply HmN|].
    destruct (Hp _ _ Hq) as (q' & ? & Hv' & _). exists q'. by rewrite Hv'.
  - intros [H (q & Hq & Hv)]. split; [by apply HmN|].
    destruct (Hp _ _ Hq) as (q' & ? & Hv' & _). exists q'. by rewrite Hv'.
  - intros [H (q & Hq & Hv)]. split; [by apply HmN|].
    destruct (Hp _ _ Hq) as (q' & ? & Hv' & _). exists q'. by rewrite Hv'.
  - intros [H (q & Hq & Hv)]. split; [by apply HmN|].
    destruct (Hp _ _ Hq) as (q' & ? & Hv' & _). exists q'. by rewrite Hv'.
  - intros [H (q & Hq & Hv)]. split; [intros e' He'; by apply H, Hm|].
    destruct (Hp _ _ Hq) as (q' & ? & Hv' & _). exists q'. by rewrite Hv'.
  - intros [H (q & Hq & Hd)]. split; [intros e' He'; by apply H, Hm|].
    destruct (Hp _ _ Hq) as (q' & ? & _ & Hd'). eauto.
Qed.

(** Only one request holds the lock of a volume. *)
Lemma holder_unique s t1 t2 p1 p2 v :
  Inv s → requests s !! t1 = Some p1 → requests s !! t2 = Some p2 →
  holds p1 = Some v → holds p2 = Some v → t1 = t2.
Proof.
  intros HI H1 H2 Hv1 Hv2.
  assert (locks s !! v = Some t1) as E1 by (apply inv_lock; eauto).
  assert (locks s !! v = Some t2) as E2 by (apply inv_lock; eauto). congruence.
Qed.

(** *** A step of request [t], from [p] to [p']

    What remains to be shown is about the mounts and the processes. *)
Section request_step.
Context (s s' : state) (t : nat) (p p' : pc).
Context (HI : Inv s) (Hp : requests s !! t = Some p).
Context (Hreq : requests s' = <[t := p']> (requests s)).
Context (Hlock : (holds p' = holds p ∧ locks s' = locks s) ∨
                 (∃ v, holds p = Some v ∧ holds p' = None ∧ locks s' = delete v (locks s)) ∨
                 (∃ v, holds p = None ∧ holds p' = Some v ∧ locks s !! v = None ∧
                       locks s' = <[v := t]> (locks s))).

Lemma request_step_lock t0 v :
  locks s' !! v = Some t0 ↔ ∃ p0, requests s' !! t0 = Some p0 ∧ holds p0 = Some v.
Proof.
  rewrite Hreq. destruct Hlock as [[Hh ->]|[(u & Hu & Hh & ->)|(u & Hu & Hh & Hn & ->)]].
  - rewrite (inv_lock s HI). destruct (decide (t0 = t)) as [->|Hne].
    + rewrite lookup_insert_eq. split.
      * intros (p0 & H0 & Hv). exists p'. split; [done|]. congruence.
      * intros (p0 & [= <-] & Hv). exists p. split; [done|]. congruence.
    + by rewrite lookup_insert_ne.
  - destruct (decide (v = u)) as [->|Hvu].
    + rewrite lookup_delete_eq. split; [done|]. intros (p0 & H0 & Hv).
      destruct (decide (t0 = t)) as [->|Hne]; [rewrite lookup_insert_eq in H0; congruence|].
      rewrite lookup_insert_ne in H0 by done. by destruct Hne; eapply holder_unique.
    + rewrite lookup_delete_ne by done. rewrite (inv_lock s HI).
      destruct (decide (t0 = t)) as [->|Hne]; [|by rewrite lookup_insert_ne].
      rewrite lookup_insert_eq. split; intros (p0 & H0 & Hv); exfalso; congruence.
  - destruct (decide (v = u)) as [->|Hvu].
    + rewrite lookup_insert_eq. split.
      * intros [= <-]. exists p'. by rewrite lookup_insert_eq.
      * intros (p0 & H0 & Hv). destruct (decide (t0 = t)) as [->|Hne]; [done|].
        rewrite lookup_insert_ne in H0 by done.
        assert (locks s !! u = Some t0) by (apply (inv_lock s HI); eauto). congruence.
    + rewrite lookup_insert_ne by done. rewrite (inv_lock s HI).
      destruct (decide (t0 = t)) as [->|Hne]; [|by rewrite lookup_insert_ne].
      rewrite lookup_insert_eq. split; intros (p0 & H0 & Hv); exfalso; congruence.
Qed.

Lemma request_step_Inv :
  proc_le s s' →
  (∀ v e, holds p ≠ Some v → mounts s' !! v = Some e → mounts s !! v = Some e) →
  pc_ok s' p' →
  (∀ v e, mounts s' !! v = Some e → ∃ q, procs s' !! e_pid e = Some q ∧ p_volume q = v) →
  (∀ pid q, procs s' !! pid = Some q → p_phase q ≠ Done → tracked s' pid q) →
  (∀ pid q, procs s' !! pid = Some q → pid < next_pid s') →
  Inv s'.
Proof.
  intros Hle Hm Hpc H1 H2 H3. split; [apply request_step_lock|done| |done|done].
  intros t0 p0. rewrite Hreq. destruct (decide (t0 = t)) as [->|Hne].
  - rewrite lookup_insert_eq. by intros [= <-].
  - rewrite lookup_insert_ne by done. intros H0. eapply pc_ok_mono; [|done|by eapply inv_pc].
    intros v e Hv. apply Hm. intros Hv'. by destruct Hne; eapply holder_unique.
Qed.

(** The processes stay: each one tracked before is tracked after, if the
    entries removed and the process [t] lets go of are done or abandoned. *)
Lemma request_step_same :
  procs s' = procs s → next_pid s' = next_pid s → abandoned s ⊆ abandoned s' →
  (∀ v e, mounts s' !! v = Some e → mounts s !! v = Some e) →
  (∀ v e, mounts s !! v = Some e → mounts s' !! v = Some e ∨ phase_of s (e_pid e) = Some Done) →
  (∀ pid, started p = Some pid → started p' = Some pid ∨ pid ∈ abandoned s' ∨
          phase_of s pid = Some Done) →
  pc_ok s' p' → Inv s'.
Proof.
  intros Hpr Hn Hab Hm1 Hm2 Hst Hpc.
  apply request_step_Inv; [by apply proc_le_same|auto|done| | |].
  - intros v e He. rewrite Hpr. by eapply inv_mounts, Hm1.
  - intros pid q. rewrite Hpr. intros Hq Hph.
    assert (phase_of s pid = Some Done → False) as Hnd
      by (unfold phase_of; rewrite Hq; cbn; congruence).
    destruct (inv_tracked s HI pid q Hq Hph) as [Ha|[(e & He & <-)|(t0 & p0 & H0 & Hs0)]].
    + left. by apply Hab.
    + destruct (Hm2 _ _ He) as [?|?]; [|done]. right. left. eauto.
    + destruct (decide (t0 = t)) as [->|Hne].
      * assert (p0 = p) as -> by congruence.
        destruct (Hst _ Hs0) as [?|[?|?]]; [|by left|done].
        right. right. exists t, p'. by rewrite Hreq, lookup_insert_eq.
      * right. right. exists t0, p0. by rewrite Hreq, lookup_insert_ne.
  - intros pid q. rewrite Hpr, Hn. apply (inv_fresh s HI).
Qed.
End request_step.

(** ** Every step keeps the invariant *)
Lemma Inv_call s t p :
  Inv s → requests s !! t = None → holds p = None → started p = None → pc_ok s p →
  Inv (set_pc s t p).
Proof.
  intros HI Ht Hh Hs Hpc.
  assert (∀ t0 p0, requests s !! t0 = Some p0 → t0 ≠ t) as Hne by naive_solver.
  split; cbn [mounts procs locks requests watchers next_pid abandoned set_pc].
  - intros t0 v. rewrite (inv_lock s HI). split; intros (p0 & H0 & Hv).
    + exists p0. by rewrite lookup_insert_ne by (by eapply not_eq_sym, Hne).
    + destruct (decide (t0 = t)) as [->|Hn].
      * rewrite lookup_insert_eq in H0. congruence.
      * rewrite lookup_insert_ne in H0 by done. eauto.
  - apply (inv_mounts s HI).
  - intros t0 p0 H0. destruct (decide (t0 = t)) as [->|Hn].
    + rewrite lookup_insert_eq in H0. by injection H0 as <-.
    + rewrite lookup_insert_ne in H0 by done. by apply (inv_pc s HI) in H0.
  - intros pid q Hq Hph.
    destruct (inv_tracked s HI pid q Hq Hph) as [?|[?|(t0 & p0 & H0 & Hs0)]]; [by left|by right; left|].
    right. right. exists t0, p0. cbn. by rewrite lookup_insert_ne by (by eapply not_eq_sym, Hne).
  - apply (inv_fresh s HI).
Qed.

Lemma Inv_set_phase s pid q ph :
  Inv s → procs s !! pid = Some q → p_phase q ≠ Done → Inv (set_phase s pid q ph).
Proof.
  intros HI Hq Hph.
  assert (proc_le s (set_phase s pid q ph)) as Hle.
  { intros pid0 q0 H0. cbn. destruct (decide (pid0 = pid)) as [->|Hne].
    - rewrite lookup_insert_eq. assert (q0 = q) as -> by congruence. by eexists.
    - rewrite lookup_insert_ne by done. eauto. }
  split.
  - apply (inv_lock s HI).
  - intros v e He. destruct (inv_mounts s HI v e He) as (q0 & H0 & <-).
    destruct (Hle _ _ H0) as (q' & ? & ? & _). eauto.
  - intros t p H0. eapply pc_ok_mono; [|exact Hle|by eapply inv_pc]. auto.
  - intros pid0 q0. cbn. destruct (decide (pid0 = pid)) as [->|Hne].
    + rewrite lookup_insert_eq. intros [= <-] _. exact (inv_tracked s HI pid q Hq Hph).
    + rewrite lookup_insert_ne by done. apply (inv_tracked s HI).
  - intros pid0 q0. cbn. destruct (decide (pid0 = pid)) as [->|Hne].
    + intros _. by eapply inv_fresh.
    + rewrite lookup_insert_ne by done. apply (inv_fresh s HI).
Qed.

(** The watcher removes an entry only if it is the one of its process: never
    the entry of a fresh mount of the same volume. *)
Lemma Inv_watch s pid v :
  Inv s → phase_of s pid = Some Done → Inv (watchProcessExit s pid v).
Proof.
  intros HI Hd. unfold watchProcessExit. cbn [mounts].
  assert (∀ w, Inv (State (mounts s) (procs s) (locks s) (requests s) w (next_pid s)
    (abandoned s) (caches s))) as Hw by (intros w; destruct HI; split; done).
  destruct (mounts s !! v) as [e|] eqn:He; [|apply Hw].
  destruct (Nat.eqb_spec (e_pid e) pid) as [<-|]; [|apply Hw].
  specialize (Hw (delete (e_pid e) (watchers s))). split; cbn.
  - apply (inv_lock s HI).
  - intros u e' [_ He']%lookup_delete_Some. by apply (inv_mounts s HI).
  - intros t p H0. eapply pc_ok_mono; [| |by eapply (inv_pc s HI)]; [|by apply proc_le_same].
    cbn. intros u e' _ [_ He']%lookup_delete_Some. done.
  - intros pid0 q Hq Hph.
    destruct (inv_tracked s HI pid0 q Hq Hph) as [?|[(e' & He' & <-)|?]]; [by left| |by right; right].
    right. left. exists e'. split; [|done]. cbn. rewrite lookup_delete_ne; [done|].
    intros Hv. assert (e' = e) as -> by congruence.
    unfold phase_of in Hd. rewrite Hq in Hd. cbn in Hd. congruence.
  - apply (inv_fresh s HI).
Qed.

(** Registering the process of a request makes its volume's entry. *)
Lemma Inv_register s t req pid (e := entry_of req pid) :
  Inv s → requests s !! t = Some (MountRegister req pid) →
  Inv (return_ (register s (VolumeID req) e) t (VolumeID req) (Ok (e_socket e))).
Proof.
  intros HI Hp. pose proof (inv_pc s HI t _ Hp) as [HN (q & Hq & Hqv)].
  eapply (request_step_Inv s _ t); [done|exact Hp|done| | | |done| | |].
  - right. left. by exists (VolumeID req).
  - by apply proc_le_same.
  - intros v e' Hv. cbn. rewrite lookup_insert_ne; [done|]. cbn in Hv. congruence.
  - intros v e'. cbn. intros [[<- <-]|[_ He']]%lookup_insert_Some; [eauto|].
    by apply (inv_mounts s HI).
  - intros pid' q' Hq' Hph.
    destruct (inv_tracked s HI pid' q' Hq' Hph) as [?|[(e' & He' & <-)|(t0 & p0 & H0 & Hs0)]]; [by left| |].
    + right. left. exists e'. split; [|done]. cbn. rewrite lookup_insert_ne; [done|]. congruence.
    + destruct (decide (t0 = t)) as [->|Hne].
      * assert (p0 = MountRegister req pid) as -> by congruence. injection Hs0 as <-.
        right. left. exists e. assert (q' = q) as -> by (cbn in Hq'; congruence).
        cbn. rewrite Hqv, lookup_insert_eq. done.
      * right. right. exists t0, p0. cbn. by rewrite lookup_insert_ne.
  - apply (inv_fresh s HI).
Qed.

(** Starting a process for a volume without an entry. *)
Lemma Inv_spawn s t req args :
  Inv s → requests s !! t = Some (MountStart req) →
  Inv (set_pc (spawn s req args) t (MountWait req (next_pid s))).
Proof.
  intros HI Hp. pose proof (inv_pc s HI t _ Hp) as HN. cbn in HN.
  assert (∀ pid q, procs s !! pid = Some q → pid ≠ next_pid s) as Hfresh.
  { intros pid q Hq ->. apply (inv_fresh s HI) in Hq. lia. }
  assert (proc_le s (spawn s req args)) as Hle.
  { intros pid q Hq. exists q. cbn. rewrite lookup_insert_ne; [done|].
    by eapply not_eq_sym, Hfresh. }
  eapply (request_step_Inv s _ t); [done|exact Hp|done| |exact Hle| | | | |].
  - by left.
  - done.
  - cbn. split; [done|]. eexists. by rewrite lookup_insert_eq.
  - intros v e He. destruct (inv_mounts s HI v e He) as (q & Hq & Hv).
    destruct (Hle _ _ Hq) as (q' & ? & ? & _). exists q'. split; [done|congruence].
  - intros pid q. cbn. destruct (decide (pid = next_pid s)) as [->|Hne].
    + intros _ _. right. right. exists t, (MountWait req (next_pid s)). cbn.
      by rewrite lookup_insert_eq.
    + rewrite lookup_insert_ne by done. intros Hq Hph.
      destruct (inv_tracked s HI pid q Hq Hph) as [?|[?|(t0 & p0 & H0 & Hs0)]];
        [by left|by right; left|].
      right. right. exists t0, p0. cbn. rewrite lookup_insert_ne; [done|]. intros <-.
      assert (p0 = MountStart req) as -> by congruence. done.
  - intros pid q. cbn. destruct (decide (pid = next_pid s)) as [->|Hne]; [lia|].
    rewrite lookup_insert_ne by done. intros Hq%(inv_fresh s HI). lia.
Qed.

Lemma Inv_cache s c :
  Inv s → Inv (State (mounts s) (procs s) (locks s) (requests s) (watchers s) (next_pid s)
                 (abandoned s) c).
Proof. intros []. by split. Qed.

Ltac same_step s t Hp :=
  eapply (request_step_same s _ t); [eassumption|exact Hp|reflexivity|..]; cbn;
  [first [by left | by right; left; eexists | by right; right; eexists]|..]; try done; auto.

Lemma run_mount_Inv s t p a s' :
  Inv s → requests s !! t = Some p → run_mount s t p a = Some s' → Inv s'.
Proof.
  intros HI Hp. pose proof (inv_pc s HI t p Hp) as Hpc.
  destruct p; destruct a; cbn [run_mount]; try done.
  - unfold acquire. destruct (locks s !! VolumeID req) eqn:Hl; [done|]. intros [= <-].
    same_step s t Hp.
  - destruct (mounts s !! VolumeID req) as [e|] eqn:He.
    + case_bool_decide; [destruct (String.eqb _ _)|]; intros [= <-]; same_step s t Hp.
      split; [intros e' He'; congruence|]. by apply (inv_mounts s HI).
    + intros [= <-]. same_step s t Hp.
  - case_bool_decide as Hd; [|done]. intros [= <-]. same_step s t Hp.
    + intros v e' [_ He']%lookup_delete_Some. done.
    + intros v e' He'. destruct (decide (v = VolumeID req)) as [->|Hne].
      * right. destruct Hpc as [Hpc _]. by rewrite (Hpc e').
      * left. by rewrite lookup_delete_ne.
    + by rewrite lookup_delete_eq.
  - assert (Inv (make_cache s req a)) as HI'.
    { unfold make_cache. destruct (is_ok _); [by apply Inv_cache|done]. }
    assert (requests (make_cache s req a) !! t = Some (MountStart req)) as Hp'.
    { unfold make_cache. by destruct (is_ok _). }
    destruct (startMount req a) as [args|e]; intros [= <-]; [by apply Inv_spawn|].
    same_step (make_cache s req a) t Hp'.
  - intros [= <-]. same_step s t Hp.
  - case_bool_decide; [done|]. intros [= <-]. same_step s t Hp.
  - intros [= <-]. same_step s t Hp.
  - case_bool_decide as Hd; [|done]. intros [= <-]. same_step s t Hp.
    intros pid' [= <-]. auto.
  - case_bool_decide as Hd; [|done]. intros [= <-]. same_step s t Hp.
    intros pid' [= <-]. auto.
  - intros [= <-]. same_step s t Hp.
    + apply union_subseteq_r.
    + intros pid' [= <-]. right. left. by apply elem_of_union_l, elem_of_singleton.
  - intros [= <-]. by apply Inv_register.
Qed.

Lemma run_unmount_Inv s t p a s' :
  Inv s → requests s !! t = Some p → run_unmount s t p a = Some s' → Inv s'.
Proof.
  intros HI Hp. pose proof (inv_pc s HI t p Hp) as Hpc.
  destruct p; destruct a; cbn [run_unmount]; try done.
  - unfold acquire. destruct (locks s !! v) eqn:Hl; [done|]. intros [= <-]. same_step s t Hp.
  - destruct (mounts s !! v) as [e|] eqn:He; intros [= <-]; same_step s t Hp.
    split; [intros e' He'; congruence|]. by apply (inv_mounts s HI).
  - case_bool_decide as Hd; [|done]. intros [= <-]. same_step s t Hp.
    split; [apply Hpc|]. unfold phase_of in Hd. destruct (procs s !! e_pid e) as [q|] eqn:E; [|done].
    exists q. split; [done|]. by injection Hd.
  - intros [= <-]. same_step s t Hp.
  - intros [= <-]. destruct Hpc as [Hpc (q & Hq & Hd)].
    assert (∀ s0, Inv s0 → requests s0 = requests s → mounts s0 = mounts s → procs s0 = procs s →
      Inv (return_ (removeMount s0 v) t v (Ok ""))) as H.
    { intros s0 HI0 Hr Hm0 Hpr. rewrite <- Hr in Hp. same_step s0 t Hp.
      - intros u e' [_ He']%lookup_delete_Some. done.
      - intros u e' He'. destruct (decide (u = v)) as [->|Hne].
        + right. rewrite (Hpc e') by congruence. unfold phase_of. rewrite Hpr, Hq. by rewrite <- Hd.
        + left. by rewrite lookup_delete_ne. }
    destruct ok; [apply H; [by apply Inv_cache|done..]|by apply H].
Qed.

Lemma step_Inv s l s' : Inv s → step s l = Some s' → Inv s'.
Proof.
  intros HI. destruct l as [t req|t v|t a|pid|pid|pid]; cbn [step].
  - destruct (requests s !! t) eqn:Ht; [done|]. intros [= <-].
    apply Inv_call; try done; by destruct (validateMountRequest req).
  - destruct (requests s !! t) eqn:Ht; [done|]. intros [= <-].
    apply Inv_call; try done; by destruct (String.eqb v "").
  - destruct (requests s !! t) as [p|] eqn:Ht; [|done].
    destruct (run_mount s t p a) as [s1|] eqn:Hm.
    + intros [= <-]. by eapply run_mount_Inv.
    + intros Hu. by eapply run_unmount_Inv.
  - destruct (procs s !! pid) as [q|] eqn:Hq; [|done]. case_bool_decide; [|done].
    intros [= <-]. apply Inv_set_phase; [done..|congruence].
  - destruct (procs s !! pid) as [q|] eqn:Hq; [|done]. case_bool_decide; [|done].
    intros [= <-]. apply Inv_set_phase; [done..|congruence].
  - destruct (watchers s !! pid) as [v|]; [|done]. case_bool_decide; [|done].
    intros [= <-]. by apply Inv_watch.
Qed.

Lemma steps_Inv s ls s' : Inv s → steps s ls = Some s' → Inv s'.
Proof.
  revert s. induction ls as [|l ls IH]; intros s HI; cbn; [by intros [= <-]|].
  destruct (step s l) as [s1|] eqn:E; [|done]. cbn. apply IH. by eapply step_Inv.
Qed.

Lemma reachable_Inv s : reachable s → Inv s.
Proof. intros [ls Hs]. eapply steps_Inv; [apply Inv_init|exact Hs]. Qed.

(** A process that a request has started and not registered: the request holds the lock
    of its volume, which has no entry. *)
Lemma pending_holds s t p pid q :
  Inv s → requests s !! t = Some p → started p = Some pid → procs s !! pid = Some q →
  holds p = Some (p_volume q) ∧ mounts s !! p_volume q = None.
Proof.
  intros HI Ht Hs Hq. pose proof (inv_pc s HI t p Ht) as Hpc.
  destruct p; try done; cbn in Hs, Hpc; injection Hs as <-;
    destruct Hpc as [HN (q' & Hq' & Hv')]; assert (q' = q) as -> by congruence;
    rewrite Hv'; done.
Qed.

(** ** Properties *)
(** C11. At any time, whatever requests, process exits and watchers interleave, a
    volume has at most one weed mount process that is running or still being
    cleaned up, not counting processes a failed start could not stop. *)
Theorem manager_single_process (s : state) (pid1 pid2 : nat) (q1 q2 : weedMountProcess) :
  reachable s →
  procs s !! pid1 = Some q1 → procs s !! pid2 = Some q2 →
  p_volume q1 = p_volume q2 → p_phase q1 ≠ Done → p_phase q2 ≠ Done →
  pid1 ∉ abandoned s → pid2 ∉ abandoned s →
  pid1 = pid2.
Proof.
  intros Hr H1 H2 Hv Hd1 Hd2 Ha1 Ha2. pose proof (reachable_Inv s Hr) as HI.
  destruct (inv_tracked s HI _ _ H1 Hd1) as [?|[(e1 & He1 & <-)|(t1 & p1 & Ht1 & Hs1)]]; [done| |];
  destruct (inv_tracked s HI _ _ H2 Hd2) as [?|[(e2 & He2 & <-)|(t2 & p2 & Ht2 & Hs2)]]; try done.
  - congruence.
  - destruct (pending_holds _ _ _ _ _ HI Ht2 Hs2 H2) as [_ HN]. congruence.
  - destruct (pending_holds _ _ _ _ _ HI Ht1 Hs1 H1) as [_ HN]. congruence.
  - destruct (pending_holds _ _ _ _ _ HI Ht1 Hs1 H1) as [Hh1 _]. destruct (pending_holds _ _ _ _ _ HI Ht2 Hs2 H2) as [Hh2 _].
    rewrite Hv in Hh1. assert (t1 = t2) as <- by (by eapply holder_unique). congruence.
Qed.

(** A Mount answered with success is tracked: the entry of its volume is at the
    requested target with the socket it answered, and either this request
    registered it or its process is running; a stale entry never counts. *)
Theorem manager_mount_tracked (s s' : state) (t : nat) (p : pc) (a : answer)
    (req : MountRequest) (sock : string) :
  requests s !! t = Some p → mount_of p = Some req →
  step s (Run t a) = Some s' → requests s' !! t = Some (Returned (Ok sock)) →
  ∃ e, mounts s' !! VolumeID req = Some e ∧ e_target e = TargetPath req ∧ e_socket e = sock ∧
    (phase_of s' (e_pid e) = Some Running ∨ ∃ pid, p = MountRegister req pid ∧ e = entry_of req pid).
Proof.
  intros Hp Hpc. cbn [step]. rewrite Hp.
  assert (∀ s1 v r, requests (return_ s1 t v r) !! t = Some (Returned r)) as Hret
    by (intros; cbn; by rewrite lookup_insert_eq).
  assert (∀ s1 p1, requests (set_pc s1 t p1) !! t = Some p1) as Hset
    by (intros; cbn; by rewrite lookup_insert_eq).
  destruct p; try done; injection Hpc as ->; destruct a as [|ans| | | | | | |]; cbn -[return_ set_pc];
    try done.
  - unfold acquire. destruct (locks s !! VolumeID req); [done|]. intros [= <-]. cbn.
    by rewrite lookup_insert_eq.
  - destruct (mounts s !! VolumeID req) as [e|] eqn:He; [|intros [= <-]; by rewrite Hset].
    case_bool_decide as Hrun; [|intros [= <-]; by rewrite Hset].
    destruct (String.eqb_spec (e_target e) (TargetPath req)) as [Ht|_];
      intros [= <-]; rewrite Hret; [|done].
    intros [= <-]. exists e. split_and!; [done..|]. by left.
  - case_bool_decide; [|done]. intros [= <-]. by rewrite Hset.
  - destruct (startMount req ans); intros [= <-]; by rewrite ?Hret, ?Hset.
  - intros [= <-]. by rewrite Hset.
  - case_bool_decide; [done|]. intros [= <-]. by rewrite Hset.
  - intros [= <-]. by rewrite Hset.
  - case_bool_decide; [|done]. intros [= <-]. by rewrite Hret.
  - case_bool_decide; [|done]. intros [= <-]. by rewrite Hret.
  - intros [= <-]. by rewrite Hret.
  - intros [= <-]. rewrite Hret. intros [= <-].
    exists (entry_of req pid). cbn. rewrite lookup_insert_eq. split_and!; [done..|]. right. eauto.
Qed.

(** *** Concrete runs *)
Definition demo_req : MountRequest := {|
  VolumeID := "v"; TargetPath := "/t"; CacheDir_ := "/c"; MountArgs := ["mount"; "-dir=/t"];
  LocalSocket := "/s"; RequiredFlags := [] |}.
Definition demo_ok : start_answers := {| a_flags := None; a_clean := Ok tt; a_mkdir := Ok tt; a_start := Ok tt |}.

(** Request [t] mounts the volume. *)
Definition run_to_wait (t : nat) : list label :=
  [CallMount t demo_req; Run t ANone; Run t ANone; Run t (AStart demo_ok)].
Definition demo_mount (t : nat) : list label := run_to_wait t ++ [Run t AMounted; Run t ANone].

(** A mount, the crash of its process, a remount while the watcher of the first
    process is still pending, and then that watcher. *)
Definition demo_remount : list label :=
  demo_mount 0 ++ [Exit 0; CallMount 1 demo_req; Run 1 ANone; Run 1 ANone; Cleanup 0; Run 1 ANone;
    Run 1 (AStart demo_ok); Run 1 AMounted; Run 1 ANone; Watch 0].

Definition demo_state : state := default init (steps init demo_remount).

Example demo_remount_tracked :
  e_pid <$> (mounts demo_state !! "v") = Some 1 ∧ phase_of demo_state 1 = Some Running.
Proof. vm_compute. done. Qed.

(** A start whose process could not be stopped gives up on it: the next Mount
    of the volume starts a second process on the same target while the first
    one still runs. *)
Theorem abandoned_process_reachable :
  ∃ s q1 q2, reachable s ∧
    procs s !! 0 = Some q1 ∧ procs s !! 1 = Some q2 ∧
    p_volume q1 = p_volume q2 ∧ p_target q1 = p_target q2 ∧
    p_phase q1 = Running ∧ p_phase q2 = Running ∧ abandoned s = {[0]}.
Proof.
  set (ls := run_to_wait 0 ++
    [Run 0 (AWaitErr (Errorf "timeout waiting for mount")); Run 0 AStopTimeout] ++ run_to_wait 1).
  exists (default init (steps init ls)).
  eexists _, _. split; [exists ls; vm_compute; reflexivity|].
  split; [vm_compute; reflexivity|]. split; [vm_compute; reflexivity|]. vm_compute. done.
Qed.

Lemma demo_reachable : reachable demo_state.
Proof. exists demo_remount. vm_compute. reflexivity. Qed.

Definition demo_proc : weedMountProcess :=
  {| p_volume := "v"; p_target := "/t"; p_args := ["mount"; "-dir=/t"]; p_phase := Running |}.

Lemma manager_single_process_witness :
  reachable demo_state ∧ procs demo_state !! 1 = Some demo_proc ∧
  p_phase demo_proc ≠ Done ∧ 1 ∉ abandoned demo_state ∧ 1 = 1.
Proof.
  assert (reachable demo_state) as H1 by exact demo_reachable.
  assert (procs demo_state !! 1 = Some demo_proc) as H2 by (vm_compute; reflexivity).
  assert (p_phase demo_proc ≠ Done) as H3 by discriminate.
  assert (1 ∉ abandoned demo_state) as H4 by (apply (bool_decide_unpack _); vm_compute; done).
  split; [exact H1|]. split; [exact H2|]. split; [exact H3|]. split; [exact H4|].
  exact (manager_single_process demo_state 1 1 demo_proc demo_proc H1 H2 H2 eq_refl H3 H3 H4 H4).
Defined.

Definition demo_before : state := default init (steps init (run_to_wait 0 ++ [Run 0 AMounted])).
Definition demo_after : state := default init (steps init (demo_mount 0)).

Lemma manager_mount_tracked_witness :
  requests demo_before !! 0 = Some (MountRegister demo_req 0) ∧
  mount_of (MountRegister demo_req 0) = Some demo_req ∧
  step demo_before (Run 0 ANone) = Some demo_after ∧
  requests demo_after !! 0 = Some (Returned (Ok "/s")) ∧
  ∃ e, mounts demo_after !! VolumeID demo_req = Some e ∧ e_target e = TargetPath demo_req ∧
    e_socket e = "/s" ∧
    (phase_of demo_after (e_pid e) = Some Running ∨
     ∃ pid, MountRegister demo_req 0 = MountRegister demo_req pid ∧ e = entry_of demo_req pid).
Proof.
  assert (requests demo_before !! 0 = Some (MountRegister demo_req 0)) as H1
    by (vm_compute; reflexivity).
  assert (mount_of (MountRegister demo_req 0) = Some demo_req) as H2 by reflexivity.
  assert (step demo_before (Run 0 ANone) = Some demo_after) as H3 by (vm_compute; reflexivity).
  assert (requests demo_after !! 0 = Some (Returned (Ok "/s"))) as H4 by (vm_compute; reflexivity).
  split; [exact H1|]. split; [exact H2|]. split; [exact H3|]. split; [exact H4|].
  exact (manager_mount_tracked demo_before demo_after 0 _ ANone demo_req "/s" H1 H2 H3 H4).
Defined.
