(* ===== verification/Progress.v ===== *)
(** * Requests of the mount service end

    A request of [Manager] waits for the lock of its volume, for answers of the host and
    for a weed process of its volume; it takes a bounded number of steps, and the requests
    and processes of its volume suffice to bring it to its end, whatever the host answers. *)

From S2P Require Import Prelude GoLib MountFlags MountArgs ProcessOutput Manager.
#[local] Open Scope go_scope.

(** How many steps a request still takes at most. *)
Definition remaining (p : pc) : nat :=
  match p with
  | MountLock _ => 6 | MountCheck _ => 5 | MountReap _ _ => 4 | MountStart _ => 3 | MountWait _ _ => 2
  | MountAbort _ _ | MountKill _ _ _ | MountRegister _ _ => 1
  | UnmountLock _ => 4 | UnmountCheck _ => 3 | UnmountStop _ _ => 2 | UnmountRemove _ _ => 1
  | Returned _ => 0
  end.

(** What a request hears at its point is of the kind it waits for. *)
Definition fits (p : pc) (a : answer) : bool :=
  match p, a with
  | MountStart _, AStart _
  | MountWait _ _, (AMounted | AExited | AWaitErr _)
  | MountAbort _ _, AOutput _ _
  | (MountKill _ _ _ | UnmountStop _ _), (AStopped | AStopTimeout)
  | UnmountRemove _ _, ARemoved _ => true
  | (MountLock _ | MountCheck _ | MountReap _ _ | MountRegister _ _ | UnmountLock _ | UnmountCheck _), ANone => true
  | Returned _, _ => true
  | _, _ => false
  end.

(** The volume of a request. *)
Definition pc_volume (p : pc) : option string :=
  match p with
  | MountLock r => Some (VolumeID r)
  | UnmountLock v => Some v
  | _ => holds p
  end.

Lemma make_cache_requests s req a : requests (make_cache s req a) = requests s.
Proof. unfold make_cache. by destruct (is_ok _). Qed.

Section progress.
Context (host : pc → answer) (v : string).

(** A step of a request of the volume, with what the host answers it, or of a weed process
    of the volume that ends and is cleaned up after. *)
Inductive volume_step (s : state) : state → Prop :=
  | v_run t p s' :
      requests s !! t = Some p → pc_volume p = Some v → step s (Run t (host p)) = Some s' → volume_step s s'
  | v_process pid q l s' :
      procs s !! pid = Some q → p_volume q = v → l = Exit pid ∨ l = Cleanup pid →
      step s l = Some s' → volume_step s s'.

Lemma volume_step_Inv s s' : Inv s → rtc volume_step s s' → Inv s'.
Proof. intros HI Hs. induction Hs as [|s s1 s' [] _ IH]; [done|..]; by eapply IH, step_Inv. Qed.

(** A process of the volume can end and be cleaned up after. *)
Lemma process_ends s pid q :
  procs s !! pid = Some q → p_volume q = v →
  ∃ s', rtc volume_step s s' ∧ phase_of s' pid = Some Done ∧ requests s' = requests s ∧ mounts s' = mounts s.
Proof.
  assert (∀ s q, procs s !! pid = Some q → p_volume q = v → p_phase q = Exited →
    ∃ s', rtc volume_step s s' ∧ phase_of s' pid = Some Done ∧ requests s' = requests s ∧ mounts s' = mounts s) as Hexited.
  { clear s q. intros s q Hq Hv Hph. exists (set_phase s pid q Done). split_and!; try done.
    - apply rtc_once. eapply v_process; [done..|by right|]. cbn. by rewrite Hq, Hph.
    - unfold phase_of. cbn. by rewrite lookup_insert_eq. }
  intros Hq Hv. destruct (p_phase q) eqn:Hph; [|by eapply Hexited|].
  - set (q' := {| p_volume := p_volume q; p_target := p_target q; p_args := p_args q; p_phase := Exited |}).
    destruct (Hexited (set_phase s pid q Exited) q') as (s' & Hs & Hd & Hr & Hm); [cbn; by rewrite lookup_insert_eq|done|done|].
    exists s'. split_and!; [|done..]. eapply rtc_l; [|exact Hs].
    eapply v_process; [done..|by left|]. cbn. by rewrite Hq, Hph.
  - exists s. split_and!; [done| |done..]. unfold phase_of. rewrite Hq. cbn. by rewrite Hph.
Qed.

(** The request [t] has moved on, and no other. *)
Definition moved (s : state) (t : nat) (p : pc) (s' : state) : Prop :=
  ∃ p', requests s' = <[t := p']> (requests s) ∧ remaining p' < remaining p ∧
    (holds p' = Some v ∨ ∃ r, p' = Returned r).
Lemma moved_intro s s1 t p a p' s' :
  rtc volume_step s s1 → requests s1 = requests s → requests s !! t = Some p → pc_volume p = Some v →
  host p = a → step s1 (Run t a) = Some s' → requests s' = <[t := p']> (requests s1) →
  remaining p' < remaining p → (holds p' = Some v ∨ ∃ r, p' = Returned r) →
  ∃ s', rtc volume_step s s' ∧ moved s t p s'.
Proof.
  intros Hs Hr Hp Hv Ha Hstep Hr' Hlt Hh. exists s'. split.
  - eapply rtc_r; [exact Hs|]. eapply v_run; [by rewrite Hr|done|by rewrite Ha].
  - exists p'. rewrite <- Hr. by split_and!.
Qed.

Context (host_fits : ∀ p, fits p (host p) = true).

(** The step of a request whose turn it is, at once or once its process has ended. *)
Ltac goes Hs Hr Hp Hv Ha tac :=
  eapply moved_intro; [exact Hs|exact Hr|exact Hp|exact Hv|exact Ha|cbn; rewrite ?Hr, Hp; cbn; tac; reflexivity
    |cbn [requests set_pc return_ spawn register removeMount abandon remove_cache]; rewrite ?make_cache_requests; reflexivity
    |cbn; lia|first [left; cbn; congruence|right; eauto]].

Lemma holder_moves s t p :
  Inv s → requests s !! t = Some p → holds p = Some v → ∃ s', rtc volume_step s s' ∧ moved s t p s'.
Proof.
  intros HI Hp Hh. pose proof (inv_pc s HI t p Hp) as Hpc. pose proof (host_fits p) as Hf.
  assert (pc_volume p = Some v) as Hv by (by destruct p).
  assert (rtc volume_step s s) as H0 by done. pose proof (eq_refl (requests s)) as Hr.
  assert (∀ pid, (∃ q, procs s !! pid = Some q ∧ p_volume q = v) →
    ∃ s1, rtc volume_step s s1 ∧ phase_of s1 pid = Some Done ∧ requests s1 = requests s) as Hend.
  { intros pid (q & Hq & Hqv). destruct (process_ends s pid q Hq Hqv) as (s1 & ? & ? & ? & _). eauto. }
  destruct p; try done; cbn in Hh; injection Hh as Hh;
    destruct (host _) eqn:Ha in Hf; try done; cbn in Hpc; rewrite ?Hh in Hpc.
  - destruct (mounts s !! v) as [e|] eqn:He; [|goes H0 Hr Hp Hv Ha ltac:(rewrite ?Hh, He)].
    destruct (bool_decide (phase_of s (e_pid e) = Some Running)) eqn:Hd;
      [destruct (String.eqb (e_target e) (TargetPath req)) eqn:Ht|];
      goes H0 Hr Hp Hv Ha ltac:(rewrite ?Hh, He, Hd, ?Ht).
  - destruct (Hend _ (proj2 Hpc)) as (s1 & Hs1 & Hd & Hr1). goes Hs1 Hr1 Hp Hv Ha ltac:(rewrite Hd).
  - destruct (startMount req a) as [args|e] eqn:Hst; goes H0 Hr Hp Hv Ha ltac:(rewrite Hst).
  - goes H0 Hr Hp Hv Ha idtac.
  - destruct (Hend _ (proj2 Hpc)) as (s1 & Hs1 & Hd & Hr1). goes Hs1 Hr1 Hp Hv Ha ltac:(rewrite Hd).
  - goes H0 Hr Hp Hv Ha idtac.
  - destruct (Hend _ (proj2 Hpc)) as (s1 & Hs1 & Hd & Hr1). goes Hs1 Hr1 Hp Hv Ha ltac:(rewrite Hd).
  - destruct (Hend _ (proj2 Hpc)) as (s1 & Hs1 & Hd & Hr1). goes Hs1 Hr1 Hp Hv Ha ltac:(rewrite Hd).
  - goes H0 Hr Hp Hv Ha idtac.
  - goes H0 Hr Hp Hv Ha idtac.
  - destruct (mounts s !! v) as [e|] eqn:He; goes H0 Hr Hp Hv Ha ltac:(rewrite ?Hh, He).
  - destruct (Hend _ (proj2 Hpc)) as (s1 & Hs1 & Hd & Hr1). goes Hs1 Hr1 Hp Hv Ha ltac:(rewrite Hd).
  - goes H0 Hr Hp Hv Ha idtac.
  - destruct ok; goes H0 Hr Hp Hv Ha idtac.
Qed.

(** The one that holds the lock returns, and the others are where they were. *)
Lemma holder_returns s t p :
  Inv s → requests s !! t = Some p → holds p = Some v →
  ∃ s' r, rtc volume_step s s' ∧ requests s' = <[t := Returned r]> (requests s).
Proof.
  remember (remaining p) as n eqn:Hn. revert s p Hn. induction (lt_wf n) as [n _ IH]. intros s p -> HI Hp Hh.
  destruct (holder_moves s t p HI Hp Hh) as (s1 & Hs1 & p1 & Hr1 & Hlt & Hp1).
  destruct Hp1 as [Hh1|[r ->]]; [|by exists s1, r].
  destruct (IH _ Hlt s1 p1 eq_refl) as (s' & r & Hs' & Hr').
  - by eapply volume_step_Inv.
  - by rewrite Hr1, lookup_insert_eq.
  - done.
  - exists s', r. split; [by etrans|]. by rewrite Hr', Hr1, insert_insert_eq.
Qed.

Lemma request_returns s t p :
  Inv s → requests s !! t = Some p → pc_volume p = Some v →
  ∃ s' r, rtc volume_step s s' ∧ requests s' !! t = Some (Returned r).
Proof.
  intros HI Hp Hv. destruct (holds p) as [v'|] eqn:Hh.
  { assert (v' = v) as -> by (destruct p; cbn in *; congruence).
    destruct (holder_returns s t p HI Hp Hh) as (s' & r & Hs & Hr). exists s', r. split; [done|].
    by rewrite Hr, lookup_insert_eq. }
  assert (∃ s1, rtc volume_step s s1 ∧ locks s1 !! v = None ∧ requests s1 !! t = Some p) as (s1 & Hs1 & Hl & Hp1).
  { destruct (locks s !! v) as [t'|] eqn:Hl; [|by exists s].
    apply (inv_lock s HI) in Hl as (p' & Hp' & Hh').
    assert (t ≠ t') as Hne by congruence.
    destruct (holder_returns s t' p' HI Hp' Hh') as (s1 & r & Hs1 & Hr1). exists s1. split_and!; [done| |].
    - destruct (locks s1 !! v) as [t2|] eqn:Hl2; [|done].
      apply (inv_lock s1 (volume_step_Inv _ _ HI Hs1)) in Hl2 as (p2 & Hp2 & Hh2). rewrite Hr1 in Hp2.
      apply lookup_insert_Some in Hp2 as [[_ <-]|[Hne2 Hp2]]; [done|]. by destruct Hne2; eapply holder_unique.
    - by rewrite Hr1, lookup_insert_ne. }
  pose proof (volume_step_Inv _ _ HI Hs1) as HI1. pose proof (host_fits p) as Hf.
  assert (∃ s2 p2, volume_step s1 s2 ∧ requests s2 !! t = Some p2 ∧ holds p2 = Some v) as (s2 & p2 & Hs2 & Hp2 & Hh2).
  { destruct p; try done; injection Hv as Hv; destruct (host _) eqn:Ha in Hf; try done;
      (eexists _, _; split; [eapply v_run; [exact Hp1|by cbn; rewrite Hv
                              |cbn; rewrite Hp1, Ha; cbn; unfold acquire; rewrite Hv, Hl; reflexivity]
                            |split; [apply lookup_insert_eq|by cbn; rewrite Hv]]). }
  destruct (holder_returns s2 t p2) as (s' & r & Hs' & Hr'); [|done..|].
  - eapply volume_step_Inv; [exact HI1|by apply rtc_once].
  - exists s', r. split; [etrans; [exact Hs1|by eapply rtc_l]|]. by rewrite Hr', lookup_insert_eq.
Qed.
End progress.

(** A request takes few steps. *)
Lemma run_remaining s t p a s' :
  requests s !! t = Some p → step s (Run t a) = Some s' →
  ∃ p', requests s' !! t = Some p' ∧ remaining p' < remaining p.
Proof.
  intros Hp. cbn [step]. rewrite Hp.
  destruct p; destruct a; cbn [run_mount run_unmount]; try done; unfold acquire;
    repeat (case_bool_decide || case_match); simplify_eq; intros; simplify_eq;
    (eexists; split; [apply lookup_insert_eq|cbn; lia]).
Qed.

(** ** Properties *)

(** C32. Requests of the mount service end. Whatever a request that has not returned waits
    for, and whatever the host answers from then on, steps of the requests of its own volume,
    and of the weed processes of that volume that end and are cleaned up after, suffice to
    make it return: it waits neither for other volumes nor for a later request of a client.
    And each step it takes is one of the few it has left. *)
Theorem manager_requests_end (host : pc → answer) (s : state) (t : nat) (p : pc) (v : string) :
  (∀ p, fits p (host p) = true) →
  reachable s → requests s !! t = Some p → pc_volume p = Some v →
  (∃ s' r, rtc (volume_step host v) s s' ∧ requests s' !! t = Some (Returned r)) ∧
  (∀ a s', step s (Run t a) = Some s' → ∃ p', requests s' !! t = Some p' ∧ remaining p' < remaining p).
Proof.
  intros Hf Hr Hp Hv. split; [by eapply request_returns; [done|apply reachable_Inv| |]|].
  intros a s'. by apply run_remaining.
Qed.

(** Request 0 waits for its mount and request 1 of the same volume for its lock. The host
    then reports that the wait for the mount failed and that the process cannot be stopped. *)
Definition demo_waiting : list label := run_to_wait 0 ++ [CallMount 1 demo_req].
Definition demo_blocked : state := default init (steps init demo_waiting).
Definition demo_answers (p : pc) : answer :=
  match p with
  | MountStart _ => AStart demo_ok
  | MountWait _ _ => AWaitErr (Errorf "timeout waiting for mount")
  | MountAbort _ _ => AOutput "exit status 1" empty_output
  | MountKill _ _ _ | UnmountStop _ _ => AStopTimeout
  | UnmountRemove _ _ => ARemoved true
  | _ => ANone
  end.

Lemma manager_requests_end_witness :
  reachable demo_blocked ∧ requests demo_blocked !! 1 = Some (MountLock demo_req) ∧
  locks demo_blocked !! "v" = Some 0 ∧
  ∃ s' r, rtc (volume_step demo_answers "v") demo_blocked s' ∧ requests s' !! 1 = Some (Returned r).
Proof.
  assert (∀ p, fits p (demo_answers p) = true) as Hf by (intros []; reflexivity).
  assert (reachable demo_blocked) as H1 by (exists demo_waiting; vm_compute; reflexivity).
  assert (requests demo_blocked !! 1 = Some (MountLock demo_req)) as H2 by (vm_compute; reflexivity).
  split; [exact H1|]. split; [exact H2|]. split; [vm_compute; reflexivity|].
  exact (proj1 (manager_requests_end demo_answers demo_blocked 1 _ "v" Hf H1 H2 eq_refl)).
Defined.
