(* ===== verification/Processes.v ===== *)
(** * The processes of the mount service

    What the steps of [Manager] do to the weed processes and to the entries of the
    volumes, and what follows over any number of steps: every process was started for a
    request, an answered mount stands until its process has ended, and an answered unmount
    leaves no process of its volume behind. The client of the service is a parameter: it
    sends requests that satisfy [P]. *)

From S2P Require Import Prelude GoLib MountFlags MountArgs ProcessOutput Manager.
#[local] Open Scope go_scope.

(** ** One step *)

(** The same process at a later time. *)
Definition later (q q' : weedMountProcess) : Prop :=
  p_volume q' = p_volume q ∧ p_target q' = p_target q ∧ p_args q' = p_args q ∧
  (p_phase q = Done → p_phase q' = Done).

#[export] Instance later_preorder : PreOrder later.
Proof. split; [done|]. intros q1 q2 q3 (? & ? & ? & ?) (? & ? & ? & ?). split_and!; [congruence..|auto]. Qed.

(** The process that [startMount] starts for a request. *)
Definition spawned (req : MountRequest) (q : weedMountProcess) : Prop :=
  p_volume q = VolumeID req ∧ p_target q = TargetPath req ∧ ∃ a, startMount req a = Ok (p_args q).

Lemma spawned_later req q q' : spawned req q → later q q' → spawned req q'.
Proof. intros (? & ? & a & ?) (? & ? & Ha & _). split_and!; [congruence..|]. exists a. by rewrite Ha. Qed.

(** The volume of an Unmount that has not returned. *)
Definition unmount_of (p : pc) : option string :=
  match p with
  | UnmountLock v | UnmountCheck v | UnmountStop v _ | UnmountRemove v _ => Some v
  | _ => None
  end.

(** What a step does to the processes and to the entries. *)
Inductive effect (s s' : state) : Prop :=
  | eff_none : procs s' = procs s → mounts s' = mounts s → effect s s'
  | eff_phase pid q q' :
      procs s !! pid = Some q → later q q' →
      procs s' = <[pid := q']> (procs s) → mounts s' = mounts s → effect s s'
  | eff_spawn t req q :
      requests s !! t = Some (MountStart req) → spawned req q →
      procs s' = <[next_pid s := q]> (procs s) → mounts s' = mounts s → effect s s'
  | eff_remove v :
      (∀ e, mounts s !! v = Some e → phase_of s (e_pid e) = Some Done) →
      procs s' = procs s → mounts s' = delete v (mounts s) → effect s s'
  | eff_register t req pid :
      requests s !! t = Some (MountRegister req pid) →
      procs s' = procs s → mounts s' = <[VolumeID req := entry_of req pid]> (mounts s) → effect s s'.

(** What the step of a request does to the request. *)
Definition advances (s s' : state) (p p' : pc) : Prop :=
  (∃ r, p' = Returned r) ∨
  mount_of p' = mount_of p ∧ unmount_of p' = unmount_of p ∧
    (started p' = started p ∨ started p' = None ∨
     ∃ req q, p = MountStart req ∧ started p' = Some (next_pid s) ∧
       procs s' !! next_pid s = Some q ∧ spawned req q).

Ltac eff_auto :=
  first [ by apply eff_none
        | eapply eff_spawn; [eassumption| |done|done]
        | eapply eff_register; [eassumption|done|done] ].

Lemma run_mount_effect s t p a s' :
  Inv s → requests s !! t = Some p → run_mount s t p a = Some s' → effect s s'.
Proof.
  intros HI Hp. pose proof (inv_pc s HI t p Hp) as Hpc.
  destruct p; destruct a; cbn [run_mount]; try done.
  - unfold acquire. destruct (locks s !! _); [done|]. intros [= <-]. eff_auto.
  - destruct (mounts s !! VolumeID req) as [e|]; [|intros [= <-]; eff_auto].
    case_bool_decide; [destruct (String.eqb _ _)|]; intros [= <-]; eff_auto.
  - case_bool_decide as Hd; [|done]. intros [= <-]. apply (eff_remove _ _ (VolumeID req)); [|done..].
    intros e' He'. destruct Hpc as [Hpc _]. by rewrite (Hpc e' He').
  - unfold make_cache. destruct (startMount req a) as [args|e] eqn:Ha.
    + destruct (is_ok _); intros [= <-]; (eff_auto; split_and!; [done..|by exists a]).
    + destruct (is_ok _); intros [= <-]; eff_auto.
  - intros [= <-]. eff_auto.
  - case_bool_decide; [done|]. intros [= <-]. eff_auto.
  - intros [= <-]. eff_auto.
  - case_bool_decide; [|done]. intros [= <-]. eff_auto.
  - case_bool_decide; [|done]. intros [= <-]. eff_auto.
  - intros [= <-]. eff_auto.
  - intros [= <-]. eff_auto.
Qed.

Lemma run_unmount_effect s t p a s' :
  Inv s → requests s !! t = Some p → run_unmount s t p a = Some s' → effect s s'.
Proof.
  intros HI Hp. pose proof (inv_pc s HI t p Hp) as Hpc.
  destruct p; destruct a; cbn [run_unmount]; try done.
  - unfold acquire. destruct (locks s !! _); [done|]. intros [= <-]. eff_auto.
  - destruct (mounts s !! v); intros [= <-]; eff_auto.
  - case_bool_decide; [|done]. intros [= <-]. eff_auto.
  - intros [= <-]. eff_auto.
  - destruct Hpc as [Hpc (q & Hq & Hd)].
    destruct ok; intros [= <-]; (apply (eff_remove _ _ v); [|done..]);
      intros e' He'; unfold phase_of; rewrite (Hpc e' He'), Hq; by rewrite <- Hd.
Qed.

Lemma step_effect s l s' : Inv s → step s l = Some s' → effect s s'.
Proof.
  intros HI. destruct l as [t req|t v|t a|pid|pid|pid]; cbn [step].
  - destruct (requests s !! t); [done|]. intros [= <-]. eff_auto.
  - destruct (requests s !! t); [done|]. intros [= <-]. eff_auto.
  - destruct (requests s !! t) as [p|] eqn:Ht; [|done].
    destruct (run_mount s t p a) as [s1|] eqn:Hm.
    + intros [= <-]. by eapply run_mount_effect.
    + intros Hu. by eapply run_unmount_effect.
  - destruct (procs s !! pid) as [q|] eqn:Hq; [|done]. case_bool_decide as Hd; [|done].
    intros [= <-]. eapply eff_phase; [exact Hq| |done|done]. split_and!; [done..|congruence].
  - destruct (procs s !! pid) as [q|] eqn:Hq; [|done]. case_bool_decide as Hd; [|done].
    intros [= <-]. eapply eff_phase; [exact Hq| |done|done]. by split_and!.
  - destruct (watchers s !! pid) as [v|]; [|done]. case_bool_decide as Hd; [|done].
    intros [= <-]. unfold watchProcessExit. cbn. destruct (mounts s !! v) as [e|] eqn:He; [|eff_auto].
    destruct (Nat.eqb_spec (e_pid e) pid) as [<-|]; [|eff_auto].
    apply (eff_remove _ _ v); [|done..]. intros e' He'. by replace e' with e by congruence.
Qed.

(** Processes only move forward, and none is given up on twice. *)
Lemma effect_later s s' pid q :
  Inv s → effect s s' → procs s !! pid = Some q → ∃ q', procs s' !! pid = Some q' ∧ later q q'.
Proof.
  intros HI Heff Hq.
  destruct Heff as [Hp _|pid0 q0 q0' H0 Hle Hp _|t req q0 _ _ Hp _|v _ Hp _|t req pid0 _ Hp _];
    rewrite Hp; try by exists q.
  - destruct (decide (pid0 = pid)) as [->|Hne].
    + rewrite lookup_insert_eq. assert (q0 = q) as <- by congruence. eauto.
    + rewrite lookup_insert_ne by done. by exists q.
  - pose proof (inv_fresh s HI _ _ Hq). rewrite lookup_insert_ne by lia. by exists q.
Qed.

Lemma step_abandoned s l s' : step s l = Some s' → abandoned s ⊆ abandoned s'.
Proof.
  destruct l as [t req|t v|t a|pid|pid|pid]; cbn [step].
  - destruct (requests s !! t); [done|]. by intros [= <-].
  - destruct (requests s !! t); [done|]. by intros [= <-].
  - destruct (requests s !! t) as [p|]; [|done]. unfold run_mount, run_unmount, make_cache, acquire.
    repeat case_match; intros; simplify_eq; cbn; set_solver.
  - destruct (procs s !! pid); [|done]. case_bool_decide; [|done]. by intros [= <-].
  - destruct (procs s !! pid); [|done]. case_bool_decide; [|done]. by intros [= <-].
  - destruct (watchers s !! pid); [|done]. case_bool_decide; [|done]. intros [= <-].
    unfold watchProcessExit. cbn. by repeat case_match.
Qed.

Lemma step_done s l s' pid : Inv s → step s l = Some s' → phase_of s pid = Some Done → phase_of s' pid = Some Done.
Proof.
  unfold phase_of. intros HI Hs Hd. destruct (procs s !! pid) as [q|] eqn:Hq; [|done]. cbn in Hd.
  destruct (effect_later s s' pid q HI (step_effect _ _ _ HI Hs) Hq) as (q' & -> & _ & _ & _ & Hd').
  cbn. rewrite Hd'; congruence.
Qed.

(** *** The process an entry stands for *)

(** The process is the one of the volume, or has ended. *)
Definition stands (s : state) (v : string) (pid : nat) : Prop :=
  phase_of s pid = Some Done ∨ ∃ e, mounts s !! v = Some e ∧ e_pid e = pid.

Lemma step_stands s l s' v pid : Inv s → step s l = Some s' → stands s v pid → stands s' v pid.
Proof.
  intros HI Hs [Hd|(e & He & <-)]; [left; by eapply step_done|].
  destruct (step_effect _ _ _ HI Hs)
    as [_ Hm|pid0 q0 q0' _ _ _ Hm|t req q0 _ _ _ Hm|u Hu Hp Hm|t req pid0 Ht _ Hm].
  - right. exists e. by rewrite Hm.
  - right. exists e. by rewrite Hm.
  - right. exists e. by rewrite Hm.
  - destruct (decide (u = v)) as [->|Hne].
    + left. eapply step_done; [done|done|by apply Hu].
    + right. exists e. by rewrite Hm, lookup_delete_ne.
  - pose proof (inv_pc s HI t _ Ht) as [HN _]. right. exists e. rewrite Hm.
    rewrite lookup_insert_ne; [done|congruence].
Qed.

(** *** Requests *)

(** What the step of request [t] makes of it; a request that returned takes no step. *)
Lemma run_advances s t p a s' :
  requests s !! t = Some p → step s (Run t a) = Some s' →
  ∃ p', requests s' = <[t := p']> (requests s) ∧ advances s s' p p' ∧ ∀ r, p ≠ Returned r.
Proof.
  intros Hp. cbn [step]. rewrite Hp. unfold advances.
  destruct p; destruct a; cbn [run_mount run_unmount]; try done; unfold acquire, make_cache;
    repeat case_match; intros; simplify_eq; (eexists; split; [done|]; split; [|done]);
    try first [left; by eexists | right; cbn; split_and!; [done|done|]; auto].
  all: right; right; do 2 eexists; split_and!; [done|done|by rewrite lookup_insert_eq|].
  all: split_and!; [done|done|by eexists].
Qed.

(** The other steps leave the requests that exist alone. *)
Lemma step_other s l s' t p :
  requests s !! t = Some p → step s l = Some s' → (∀ a, l ≠ Run t a) → requests s' !! t = Some p.
Proof.
  intros Hp Hs Hl. destruct l as [t' req|t' v|t' a|pid|pid|pid].
  - cbn in Hs. destruct (requests s !! t') eqn:Ht; [done|]. injection Hs as <-. cbn.
    rewrite lookup_insert_ne; [done|congruence].
  - cbn in Hs. destruct (requests s !! t') eqn:Ht; [done|]. injection Hs as <-. cbn.
    rewrite lookup_insert_ne; [done|congruence].
  - assert (t' ≠ t) as Hne by (intros ->; by destruct (Hl a)).
    destruct (requests s !! t') as [p'|] eqn:Ht; [|cbn in Hs; by rewrite Ht in Hs].
    destruct (run_advances _ _ _ _ _ Ht Hs) as (p1 & -> & _). by rewrite lookup_insert_ne.
  - cbn in Hs. destruct (procs s !! pid); [|done]. case_bool_decide; [|done]. by injection Hs as <-.
  - cbn in Hs. destruct (procs s !! pid); [|done]. case_bool_decide; [|done]. by injection Hs as <-.
  - cbn in Hs. destruct (watchers s !! pid) as [v|]; [|done]. case_bool_decide; [|done].
    injection Hs as <-. unfold watchProcessExit. cbn. by repeat case_match.
Qed.

(** A request that exists, and one that does not, after a step. *)
Lemma step_at s l s' t p :
  requests s !! t = Some p → step s l = Some s' →
  requests s' !! t = Some p ∨
  ∃ a p', l = Run t a ∧ requests s' !! t = Some p' ∧ advances s s' p p' ∧ ∀ r, p ≠ Returned r.
Proof.
  intros Hp Hs.
  assert ((∃ a, l = Run t a) ∨ ∀ a, l ≠ Run t a) as [[a ->]|Hl].
  { destruct l as [| |t' a| | |]; try by right. destruct (decide (t' = t)) as [->|]; [left; eauto|right; congruence]. }
  - destruct (run_advances _ _ _ _ _ Hp Hs) as (p' & Hr & Hadv & Hn). right. exists a, p'.
    by rewrite Hr, lookup_insert_eq.
  - left. by eapply step_other.
Qed.

Lemma step_new s l s' t p' :
  requests s !! t = None → step s l = Some s' → requests s' !! t = Some p' →
  (∃ req, l = CallMount t req ∧ (p' = MountLock req ∨ ∃ e, p' = Returned (Err e))) ∨
  (∃ v, l = CallUnmount t v ∧ (p' = UnmountLock v ∨ ∃ e, p' = Returned (Err e))).
Proof.
  intros Hn Hs Hp'. destruct l as [t' req|t' v|t' a|pid|pid|pid].
  - cbn in Hs. destruct (requests s !! t') eqn:Ht; [done|]. injection Hs as <-. cbn in Hp'.
    apply lookup_insert_Some in Hp' as [[-> <-]|[_ ?]]; [|congruence]. left. exists req.
    split; [done|]. destruct (validateMountRequest req); eauto.
  - cbn in Hs. destruct (requests s !! t') eqn:Ht; [done|]. injection Hs as <-. cbn in Hp'.
    apply lookup_insert_Some in Hp' as [[-> <-]|[_ ?]]; [|congruence]. right. exists v.
    split; [done|]. destruct (String.eqb v ""); eauto.
  - destruct (requests s !! t') as [p|] eqn:Ht; [|cbn in Hs; by rewrite Ht in Hs].
    destruct (run_advances _ _ _ _ _ Ht Hs) as (p1 & Hr & _). rewrite Hr in Hp'.
    apply lookup_insert_Some in Hp' as [[-> _]|[_ ?]]; congruence.
  - cbn in Hs. destruct (procs s !! pid); [|done]. case_bool_decide; [|done]. injection Hs as <-.
    cbn in Hp'. congruence.
  - cbn in Hs. destruct (procs s !! pid); [|done]. case_bool_decide; [|done]. injection Hs as <-.
    cbn in Hp'. congruence.
  - cbn in Hs. destruct (watchers s !! pid) as [v|]; [|done]. case_bool_decide; [|done].
    injection Hs as <-. revert Hp'. unfold watchProcessExit. cbn. repeat case_match; cbn; congruence.
Qed.

(** ** Any number of steps *)
Section client.
Context (P : MountRequest → Prop).

(** The client sends requests of its own only. *)
Definition permitted (l : label) : Prop := match l with CallMount _ req => P req | _ => True end.
Definition service_step (s s' : state) : Prop := ∃ l, permitted l ∧ step s l = Some s'.
Definition works : state → state → Prop := rtc service_step.

Lemma works_steps s ls s' : Forall permitted ls → steps s ls = Some s' → works s s'.
Proof.
  revert s. induction ls as [|l ls IH]; intros s Hl; cbn; [by intros [= <-]|].
  apply Forall_cons in Hl as [H Hl]. destruct (step s l) as [s1|] eqn:E; [|done]. cbn.
  intros Hs. eapply rtc_l; [by exists l|by apply IH].
Qed.

Lemma works_ind (I : state → Prop) :
  (∀ s l s', I s → permitted l → step s l = Some s' → I s') →
  ∀ s s', works s s' → I s → I s'.
Proof. intros H s s' Hw. induction Hw as [|s s1 s' (l & Hl & Hs)]; eauto. Qed.

Lemma works_Inv s s' : works s s' → Inv s → Inv s'.
Proof. apply works_ind. intros s1 l s2 HI _. by apply step_Inv. Qed.

Lemma works_abandoned s s' : works s s' → abandoned s ⊆ abandoned s'.
Proof. induction 1 as [|s s1 s' (l & _ & Hs) _ IH]; [done|]. etrans; [by eapply step_abandoned|done]. Qed.

Lemma works_later s s' pid q :
  works s s' → Inv s → procs s !! pid = Some q → ∃ q', procs s' !! pid = Some q' ∧ later q q'.
Proof.
  intros Hw. revert q. induction Hw as [s|s s1 s' (l & _ & Hs) _ IH]; intros q HI Hq; [by exists q|].
  destruct (effect_later s s1 pid q) as (q1 & Hq1 & Hle); [done|by eapply step_effect|done|].
  destruct (IH q1) as (q' & ? & ?); [by eapply step_Inv|done|]. exists q'. split; [done|]. by etrans.
Qed.

Lemma works_done s s' pid : works s s' → Inv s → phase_of s pid = Some Done → phase_of s' pid = Some Done.
Proof. induction 1 as [|s s1 s' (l & _ & Hs) _ IH]; eauto using step_Inv, step_done. Qed.

Lemma works_stands s s' v pid : works s s' → Inv s → stands s v pid → stands s' v pid.
Proof. induction 1 as [|s s1 s' (l & _ & Hs) _ IH]; eauto using step_Inv, step_stands. Qed.

(** *** What the processes were started for *)
Record started_for (s : state) : Prop := {
  sf_request t p req : requests s !! t = Some p → mount_of p = Some req → P req;
  sf_pending t p req pid : requests s !! t = Some p → mount_of p = Some req →
    started p = Some pid → ∃ q, procs s !! pid = Some q ∧ spawned req q;
  sf_process pid q : procs s !! pid = Some q → ∃ req, P req ∧ spawned req q;
  sf_entry v e : mounts s !! v = Some e → ∃ req q, P req ∧ VolumeID req = v ∧
    e = entry_of req (e_pid e) ∧ procs s !! e_pid e = Some q ∧ spawned req q;
}.

Lemma started_init : started_for init.
Proof. by split. Qed.

Lemma step_started_for s l s' :
  Inv s → permitted l → step s l = Some s' → started_for s → started_for s'.
Proof.
  intros HI Hl Hs [Hreq Hpend Hproc Hent]. pose proof (step_effect _ _ _ HI Hs) as Heff.
  assert (∀ pid q, procs s !! pid = Some q → ∃ q', procs s' !! pid = Some q' ∧ later q q') as Hlater
    by (intros pid q; by apply effect_later).
  assert (∀ pid q req, procs s !! pid = Some q → spawned req q →
    ∃ q', procs s' !! pid = Some q' ∧ spawned req q') as Hkept.
  { intros pid q req Hq Hsp. destruct (Hlater _ _ Hq) as (q' & ? & ?). eauto using spawned_later. }
  assert (∀ t p' req, requests s' !! t = Some p' → mount_of p' = Some req →
    P req ∧ ∀ pid, started p' = Some pid → ∃ q, procs s' !! pid = Some q ∧ spawned req q) as Hreq'.
  { intros t p' req Hp' Hm. destruct (requests s !! t) as [p|] eqn:Hp.
    - destruct (step_at _ _ _ _ _ Hp Hs) as [Hsame|(a & p1 & _ & Hp1 & Hadv & _)].
      + assert (p' = p) as -> by congruence. split; [eauto|]. intros pid Hpid.
        destruct (Hpend _ _ _ _ Hp Hm Hpid) as (q & ? & ?). eauto.
      + assert (p1 = p') as -> by congruence.
        destruct Hadv as [[r ->]|(Hm1 & _ & Hst)]; [done|]. rewrite Hm in Hm1. symmetry in Hm1.
        split; [eauto|]. intros pid Hpid. destruct Hst as [Hst|[Hst|(req0 & q & -> & Hst & Hq & Hsp)]].
        * rewrite Hpid in Hst. destruct (Hpend _ _ _ _ Hp Hm1 (eq_sym Hst)) as (q & ? & ?). eauto.
        * congruence.
        * injection Hm1 as ->. rewrite Hpid in Hst. injection Hst as ->. eauto.
    - destruct (step_new _ _ _ _ _ Hp Hs Hp') as [(req0 & -> & [->|[e ->]])|(v & -> & [->|[e ->]])]; try done.
      cbn in Hm. by simplify_eq. }
  split.
  - intros t p req Hp Hm. by apply (Hreq' t p req).
  - intros t p req pid Hp Hm. by apply (Hreq' t p req).
  - intros pid q' Hq'. destruct (procs s !! pid) as [q|] eqn:Hq.
    + destruct (Hproc _ _ Hq) as (req & ? & Hsp). destruct (Hkept _ _ _ Hq Hsp) as (q1 & ? & ?).
      exists req. split; [done|]. congruence.
    + destruct Heff as [Hp _|pid0 q0 q0' H0 _ Hp _|t req q0 Ht Hsp Hp _|v _ Hp _|t req pid0 _ Hp _];
        rewrite Hp in Hq'; try congruence.
      * apply lookup_insert_Some in Hq' as [[<- _]|[_ ?]]; congruence.
      * apply lookup_insert_Some in Hq' as [[_ <-]|[_ ?]]; [|congruence]. exists req. split; [|done].
        by eapply Hreq.
  - intros v e He.
    assert (mounts s !! v = Some e → ∃ req q, P req ∧ VolumeID req = v ∧
      e = entry_of req (e_pid e) ∧ procs s' !! e_pid e = Some q ∧ spawned req q) as Hold.
    { intros He0. destruct (Hent _ _ He0) as (req & q & ? & ? & ? & Hq & Hsp).
      destruct (Hkept _ _ _ Hq Hsp) as (q' & ? & ?). exists req, q'. by split_and!. }
    destruct Heff as [_ Hm|pid0 q0 q0' _ _ _ Hm|t req q0 _ _ _ Hm|u _ _ Hm|t req pid0 Ht Hp Hm];
      rewrite Hm in He; try by apply Hold.
    + apply lookup_delete_Some in He as [_ He]. by apply Hold.
    + apply lookup_insert_Some in He as [[<- <-]|[_ He]]; [|by apply Hold].
      destruct (Hpend _ _ _ pid0 Ht eq_refl eq_refl) as (q & Hq & Hsp). exists req, q.
      rewrite Hp. split_and!; [by eapply Hreq|done..].
Qed.

Lemma works_started_for s s' : works s s' → Inv s → started_for s → started_for s'.
Proof. induction 1 as [|s s1 s' (l & Hl & Hs) _ IH]; eauto using step_Inv, step_started_for. Qed.

(** *** Requests that were answered *)

Lemma works_answer_stays s s' t r :
  works s s' → requests s !! t = Some (Returned r) → requests s' !! t = Some (Returned r).
Proof.
  induction 1 as [|s s1 s' (l & _ & Hs) _ IH]; intros Hr; [done|]. apply IH.
  by destruct (step_at _ _ _ _ _ Hr Hs) as [?|(a & p' & _ & _ & _ & H)]; [|destruct (H r)].
Qed.

(** A request is answered by one of its own steps. *)
Lemma works_returned s s' t p r :
  works s s' → requests s !! t = Some p → (∀ r', p ≠ Returned r') → requests s' !! t = Some (Returned r) →
  ∃ s1 p1 a s2, works s s1 ∧ requests s1 !! t = Some p1 ∧
    mount_of p1 = mount_of p ∧ unmount_of p1 = unmount_of p ∧
    step s1 (Run t a) = Some s2 ∧ requests s2 !! t = Some (Returned r) ∧ works s2 s'.
Proof.
  intros Hw. revert p. induction Hw as [s|s s1 s' (l & Hl & Hs) Hw IH]; intros p Hp Hn Hr; [naive_solver|].
  assert (∀ p1, requests s1 !! t = Some p1 → mount_of p1 = mount_of p → unmount_of p1 = unmount_of p →
    ∃ s2 p2 a s3, works s s2 ∧ requests s2 !! t = Some p2 ∧
      mount_of p2 = mount_of p ∧ unmount_of p2 = unmount_of p ∧
      step s2 (Run t a) = Some s3 ∧ requests s3 !! t = Some (Returned r) ∧ works s3 s') as Hgo.
  { intros p1 Hp1 Hm1 Hu1.
    assert (∀ r', p1 ≠ Returned r') as Hn1 by (intros r' ->; destruct p; try done; by apply (Hn r0)).
    destruct (IH p1 Hp1 Hn1 Hr) as (s2 & p2 & a & s3 & Hw2 & Hp2 & Hm2 & Hu2 & ?).
    exists s2, p2, a, s3. rewrite Hm2, Hu2, Hm1, Hu1. split; [|naive_solver]. eapply rtc_l; [by exists l|done]. }
  destruct (step_at _ _ _ _ _ Hp Hs) as [Hsame|(a & p1 & -> & Hp1 & [[r' ->]|(Hm & Hu & _)] & _)]; [by eapply Hgo| |by eapply Hgo].
  pose proof (works_answer_stays _ _ _ _ Hw Hp1) as Hr'. assert (r' = r) as -> by congruence.
  exists s, p, a, s1. by split_and!.
Qed.

(** A Mount that succeeded: a process that was started for its volume and target is the
    one of the volume, until it has ended. *)
Lemma mount_stands s s' t p req sock :
  Inv s → started_for s → works s s' → requests s !! t = Some p → mount_of p = Some req →
  requests s' !! t = Some (Returned (Ok sock)) →
  ∃ req0 pid q, P req0 ∧ VolumeID req0 = VolumeID req ∧ TargetPath req0 = TargetPath req ∧
    LocalSocket req0 = sock ∧ procs s' !! pid = Some q ∧ spawned req0 q ∧ stands s' (VolumeID req) pid.
Proof.
  intros HI Hst Hw Hp Hm Hr.
  destruct (works_returned _ _ _ _ _ Hw Hp ltac:(by intros r' ->) Hr)
    as (s1 & p1 & a & s2 & Hw1 & Hp1 & Hm1 & _ & Hs & Hr2 & Hw2).
  rewrite Hm in Hm1.
  destruct (manager_mount_tracked _ _ _ _ _ _ _ Hp1 Hm1 Hs Hr2) as (e & He & Ht & Hsock & _).
  assert (works s s2) as Hw02 by (etrans; [exact Hw1|]; apply rtc_once; by exists (Run t a)).
  pose proof (works_Inv _ _ Hw02 HI) as HI2.
  pose proof (works_started_for _ _ Hw02 HI Hst) as Hst2.
  destruct (sf_entry _ Hst2 _ _ He) as (req0 & q & HP & Hv & Heq & Hq & Hsp).
  destruct (works_later _ _ _ _ Hw2 HI2 Hq) as (q' & Hq' & Hle).
  exists req0, (e_pid e), q'. rewrite Heq in Ht, Hsock. split_and!; [done..|by eapply spawned_later|].
  apply (works_stands s2); [done..|]. right. eauto.
Qed.

(** Where an Unmount is about to succeed, the processes of its volume have ended. *)
Lemma unmount_last s s' t p a v out :
  Inv s → requests s !! t = Some p → unmount_of p = Some v →
  step s (Run t a) = Some s' → requests s' !! t = Some (Returned (Ok out)) →
  holds p = Some v ∧ started p = None ∧
  ∀ e, mounts s !! v = Some e → phase_of s (e_pid e) = Some Done.
Proof.
  intros HI Hp Hu. pose proof (inv_pc s HI t p Hp) as Hpc. cbn [step]. rewrite Hp.
  destruct p; try done; injection Hu as ->; destruct a; cbn; try done; unfold acquire.
  - destruct (locks s !! v); [done|]. intros [= <-]. cbn. by rewrite lookup_insert_eq.
  - destruct (mounts s !! v) as [e|] eqn:He; intros [= <-]; cbn; by rewrite lookup_insert_eq.
  - case_bool_decide; [|done]. intros [= <-]. cbn. by rewrite lookup_insert_eq.
  - intros [= <-]. cbn. by rewrite lookup_insert_eq.
  - intros _ _. destruct Hpc as [Hpc (q & Hq & Hd)]. split_and!; [done..|]. intros e' He'.
    unfold phase_of. rewrite (Hpc e' He'), Hq. by rewrite <- Hd.
Qed.

(** An Unmount that succeeded: of the processes of its volume that were there when it was
    called, each has ended, or was given up on by a failed start. *)
Lemma unmount_ends s s' t p v out :
  Inv s → works s s' → requests s !! t = Some p → unmount_of p = Some v →
  requests s' !! t = Some (Returned (Ok out)) →
  ∀ pid q, procs s !! pid = Some q → p_volume q = v → phase_of s' pid = Some Done ∨ pid ∈ abandoned s'.
Proof.
  intros HI Hw Hp Hu Hr pid q Hq Hv.
  destruct (works_returned _ _ _ _ _ Hw Hp ltac:(by intros r' ->) Hr)
    as (s1 & p1 & a & s2 & Hw1 & Hp1 & _ & Hu1 & Hs & Hr2 & Hw2).
  rewrite Hu in Hu1. pose proof (works_Inv _ _ Hw1 HI) as HI1.
  destruct (works_later _ _ _ _ Hw1 HI Hq) as (q1 & Hq1 & Hv1 & _). rewrite Hv in Hv1.
  destruct (unmount_last _ _ _ _ _ _ _ HI1 Hp1 Hu1 Hs Hr2) as (Hh & Hnst & Hent).
  assert (phase_of s1 pid = Some Done ∨ pid ∈ abandoned s1) as [Hd|Ha].
  { destruct (decide (p_phase q1 = Done)) as [Hd|Hd]; [left; unfold phase_of; by rewrite Hq1, <- Hd|].
    destruct (inv_tracked _ HI1 _ _ Hq1 Hd) as [?|[(e & He & <-)|(t0 & p0 & H0 & Hs0)]]; [by right|left|].
    - apply Hent. by rewrite <- Hv1.
    - destruct (pending_holds _ _ _ _ _ HI1 H0 Hs0 Hq1) as [Hh0 _].
      rewrite Hv1 in Hh0. assert (t0 = t) as -> by exact (holder_unique _ _ _ _ _ _ HI1 H0 Hp1 Hh0 Hh). congruence. }
  - left. eapply works_done; [done|by eapply step_Inv|by eapply step_done].
  - right. eapply works_abandoned; [done|by eapply step_abandoned].
Qed.

(** The two, from the call on. *)
Lemma served_mount s s1 s' t req sock :
  Inv s → started_for s → P req → step s (CallMount t req) = Some s1 → works s1 s' →
  requests s' !! t = Some (Returned (Ok sock)) →
  ∃ req0 pid q, P req0 ∧ VolumeID req0 = VolumeID req ∧ TargetPath req0 = TargetPath req ∧
    LocalSocket req0 = sock ∧ procs s' !! pid = Some q ∧ spawned req0 q ∧ stands s' (VolumeID req) pid.
Proof.
  intros HI Hst HP Hs Hw Hr.
  assert (requests s1 !! t = Some (MountLock req) ∨ ∃ e, requests s1 !! t = Some (Returned (Err e))) as [Hp|[e Hp]].
  { cbn in Hs. destruct (requests s !! t); [done|]. injection Hs as <-. cbn. rewrite lookup_insert_eq.
    destruct (validateMountRequest req) as [[]|e]; eauto. }
  - eapply mount_stands; [by eapply step_Inv|exact (step_started_for s (CallMount t req) s1 HI HP Hs Hst)|done|done|done|done].
  - pose proof (works_answer_stays _ _ _ _ Hw Hp). congruence.
Qed.

Lemma served_unmount s s1 s' t v out :
  Inv s → step s (CallUnmount t v) = Some s1 → works s1 s' →
  requests s' !! t = Some (Returned (Ok out)) →
  ∀ pid q, procs s !! pid = Some q → p_volume q = v → phase_of s' pid = Some Done ∨ pid ∈ abandoned s'.
Proof.
  intros HI Hs Hw Hr pid q Hq Hv.
  assert (procs s1 = procs s ∧ (requests s1 !! t = Some (UnmountLock v) ∨
    ∃ e, requests s1 !! t = Some (Returned (Err e)))) as [Hpr [Hp|[e Hp]]].
  { cbn in Hs. destruct (requests s !! t); [done|]. injection Hs as <-. cbn. rewrite lookup_insert_eq.
    destruct (String.eqb v ""); eauto. }
  - eapply unmount_ends; [by eapply step_Inv|done|done|done|done|by rewrite Hpr|done].
  - pose proof (works_answer_stays _ _ _ _ Hw Hp). congruence.
Qed.
End client.
