(* ===== verification/KeyMutex.v ===== *)
(** * Per-volume locks

    Models [keyMutex] of [pkg/mountmanager/keymutex.go] and [KeyMutex] of
    [pkg/driver/utils.go] as a transition system of goroutines that look up the
    mutex of a key, lock it, possibly remove it from the map, and unlock it. The
    two types differ in one operation: the driver's also has [RemoveMutex],
    which NodeUnstageVolume and failed stages call while they hold the mutex. *)

From S2P Require Import Prelude.

(** Where a goroutine is: it has looked the mutex of a key up, or holds it. *)
Inductive goroutine :=
  | Waiting (key : string) (mutex : nat)
  | Critical (key : string) (mutex : nat).

Record kstate := KState {
  mutexes : gmap string nat;        (** the [sync.Map] from keys to mutexes *)
  locked : gset nat;
  threads : gmap nat goroutine;
  fresh : nat;                      (** the next mutex that is allocated *)
}.

Definition kinit : kstate := KState ∅ ∅ ∅ 0.

(** [LoadOrStore(key, &sync.Mutex{})]. *)
Definition GetMutex (s : kstate) (key : string) : nat * kstate :=
  match mutexes s !! key with
  | Some m => (m, s)
  | None => (fresh s, KState (<[key := fresh s]> (mutexes s)) (locked s) (threads s) (S (fresh s)))
  end.

Definition RemoveMutex (s : kstate) (key : string) : kstate :=
  KState (delete key (mutexes s)) (locked s) (threads s) (fresh s).

Inductive klabel :=
  | Get (t : nat) (key : string)
  | Lock (t : nat)
  | Remove (t : nat)
  | Unlock (t : nat).

Definition set_thread (s : kstate) (t : nat) (g : goroutine) : kstate :=
  KState (mutexes s) (locked s) (<[t := g]> (threads s)) (fresh s).

Definition kstep (s : kstate) (l : klabel) : option kstate :=
  match l with
  | Get t key =>
      match threads s !! t with
      | Some _ => None
      | None => let '(m, s) := GetMutex s key in Some (set_thread s t (Waiting key m))
      end
  | Lock t =>
      match threads s !! t with
      | Some (Waiting key m) =>
          if bool_decide (m ∈ locked s) then None
          else Some (KState (mutexes s) ({[m]} ∪ locked s)
                       (<[t := Critical key m]> (threads s)) (fresh s))
      | _ => None
      end
  | Remove t =>
      match threads s !! t with
      | Some (Critical key _) => Some (RemoveMutex s key)
      | _ => None
      end
  | Unlock t =>
      match threads s !! t with
      | Some (Critical key m) =>
          Some (KState (mutexes s) (locked s ∖ {[m]}) (delete t (threads s)) (fresh s))
      | _ => None
      end
  end.

Fixpoint krun (s : kstate) (ls : list klabel) : option kstate :=
  match ls with
  | [] => Some s
  | l :: ls => s' ← kstep s l; krun s' ls
  end.

(** ** The invariant of runs without removal *)
Definition key_of (g : goroutine) : string := match g with Waiting k _ | Critical k _ => k end.
Definition mutex_of (g : goroutine) : nat := match g with Waiting _ m | Critical _ m => m end.

Record KInv (s : kstate) : Prop := {
  k_table t g : threads s !! t = Some g → mutexes s !! key_of g = Some (mutex_of g);
  k_locked t key m : threads s !! t = Some (Critical key m) → m ∈ locked s;
  k_unique t1 t2 k1 k2 m : threads s !! t1 = Some (Critical k1 m) →
    threads s !! t2 = Some (Critical k2 m) → t1 = t2;
}.

Lemma KInv_init : KInv kinit.
Proof. split; cbn; intros *; rewrite lookup_empty; done. Qed.

Definition is_remove (l : klabel) : bool := match l with Remove _ => true | _ => false end.

Lemma lookup_insert_cases {A} (m : gmap nat A) i j x y :
  <[i := x]> m !! j = Some y → (i = j ∧ x = y) ∨ (i ≠ j ∧ m !! j = Some y).
Proof. apply lookup_insert_Some. Qed.

Lemma kstep_inv s l s' :
  KInv s → is_remove l = false → kstep s l = Some s' → KInv s'.
Proof.
  intros [HT HL HU] Hl. destruct l as [t key|t|t|t]; cbn; [| |done|].
  - destruct (threads s !! t) eqn:Ht; [done|]. unfold GetMutex.
    destruct (mutexes s !! key) as [m|] eqn:Hk; intros [= <-]; split; cbn.
    + intros t0 g [[<- <-]|[_ H]]%lookup_insert_cases; [done|by eapply HT].
    + intros t0 k m' [[_ ?]|[_ H]]%lookup_insert_cases; [done|by eapply HL].
    + intros t1 t2 k1 k2 m' [[_ ?]|[_ H1]]%lookup_insert_cases
        [[_ ?]|[_ H2]]%lookup_insert_cases; [done..|by eapply HU].
    + intros t0 g [[<- <-]|[_ H]]%lookup_insert_cases; [by rewrite lookup_insert_eq|].
      apply HT in H. rewrite lookup_insert_ne; [done|]. intros ->. congruence.
    + intros t0 k m' [[_ ?]|[_ H]]%lookup_insert_cases; [done|by eapply HL].
    + intros t1 t2 k1 k2 m' [[_ ?]|[_ H1]]%lookup_insert_cases
        [[_ ?]|[_ H2]]%lookup_insert_cases; [done..|by eapply HU].
  - destruct (threads s !! t) as [[key m|]|] eqn:Ht; [|done..].
    case_bool_decide as Hm; [done|]. intros [= <-]. split; cbn.
    + intros t0 g [[<- <-]|[_ H]]%lookup_insert_cases; [by apply HT in Ht|by eapply HT].
    + intros t0 k m' [[<- [= <- <-]]|[_ H]]%lookup_insert_cases; [set_solver|].
      apply HL in H. set_solver.
    + intros t1 t2 k1 k2 m' [[<- [= <- <-]]|[_ H1]]%lookup_insert_cases
        [[<- [= <-]]|[_ H2]]%lookup_insert_cases; try done.
      * by apply HL in H2.
      * subst. by apply HL in H1.
      * by eapply HU.
  - destruct (threads s !! t) as [[|key m]|] eqn:Ht; [done| |done]. intros [= <-]. split; cbn.
    + intros t0 g [_ H]%lookup_delete_Some. by eapply HT.
    + intros t0 k m' [Hne H]%lookup_delete_Some. apply elem_of_difference. split; [by eapply HL|].
      intros ->%elem_of_singleton. by destruct Hne; eapply HU.
    + intros t1 t2 k1 k2 m' [_ H1]%lookup_delete_Some [_ H2]%lookup_delete_Some. by eapply HU.
Qed.

Lemma krun_inv s ls s' :
  KInv s → Forall (λ l, is_remove l = false) ls → krun s ls = Some s' → KInv s'.
Proof.
  revert s. induction ls as [|l ls IH]; intros s HI Hls; cbn; [by intros [= <-]|].
  apply Forall_cons in Hls as [Hl Hls]. destruct (kstep s l) as [s1|] eqn:E; [|done].
  cbn. apply IH; [|done]. by eapply kstep_inv.
Qed.

(** ** Properties *)

(** C33. Without removal, the mount service's case, the lock of a key is exclusive:
    at any time at most one goroutine is in the critical section of a key. *)
Theorem keymutex_exclusion (ls : list klabel) (s : kstate) (t1 t2 : nat) (key : string) (m1 m2 : nat) :
  Forall (λ l, is_remove l = false) ls → krun kinit ls = Some s →
  threads s !! t1 = Some (Critical key m1) → threads s !! t2 = Some (Critical key m2) →
  t1 = t2.
Proof.
  intros Hls Hrun H1 H2.
  assert (KInv s) as HI by (eapply krun_inv; [apply KInv_init|exact Hls|exact Hrun]).
  pose proof (k_table s HI _ _ H1) as E1. pose proof (k_table s HI _ _ H2) as E2. cbn in E1, E2.
  assert (m1 = m2) as <- by congruence. by eapply k_unique.
Qed.

Definition demo_run : list klabel := [Get 0 "v"; Get 1 "v"; Lock 0; Unlock 0; Lock 1].
Definition demo_end : kstate := default kinit (krun kinit demo_run).

Lemma keymutex_exclusion_witness :
  Forall (λ l, is_remove l = false) demo_run ∧ krun kinit demo_run = Some demo_end ∧
  threads demo_end !! 1 = Some (Critical "v" 0) ∧ 1 = 1.
Proof.
  assert (Forall (λ l, is_remove l = false) demo_run) as H1 by (repeat constructor).
  assert (krun kinit demo_run = Some demo_end) as H2 by (vm_compute; reflexivity).
  assert (threads demo_end !! 1 = Some (Critical "v" 0)) as H3 by (vm_compute; reflexivity).
  split; [exact H1|]. split; [exact H2|]. split; [exact H3|].
  exact (keymutex_exclusion demo_run demo_end 1 1 "v" 0 0 H1 H2 H3 H3).
Defined.

(** With removal, the driver's case, it is not: a goroutine that looked the
    mutex up before it was removed and one that looks the key up afterwards
    are in the critical section of the same key together. *)
Theorem keymutex_remove_breaks_exclusion :
  ∃ s, krun kinit [Get 0 "v"; Lock 0; Get 1 "v"; Remove 0; Unlock 0; Get 2 "v"; Lock 1; Lock 2] = Some s ∧
    threads s !! 1 = Some (Critical "v" 0) ∧ threads s !! 2 = Some (Critical "v" 1).
Proof. eexists. split; [vm_compute; reflexivity|]. vm_compute. done. Qed.
