(* ===== verification/MountInfo.v ===== *)
(** * The mount table of a process

    Models the parsing of [/proc/<pid>/mountinfo] in
    [pkg/driver/container_remount_linux.go], and the questions the driver asks
    of the parsed table. *)

From S2P Require Import Prelude GoLib.
Import Strings.
#[local] Open Scope go_scope.

(** ** Lines ([bufio.Scanner]) *)

(** The longest line a scanner takes. *)
Definition MaxScanTokenSize : Z := 64 * 1024.
Definition nl : ascii := of_code 10.
Definition cr : string := String (of_code 13) "".

(** The lines of a text, without a last empty one. *)
Definition raw_lines (text : string) : list string :=
  match rev (Split text nl) with
  | EmptyString :: rest => rev rest
  | l => rev l
  end.

(** [scanner.Scan] until it returns false: the lines, and whether it stopped at
    one that was too long. *)
Fixpoint scan_lines (lines : list string) : list string * bool :=
  match lines with
  | [] => ([], false)
  | x :: lines =>
      if (MaxScanTokenSize <=? Z.of_nat (String.length x))%Z then ([], true)
      else let '(xs, too_long) := scan_lines lines in (TrimSuffix x cr :: xs, too_long)
  end.

(** ** Entries *)
Record mountInfoEntry := {
  device : string;
  root : string;
  mountpoint : string;
  options : string;
  fstype : string;
  source : string;
}.
Definition no_entry : mountInfoEntry := {|
  device := ""; root := ""; mountpoint := ""; options := ""; fstype := ""; source := "" |}.

Definition isOctalDigit (c : ascii) : bool := (48 <=? code_of c)%Z && (code_of c <=? 55)%Z.

(** The byte of three octal digits, as [uint8] arithmetic computes it. *)
Definition octal_byte (a b c : ascii) : ascii :=
  of_code (Z.lor (Z.lor (Z.shiftl (code_of a - 48) 6 mod 256) (Z.shiftl (code_of b - 48) 3))
             (code_of c - 48)).

Fixpoint unescape_loop (s : string) : string :=
  match s with
  | EmptyString => ""
  | String x tl =>
      match tl with
      | String a (String b (String c rest)) =>
          if chr_eqb x "\" && isOctalDigit a && isOctalDigit b && isOctalDigit c
          then String (octal_byte a b c) (unescape_loop rest)
          else String x (unescape_loop tl)
      | _ => String x (unescape_loop tl)
      end
  end.
Definition unescapeMountField (s : string) : string :=
  if negb (ContainsByte s "\") then s else unescape_loop s.

(** The index of the separator field, from the seventh field on. *)
Fixpoint find_sep (i : nat) (fields : list string) : option nat :=
  match fields with
  | [] => None
  | f :: fields => if String.eqb f "-" then Some i else find_sep (S i) fields
  end.

(** One line of mountinfo; [None] is a skipped line. *)
Definition parse_entry (line : string) : option mountInfoEntry :=
  let fields := Fields line in
  if length fields <? 7 then None
  else
    let field i := default "" (fields !! i) in
    let sepIdx := find_sep 6 (drop 6 fields) in
    Some {|
      device := field 2;
      root := unescapeMountField (field 3);
      mountpoint := unescapeMountField (field 4);
      options := field 5;
      fstype := match sepIdx with Some i => field (i + 1) | None => "" end;
      source := match sepIdx with Some i => field (i + 2) | None => "" end;
    |}.

(** [parseMountInfoReader]. Its callers look at the entries only when there is
    no error. *)
Definition parseMountInfoReader (text : string) : result (list mountInfoEntry) :=
  let '(lines, too_long) := scan_lines (raw_lines text) in
  if too_long then Err (Errorf "bufio.Scanner: token too long")
  else Ok (omap parse_entry lines).

(** ** Questions about a table *)
Definition mount_readOnly (e : mountInfoEntry) : bool := bool_decide ("ro" ∈ Split (options e) ",").

Definition isFuseFS (fstype : string) : bool :=
  HasPrefix fstype "fuse" && negb (String.eqb fstype "fusectl").

Definition fuseSourcePath (source : string) : string :=
  match cut_opt ":/" source with Some (_, path) => "/" +:+ path | None => "" end.

Definition sameFuseFilesystem (a b : string) : bool :=
  if String.eqb a "" || String.eqb b "" then false
  else if String.eqb a b then true
  else
    let pa := fuseSourcePath a in
    let pb := fuseSourcePath b in
    negb (String.eqb pa "") && String.eqb pa pb.

(** [mountEntryAt]: the last entry is the topmost mount. *)
Definition mountEntryAt (entries : list mountInfoEntry) (path : string) : result mountInfoEntry :=
  match foldl (λ top e, if String.eqb (mountpoint e) path then Some e else top) None entries with
  | Some e => Ok e
  | None => Err (Errorf ("no mount at " +:+ path))
  end.

(** [getMountDevice] on a parsed table. *)
Definition mountDevice (entries : list mountInfoEntry) (mountPath : string) : result string :=
  let best := foldl (λ best e,
    if String.eqb (mountpoint e) mountPath &&
       (String.length (mountpoint best) <=? String.length (mountpoint e))
    then e else best) no_entry entries in
  if String.eqb (device best) "" then Err (Errorf ("no mount entry found for " +:+ mountPath))
  else Ok (device best).

(** [findContainerMountsByDevice] on a parsed table. *)
Definition containerMountsByDevice (entries : list mountInfoEntry) (oldDevice : string)
    : list mountInfoEntry :=
  filter (λ e, String.eqb (device e) oldDevice && isFuseFS (fstype e)) entries.

(** [extractPodUID]: the element after the first [pods] that has one. *)
Fixpoint uid_after (parts : list string) : string :=
  match parts with
  | x :: ((uid :: _) as rest) => if String.eqb x "pods" then uid else uid_after rest
  | _ => ""
  end.
Definition extractPodUID (publishPath : string) : string := uid_after (Split publishPath "/").

Example extract_uid :
  map extractPodUID ["/var/lib/kubelet/pods/u-1/volumes/x/mount"; "/a/pods"; "/a/b"] = ["u-1"; ""; ""].
Proof. vm_compute. reflexivity. Qed.

(** ** The format the kernel prints

    proc(5): id, parent, device, root, mount point, options, optional fields, a
    separator, filesystem type, source and super options. Space, tab, newline
    and backslash in a path are printed as three octal digits. *)
Record kernelMount := {
  k_id : string; k_parent : string; k_device : string; k_root : string; k_mountpoint : string;
  k_options : string; k_optional : list string; k_fstype : string; k_source : string;
  k_super : string }.

Definition escaped (c : ascii) : bool := bool_decide (code_of c ∈ [32; 9; 10; 92]%Z).
Definition octal_digit (z : Z) : ascii := of_code (48 + z).
Definition escape_chr (c : ascii) : string :=
  let z := code_of c in
  if escaped c then
    String "\" (String (octal_digit (z / 64)) (String (octal_digit (z / 8 mod 8))
      (String (octal_digit (z mod 8)) "")))
  else String c "".
Fixpoint escape (s : string) : string :=
  match s with
  | EmptyString => ""
  | String c s => escape_chr c +:+ escape s
  end.

Definition show_fields (m : kernelMount) : list string :=
  [k_id m; k_parent m; k_device m; escape (k_root m); escape (k_mountpoint m); k_options m]
  ++ k_optional m ++ ["-"; k_fstype m; k_source m; k_super m].
Definition show_line (m : kernelMount) : string := Join (show_fields m) " ".
Definition show_table (ms : list kernelMount) : string :=
  String.concat "" (map (λ m, show_line m +:+ String nl "") ms).

Definition entry_of_kernel (m : kernelMount) : mountInfoEntry := {|
  device := k_device m; root := k_root m; mountpoint := k_mountpoint m; options := k_options m;
  fstype := k_fstype m; source := k_source m |}.

(** A field without white space; a path whose white space the kernel escapes. It escapes
    no other white space of [unicode.IsSpace]. *)
Definition field_ok (x : string) : Prop := x ≠ "" ∧ has_space x = false.
Fixpoint has_bare_space (x : string) : bool :=
  match x with
  | EmptyString => false
  | String c x' => negb (escaped c) && negb (space_len x =? 0) || has_bare_space x'
  end.
Definition path_ok (x : string) : Prop := x ≠ "" ∧ has_bare_space x = false.
Record kernel_ok (m : kernelMount) : Prop := {
  ok_fields : Forall field_ok [k_id m; k_parent m; k_device m; k_options m; k_fstype m; k_source m; k_super m];
  ok_optional : Forall (λ x, field_ok x ∧ x ≠ "-") (k_optional m);
  ok_root : path_ok (k_root m);
  ok_mountpoint : path_ok (k_mountpoint m);
  ok_length : (Z.of_nat (String.length (show_line m)) < MaxScanTokenSize)%Z;
}.

(** *** Escaping *)
Lemma unescape_escape_chr c s : unescape_loop (escape_chr c +:+ s) = String c (unescape_loop s).
Proof.
  unfold escape_chr. destruct (escaped c) eqn:Hc.
  - unfold escaped in Hc. apply bool_decide_eq_true in Hc.
    assert (c = of_code 32 ∨ c = of_code 9 ∨ c = of_code 10 ∨ c = of_code 92) as Hc'.
    { assert (c = of_code (code_of c)) as ->.
      { unfold of_code, code_of. pose proof (Ascii.N_ascii_bounded c).
        rewrite Z.mod_small by lia. by rewrite N2Z.id, Ascii.ascii_N_embedding. }
      set (z := code_of c) in *. rewrite !elem_of_cons in Hc.
      destruct Hc as [-> | [-> | [-> | [-> | Hc]]]]; auto. by apply elem_of_nil in Hc. }
    by destruct Hc' as [-> | [-> | [-> | ->]]].
  - cbn. assert (chr_eqb c "\" = false) as Hb.
    { apply bool_decide_eq_false. intros ->. done. }
    destruct s as [|a [|b [|d s]]]; try done. by rewrite Hb.
Qed.

Lemma unescape_escape_app a s : unescape_loop (escape a +:+ s) = a +:+ unescape_loop s.
Proof.
  induction a as [|c a IH]; [done|]. cbn [escape].
  rewrite <- sapp_assoc, unescape_escape_chr, IH. done.
Qed.

Lemma unescape_plain s : ContainsByte s "\" = false → unescape_loop s = s.
Proof.
  induction s as [|x s IH]; [done|]. intros [Hx Hs]%no_byte_cons. specialize (IH Hs).
  assert (chr_eqb x "\" = false) as Hb by (apply bool_decide_eq_false; congruence).
  destruct s as [|a [|b [|c s]]]; cbn in *; try congruence. rewrite Hb. cbn. congruence.
Qed.

Lemma unescape_escape s : unescapeMountField (escape s) = s.
Proof.
  unfold unescapeMountField. destruct (ContainsByte (escape s) "\") eqn:H; cbn.
  - rewrite <- (sapp_nil_r (escape s)), unescape_escape_app. apply sapp_nil_r.
  - apply unescape_plain in H as E. rewrite <- E.
    rewrite <- (sapp_nil_r (escape s)), unescape_escape_app. apply sapp_nil_r.
Qed.

(** *** Fields and lines *)

(** No wide space has a byte that the kernel escapes. *)
Lemma wide_spaces_plain i w : wide_spaces !! i = Some w → sexists escaped w = false.
Proof.
  intros Hw%list_elem_of_lookup_2. revert w Hw. apply Forall_forall. repeat constructor.
Qed.

Lemma no_escaped_blank w : sexists escaped w = false → no_byte " " w.
Proof.
  induction w as [|d w IH]; [done|]. cbn. intros [Hd Hw]%orb_false_iff. apply no_byte_cons.
  split; [intros <-; by vm_compute in Hd|by apply IH].
Qed.

Lemma prefix_cons a w c x : String.prefix (String a w) (String c x) = chr_eqb a c && String.prefix w x.
Proof.
  unfold chr_eqb. cbn. destruct (Ascii.ascii_dec a c) as [->|Hne].
  - by rewrite bool_decide_true.
  - by rewrite bool_decide_false.
Qed.

Lemma prefix_app_blank w x r : no_byte " " w → String.prefix w (x +:+ String " " r) = String.prefix w x.
Proof.
  revert x. induction w as [|a w IH]; intros x; [by destruct x|]. intros [Ha Hw]%no_byte_cons.
  destruct x as [|c x].
  - change ("" +:+ String " " r) with (String " " r). rewrite prefix_cons.
    unfold chr_eqb. by rewrite bool_decide_false.
  - change (String c x +:+ String " " r) with (String c (x +:+ String " " r)). by rewrite !prefix_cons, IH.
Qed.

Lemma prefix_escape w x : sexists escaped w = false → String.prefix w (escape x) = String.prefix w x.
Proof.
  revert x. induction w as [|a w IH]; intros x; [by destruct x; [|destruct (escape _)]|].
  intros [Ha Hw]%orb_false_iff. destruct x as [|c x]; [done|]. cbn [escape]. unfold escape_chr.
  destruct (escaped c) eqn:Hc; cbn [String.append].
  - rewrite !prefix_cons. unfold chr_eqb. rewrite !bool_decide_false; [done|congruence|].
    intros ->. by vm_compute in Ha.
  - by rewrite !prefix_cons, IH.
Qed.

Lemma space_len_ext c x y :
  (∀ w, sexists escaped w = false → String.prefix w (String c x) = String.prefix w (String c y)) →
  space_len (String c x) = space_len (String c y).
Proof.
  intros Hw. unfold space_len. destruct (is_space c); [done|].
  assert (∀ ws, (∀ i w, ws !! i = Some w → sexists escaped w = false) →
    List.find (λ w, String.prefix w (String c x)) ws = List.find (λ w, String.prefix w (String c y)) ws) as H.
  { induction ws as [|w ws IH]; intros Hp; [done|]. cbn [List.find].
    rewrite (Hw w (Hp 0 w eq_refl)), IH; [done|]. intros i. apply (Hp (S i)). }
  by rewrite H by apply wide_spaces_plain.
Qed.

Lemma space_len_app c x r : space_len (String c (x +:+ String " " r)) = space_len (String c x).
Proof. apply space_len_ext. intros w Hw. by apply (prefix_app_blank w (String c x)), no_escaped_blank. Qed.

(** A field and the blank after it. *)
Lemma split_space_field x r :
  has_space x = false → split_space 0 (x +:+ String " " r) = x :: split_space 0 r.
Proof.
  induction x as [|c x IH]; intros Hx; [done|]. cbn [has_space] in Hx.
  apply orb_false_iff in Hx as [Hc Hx]. apply negb_false_iff, Nat.eqb_eq in Hc.
  change (String c x +:+ String " " r) with (String c (x +:+ String " " r)). cbn [split_space].
  by rewrite space_len_app, Hc, IH.
Qed.
Lemma split_space_last x : has_space x = false → split_space 0 x = [x].
Proof.
  induction x as [|c x IH]; intros Hx; [done|]. cbn [has_space] in Hx.
  apply orb_false_iff in Hx as [Hc Hx]. apply negb_false_iff, Nat.eqb_eq in Hc.
  cbn [split_space]. by rewrite Hc, IH.
Qed.

Lemma Fields_field x r : field_ok x → Fields (x +:+ String " " r) = x :: Fields r.
Proof. intros [Hx Hs]. unfold Fields. by rewrite split_space_field, filter_cons_True. Qed.
Lemma Fields_blank r : Fields (String " " r) = Fields r.
Proof. unfold Fields. change (split_space 0 (String " " r)) with ("" :: split_space 0 r). by rewrite filter_cons_False by (by intros []). Qed.
Lemma Fields_last x : field_ok x → Fields x = [x].
Proof. intros [Hx Hs]. unfold Fields. by rewrite split_space_last, filter_cons_True. Qed.

Lemma Fields_Join l : Forall field_ok l → Fields (Join l " ") = l.
Proof.
  induction l as [|x l IH]; intros Hl; [done|]. apply Forall_cons in Hl as [Hx Hl].
  destruct l as [|y l]; [by apply Fields_last|].
  rewrite Join_cons by done. change (" " +:+ ?s) with (String " " s). by rewrite Fields_field, IH.
Qed.

Lemma has_space_escape x : has_bare_space x = false → has_space (escape x) = false.
Proof.
  induction x as [|c x IH]; [done|]. cbn [has_bare_space]. intros [Hc Hx]%orb_false_iff.
  specialize (IH Hx). cbn [escape]. unfold escape_chr. destruct (escaped c) eqn:He.
  - assert (∀ a s, negb (is_space a) && negb (existsb (λ w, String.prefix (String a "") w) wide_spaces) = true →
      has_space s = false → has_space (String a s) = false) as Hplain.
    { intros a s Ha Hs. cbn [has_space]. rewrite Hs, orb_false_r. apply negb_false_iff, Nat.eqb_eq.
      apply andb_true_iff in Ha as [Hsp Hw]. apply negb_true_iff in Hsp. unfold space_len. rewrite Hsp.
      destruct (List.find _ _) as [w|] eqn:Hf; [|done]. apply List.find_some in Hf as [Hin Hpre].
      apply negb_true_iff in Hw. assert (existsb (λ w, String.prefix (String a "") w) wide_spaces = true); [|congruence].
      apply existsb_exists. exists w. split; [done|]. destruct w as [|b w]; [by vm_compute in Hin; naive_solver|].
      rewrite prefix_cons in Hpre |- *. apply andb_true_iff in Hpre as [Hpre _].
      unfold chr_eqb in *. apply bool_decide_eq_true in Hpre as ->. by rewrite bool_decide_true; destruct w. }
    destruct c as [[] [] [] [] [] [] [] []]; try done; cbn [String.append]; repeat (apply Hplain; [by vm_compute|]); done.
  - cbn [String.append has_space]. rewrite IH, orb_false_r. cbn [negb andb] in Hc.
    rewrite <- Hc. f_equal. f_equal. apply space_len_ext. intros w Hw. change (String c (escape x)) with (String c "" +:+ escape x).
    rewrite <- (prefix_escape w (String c x)) by done. cbn [escape]. unfold escape_chr. by rewrite He.
Qed.

Lemma field_ok_escape x : path_ok x → field_ok (escape x).
Proof.
  intros [Hx Hs]. split; [|by apply has_space_escape].
  destruct x as [|c x]; [done|]. cbn. unfold escape_chr. by destruct (escaped c).
Qed.

Lemma field_ok_no_byte c x : field_ok x → is_space c = true → no_byte c x.
Proof.
  intros [_ Hs] Hc. induction x as [|d x IH]; [done|]. cbn [has_space] in Hs.
  apply orb_false_iff in Hs as [Hd Hs]. apply no_byte_cons. split; [|by apply IH].
  intros ->. unfold space_len in Hd. by rewrite Hc in Hd.
Qed.

Lemma show_fields_ok m : kernel_ok m → Forall field_ok (show_fields m).
Proof.
  intros [Hf Ho Hr Hm _]. unfold show_fields. rewrite !Forall_cons in Hf.
  destruct Hf as (? & ? & ? & ? & ? & ? & ? & _). apply field_ok_escape in Hr, Hm.
  assert (field_ok "-") as Hsep by (by split).
  apply Forall_app. split; [by repeat (apply Forall_cons_2; [done|])|]. apply Forall_app. split.
  - eapply Forall_impl; [exact Ho|]. by intros x [H' _].
  - by repeat (apply Forall_cons_2; [done|]).
Qed.

Lemma find_sep_optional i opt rest :
  Forall (λ x, field_ok x ∧ x ≠ "-") opt → find_sep i (opt ++ "-" :: rest) = Some (i + length opt).
Proof.
  intros Ho. revert i. induction Ho as [|x opt [_ Hx] Ho IH]; intros i; cbn.
  - by rewrite Nat.add_0_r.
  - destruct (String.eqb_spec x "-") as [->|_]; [done|]. rewrite IH. f_equal. lia.
Qed.

Lemma parse_show_line m : kernel_ok m → parse_entry (show_line m) = Some (entry_of_kernel m).
Proof.
  intros Hm. unfold parse_entry, show_line. rewrite (Fields_Join _ (show_fields_ok m Hm)).
  assert (length (show_fields m) = 10 + length (k_optional m)) as Hlen.
  { unfold show_fields. rewrite !length_app. cbn. lia. }
  destruct (Nat.ltb_spec (length (show_fields m)) 7); [lia|].
  change (drop 6 (show_fields m)) with (k_optional m ++ ["-"; k_fstype m; k_source m; k_super m]).
  rewrite (find_sep_optional 6 _ _ (ok_optional m Hm)).
  assert (∀ i, show_fields m !! (6 + length (k_optional m) + i) =
    ["-"; k_fstype m; k_source m; k_super m] !! i) as Hat.
  { intros i. unfold show_fields. rewrite lookup_app_r by (cbn; lia). rewrite lookup_app_r by (cbn; lia).
    f_equal. cbn. lia. }
  rewrite !Hat. cbn. rewrite !unescape_escape. done.
Qed.

(** The characters of a line are printable or the separating spaces. *)
Lemma Join_no_byte c l :
  Forall field_ok l → is_space c = true → c ≠ " "%char → no_byte c (Join l " ").
Proof.
  intros Hf Hc Hne. induction Hf as [|x l Hx Hl IH]; [done|]. pose proof (field_ok_no_byte c x Hx Hc) as Hxc.
  destruct l as [|y l]; [done|]. rewrite Join_cons by done.
  apply no_byte_app. split; [done|]. apply no_byte_app. split; [|done].
  apply no_byte_cons. by split.
Qed.

Lemma show_line_no_byte c m :
  kernel_ok m → is_space c = true → c ≠ " "%char → no_byte c (show_line m).
Proof. intros Hm. by apply Join_no_byte, show_fields_ok. Qed.

Lemma no_byte_rev c s : no_byte c s → no_byte c (rev_string s).
Proof.
  unfold rev_string. intros Hs.
  assert (∀ l acc, no_byte c (String.string_of_list_ascii l) → no_byte c (String.string_of_list_ascii acc) →
    no_byte c (String.string_of_list_ascii (rev_append l acc))) as H.
  { induction l as [|d l IH]; intros acc Hl Ha; [done|]. cbn in Hl.
    apply no_byte_cons in Hl as [Hd Hl]. apply IH; [done|]. by apply no_byte_cons. }
  rewrite rev_alt. apply H; [|done]. by rewrite String.string_of_list_ascii_of_string.
Qed.

Lemma TrimSuffix_cr s : no_byte (of_code 13) s → TrimSuffix s cr = s.
Proof.
  intros Hs. unfold TrimSuffix, HasSuffix, HasPrefix.
  destruct (String.prefix _ _) eqn:Hp; [|done].
  apply prefix_inv in Hp. apply no_byte_rev in Hs. rewrite Hp in Hs.
  by apply no_byte_app in Hs as [[]%no_byte_cons _].
Qed.

Lemma Split_lines (lines : list string) rest :
  Forall (no_byte nl) lines →
  Split (String.concat "" (map (λ x, x +:+ String nl "") lines) +:+ rest) nl = lines ++ Split rest nl.
Proof.
  induction lines as [|x lines IH]; intros Hl; [done|]. apply Forall_cons in Hl as [Hx Hl].
  assert (∀ l : list string, String.concat "" (map (λ x, x +:+ String nl "") (x :: l)) +:+ rest =
    x +:+ String nl (String.concat "" (map (λ x, x +:+ String nl "") l) +:+ rest)) as ->.
  { intros [|y l]; cbn [map String.concat]; rewrite <- !sapp_assoc; done. }
  rewrite Split_app_sep, (Split_no_byte _ _ Hx), IH by done. done.
Qed.

Lemma scan_lines_ok lines :
  Forall (λ x, (Z.of_nat (String.length x) < MaxScanTokenSize)%Z ∧ no_byte (of_code 13) x) lines →
  scan_lines lines = (lines, false).
Proof.
  induction 1 as [|x lines [Hx Hc] Hl IH]; [done|]. cbn.
  destruct (Z.leb_spec MaxScanTokenSize (Z.of_nat (String.length x))); [lia|].
  by rewrite IH, TrimSuffix_cr.
Qed.

(** C35. The driver reads back every mount table the kernel prints, with the root
    and the mount point unescaped, so a mount made from a [subPath] with a space in it keeps
    its offset, as long as lines are shorter than a scanner takes and no field has white
    space in it that the kernel does not escape: vertical tab, form feed, carriage return
    and the white space of Unicode beyond ASCII. *)
Theorem parseMountInfo_show_table (ms : list kernelMount) :
  Forall kernel_ok ms →
  parseMountInfoReader (show_table ms) = Ok (map entry_of_kernel ms).
Proof.
  intros Hms. unfold parseMountInfoReader, raw_lines, show_table.
  rewrite <- (map_map show_line (λ x, x +:+ String nl "")).
  set (text := String.concat _ _). rewrite <- (sapp_nil_r text). unfold text. rewrite Split_lines.
  2:{ apply Forall_map. eapply Forall_impl; [exact Hms|]. intros m Hm. by apply show_line_no_byte. }
  change (Split "" nl) with [""]. rewrite rev_unit, rev_involutive, scan_lines_ok.
  - f_equal. induction Hms as [|m ms Hm Hms IH]; [done|]. cbn [map omap list_omap]. by rewrite (parse_show_line m Hm), IH.
  - apply Forall_map. eapply Forall_impl; [exact Hms|]. intros m Hm. split; [apply Hm|].
    by apply show_line_no_byte.
Qed.

Definition example_mount : kernelMount := {|
  k_id := "36"; k_parent := "35"; k_device := "0:98"; k_root := "/my data"; k_mountpoint := "/mnt\x";
  k_options := "ro,noatime"; k_optional := ["master:1"]; k_fstype := "fuse.seaweedfs";
  k_source := "filer:8888:/buckets/b"; k_super := "rw,user_id=0" |}.

Lemma parseMountInfo_show_table_witness :
  Forall kernel_ok [example_mount] ∧
  show_line example_mount =
    "36 35 0:98 /my\040data /mnt\134x ro,noatime master:1 - fuse.seaweedfs filer:8888:/buckets/b rw,user_id=0" ∧
  parseMountInfoReader (show_table [example_mount]) = Ok [entry_of_kernel example_mount].
Proof.
  assert (Forall kernel_ok [example_mount]) as H.
  { repeat constructor; try done; discriminate. }
  split; [exact H|]. split; [vm_compute; reflexivity|].
  exact (parseMountInfo_show_table [example_mount] H).
Defined.

(** The kernel prints a no-break space as it is, and the driver splits the line there: the
    entry of a mount whose [subPath] has one gets the rest of the root as its mount point. *)
Definition nbsp_mount : kernelMount := {|
  k_id := "36"; k_parent := "35"; k_device := "0:98"; k_root := "/my" +:+ bytes [194; 160]%Z +:+ "data";
  k_mountpoint := "/mnt"; k_options := "ro"; k_optional := []; k_fstype := "fuse.seaweedfs";
  k_source := "filer:8888:/buckets/b"; k_super := "rw" |}.

Lemma nbsp_shifts_fields :
  ∃ e, parseMountInfoReader (show_table [nbsp_mount]) = Ok [e] ∧
    root e = "/my" ∧ mountpoint e = "data" ∧ options e = "/mnt".
Proof. eexists. split; [vm_compute; reflexivity|]. done. Qed.
