(* ===== verification/Host.v ===== *)
(** * What the node plugin does to its host

    The node plugin acts on the host through system calls, [k8s.io/mount-utils],
    the mount service, the Kubernetes API and the filer. An action is an event;
    a program is a tree of events that continues with the host's answer; an action
    also reads and updates the state of the plugin. Nothing
    is assumed of the answers: a theorem about a program holds for every host,
    and speaks about the log of the events and their answers. *)

From S2P Require Import Prelude GoLib Params Driver MountArgs.
#[local] Open Scope go_scope.

(** [healthResult] of health_monitor.go. *)
Inductive healthResult := healthOK | healthDead | healthSlow.
#[export] Instance healthResult_eq_dec : EqDecision healthResult.
Proof. solve_decision. Defined.

Definition health_String (r : healthResult) : string :=
  match r with healthOK => "ok" | healthDead => "dead" | healthSlow => "slow" end.

(** [syscall.Statfs_t], as far as the driver reads it; all but the block size
    are unsigned. *)
Record Statfs_t := {
  Bsize : Z; Blocks : Z; Bfree : Z; Bavail : Z; Files : Z; Ffree : Z }.

(** ** Events *)
Inductive hostE : Type → Type :=
  (** the file system *)
  | Stat (p : string) : hostE (result bool)                (** is it a directory *)
  | Lstat (p : string) : hostE (result unit)
  | MkdirAll (p : string) : hostE (result unit)
  | Remove (p : string) : hostE (result unit)              (** [os.Remove] *)
  | RemoveAll (p : string) : hostE (result unit)
  | Rename (p q : string) : hostE (result unit)
  | ReadDir (p : string) : hostE (result (list (string * bool)))  (** names, is it a directory *)
  | ReadFile (p : string) : hostE (result string)
  | Readlink (p : string) : hostE (result string)
  | OpenFile (p : string) : hostE (result unit)
  | ScanFile (p : string) : hostE (string * option error)  (** what the reads of an open file give, and the error that ends them *)
  | CreateTemp (dir pattern : string) : hostE (result string)
  | WriteTemp (p data : string) : hostE (result unit)
  | CloseTemp (p : string) : hostE (result unit)
  | DialUnix (p : string) : hostE bool
  | Getpid : hostE Z
  (** mounts: [mount-utils] and [umount2] *)
  | IsMountPoint (p : string) : hostE (result bool)
  | IsLikelyNotMountPoint (p : string) : hostE (result bool)
  | Umount (p : string) : hostE (result unit)
  | LazyUmount (p : string) : hostE (result unit)
  | Bind (src dst : string) (ro : bool) : hostE (result unit)
  | CleanupMountPoint (p : string) : hostE (result unit)
  (** the registries of probes in flight: the start of the health probe a check
      attaches to or starts, the start of the statfs probe in flight if any,
      how the wait for a probe ended ([None] for a timeout), and
      [resetStatfsProbe] *)
  | HealthProbe (p : string) : hostE Z
  | StatfsProbe (p : string) : hostE (option Z)
  | AwaitHealth (p : string) : hostE (option healthResult)
  | AwaitStatfs (p : string) : hostE (option (option error))
  | StatfsWithin (p : string) : hostE (option (option error))  (** [probeStatfsWithin] *)
  | ResetProbes (p : string) : hostE unit
  | Now : hostE Z
  (** statistics: the call itself, and whether a wait ended before its context *)
  | Statfs (p : string) : hostE (result Statfs_t)
  | InTime (what : string) : hostE (option error)
  (** the lock that orders the cache sweep against staging *)
  | TryLockCaches : hostE bool
  | UnlockCaches : hostE unit
  (** the mount service and the weed mount of a volume *)
  | NewUnmounter (v : string) : hostE (result unit)
  | SvcMount (req : MountRequest) : hostE (result unit)
  | SvcUnmount (v : string) : hostE (result unit)
  | Configure (socket : string) (capacity : Z) : hostE (result unit)
  (** is the channel [exited] of a weed process closed before an interval ends *)
  | ProcessExited : hostE bool
  (** Kubernetes and the filer *)
  | PodVolumeMounts (v namespace pod : string) : hostE (result (list (list (string * string))))
  | LoadVac (v : string) : hostE (result strmap)
  | Capacity (v : string) : hostE (result Z)
  | NodeLabels (n : string) : hostE (result strmap)
  (** mount namespaces (container_remount_linux.go): the OS thread of the
      goroutine, a private file system context, a detached clone of a tree, the two namespaces, and, in the
      container's, a lazy unmount, the attachment of the clone and the change to
      read-only *)
  | LockThread : hostE unit
  | UnlockThread : hostE unit
  | UnshareFS : hostE (result unit)
  | OpenTree (src : string) : hostE (result unit)
  | OpenOwnNS : hostE (result unit)
  | OpenNS (pid : Z) : hostE (result unit)
  | Setns (pid : Z) : hostE (result unit)
  | NsUmount (p : string) : hostE (result unit)
  | NsMoveMount (p : string) : hostE (result unit)
  | NsReadOnly (p : string) : hostE (result unit)
  | RestoreNS : hostE (result unit).

(** An event with its answer. *)
Inductive obs :=
  | Obs (X : Type) (e : hostE X) (x : X).
Arguments Obs {X} e x.
Definition log : Type := list obs.

(** ** Programs *)
Inductive prog (A : Type) : Type :=
  | Return (a : A)
  | Vis (X : Type) (e : hostE X) (k : X → prog A).
Arguments Return {A} a.
Arguments Vis {A X} e k.

(** An action of the plugin: events, and reads and updates of the plugin's state
    in between; it may fail. *)
Inductive act (S A : Type) : Type :=
  | Done (r : result A)
  | Event (X : Type) (e : hostE X) (k : X → act S A)
  | Read (X : Type) (f : S → X) (k : X → act S A)
  | Update (f : S → S) (k : act S A).
Arguments Done {S A} r.
Arguments Event {S A X} e k.
Arguments Read {S A X} f k.
Arguments Update {S A} f k.

(** An action alone on a state is a program. *)
Fixpoint prog_of {S A} (m : act S A) (s : S) : prog (result A * S) :=
  match m with
  | Done r => Return (r, s)
  | Event e k => Vis e (λ x, prog_of (k x) s)
  | Read f k => prog_of (k (f s)) s
  | Update f k => prog_of k (f s)
  end.
Coercion prog_of : act >-> Funclass.

Section act.
Context {S : Type}.

Definition aret {A} (a : A) : act S A := Done (Ok a).
Definition afail {A} (e : error) : act S A := Done (Err e).
Definition alift {A} (r : result A) : act S A := Done r.
Fixpoint abind {A B} (m : act S A) (k : A → act S B) : act S B :=
  match m with
  | Done (Ok a) => k a
  | Done (Err e) => Done (Err e)
  | Event e k' => Event e (λ x, abind (k' x) k)
  | Read f k' => Read f (λ x, abind (k' x) k)
  | Update f m' => Update f (abind m' k)
  end.
(** The outcome of an action, changed. *)
Fixpoint aoutcome {A B} (f : result A → result B) (m : act S A) : act S B :=
  match m with
  | Done r => Done (f r)
  | Event e k => Event e (λ x, aoutcome f (k x))
  | Read g k => Read g (λ x, aoutcome f (k x))
  | Update g m' => Update g (aoutcome f m')
  end.
(** One event; its answer is the value. *)
Definition ask {X} (e : hostE X) : act S X := Event e (λ x, Done (Ok x)).
(** One event whose answer is a Go [(T, error)]: an error ends the program. *)
Definition call {X} (e : hostE (result X)) : act S X := Event e Done.
Definition atry {A} (m : act S A) : act S (result A) := aoutcome Ok m.
Definition awith_err {A} (f : error → error) (m : act S A) : act S A := aoutcome (rmap_err f) m.
Definition agets {A} (f : S → A) : act S A := Read f (λ x, Done (Ok x)).
Definition amodify (f : S → S) : act S unit := Update f (Done (Ok tt)).

(** A loop over a list that returns the list of its results. *)
Fixpoint amap {A B} (f : A → act S B) (l : list A) : act S (list B) :=
  match l with
  | [] => aret []
  | x :: l => abind (f x) (λ y, abind (amap f l) (λ ys, aret (y :: ys)))
  end.
End act.

Notation "'do!' x := m 'in' k" := (abind m (λ x, k))
  (at level 10, x pattern, m at level 100, k at level 200) : go_scope.
Notation "m ;;> k" := (abind m (λ _, k))
  (at level 100, k at level 200, right associativity) : go_scope.

(** ** Reasoning about programs

    [wpp ok m Q l]: whatever the host answers, every event [m] issues is
    allowed by [ok] given the log before it, and [m] ends with a value and a
    log that satisfy [Q]. *)
Definition policy : Type := ∀ X, hostE X → log → Prop.

Fixpoint wpp (ok : policy) {A} (m : prog A) (Q : A → log → Prop) (l : log) : Prop :=
  match m with
  | Return a => Q a l
  | Vis e k => ok _ e l ∧ ∀ x, wpp ok (k x) Q (l ++ [Obs e x])
  end.

Lemma wpp_mono ok {A} (m : prog A) (Q Q' : A → log → Prop) l :
  wpp ok m Q l → (∀ a l', Q a l' → Q' a l') → wpp ok m Q' l.
Proof.
  intros H HQ. revert l H. induction m as [a|X e k IH]; intros l; cbn; [apply HQ|].
  intros [Hok H]. split; [done|]. intros x. apply IH, H.
Qed.

(** The log only grows. *)
Lemma wpp_prefix ok {A} (m : prog A) (Q : A → log → Prop) l :
  wpp ok m Q l → wpp ok m (λ a l', Q a l' ∧ ∃ k, l' = l ++ k) l.
Proof.
  revert l. induction m as [a|X e k IH]; intros l; cbn.
  - intros H. split; [done|]. exists []. by rewrite app_nil_r.
  - intros [Hok H]. split; [done|]. intros x. eapply wpp_mono; [by apply IH|].
    intros a l' [HQ [k' ->]]. split; [done|]. eexists. by rewrite <- app_assoc.
Qed.

Section awp.
Context {S : Type} (ok : policy).

Definition awp {A} (m : act S A) (Q : result A → S → log → Prop) (s : S) (l : log) : Prop :=
  wpp ok (m s) (λ rs l', Q rs.1 rs.2 l') l.

Lemma awp_mono {A} (m : act S A) (Q Q' : result A → S → log → Prop) s l :
  awp m Q s l → (∀ r s' l', Q r s' l' → Q' r s' l') → awp m Q' s l.
Proof. intros H HQ. eapply wpp_mono; [exact H|]. auto. Qed.

Lemma awp_ret {A} (a : A) Q s l : Q (Ok a) s l → awp (aret a) Q s l.
Proof. done. Qed.

Lemma awp_fail {A} e (Q : result A → S → log → Prop) s l : Q (Err e) s l → awp (afail e) Q s l.
Proof. done. Qed.

Lemma awp_bind {A B} (m : act S A) (k : A → act S B) Q s l :
  awp m (λ r s' l', match r with
                    | Ok a => awp (k a) Q s' l'
                    | Err e => Q (Err e) s' l'
                    end) s l →
  awp (abind m k) Q s l.
Proof.
  unfold awp. revert s l. induction m as [[a|e]|X e k' IH|X f k' IH|f m' IH]; intros s l; cbn; auto.
  intros [Hok H]. split; [done|]. intros x. apply IH, H.
Qed.

Lemma awp_ask {X} (e : hostE X) (Q : result X → S → log → Prop) s l :
  ok _ e l → (∀ x, Q (Ok x) s (l ++ [Obs e x])) → awp (ask e) Q s l.
Proof. done. Qed.

Lemma awp_call {X} (e : hostE (result X)) (Q : result X → S → log → Prop) s l :
  ok _ e l → (∀ r, Q r s (l ++ [Obs e r])) → awp (call e) Q s l.
Proof. done. Qed.

Lemma awp_outcome {A B} (f : result A → result B) (m : act S A) Q s l :
  awp m (λ r s' l', Q (f r) s' l') s l → awp (aoutcome f m) Q s l.
Proof.
  unfold awp. revert s l. induction m as [r|X e k IH|X g k IH|g m' IH]; intros s l; cbn; auto.
  intros [Hok H]. split; [done|]. intros x. apply IH, H.
Qed.

Lemma awp_try {A} (m : act S A) Q s l :
  awp m (λ r s' l', Q (Ok r) s' l') s l → awp (atry m) Q s l.
Proof. apply awp_outcome. Qed.

Lemma awp_with_err {A} f (m : act S A) Q s l :
  awp m (λ r s' l', Q (rmap_err f r) s' l') s l → awp (awith_err f m) Q s l.
Proof. apply awp_outcome. Qed.

Lemma awp_gets {A} (f : S → A) Q s l : Q (Ok (f s)) s l → awp (agets f) Q s l.
Proof. done. Qed.

Lemma awp_modify (f : S → S) Q s l : Q (Ok tt) (f s) l → awp (amodify f) Q s l.
Proof. done. Qed.

Lemma awp_lift {A} (r : result A) (Q : result A → S → log → Prop) s l :
  Q r s l → awp (alift r) Q s l.
Proof. done. Qed.

Lemma awp_map {A B} (f : A → act S B) (xs : list A) (I : S → log → Prop) s l :
  (∀ x s' l', x ∈ xs → I s' l' → awp (f x) (λ _, I) s' l') → I s l →
  awp (amap f xs) (λ _, I) s l.
Proof.
  revert s l. induction xs as [|x xs IH]; intros s l Hf HI; [done|].
  apply awp_bind. eapply awp_mono; [apply Hf; [left|done]|].
  intros [b|e] s' l' HI'; [|done]. apply awp_bind. eapply awp_mono; [apply IH; [|done]|].
  - intros y s'' l'' Hy. apply Hf. by right.
  - by intros [bs|e] s'' l'' HI''.
Qed.

(** The same with a property of each result. *)
Lemma awp_map_results {A B} (f : A → act S B) (xs : list A) (I : S → log → Prop) (P : B → Prop) s l :
  (∀ x s' l', x ∈ xs → I s' l' → awp (f x) (λ r s'' l'', I s'' l'' ∧ ∀ y, r = Ok y → P y) s' l') →
  I s l →
  awp (amap f xs) (λ r s' l', I s' l' ∧ ∀ ys, r = Ok ys → Forall P ys) s l.
Proof.
  revert s l. induction xs as [|x xs IH]; intros s l Hf HI; cbn [amap].
  { apply awp_ret. split; [done|]. by intros ys [= <-]. }
  apply awp_bind. eapply awp_mono; [apply Hf; [left|done]|].
  intros [b|e] s' l' [HI' Hb]; [|by split]. apply awp_bind. eapply awp_mono; [apply IH; [|done]|].
  - intros y s'' l'' Hy. apply Hf. by right.
  - intros [bs|e] s'' l'' [HI'' Hbs]; [|by split]. apply awp_ret. split; [done|].
    intros ys [= <-]. constructor; [by apply Hb|by apply Hbs].
Qed.

(** What is known of an action, and that the log grew. *)
Lemma awp_growing {A} (m : act S A) Q s l :
  awp m Q s l → awp m (λ r s' l', Q r s' l' ∧ ∀ o, o ∈ l → o ∈ l') s l.
Proof.
  intros H. eapply wpp_mono; [apply wpp_prefix, H|]. intros rs l' [HQ [k ->]]. split; [done|].
  intros o Ho. apply elem_of_app. by left.
Qed.

Lemma awp_prefix_log {A} (m : act S A) Q s l :
  awp m Q s l → awp m (λ r s' l', Q r s' l' ∧ ∃ k, l' = l ++ k) s l.
Proof. intros H. apply wpp_prefix, H. Qed.

(** A loop that does not change the state, with what each iteration finds for its
    element; it must last. *)
Lemma awp_map_related {A B} (f : A → act S B) (xs : list A) (P : A → B → log → Prop) s l :
  (∀ x b l l', (∀ o, o ∈ l → o ∈ l') → P x b l → P x b l') →
  (∀ x l, x ∈ xs → awp (f x) (λ r s' l', s' = s ∧ ∃ b, r = Ok b ∧ P x b l') s l) →
  awp (amap f xs) (λ r s' l', s' = s ∧ ∃ bs, r = Ok bs ∧ Forall2 (λ x b, P x b l') xs bs) s l.
Proof.
  intros HP. revert l. induction xs as [|x xs IH]; intros l Hf; cbn [amap].
  { apply awp_ret. split; [done|]. by eexists. }
  apply awp_bind. eapply awp_mono; [apply Hf; left|]. intros r s1 l1 (-> & b & -> & Hb).
  apply awp_bind. eapply awp_mono; [apply awp_growing, IH; intros y l2 Hy; apply Hf; by right|].
  intros r s2 l2 [(-> & bs & -> & Hbs) Hgrow]. apply awp_ret. split; [done|].
  eexists. split; [done|]. constructor; [|done]. by eapply HP.
Qed.

(** A loop whose every iteration achieves a goal that later iterations keep. *)
Lemma awp_map_goals {A B} (f : A → act S B) (xs : list A) (I : S → log → Prop)
    (G : A → S → log → Prop) s l :
  (∀ x s l, x ∈ xs → I s l → awp (f x) (λ r s' l', is_ok r = true ∧ I s' l' ∧ G x s' l' ∧
     ∀ y, G y s l → G y s' l') s l) →
  I s l →
  awp (amap f xs) (λ r s' l', is_ok r = true ∧ I s' l' ∧ (∀ x, x ∈ xs → G x s' l') ∧
    ∀ y, G y s l → G y s' l') s l.
Proof.
  revert s l. induction xs as [|x xs IH]; intros s l Hf HI; cbn [amap].
  { apply awp_ret. split_and!; [done..| |done]. by intros x Hx%elem_of_nil. }
  apply awp_bind. eapply awp_mono; [apply Hf; [left|done]|].
  intros [b|e] s1 l1 (? & HI1 & Hx & Hk1); [|done]. apply awp_bind.
  eapply awp_mono; [apply IH; [|exact HI1]; intros y s2 l2 Hy; apply Hf; by right|].
  intros [bs|e] s2 l2 (? & HI2 & Hxs & Hk2); [|done]. apply awp_ret. split_and!; [done..| |].
  - intros y [->|Hy]%elem_of_cons; [by apply Hk2|by apply Hxs].
  - intros y Hy. by apply Hk2, Hk1.
Qed.
End awp.

(** One structural step of an [awp] goal. *)
Ltac awp_step :=
  lazymatch goal with
  | |- awp _ (aret _) _ _ _ => apply awp_ret
  | |- awp _ (afail _) _ _ _ => apply awp_fail
  | |- awp _ (abind _ _) _ _ _ => apply awp_bind
  | |- awp _ (ask _) _ _ _ => apply awp_ask; [|intros ?]
  | |- awp _ (call _) _ _ _ => apply awp_call; [|intros [?|?]]
  | |- awp _ (atry _) _ _ _ => apply awp_try
  | |- awp _ (awith_err _ _) _ _ _ => apply awp_with_err
  | |- awp _ (agets _) _ _ _ => apply awp_gets
  | |- awp _ (amodify _) _ _ _ => apply awp_modify
  | |- awp _ (alift _) _ _ _ => apply awp_lift
  | |- awp _ (match ?x with _ => _ end) _ _ _ => destruct x eqn:?
  | |- awp _ (if ?x then _ else _) _ _ _ => destruct x eqn:?
  end; cbn beta iota.

(** ** Running a program against a host

    [host] answers each event given the log so far. *)
Fixpoint run {A} (host : ∀ X, hostE X → log → X) (m : prog A) (l : log) : A * log :=
  match m with
  | Return a => (a, l)
  | Vis e k => let x := host _ e l in run host (k x) (l ++ [Obs e x])
  end.

Lemma wpp_run ok {A} host (m : prog A) (Q : A → log → Prop) l :
  wpp ok m Q l → Q (run host m l).1 (run host m l).2.
Proof.
  revert l. induction m as [a|X e k IH]; intros l; cbn; [done|]. intros [_ H]. apply IH, H.
Qed.

(** ** Policies *)
Definition anything : policy := λ _ _ _, True.

Lemma wpp_anything {A} (m : prog A) l : wpp anything m (λ _ _, True) l.
Proof. revert l. induction m as [a|X e k IH]; intros l; cbn; [done|]. split; [done|]. auto. Qed.

Lemma wpp_weaken (ok ok' : policy) {A} (m : prog A) Q l :
  (∀ X (e : hostE X) l, ok X e l → ok' X e l) → wpp ok m Q l → wpp ok' m Q l.
Proof.
  intros Hok. revert l. induction m as [a|X e k IH]; intros l; cbn; [done|]. intros [H1 H2].
  split; [by apply Hok|]. auto.
Qed.

(** What a policy says of the events that were issued. *)
Lemma wpp_events ok (P : obs → Prop) {A} (m : prog A) (Q : A → log → Prop) l :
  (∀ X (e : hostE X) x l, ok X e l → P (Obs e x)) → wpp ok m Q l →
  wpp anything m (λ a l', Q a l' ∧ ∀ o, o ∈ l' → o ∈ l ∨ P o) l.
Proof.
  intros HP. revert l. induction m as [a|X e k IH]; intros l; cbn.
  - intros HQ. split; [done|]. by left.
  - intros [Hok H]. split; [done|]. intros x. eapply wpp_mono; [by apply IH|].
    intros a l' [HQ Hl']. split; [done|]. intros o Ho. destruct (Hl' o Ho) as [Hin|]; [|by right].
    apply elem_of_app in Hin as [?|Heq]; [by left|right].
    apply list_elem_of_singleton in Heq as ->. by eapply HP.
Qed.

Lemma awp_events {S A} ok (P : obs → Prop) (m : act S A) Q s l :
  (∀ X (e : hostE X) x l, ok X e l → P (Obs e x)) → awp ok m Q s l →
  awp anything m (λ r s' l', Q r s' l' ∧ ∀ o, o ∈ l' → o ∈ l ∨ P o) s l.
Proof. intros HP H. exact (wpp_events ok P (m s) _ l HP H). Qed.

(** Nothing is known of an action but that the log grows. *)
Lemma awp_grows {S A} (m : act S A) s l :
  awp anything m (λ _ _ l', ∀ o, o ∈ l → o ∈ l') s l.
Proof.
  eapply wpp_mono; [apply wpp_prefix, wpp_anything|]. intros rs l' [_ [k ->]] o Ho.
  apply elem_of_app. by left.
Qed.

(** ** Actions that keep the state

    Under a policy, an action issues allowed events only and does not touch the
    plugin's state. The lemmas [keeps_auto] finds are hints of [keeps]. *)
Definition keeps (ok : policy) {S A} (m : act S A) : Prop := ∀ s l, awp ok m (λ _ s' _, s' = s) s l.

Section keeps.
Context {S : Type} (ok : policy).

Lemma keeps_use {A} (m : act S A) (Q : result A → S → log → Prop) s l :
  keeps ok m → (∀ r l', Q r s l') → awp ok m Q s l.
Proof. intros Hm HQ. eapply awp_mono; [apply Hm|]. by intros r s' l' ->. Qed.

Lemma keeps_bind {A B} (m : act S A) (k : A → act S B) :
  keeps ok m → (∀ x, keeps ok (k x)) → keeps ok (abind m k).
Proof.
  intros Hm Hk s l. apply awp_bind. apply keeps_use; [done|]. intros [a|e] l'; [apply Hk|done].
Qed.
Lemma keeps_try {A} (m : act S A) : keeps ok m → keeps ok (atry m).
Proof. intros Hm s l. apply awp_try. by apply keeps_use. Qed.
Lemma keeps_with_err {A} f (m : act S A) : keeps ok m → keeps ok (awith_err f m).
Proof. intros Hm s l. apply awp_with_err. by apply keeps_use. Qed.
Lemma keeps_ret {A} (a : A) : keeps ok (aret (S := S) a).
Proof. by intros s l. Qed.
Lemma keeps_fail {A} e : keeps ok (afail (S := S) (A := A) e).
Proof. by intros s l. Qed.
Lemma keeps_lift {A} (r : result A) : keeps ok (alift (S := S) r).
Proof. by intros s l. Qed.
Lemma keeps_gets {A} (f : S → A) : keeps ok (agets f).
Proof. by intros s l. Qed.
Lemma keeps_ask {X} (e : hostE X) : (∀ l, ok X e l) → keeps ok (ask (S := S) e).
Proof. intros He s l. apply awp_ask; [apply He|done]. Qed.
Lemma keeps_call {X} (e : hostE (result X)) : (∀ l, ok _ e l) → keeps ok (call (S := S) e).
Proof. intros He s l. apply awp_call; [apply He|done]. Qed.
Lemma keeps_map {A B} (f : A → act S B) (xs : list A) : (∀ x, keeps ok (f x)) → keeps ok (amap f xs).
Proof.
  intros Hf. induction xs as [|x xs IH]; cbn [amap]; [apply keeps_ret|].
  apply keeps_bind; [apply Hf|intros y]. apply keeps_bind; [apply IH|intros ys]. apply keeps_ret.
Qed.
End keeps.

(** Split an action; the events are left, as allowed after any log. *)
Ltac keeps_step :=
  lazymatch goal with
  | |- keeps _ (abind _ _) => apply keeps_bind; [|intros ?]
  | |- keeps _ (atry _) => apply keeps_try
  | |- keeps _ (awith_err _ _) => apply keeps_with_err
  | |- keeps _ (aret _) => apply keeps_ret
  | |- keeps _ (afail _) => apply keeps_fail
  | |- keeps _ (alift _) => apply keeps_lift
  | |- keeps _ (agets _) => apply keeps_gets
  | |- keeps _ (amap _ _) => apply keeps_map; intros ?
  | |- keeps _ (ask _) => apply keeps_ask; intros ?
  | |- keeps _ (call _) => apply keeps_call; intros ?
  | |- keeps _ (match ?x with _ => _ end) => destruct x
  | |- keeps _ (if ?x then _ else _) => destruct x
  end; cbn beta iota.

Create HintDb keeps.

(** An action that keeps the state under no policy in particular. *)
Ltac keeps_auto :=
  repeat first [ progress (cbn beta iota zeta) | solve [auto 1 with keeps nocore] | keeps_step
               | solve [auto] | exact I ].

(** A host where health probes find [h] and all else goes well; nothing is
    mounted when a request asks. *)
Definition exampleHost (h : healthResult) (X : Type) (e : hostE X) : log → X :=
  match e in hostE Y return log → Y with
  | Stat _ => λ _, Ok true
  | Lstat _ | MkdirAll _ | Remove _ | RemoveAll _ | Rename _ _ => λ _, Ok tt
  | ReadDir _ => λ _, Ok []
  | ReadFile _ | Readlink _ => λ _, Ok ""
  | OpenFile _ => λ _, Ok tt
  | ScanFile _ => λ _, ("", None)
  | CreateTemp dir pattern => λ _, Ok (dir +:+ "/" +:+ pattern)
  | WriteTemp _ _ | CloseTemp _ => λ _, Ok tt
  | PodVolumeMounts _ _ _ => λ _, Ok []
  | Statfs _ => λ _, Ok {| Bsize := 4096; Blocks := 1000; Bfree := 400; Bavail := 300; Files := 50; Ffree := 20 |}
  | InTime _ => λ _, None
  | ProcessExited => λ _, false
  | DialUnix _ | TryLockCaches => λ _, true
  | IsMountPoint _ => λ _, Ok false
  | IsLikelyNotMountPoint _ => λ _, Ok true
  | Umount _ | LazyUmount _ | Bind _ _ _ | CleanupMountPoint _ => λ _, Ok tt
  | HealthProbe _ | Getpid => λ _, 0%Z
  | StatfsProbe _ => λ _, None
  | AwaitHealth _ => λ _, Some h
  | AwaitStatfs _ | StatfsWithin _ => λ _, Some None
  | ResetProbes _ | UnlockCaches | LockThread | UnlockThread => λ _, tt
  | Now => λ _, 0%Z
  | NewUnmounter _ | SvcMount _ | SvcUnmount _ | Configure _ _ => λ _, Ok tt
  | LoadVac _ | NodeLabels _ => λ _, Ok ∅
  | Capacity _ => λ _, Ok 1073741824%Z
  | UnshareFS | OpenTree _ | OpenOwnNS | OpenNS _ | Setns _ | NsUmount _ | NsMoveMount _
  | NsReadOnly _ | RestoreNS => λ _, Ok tt
  end.

