(* ===== verification/Serial.v ===== *)
(** * Serialization of actions under per-key locks

    Actions over a store of keyed entries run beside each other, each with the
    lock of its key held, their events and their reads and updates of the shared
    store interleaved. If every action reads and updates only the entry of its
    key, the execution is one that runs the actions one after the other. *)

From S2P Require Import Prelude GoLib Params Driver MountArgs Host.

(** ** Actions on one key *)
Section local.
Context {V : Type}.
#[local] Abbreviation store := (gmap string V).

(** What [m] reads and updates of the store is at key [v]. *)
Fixpoint local (v : string) {A} (m : act store A) : Prop :=
  match m with
  | Done _ => True
  | Event _ k => ∀ x, local v (k x)
  | Read f k => (∀ s1 s2 : store, s1 !! v = s2 !! v → f s1 = f s2) ∧ ∀ x, local v (k x)
  | Update f m' => (∃ g, ∀ s : store, f s = partial_alter g v s) ∧ local v m'
  end.

Lemma local_bind v {A B} (m : act store A) (k : A → act store B) :
  local v m → (∀ a, local v (k a)) → local v (abind m k).
Proof.
  intros Hm Hk. induction m as [[a|e]|X e k' IH|X f k' IH|f m' IH]; cbn in *; [done|done|auto|..].
  - destruct Hm as [Hf Hm]. auto.
  - destruct Hm as [Hf Hm]. auto.
Qed.
Lemma local_outcome v {A B} (f : result A → result B) (m : act store A) :
  local v m → local v (aoutcome f m).
Proof. induction m; cbn; naive_solver. Qed.
Lemma local_try v {A} (m : act store A) : local v m → local v (atry m).
Proof. apply local_outcome. Qed.
Lemma local_with_err v {A} f (m : act store A) : local v m → local v (awith_err f m).
Proof. apply local_outcome. Qed.
Lemma local_ret v {A} (a : A) : local v (aret a).
Proof. done. Qed.
Lemma local_fail v {A} e : local v (afail (A := A) e).
Proof. done. Qed.
Lemma local_lift v {A} (r : result A) : local v (alift r).
Proof. done. Qed.
Lemma local_ask v {X} (e : hostE X) : local v (ask e).
Proof. done. Qed.
Lemma local_call v {X} (e : hostE (result X)) : local v (call e).
Proof. done. Qed.
Lemma local_lookup v : local v (agets (λ s : store, s !! v)).
Proof. done. Qed.
Lemma local_insert v x : local v (amodify (λ s : store, <[v := x]> s)).
Proof. split; [|done]. by exists (λ _, Some x). Qed.
Lemma local_delete v : local v (amodify (λ s : store, delete v s)).
Proof. split; [|done]. by exists (λ _, None). Qed.
Lemma local_map v {A B} (f : A → act store B) (xs : list A) :
  (∀ x, local v (f x)) → local v (amap f xs).
Proof.
  intros Hf. induction xs as [|x xs IH]; [done|]. apply local_bind; [done|]. intros y.
  by apply local_bind.
Qed.
End local.

(** Split an action that is local; the lemmas of actions are hints of [local]. *)
(** What is at every key is at none. *)
Lemma untouched_read {V X} (f : gmap string V → X) s s' :
  (∀ v (s1 s2 : gmap string V), s1 !! v = s2 !! v → f s1 = f s2) → f s = f s'.
Proof.
  intros Hf. transitivity (f (partial_alter (λ _, s' !! "1") "1" s)).
  - apply (Hf "0"). by rewrite lookup_partial_alter_ne.
  - apply (Hf "1"). by rewrite lookup_partial_alter_eq.
Qed.

Create HintDb local.

Ltac local_step :=
  lazymatch goal with
  | |- local _ (abind _ _) => apply local_bind; [|intros ?]
  | |- local _ (atry _) => apply local_try
  | |- local _ (awith_err _ _) => apply local_with_err
  | |- local _ (aret _) => apply local_ret
  | |- local _ (afail _) => apply local_fail
  | |- local _ (alift _) => apply local_lift
  | |- local _ (ask _) => apply local_ask
  | |- local _ (call _) => apply local_call
  | |- local _ (agets (λ s, s !! _)) => apply local_lookup
  | |- local _ (amodify (λ s, <[_ := _]> s)) => apply local_insert
  | |- local _ (amodify (delete _)) => apply local_delete
  | |- local _ (amap _ _) => apply local_map; intros ?
  | |- local _ (match ?x with _ => _ end) => destruct x
  | |- local _ (if ?x then _ else _) => destruct x
  end; cbn beta iota.

Ltac head_of t := lazymatch t with ?f _ => head_of f | _ => t end.
Ltac local_unfold :=
  lazymatch goal with |- local _ ?m => let h := head_of m in unfold h end; cbn beta iota zeta.

Ltac local_auto :=
  repeat first [ progress (cbn beta iota zeta) | solve [auto 1 with local nocore] | local_step | local_unfold ].

(** ** Executing an action step by step *)
Section steps.
Context {S A : Type}.

(** From an action on a state, with the events on the way, to what is left. *)
Inductive asteps : act S A → S → log → act S A → S → Prop :=
  | asteps_refl m s : asteps m s [] m s
  | asteps_event X (e : hostE X) k x s t m' s' :
      asteps (k x) s t m' s' → asteps (Event e k) s (Obs e x :: t) m' s'
  | asteps_read X (f : S → X) k s t m' s' :
      asteps (k (f s)) s t m' s' → asteps (Read f k) s t m' s'
  | asteps_update f m s t m' s' :
      asteps m (f s) t m' s' → asteps (Update f m) s t m' s'.

Lemma asteps_trans m1 s1 t1 m2 s2 t2 m3 s3 :
  asteps m1 s1 t1 m2 s2 → asteps m2 s2 t2 m3 s3 → asteps m1 s1 (t1 ++ t2) m3 s3.
Proof. induction 1; cbn; intros H2; [done|constructor; auto..]. Qed.

(** What holds of an action on every host holds of its execution. *)
Lemma asteps_awp ok m s l t r s' (Q : result A → S → log → Prop) :
  awp ok m Q s l → asteps m s t (Done r) s' → Q r s' (l ++ t).
Proof.
  intros Hm Hs. remember (Done r) as m' eqn:Hm'. revert l Hm.
  induction Hs as [m s|X e k x s t m' s' Hs IH|X f k s t m' s' Hs IH|f m s t m' s' Hs IH];
    intros l Hm; simplify_eq.
  - by rewrite app_nil_r.
  - destruct Hm as [_ Hm]. specialize (IH eq_refl _ (Hm x)). by rewrite <- app_assoc in IH.
  - by apply IH.
  - by apply IH.
Qed.
End steps.

(** On every host an action is executed. *)
Lemma awp_execution {S A} (m : act S A) s l :
  awp anything m (λ r s' l', ∃ t, l' = l ++ t ∧ asteps m s t (Done r) s') s l.
Proof.
  revert s l. induction m as [r|X e k IH|X f k IH|f m IH]; intros s l; cbn.
  - exists []. rewrite app_nil_r. split; [done|constructor].
  - split; [done|]. intros x. eapply wpp_mono; [apply IH|]. intros [r s'] l' (t & -> & Ht).
    exists (Obs e x :: t). rewrite <- app_assoc. split; [done|by constructor].
  - eapply wpp_mono; [apply (IH (f s))|]. intros [r s'] l' (t & -> & Ht). exists t. split; [done|by constructor].
  - eapply wpp_mono; [apply (IH (f s))|]. intros [r s'] l' (t & -> & Ht). exists t. split; [done|by constructor].
Qed.

(** A run on a host is an execution. *)
Lemma run_asteps {S A} (host : ∀ X, hostE X → log → X) (m : act S A) s l :
  ∃ t, asteps m s t (Done (run host (m s) l).1.1) (run host (m s) l).1.2.
Proof.
  revert s l. induction m as [r|X e k IH|X f k IH|f m IH]; intros s l; cbn.
  - exists []. constructor.
  - destruct (IH (host X e l) s (l ++ [Obs e (host X e l)])) as [t Ht]. eexists. constructor. exact Ht.
  - destruct (IH (f s) s l) as [t Ht]. exists t. by constructor.
  - destruct (IH (f s) l) as [t Ht]. exists t. by constructor.
Qed.

(** ** Tasks beside each other *)
Section tasks.
Context {V A T : Type} (key : T → string) (code : T → act (gmap string V) A).
#[local] Abbreviation store := (gmap string V).
Implicit Types s σ : store.

(** A task at work: what is left of it, and its events so far. *)
Record running := Running { r_task : T; r_left : act store A; r_trace : log }.
(** A task that released. *)
Record finished := Finished { f_task : T; f_trace : log; f_result : result A }.

Record pool := Pool {
  shared : store;
  tasks : gmap nat running;
  released : list finished;   (** in the order in which they released their locks *)
}.

Definition busy (p : pool) (v : string) : Prop := ∃ i r, tasks p !! i = Some r ∧ key (r_task r) = v.

Definition with_task (p : pool) (i : nat) (r : running) : pool :=
  Pool (shared p) (<[i := r]> (tasks p)) (released p).

(** A task starts with the lock of its key, or one that is at work makes a step. *)
Inductive pool_step : pool → pool → Prop :=
  | p_enter p i c :
      tasks p !! i = None → ¬ busy p (key c) →
      pool_step p (with_task p i (Running c (code c) []))
  | p_event p i c X (e : hostE X) k x t :
      tasks p !! i = Some (Running c (Event e k) t) →
      pool_step p (with_task p i (Running c (k x) (t ++ [Obs e x])))
  | p_read p i c X (f : store → X) k t :
      tasks p !! i = Some (Running c (Read f k) t) →
      pool_step p (with_task p i (Running c (k (f (shared p))) t))
  | p_update p i c f m t :
      tasks p !! i = Some (Running c (Update f m) t) →
      pool_step p (Pool (f (shared p)) (<[i := Running c m t]> (tasks p)) (released p))
  | p_leave p i c r t :
      tasks p !! i = Some (Running c (Done r) t) →
      pool_step p (Pool (shared p) (delete i (tasks p)) (released p ++ [Finished c t r])).

Definition start (s : store) : pool := Pool s ∅ [].

(** Without a task that starts, those at work after a step were before. *)
Lemma pool_step_task p p' i r :
  pool_step p p' → dom (tasks p') ⊆ dom (tasks p) → tasks p' !! i = Some r →
  ∃ r', tasks p !! i = Some r' ∧ r_task r' = r_task r.
Proof.
  intros Hs Hdom. destruct Hs as [p j c Hj Hc|p j c X e k x t Hj|p j c X f k t Hj|p j c f m t Hj|p j c r0 t Hj]; cbn in *.
  - exfalso. assert (j ∈ dom (tasks p)) as H by (apply Hdom; set_solver). by apply elem_of_dom in H as [? H]; rewrite Hj in H.
  - intros [[<- <-]|[_ H]]%lookup_insert_Some; eauto.
  - intros [[<- <-]|[_ H]]%lookup_insert_Some; eauto.
  - intros [[<- <-]|[_ H]]%lookup_insert_Some; eauto.
  - intros [_ H]%lookup_delete_Some. eauto.
Qed.

Lemma start_step s p : pool_step (start s) p → ∃ i c, p = with_task (start s) i (Running c (code c) []).
Proof. remember (start s) as p0 eqn:E. intros Hs. destruct Hs as [p i c|p i ???????? Hi|p i ??????? Hi|p i ???? Hi|p i ??? Hi]; subst; [eauto|done..]. Qed.

(** An executable scheduler: [inl (i, c)] lets a task begin if its lock is free,
    [inr i] lets a task at work make a step, its events answered by [host]. *)
Definition busyb (p : pool) (v : string) : bool :=
  existsb (λ '(_, r), String.eqb (key (r_task r)) v) (map_to_list (tasks p)).

Definition advance (host : ∀ X, hostE X → log → X) (p : pool) (i : nat) : pool :=
  match tasks p !! i with
  | None => p
  | Some (Running c (Done r) t) =>
      Pool (shared p) (delete i (tasks p)) (released p ++ [Finished c t r])
  | Some (Running c (Event e k) t) =>
      let x := host _ e t in with_task p i (Running c (k x) (t ++ [Obs e x]))
  | Some (Running c (Read f k) t) => with_task p i (Running c (k (f (shared p))) t)
  | Some (Running c (Update f m) t) =>
      Pool (f (shared p)) (<[i := Running c m t]> (tasks p)) (released p)
  end.

Definition enter (p : pool) (i : nat) (c : T) : pool :=
  if bool_decide (tasks p !! i = None) && negb (busyb p (key c))
  then with_task p i (Running c (code c) []) else p.

Fixpoint schedule (host : ∀ X, hostE X → log → X) (p : pool) (ls : list ((nat * T) + nat)) : pool :=
  match ls with
  | [] => p
  | inl (i, c) :: ls => schedule host (enter p i c) ls
  | inr i :: ls => schedule host (advance host p i) ls
  end.

Lemma busyb_spec p v : busy p v → busyb p v = true.
Proof.
  intros (i & r & Hi & Hr). unfold busyb. apply existsb_exists. exists (i, r).
  rewrite <- list_elem_of_In, elem_of_map_to_list. split; [done|]. by apply String.eqb_eq.
Qed.

Lemma advance_steps host p i : rtc pool_step p (advance host p i).
Proof.
  unfold advance. destruct (tasks p !! i) as [[c [r|X e k|X f k|f m] t]|] eqn:Hi; [..|done];
    apply rtc_once; by econstructor.
Qed.

Lemma advance_step host p i : advance host p i = p ∨
  pool_step p (advance host p i) ∧ dom (tasks (advance host p i)) ⊆ dom (tasks p).
Proof.
  unfold advance. destruct (tasks p !! i) as [[c [r|X e k|X f k|f m] t]|] eqn:Hi; [right..|by left];
    (split; [by econstructor|]); apply elem_of_dom_2 in Hi; set_solver.
Qed.

Lemma enter_steps p i c : rtc pool_step p (enter p i c).
Proof.
  unfold enter. case_bool_decide as Hi; [|done]. destruct (busyb p (key c)) eqn:Hb; [done|].
  apply rtc_once. constructor; [done|]. intros H%busyb_spec. congruence.
Qed.

Lemma schedule_steps host p ls : rtc pool_step p (schedule host p ls).
Proof.
  revert p. induction ls as [|[[i c]|i] ls IH]; intros p; cbn [schedule]; [done|..].
  - etrans; [apply enter_steps|apply IH].
  - etrans; [apply advance_steps|apply IH].
Qed.

(** ** The same tasks one after the other *)
Inductive serial : store → list finished → store → Prop :=
  | serial_nil s : serial s [] s
  | serial_snoc s fs σ c t r s' :
      serial s fs σ → asteps (code c) σ t (Done r) s' → serial s (fs ++ [Finished c t r]) s'.

Context (code_local : ∀ c, local (key c) (code c)).

(** What is left of a local action is local; it changes its key only. *)
Lemma asteps_local v (m m' : act store A) s t s' :
  local v m → asteps m s t m' s' → local v m' ∧ ∀ u, u ≠ v → s' !! u = s !! u.
Proof.
  intros Hm Hs. revert Hm.
  induction Hs as [m s|X e k x s t m' s' Hs IH|X f k s t m' s' Hs IH|f m s t m' s' Hs IH]; cbn.
  - done.
  - auto.
  - intros [_ Hm]. auto.
  - intros [[g Hg] Hm]. destruct (IH Hm) as [H1 H2]. split; [done|]. intros u Hu.
    rewrite H2, Hg by done. by apply lookup_partial_alter_ne.
Qed.

(** On another store with the same entry at its key it runs the same way. *)
Lemma asteps_rebase v (m m' : act store A) s t s' σ :
  local v m → asteps m s t m' s' → σ !! v = s !! v →
  ∃ σ', asteps m σ t m' σ' ∧ σ' !! v = s' !! v.
Proof.
  intros Hm Hs. revert σ Hm.
  induction Hs as [m s|X e k x s t m' s' Hs IH|X f k s t m' s' Hs IH|f m s t m' s' Hs IH];
    cbn; intros σ Hm Hσ.
  - exists σ. by split; [constructor|].
  - destruct (IH σ (Hm x) Hσ) as (σ' & ? & ?). exists σ'. by split; [constructor|].
  - destruct Hm as [Hf Hm]. destruct (IH σ (Hm _) Hσ) as (σ' & ? & ?). exists σ'. split; [|done].
    constructor. by rewrite (Hf _ _ Hσ).
  - destruct Hm as [[g Hg] Hm]. destruct (IH (f σ) Hm) as (σ' & ? & ?).
    { by rewrite !Hg, !lookup_partial_alter_eq, Hσ. }
    exists σ'. by split; [constructor|].
Qed.

(** ** The simulation *)

(** The tasks that released have run one after the other, to a store [σ]; each task at
    work has run from [σ] as far as it has come, by itself. *)
Record PInv (s0 : store) (p : pool) (σ : store) : Prop := {
  p_serial : serial s0 (released p) σ;
  p_running i r : tasks p !! i = Some r →
    ∃ σi, asteps (code (r_task r)) σ (r_trace r) (r_left r) σi ∧
      σi !! key (r_task r) = shared p !! key (r_task r);
  p_locks i j r r' : tasks p !! i = Some r → tasks p !! j = Some r' →
    key (r_task r) = key (r_task r') → i = j;
  p_idle u : ¬ busy p u → shared p !! u = σ !! u;
}.

Lemma pool_start_inv s : PInv s (start s) s.
Proof. split; [constructor|done..]. Qed.

Lemma busy_with_task p i r s' u :
  tasks p !! i = Some r → busy (Pool s' (<[i := r]> (tasks p)) (released p)) u ↔ busy p u.
Proof. intros Hi. unfold busy. cbn. by rewrite insert_id. Qed.

(** One step of a task at work. *)
Lemma task_step_inv s0 p σ i c m t m' t' s' :
  PInv s0 p σ → tasks p !! i = Some (Running c m t) →
  (∀ u, u ≠ key c → s' !! u = shared p !! u) →
  (∀ σi, asteps (code c) σ t m σi → σi !! key c = shared p !! key c →
     ∃ σi', asteps m σi t' m' σi' ∧ σi' !! key c = s' !! key c) →
  PInv s0 (Pool s' (<[i := Running c m' (t ++ t')]> (tasks p)) (released p)) σ.
Proof.
  intros [H1 H2 H3 H4] Hi Hs' Hstep.
  assert (∀ j r, j ≠ i → tasks p !! j = Some r → key (r_task r) ≠ key c) as Hne.
  { intros j r Hj Hr Heq. by apply Hj, (H3 j i r (Running c m t)). }
  assert (∀ u, busy (Pool s' (<[i := Running c m' (t ++ t')]> (tasks p)) (released p)) u ↔ busy p u) as Hbusy.
  { intros u. unfold busy. cbn. split.
    - intros (j & r & Hj & Hr). apply lookup_insert_Some in Hj as [[<- <-]|[_ Hj]]; eauto.
    - intros (j & r & Hj & Hr). destruct (decide (j = i)) as [->|Hji].
      + exists i. eexists. rewrite lookup_insert_eq. split; [done|]. by simplify_eq.
      + exists j, r. by rewrite lookup_insert_ne. }
  split; cbn.
  - done.
  - intros j r Hj. apply lookup_insert_Some in Hj as [[<- <-]|[Hj Hr]]; cbn.
    + destruct (H2 i _ Hi) as (σi & Hσi & Heq). destruct (Hstep σi Hσi Heq) as (σi' & Hm & Heq').
      exists σi'. split; [|done]. by eapply asteps_trans.
    + destruct (H2 j r Hr) as (σj & Hσj & Heq). exists σj. split; [done|].
      rewrite Hs'; [done|]. by apply (Hne j).
  - intros j k r r' Hj Hk Hkey.
    apply lookup_insert_Some in Hj as [[<- <-]|[Hj Hr]], Hk as [[<- <-]|[Hk Hr']]; cbn in *;
      [done|exfalso; by eapply (Hne k)|exfalso; by eapply (Hne j)|by eapply H3].
  - intros u Hu. rewrite Hbusy in Hu. rewrite Hs', H4; [done|done|]. intros ->. apply Hu. by exists i, (Running c m t).
Qed.

Lemma task_enter_inv s0 p σ i c :
  PInv s0 p σ → tasks p !! i = None → ¬ busy p (key c) →
  PInv s0 (with_task p i (Running c (code c) [])) σ.
Proof.
  intros [H1 H2 H3 H4] Hi Hc. split; cbn.
  - done.
  - intros j r Hj. apply lookup_insert_Some in Hj as [[<- <-]|[Hj Hr]]; [|by apply H2 in Hr].
    exists σ. split; [constructor|]. cbn. symmetry. by apply H4.
  - intros j k r r' Hj Hk Hkey.
    apply lookup_insert_Some in Hj as [[<- <-]|[Hj Hr]], Hk as [[<- <-]|[Hk Hr']]; cbn in *.
    + done.
    + destruct Hc. by exists k, r'.
    + destruct Hc. by exists j, r.
    + by eapply H3.
  - intros u Hu. apply H4. intros (j & r & Hj & Hr). apply Hu. exists j, r. split; [|done]. cbn.
    rewrite lookup_insert_ne; [done|]. intros <-. by rewrite Hi in Hj.
Qed.

Lemma task_leave_inv s0 p σ i c r t :
  PInv s0 p σ → tasks p !! i = Some (Running c (Done r) t) →
  ∃ σ', PInv s0 (Pool (shared p) (delete i (tasks p)) (released p ++ [Finished c t r])) σ'.
Proof.
  intros [H1 H2 H3 H4] Hi. destruct (H2 i _ Hi) as (σ' & Hσ' & Heq). cbn in *.
  destruct (asteps_local (key c) _ _ _ _ _ (code_local c) Hσ') as [_ Hframe].
  assert (∀ j r', j ≠ i → tasks p !! j = Some r' → key (r_task r') ≠ key c) as Hne.
  { intros j r' Hj Hr Hk. by apply Hj, (H3 j i r' (Running c (Done r) t)). }
  exists σ'. split; cbn.
  - by econstructor.
  - intros j r' Hj. apply lookup_delete_Some in Hj as [Hj Hr]. pose proof (Hne j r' ltac:(done) Hr) as Hk.
    destruct (H2 j r' Hr) as (σj & Hσj & Heqj).
    destruct (asteps_rebase (key (r_task r')) _ _ _ _ _ σ' (code_local _) Hσj) as (σj' & ? & ?).
    { by apply Hframe. }
    exists σj'. split; [done|]. congruence.
  - intros j k r1 r2 Hj Hk. apply lookup_delete_Some in Hj as [_ Hj], Hk as [_ Hk]. by eapply H3.
  - intros u Hu. destruct (decide (u = key c)) as [->|Huc]; [done|]. rewrite Hframe by done. apply H4.
    intros (j & r' & Hj & Hr). apply Hu. exists j, r'. split; [|done]. cbn.
    rewrite lookup_delete_ne; [done|]. intros <-. simplify_eq.
Qed.

Lemma pool_step_inv s0 p p' σ : PInv s0 p σ → pool_step p p' → ∃ σ', PInv s0 p' σ'.
Proof.
  intros Hp Hs. destruct Hs as [p i c Hi Hc|p i c X e k x t Hi|p i c X f k t Hi|p i c f m t Hi|p i c r t Hi].
  - exists σ. by apply task_enter_inv.
  - exists σ. apply (task_step_inv _ _ _ _ _ _ _ _ [Obs e x] _ Hp Hi); [done|].
    intros σi _ Heq. exists σi. split; [repeat constructor|done].
  - exists σ. rewrite <- (app_nil_r t).
    apply (task_step_inv _ _ _ _ _ _ _ _ [] _ Hp Hi); [done|]. intros σi Hσi Heq. exists σi. split; [|done].
    apply asteps_local with (v := key c) in Hσi as [[Hf _] _]; [|by apply code_local].
    rewrite <- (Hf σi (shared p) Heq). repeat constructor.
  - exists σ. rewrite <- (app_nil_r t).
    destruct (p_running _ _ _ Hp i _ Hi) as (σ0 & Hσ0 & _).
    apply asteps_local with (v := key c) in Hσ0 as [[[g Hg] _] _]; [|by apply code_local].
    apply (task_step_inv _ _ _ _ _ _ _ _ [] _ Hp Hi).
    + intros u Hu. rewrite Hg. by apply lookup_partial_alter_ne.
    + intros σi _ Heq. exists (f σi). split; [repeat constructor|]. by rewrite !Hg, !lookup_partial_alter_eq, Heq.
  - by eapply task_leave_inv.
Qed.

Lemma psteps_inv s0 p : rtc pool_step (start s0) p → ∃ σ, PInv s0 p σ.
Proof.
  revert p. apply rtc_ind_r; [by exists s0; apply pool_start_inv|].
  intros p1 p2 _ Hs [σ Hσ]. by eapply pool_step_inv.
Qed.

(** When all tasks have released, they have run one after the other. *)
Lemma serializable s0 p : rtc pool_step (start s0) p → tasks p = ∅ → serial s0 (released p) (shared p).
Proof.
  intros Hr Hp. destruct (psteps_inv s0 p Hr) as [σ [H1 _ _ H4]].
  assert (shared p = σ) as ->; [|done]. apply map_eq. intros u. apply H4.
  intros (i & r & Hi & _). by rewrite Hp in Hi.
Qed.
End tasks.
