(* ===== verification/MountUtil.v ===== *)
(** * Mount helpers of the node plugin

    Models [pkg/driver/mount_util.go], [mount_util_linux.go] and
    [unpublish_quarantine.go]. [mount.IsCorruptedMnt] of mount-utils is a
    parameter. *)

From S2P Require Import Prelude GoLib Params Driver Host.
#[local] Open Scope go_scope.

(** [mount.IsCorruptedMnt] on a non-nil error. *)
Class MountUtils := { IsCorruptedMnt : error → bool }.

(** An instance for examples: no error stands for a corrupted mount. *)
Definition demo_utils : MountUtils := {| IsCorruptedMnt := λ _, false |}.
Section util.
Context {MU : MountUtils} {S : Type}.

Definition isCorruptedMount (err : option error) : bool := from_option IsCorruptedMnt false err.

Definition resetStatfsProbe (path : string) : act S unit := ask (ResetProbes path).

(** [probeStatfs]: [None] is a timed-out probe. *)
Definition probeStatfs (path : string) : act S (option (option error)) := ask (AwaitStatfs path).

Definition statfsProbeUnanswered (path : string) : act S Z :=
  do! p := ask (StatfsProbe path) in
  match p with
  | None => aret 0%Z
  | Some start => do! now := ask Now in aret (now - start)%Z
  end.

Definition lazyUnmount (path : string) : act S unit := call (LazyUmount path).

Definition detachDeadMountPoint (path : string) : act S unit :=
  do! r := atry (lazyUnmount path) in
  match r with
  | Err (SysErr EINVAL _) | Err (SysErr ENOENT _) => aret tt
  | Err e => afail e
  | Ok _ => aret tt
  end.

Definition stagingPathHealth (stagingPath : string) : act S healthResult :=
  do! info := atry (call (Stat stagingPath)) in
  match info with
  | Err _ => aret healthDead
  | Ok isDir =>
      if negb isDir then aret healthDead
      else
        do! isMnt := atry (call (IsMountPoint stagingPath)) in
        match isMnt with
        | Err _ | Ok false => aret healthDead
        | Ok true =>
            do! probe := probeStatfs stagingPath in
            match probe with
            | None => aret healthSlow
            | Some statfsErr => aret (if isCorruptedMount statfsErr then healthDead else healthOK)
            end
        end
  end.

Definition isStagingPathHealthy (stagingPath : string) : act S bool :=
  do! r := stagingPathHealth stagingPath in aret (bool_decide (r = healthOK)).

(** [os.Remove] where a missing path is fine. *)
Definition removeIfExists (path : string) : act S unit :=
  do! r := atry (call (Remove path)) in
  match r with
  | Err e => if is_not_exist e then aret tt else afail e
  | Ok _ => aret tt
  end.

Definition cleanupCorruptedStagingPath (stagingPath : string) : act S unit :=
  do! r := atry (call (CleanupMountPoint stagingPath)) in
  match r with
  | Err err =>
      awith_err (λ lazyErr, Errorf ("cleanup corrupted mount " +:+ stagingPath +:+ ": cleanup "
                   +:+ err_msg err +:+ ", lazy unmount " +:+ err_msg lazyErr))
        (lazyUnmount stagingPath) ;;>
      removeIfExists stagingPath ;;>
      resetStatfsProbe stagingPath
  | Ok _ => resetStatfsProbe stagingPath
  end.

Definition cleanupStaleStagingPath (stagingPath : string) : act S unit :=
  do! unmountErr := atry (call (Umount stagingPath)) in
  do! st := atry (call (Lstat stagingPath)) in
  match st with
  | Err statErr =>
      if is_not_exist statErr then resetStatfsProbe stagingPath
      else if IsCorruptedMnt statErr then cleanupCorruptedStagingPath stagingPath
      else afail statErr
  | Ok _ =>
      do! isMnt := atry (call (IsMountPoint stagingPath)) in
      match isMnt with
      | Err mntErr =>
          if IsCorruptedMnt mntErr then cleanupCorruptedStagingPath stagingPath
          else afail (Errorf ("check mount point " +:+ stagingPath +:+ " after unmount: "
                              +:+ err_msg mntErr))
      | Ok true =>
          afail (Errorf ("refuse to remove staging path " +:+ stagingPath
            +:+ ": still a mount point after unmount (unmount err: "
            +:+ match unmountErr with Err e => err_msg e | Ok _ => "<nil>" end
            +:+ "); not deleting through a live FUSE"))
      | Ok false => removeIfExists stagingPath ;;> resetStatfsProbe stagingPath
      end
  end.

(** [checkMount]; the error of the second [IsMountPoint] is dropped. *)
Definition checkMount (targetPath : string) : act S bool :=
  do! isMnt := atry (call (IsMountPoint targetPath)) in
  match isMnt with
  | Ok b => aret b
  | Err err =>
      if is_not_exist err then call (MkdirAll targetPath) ;;> aret false
      else if IsCorruptedMnt err then
        call (Umount targetPath) ;;>
        resetStatfsProbe targetPath ;;>
        do! again := atry (call (IsMountPoint targetPath)) in
        aret (match again with Ok b => b | Err _ => false end)
      else afail err
  end.

Definition defaultBindMount (source target : string) (readOnly : bool) : act S unit :=
  call (Bind source target readOnly).

Definition unmountVolume (path : string) : act S unit := call (Umount path).

Definition cleanupMountPoint (path : string) : act S unit := call (CleanupMountPoint path).

Definition isPathMounted (path : string) : act S bool :=
  do! notMnt := call (IsLikelyNotMountPoint path) in aret (negb notMnt).

(** [isDeadMount]; a zero [hungAfter] disables the second test. *)
Definition isDeadMount (path : string) (hungAfter : Z) : act S bool :=
  do! probe := probeStatfs path in
  match probe with
  | None =>
      do! unanswered := statfsProbeUnanswered path in
      aret ((0 <? hungAfter)%Z && (hungAfter <? unanswered)%Z)
  | Some err => aret (isCorruptedMount err)
  end.

(** ** Moving an unmounted publish target with files aside *)
Definition quarantineDirName : string := "seaweedfs-quarantine".

(** The name under which a target is kept: the pod's UID and the volume's. *)
Definition quarantine_name (rel : string) : string :=
  let parts := Strings.Split rel "/" in
  let name := Strings.Join (take 1 parts) "" in
  if 4 <=? length parts then name +:+ "-" +:+ default "" (parts !! 3) else name.

Definition quarantineStaleTarget (d : SeaweedFsDriver) (timestamp targetPath visiblePath : string)
    : act S string :=
  let root := KubeletRootDir d in
  let mount := KubeletRootMount d in
  if String.eqb root "" || String.eqb mount "" then aret ""
  else match Path.Rel (Path.JoinPath [root; "pods"]) targetPath with
  | None => aret ""
  | Some rel =>
      if String.eqb rel "." || Strings.HasPrefix rel ".." then aret ""
      else
        do! mounted := atry (isPathMounted visiblePath) in
        match mounted with
        | Err _ | Ok true => aret ""
        | Ok false =>
            do! entries := atry (call (ReadDir visiblePath)) in
            match entries with
            | Err _ | Ok [] => aret ""
            | Ok _ =>
                let dir := Path.JoinPath [mount; quarantineDirName] in
                do! made := atry (call (MkdirAll dir)) in
                match made with
                | Err _ => aret ""
                | Ok _ =>
                    let dest := Path.JoinPath [dir; timestamp +:+ "-" +:+ quarantine_name rel] in
                    do! moved := atry (call (Rename (Path.JoinPath [mount; "pods"; rel]) dest)) in
                    aret (if is_ok moved then dest else "")
                end
            end
        end
  end.

(** [unpublishTarget] with the cleanup of its caller. *)
Definition unpublishTarget (d : SeaweedFsDriver) (timestamp targetPath : string)
    (cleanup : string → act S unit) : act S unit :=
  do! r := atry (cleanup targetPath) in
  match r with
  | Ok _ => aret tt
  | Err err =>
      do! moved := quarantineStaleTarget d timestamp targetPath targetPath in
      if negb (String.eqb moved "") then resetStatfsProbe targetPath
      else afail err
  end.
End util.

(** ** Cleaning a stale staging path up is safe *)
Section cleanup.
Context {MU : MountUtils} {S : Type} (path : string).

(** [os.Remove] only right after the path was found not to be a mount point, or
    was lazily unmounted; nothing recursive; no other path. *)
Definition cleanup_allowed {X} (e : hostE X) (l : log) : Prop :=
  match e with
  | Umount p | LazyUmount p | CleanupMountPoint p => p = path
  | Remove p =>
      p = path ∧ (last l = Some (Obs (IsMountPoint path) (Ok false)) ∨
                  last l = Some (Obs (LazyUmount path) (Ok tt)))
  | Lstat _ | IsMountPoint _ | ResetProbes _ => True
  | _ => False
  end.

Definition is_missing {X} (r : result X) : bool :=
  match r with Err e => is_not_exist e | Ok _ => false end.

(** The host's word that nothing is left at the path. *)
Definition gone (l : log) : Prop :=
  Obs (CleanupMountPoint path) (Ok tt) ∈ l ∨
  (∃ r, Obs (Lstat path) r ∈ l ∧ is_missing r = true) ∨
  (∃ r, Obs (Remove path) r ∈ l ∧ (is_ok r = true ∨ is_missing r = true)).

Lemma last_after (l : log) o : last (l ++ [o]) = Some o.
Proof. by rewrite last_snoc. Qed.

Lemma elem_of_last (l : log) o : o ∈ l ++ [o].
Proof. apply elem_of_app. right. by left. Qed.

Lemma elem_of_grown (l k : log) o : o ∈ l → o ∈ l ++ k.
Proof. intros. apply elem_of_app. by left. Qed.
#[local] Hint Resolve elem_of_last elem_of_grown : core.

Lemma gone_grown l k : gone l → gone (l ++ k).
Proof.
  intros [H|[(r & H & Hr)|(r & H & Hr)]]; [left|right; left; exists r|right; right; exists r]; auto.
Qed.

Lemma removeIfExists_gone (s : S) l :
  (last l = Some (Obs (IsMountPoint path) (Ok false)) ∨ last l = Some (Obs (LazyUmount path) (Ok tt))) →
  awp (λ X, cleanup_allowed) (removeIfExists path) (λ r _ l', is_ok r = true → gone l') s l.
Proof.
  intros Hl. unfold removeIfExists. apply awp_bind, awp_try, awp_call; [done|].
  intros [[]|e]; [apply awp_ret|destruct (is_not_exist e) eqn:He; [apply awp_ret|by apply awp_fail]];
    intros _; right; right; eexists; (split; [apply elem_of_last|]); cbn; auto.
Qed.

(** Forgetting the probe of the path comes last. *)
Lemma then_reset_gone (m : act S unit) s l :
  awp (λ X, cleanup_allowed) m (λ r _ l', is_ok r = true → gone l') s l →
  awp (λ X, cleanup_allowed) (m ;;> resetStatfsProbe path) (λ r _ l', is_ok r = true → gone l') s l.
Proof.
  intros H. apply awp_bind. eapply awp_mono; [exact H|]. intros [[]|e] s' l' Hg; [|done].
  apply awp_ask; [done|]. intros x _. by apply gone_grown, Hg.
Qed.

Lemma reset_gone (s : S) l :
  gone l → awp (λ X, cleanup_allowed) (resetStatfsProbe path) (λ r _ l', is_ok r = true → gone l') s l.
Proof. intros Hg. apply awp_ask; [done|]. intros x _. by apply gone_grown. Qed.

Lemma cleanupCorruptedStagingPath_gone (s : S) l :
  awp (λ X, cleanup_allowed) (cleanupCorruptedStagingPath path) (λ r _ l', is_ok r = true → gone l') s l.
Proof.
  unfold cleanupCorruptedStagingPath, lazyUnmount. apply awp_bind, awp_try, awp_call; [done|].
  intros [[]|err]; [apply reset_gone; by left|].
  apply awp_bind, awp_with_err, awp_call; [done|]. intros [[]|e]; cbn [rmap_err]; [|done].
  apply then_reset_gone, removeIfExists_gone. right. apply last_after.
Qed.

(** C24. Whatever the host answers, [cleanupStaleStagingPath] never deletes
    recursively and never removes a path that may still be a mount, and when it
    reports success nothing is left at the path. *)
Theorem stale_cleanup_safe (s : S) (l : log) :
  awp (λ X, cleanup_allowed) (cleanupStaleStagingPath path) (λ r _ l', is_ok r = true → gone l') s l.
Proof.
  unfold cleanupStaleStagingPath.
  apply awp_bind, awp_try, awp_call; [done|]. intros unmountErr.
  apply awp_bind, awp_try, awp_call; [done|]. intros [[]|statErr].
  - apply awp_bind, awp_try, awp_call; [done|]. intros [[]|mntErr].
    + by apply awp_fail.
    + apply then_reset_gone, removeIfExists_gone. left. apply last_after.
    + destruct (IsCorruptedMnt mntErr); [apply cleanupCorruptedStagingPath_gone|by apply awp_fail].
  - destruct (is_not_exist statErr) eqn:He.
    + apply reset_gone. right. left. eexists. split; [apply elem_of_last|done].
    + destruct (IsCorruptedMnt statErr); [apply cleanupCorruptedStagingPath_gone|by apply awp_fail].
Qed.
End cleanup.
