(* ===== verification/Command.v ===== *)
(** * The driver's command line

    Models [cmd/seaweedfs-csi-driver/main.go]: from the flags to a configured
    driver, or the error the process exits with; and how [pkg/driver/server.go]
    turns the endpoint into the address it listens on. *)

From S2P Require Import Prelude GoLib Json Params Driver Controller MountFlags MountArgs Host MountUtil.
#[local] Open Scope go_scope.

(** ** Flags *)
Record Flags := {
  components : string;
  enableAttacher : bool;
  driverName : string;
  filer : string;
  f_endpoint : string;
  f_mountEndpoint : string;
  f_nodeID : string;
  concurrentWriters : Z;
  mountExtraArgs : string;
  concurrentReaders : Z;
  cacheCapacityMB : Z;
  writeBufferSizeMB : Z;
  cacheMetaTtlSec : Z;
  cacheDir : string;
  uidMap : string;
  gidMap : string;
  dataCenter : string;
  dataLocalityStr : string;
  stagingScanDir : string;
  kubeletRootDir : string;
  kubeletRootMount : string;
  topologyKeys : string;
}.

(** What the process finds around it: [pb.ServerAddresses.ToAddresses], the
    variable NODE_ID and the host's name. *)
Class Process := {
  to_addresses : string → list string;
  env_NODE_ID : string;
  Hostname : result string;
}.

Section main.
Context {P : Process} (f : Flags).

Definition convertRequiredValues : result (list string * DataLocality) :=
  try! parsedMountExtraArgs := rmap_err (λ e, Errorf ("invalid mountExtraArgs: " +:+ err_msg e))
    (Unmarshal (dec_list "" dec_string) None (mountExtraArgs f)) in
  let parsedMountExtraArgs := default [] parsedMountExtraArgs in
  ValidateMountArgs parsedMountExtraArgs ;;?
  try! dataLocality :=
    if String.eqb (dataLocalityStr f) "" then Ok DL_None
    else match FromString (dataLocalityStr f) with
         | Some dl => Ok dl
         | None => Err (Errorf "dataLocality invalid value")
         end in
  Ok (parsedMountExtraArgs, dataLocality).

Fixpoint enabled (cs : list string) (runNode runController : bool) : result (bool * bool) :=
  match cs with
  | [] => Ok (runNode, runController)
  | c :: cs =>
      if String.eqb c "controller" then enabled cs runNode true
      else if String.eqb c "node" then enabled cs true runController
      else Err (Errorf ("invalid component: " +:+ c))
  end.

(** The node ID, from the flag, the environment or the host. *)
Definition detectNodeID : string :=
  if negb (String.eqb (f_nodeID f) "") then f_nodeID f
  else if negb (String.eqb env_NODE_ID "") then env_NODE_ID
  else match Hostname with Ok hostname => hostname | Err _ => "" end.

Definition checkPreconditions (dataLocality : DataLocality) (runNode : bool) : result string :=
  CheckDataLocality dataLocality (dataCenter f) ;;?
  if runNode then
    guard_err (String.eqb detectNodeID "") (Errorf "driver requires node id to be set, use -nodeid=") ;;?
    Ok detectNodeID
  else Ok (f_nodeID f).

(** [drv] with its fields set. *)
Definition configure (drv : SeaweedFsDriver) (extra : list string) (dl : DataLocality)
    : SeaweedFsDriver := {|
  Driver.name := Driver.name drv; nodeID := nodeID drv; Driver.version := Driver.version drv;
  endpoint := endpoint drv; mountEndpoint := mountEndpoint drv; volumeSocketDir := volumeSocketDir drv;
  vcap := vcap drv; cscap := cscap drv; filers := filers drv; filerIndex := filerIndex drv;
  ConcurrentWriters := concurrentWriters f; ConcurrentReaders := concurrentReaders f;
  MountExtraArgs := extra; CacheCapacityMB := cacheCapacityMB f;
  WriteBufferSizeMB := writeBufferSizeMB f; CacheMetaTtlSec := cacheMetaTtlSec f;
  CacheDir := cacheDir f; UidMap := uidMap f; GidMap := gidMap f; DataCenter := dataCenter f;
  DataLocality_ := dl; TopologyKeys := ParseTopologyKeys (topologyKeys f);
  StagingScanDir := stagingScanDir f; KubeletRootDir := kubeletRootDir f;
  KubeletRootMount := kubeletRootMount f |}.

(** The driver that runs, and whether it runs as node and as controller. *)
Definition main : result (SeaweedFsDriver * bool * bool) :=
  try! (extra, dl) := rmap_err (λ e, Errorf ("Failed converting flag: " +:+ err_msg e)) convertRequiredValues in
  try! (runNode, runController) := enabled (Strings.Split (components f) ",") false false in
  guard_err (negb runNode && negb runController)
    (Errorf "at least one component should be enabled: either controller or node (use --components=...)") ;;?
  try! node := rmap_err (λ e, Errorf ("Precondition failed: " +:+ err_msg e)) (checkPreconditions dl runNode) in
  let drv := NewSeaweedFsDriver to_addresses (driverName f) (filer f) node (f_endpoint f)
               (f_mountEndpoint f) (enableAttacher f) in
  Ok (configure drv extra dl, runNode, runController).
End main.

(** ** The server's address *)
Section server.
Context {S : Type}.

(** The network and address [serve] listens on. *)
Definition listen_address (endpoint : string) : result (string * string) :=
  try! (proto, addr) := ParseEndpoint endpoint in
  Ok (proto, if String.eqb proto "unix" && negb (Strings.HasPrefix addr "/") && negb (Path.IsAbs addr)
             then "/" +:+ addr else addr).

Definition prepareUnixEndpoint (addr : string) : act S unit :=
  call (MkdirAll (Path.Dir addr)) ;;>
  do! r := atry (call (Remove addr)) in
  match r with
  | Err e => if is_not_exist e then aret tt else afail e
  | Ok _ => aret tt
  end.

(** [serve] up to [net.Listen]; an error ends the process. *)
Definition serve (endpoint : string) : act S (string * string) :=
  do! (proto, addr) := alift (listen_address endpoint) in
  (if String.eqb proto "unix" then
     awith_err (λ e, Errorf ("Failed to prepare endpoint " +:+ addr +:+ ": " +:+ err_msg e))
       (prepareUnixEndpoint addr)
   else aret tt) ;;>
  aret (proto, addr).
End server.

(** ** Properties *)

Lemma rmap_err_Ok {A} f (r : result A) a : rmap_err f r = Ok a → r = Ok a.
Proof. by destruct r. Qed.

Lemma enabled_flags cs n c rn rc :
  enabled cs n c = Ok (rn, rc) → Forall (λ x, x = "controller" ∨ x = "node") cs.
Proof.
  revert n c. induction cs as [|x cs IH]; intros n c; cbn [enabled]; [constructor|].
  destruct (String.eqb_spec x "controller") as [->|]; [|destruct (String.eqb_spec x "node") as [->|]; [|done]];
    intros H; constructor; eauto.
Qed.

(** What can go wrong with the data locality of a mount. *)
Lemma resolveLocality_Err m e :
  CheckDataLocality (DataLocality_ (m_driver m)) (DataCenter (m_driver m)) = Ok tt →
  resolveLocality m = Err e →
  get (m_volContext m) "dataLocality" ≠ "" ∧
  (FromString (get (m_volContext m) "dataLocality") = None ∨
   get (m_volContext m) "dataCenter" = "" ∧ DataCenter (m_driver m) = "").
Proof.
  intros Hd. unfold resolveLocality, CheckDataLocality in *. cbv zeta.
  apply guard_err_Ok in Hd. destruct (String.eqb_spec (get (m_volContext m) "dataLocality") "") as [_|Hne].
  - cbn [rbind]. intros He. exfalso.
    destruct (bool_decide (DataLocality_ (m_driver m) = DL_None)); [done|]. cbn [negb andb] in *.
    destruct (String.eqb_spec (get (m_volContext m) "dataCenter") "") as [_|Hdc]; [by rewrite Hd in He|].
    apply String.eqb_neq in Hdc. by rewrite Hdc in He.
  - destruct (FromString _) as [dl|]; [|by auto]. cbn [rbind]. intros He. split; [done|]. right.
    destruct (bool_decide (dl = DL_None)); [done|]. cbn [negb andb] in *.
    destruct (String.eqb_spec (get (m_volContext m) "dataCenter") "") as [Hdc|Hdc].
    + split; [done|]. by destruct (String.eqb_spec (DataCenter (m_driver m)) "").
    + apply String.eqb_neq in Hdc. by rewrite Hdc in He.
Qed.

(** C28. A process that does not exit over its flags runs at least one component,
    knows the node it runs on if it runs the node service, and has a
    configuration that mounts: the command line of a volume can then only fail
    to be built over a data locality that the volume's own context sets, one
    that is unknown or for which neither context nor flags name a data centre. *)
Theorem main_driver_ready {P : Process} {MR : MapRange} (f : Flags) (d : SeaweedFsDriver)
    (runNode runController : bool) :
  main f = Ok (d, runNode, runController) →
  runNode || runController = true ∧
  (runNode = true → nodeID d ≠ "") ∧
  ValidateMountArgs (MountExtraArgs d) = Ok tt ∧
  Forall (λ c, c = "controller" ∨ c = "node") (Strings.Split (components f) ",") ∧
  ∀ m target cache socket fs e, m_driver m = d →
    buildMountArgs m target cache socket fs = Err e →
    get (m_volContext m) "dataLocality" ≠ "" ∧
    (FromString (get (m_volContext m) "dataLocality") = None ∨
     get (m_volContext m) "dataCenter" = "" ∧ DataCenter d = "").
Proof.
  unfold main. intros H. apply rbind_Ok in H as ([extra dl] & Hconv%rmap_err_Ok & H).
  apply rbind_Ok in H as ([rn rc] & Hen & H). apply rbind_Ok in H as (u & Hany%guard_err_Ok & H).
  apply rbind_Ok in H as (node & Hpre%rmap_err_Ok & [= <- <- <-]).
  unfold convertRequiredValues in Hconv. apply rbind_Ok in Hconv as (o & _ & Hconv).
  cbv zeta in Hconv. apply rbind_Ok in Hconv as ([] & Hargs & Hconv).
  apply rbind_Ok in Hconv as (dl' & _ & [= <- <-]).
  unfold checkPreconditions in Hpre. apply rbind_Ok in Hpre as ([] & Hloc & Hnode).
  split_and!.
  - destruct rn, rc; done.
  - intros ->. apply rbind_Ok in Hnode as (u' & Hid%guard_err_Ok & [= <-]).
    by apply String.eqb_neq.
  - exact Hargs.
  - by eapply enabled_flags.
  - intros m target cache socket fs e Hm He. unfold buildMountArgs, buildMountArgs_on in He. rewrite Hm in He.
    cbn [MountExtraArgs configure] in He. rewrite Hargs in He. cbn [rbind] in He.
    destruct (finalArgsMap m fs) as [a|e'] eqn:Hf; [done|]. unfold finalArgsMap in Hf.
    destruct (resolveLocality m) as [[? ?]|e2] eqn:Hr; [done|].
    apply resolveLocality_Err in Hr; rewrite Hm in *; [exact Hr|exact Hloc].
Qed.

(** A unix socket is listened on at an absolute path. *)
Lemma listen_address_rooted ep addr : listen_address ep = Ok ("unix", addr) → Strings.HasPrefix addr "/" = true.
Proof.
  unfold listen_address. intros H. apply rbind_Ok in H as ([proto a] & _ & [= -> <-]).
  rewrite String.eqb_refl. destruct (Strings.HasPrefix a "/") eqn:Ha; [exact Ha|].
  assert (Path.IsAbs a = false) as -> by exact Ha. cbn [negb andb]. by destruct a.
Qed.

(** [ParseEndpoint] looks for its two schemes without regard to case but returns
    the scheme as it was written, which [serve] and [net.Listen] only know in
    lower case. *)
Lemma endpoint_case_kept :
  ParseEndpoint "Unix://csi.sock" = Ok ("Unix", "csi.sock") ∧
  listen_address "Unix://csi.sock" = Ok ("Unix", "csi.sock") ∧
  mm_ParseEndpoint "Unix://csi.sock" = Ok ("unix", "csi.sock").
Proof. split_and!; vm_compute; reflexivity. Qed.

(** ** An example *)
Definition demo_process : Process :=
  {| to_addresses := λ s, [s]; env_NODE_ID := ""; Hostname := Ok "node-1" |}.
Definition demo_flags : Flags := {|
  components := "controller,node"; enableAttacher := true; driverName := "seaweedfs-csi-driver";
  filer := "filer:8888"; f_endpoint := "unix://tmp/seaweedfs-csi.sock";
  f_mountEndpoint := "unix:///tmp/seaweedfs-mount.sock"; f_nodeID := ""; concurrentWriters := 128;
  mountExtraArgs := String "091" (Strconv.Quote "-v=1" +:+ "]"); concurrentReaders := 128; cacheCapacityMB := 0; writeBufferSizeMB := 0;
  cacheMetaTtlSec := 60; cacheDir := "/var/cache/seaweedfs"; uidMap := ""; gidMap := ""; dataCenter := "dc1";
  dataLocalityStr := "write_preferLocalDc"; stagingScanDir := "/var/lib/kubelet/plugins/kubernetes.io/csi";
  kubeletRootDir := ""; kubeletRootMount := ""; topologyKeys := " zone, ,rack" |}.
Definition demo_main : result (SeaweedFsDriver * bool * bool) := main (P := demo_process) demo_flags.

Definition demo_configured : SeaweedFsDriver :=
  match demo_main with Ok (d, _, _) => d | Err _ => demo_driver end.

Lemma main_driver_ready_witness :
  demo_main = Ok (demo_configured, true, true) ∧ nodeID demo_configured = "node-1" ∧
  TopologyKeys demo_configured = ["zone"; "rack"] ∧ MountExtraArgs demo_configured = ["-v=1"] ∧
  ValidateMountArgs (MountExtraArgs demo_configured) = Ok tt.
Proof.
  assert (demo_main = Ok (demo_configured, true, true)) as H by (vm_compute; reflexivity).
  split; [exact H|]. do 3 (split; [vm_compute; reflexivity|]).
  apply (main_driver_ready (P := demo_process) (MR := range_sorted) demo_flags _ true true H).
Defined.
