(* ===== verification/Target.v ===== *)
(** * The target of a weed mount

    Models [pkg/mountmanager/target_linux.go]: preparing the target, waiting
    for the mount to come up, and cleaning up after the process. *)

From S2P Require Import Prelude GoLib Params Driver Host MountUtil.
#[local] Open Scope go_scope.

(** Durations are in nanoseconds. *)
Definition interval : Z := 10000000.
Definition mountWaitTimeout : Z := 10000000000.

Definition errProcessExited : error := Errorf "weed mount process exited".

Section target.
Context {MU : MountUtils} {S : Type}.

Definition ensureTargetClean (targetPath : string) : act S unit :=
  do! notMnt := atry (call (IsLikelyNotMountPoint targetPath)) in
  match notMnt with
  | Err err =>
      if is_not_exist err then aret tt
      else if IsCorruptedMnt err then
        do! u := atry (call (Umount targetPath)) in
        match u with
        | Ok _ => aret tt
        | Err unmountErr =>
            awith_err (λ lazyErr, Errorf ("failed to unmount corrupted mount " +:+ targetPath
                         +:+ ": regular unmount: " +:+ err_msg unmountErr +:+ "; lazy unmount: "
                         +:+ err_msg lazyErr))
              (call (LazyUmount targetPath))
        end
      else afail err
  | Ok false =>
      awith_err (λ e, Errorf ("failed to unmount existing mount " +:+ targetPath +:+ ": " +:+ err_msg e))
        (call (Umount targetPath))
  | Ok true => aret tt
  end ;;>
  call (MkdirAll targetPath).

Definition cleanupDeadMountPoint (target : string) : act S unit :=
  do! r := atry (call (Umount target)) in
  match r with
  | Ok _ => aret tt
  | Err _ => do! _ := atry (call (LazyUmount target)) in aret tt
  end.

(** [waitForMount]; [None] is out of fuel. *)
Fixpoint waitForMount_loop (fuel : nat) (path : string) (timeout elapsed : Z)
    : act S (option (result unit)) :=
  match fuel with
  | O => aret None
  | Datatypes.S fuel =>
      do! notMount := atry (call (IsLikelyNotMountPoint path)) in
      match notMount with
      | Err err => aret (Some (Err err))
      | Ok false => aret (Some (Ok tt))
      | Ok true =>
          do! exited := ask ProcessExited in
          if exited then aret (Some (Err errProcessExited))
          else
            let elapsed := (elapsed + interval)%Z in
            if (timeout <=? elapsed)%Z then
              aret (Some (Err (Errorf "timeout waiting for mount")))
            else waitForMount_loop fuel path timeout elapsed
      end
  end.

(** One more than the intervals of the timeout. *)
Definition wait_fuel (timeout : Z) : nat := Datatypes.S (Z.to_nat (timeout / interval)).
Definition waitForMount (path : string) (timeout : Z) : act S (option (result unit)) :=
  waitForMount_loop (wait_fuel timeout) path timeout 0.

(** ** The wait ends *)

(** How often the mount was looked for. *)
Definition is_poll (o : obs) : bool :=
  match o with Obs (IsLikelyNotMountPoint _) _ => true | Obs _ _ => false end.
Fixpoint polls (l : log) : nat :=
  match l with
  | [] => 0
  | o :: l => (if is_poll o then 1 else 0) + polls l
  end.

Lemma polls_snoc l o : polls (l ++ [o]) = polls l + (if is_poll o then 1 else 0).
Proof. induction l as [|o' l IH]; cbn; [lia|]. rewrite IH. lia. Qed.

(** Why the wait ended, by its last events and the number of polls since [n0]. *)
Definition wait_reason (path : string) (timeout : Z) (n0 : nat) (r : result unit) (l : log) : Prop :=
  match r with
  | Ok _ => last l = Some (Obs (IsLikelyNotMountPoint path) (Ok false))
  | Err e =>
      last l = Some (Obs (IsLikelyNotMountPoint path) (Err e)) ∨
      e = errProcessExited ∧ last l = Some (Obs ProcessExited true) ∨
      e = Errorf "timeout waiting for mount" ∧ (timeout <= Z.of_nat (polls l - n0) * interval)%Z
  end.

(** After [k] rounds the elapsed time is [k] intervals; with fuel for the rounds
    that are left, the loop ends. *)
Lemma waitForMount_loop_spec fuel path timeout n0 k s l :
  polls l = n0 + k →
  (0 < fuel)%nat → (timeout <= Z.of_nat (k + fuel) * interval)%Z →
  awp anything (waitForMount_loop fuel path timeout (Z.of_nat k * interval))
    (λ o s' l', s' = s ∧ polls l' <= n0 + k + fuel ∧
       ∃ r, o = Ok (Some r) ∧ wait_reason path timeout n0 r l') s l.
Proof.
  revert k l. induction fuel as [|fuel IH]; intros k l Hk Hf Ht; [lia|]. cbn [waitForMount_loop].
  apply awp_bind, awp_try, awp_call; [done|]. intros r.
  assert (polls (l ++ [Obs (IsLikelyNotMountPoint path) r]) = n0 + k + 1) as Hp
    by (rewrite polls_snoc, Hk; done).
  destruct r as [[]|e]; [|apply awp_ret..].
  2,3: split_and!; [done|lia|]; eexists; (split; [done|]); cbn; rewrite last_snoc; auto.
  apply awp_bind, awp_ask; [done|]. intros exited.
  assert (polls ((l ++ [Obs (IsLikelyNotMountPoint path) (Ok true)]) ++ [Obs ProcessExited exited])
    = n0 + (k + 1)) as Hp2 by (rewrite polls_snoc, Hp; cbn; lia).
  destruct exited.
  { apply awp_ret. split_and!; [done|lia|]. eexists. split; [done|]. cbn. rewrite last_snoc. auto. }
  replace (Z.of_nat k * interval + interval)%Z with (Z.of_nat (k + 1) * interval)%Z by lia.
  destruct (Z.leb_spec timeout (Z.of_nat (k + 1) * interval)).
  - apply awp_ret. split_and!; [done|lia|]. eexists. split; [done|]. cbn. right. right.
    split; [done|]. rewrite Hp2. replace (n0 + (k + 1) - n0) with (k + 1) by lia. done.
  - eapply awp_mono; [apply (IH (k + 1))|].
    + done.
    + destruct fuel; lia.
    + replace (k + 1 + fuel) with (k + Datatypes.S fuel) by lia. done.
    + cbv beta. intros o s' l' (-> & Hl' & Hr). split_and!; [done|lia|done].
Qed.

(** C29. The wait for a weed mount always ends: whatever the host answers, after at
    most one poll for each interval of the timeout. It reports success only
    right after a poll that found a mount, the exit of the process only when it
    saw it, and a timeout only when the intervals add up to it. *)
Theorem waitForMount_terminates (path : string) (timeout : Z) (s : S) :
  (0 <= timeout)%Z →
  awp anything (waitForMount path timeout)
    (λ o s' l, s' = s ∧ polls l <= wait_fuel timeout ∧
       ∃ r, o = Ok (Some r) ∧ wait_reason path timeout 0 r l) s [].
Proof.
  intros Ht. unfold waitForMount. change 0%Z with (Z.of_nat 0 * interval)%Z.
  apply (waitForMount_loop_spec (wait_fuel timeout) path timeout 0 0); [done|unfold wait_fuel; lia|].
  unfold wait_fuel, interval. pose proof (Z.div_mod timeout 10000000). 
  pose proof (Z.mod_pos_bound timeout 10000000). pose proof (Z.div_pos timeout 10000000). lia.
Qed.

(** *** Preparing the target *)

(** Only the target is unmounted, and nothing is deleted. *)
Definition target_allowed (path : string) {X} (e : hostE X) (l : log) : Prop :=
  match e with
  | Umount p | LazyUmount p => p = path
  | MkdirAll p => p = path
  | IsLikelyNotMountPoint _ => True
  | _ => False
  end.

(** The host's word that nothing is mounted at the target any more. *)
Definition unmounted (path : string) (l : log) : Prop :=
  Obs (IsLikelyNotMountPoint path) (Ok true) ∈ l ∨
  (∃ e, Obs (IsLikelyNotMountPoint path) (Err e) ∈ l ∧ is_not_exist e = true) ∨
  Obs (Umount path) (Ok tt) ∈ l ∨ Obs (LazyUmount path) (Ok tt) ∈ l.

Lemma unmounted_snoc path l o : unmounted path l → unmounted path (l ++ [o]).
Proof.
  intros [H|[(e & H & He)|[H|H]]]; [left|right; left; exists e|right; right; left|right; right; right];
    rewrite ?elem_of_app; auto.
Qed.

(** C37. Preparing a target succeeds only when the directory is there and the host
    said that nothing is mounted on it; a live mount is only unmounted in the
    regular way, a lazy unmount is kept for a corrupted one; files are never
    deleted. *)
Theorem ensureTargetClean_safe (path : string) (s : S) (l : log) :
  awp (λ X, @target_allowed path X) (ensureTargetClean path)
    (λ r s' l', s' = s ∧ (is_ok r = true →
       unmounted path l' ∧ last l' = Some (Obs (MkdirAll path) (Ok tt)))) s l.
Proof.
  assert (∀ l0, unmounted path l0 →
    awp (λ X, @target_allowed path X) (call (MkdirAll path)) (λ r s' l', s' = s ∧ (is_ok r = true →
       unmounted path l' ∧ last l' = Some (Obs (MkdirAll path) (Ok tt)))) s l0) as Hmk.
  { intros l0 Hl0. apply awp_call; [done|]. intros [[]|e]; split; try done. intros _.
    split; [by apply unmounted_snoc|by rewrite last_snoc]. }
  assert (∀ (l0 : log) o, o ∈ l0 ++ [o]) as Hin by (intros; apply elem_of_app; right; by left).
  unfold ensureTargetClean. apply awp_bind, awp_try, awp_call; [done|].
  intros r. apply awp_bind. destruct r as [[]|e].
  - apply awp_ret, Hmk. left. apply Hin.
  - apply awp_with_err, awp_call; [done|]. intros [[]|e]; cbn [rmap_err]; [|done].
    apply Hmk. right. right. left. apply Hin.
  - destruct (is_not_exist e) eqn:He; [apply awp_ret, Hmk; right; left; exists e; split; [apply Hin|done]|].
    destruct (IsCorruptedMnt e); [|by apply awp_fail].
    apply awp_bind, awp_try, awp_call; [done|]. intros [[]|u].
    + apply awp_ret, Hmk. right. right. left. apply Hin.
    + apply awp_with_err, awp_call; [done|]. intros [[]|e']; cbn [rmap_err]; [|done].
      apply Hmk. right. right. right. apply Hin.
Qed.
End target.

(** A mount that never comes up: a thousand polls and a timeout. *)
Definition timed_out : (result (option (result unit)) * unit) * log :=
  run (exampleHost healthOK) (waitForMount "/t" mountWaitTimeout tt) [].

Lemma waitForMount_terminates_witness :
  (0 <= mountWaitTimeout)%Z ∧
  timed_out.1.1 = Ok (Some (Err (Errorf "timeout waiting for mount"))) ∧ polls timed_out.2 = 1000%nat ∧
  polls timed_out.2 <= wait_fuel mountWaitTimeout ∧
  ∃ r, timed_out.1.1 = Ok (Some r) ∧ wait_reason "/t" mountWaitTimeout 0 r timed_out.2.
Proof.
  assert (0 <= mountWaitTimeout)%Z as H by done.
  split; [exact H|]. split; [vm_compute; reflexivity|]. split; [vm_compute; reflexivity|].
  destruct (wpp_run _ (exampleHost healthOK) _ _ []
    (waitForMount_terminates "/t" mountWaitTimeout tt H)) as (_ & Hp & Hr).
  split; [exact Hp|exact Hr].
Defined.
