(* ===== verification/Windows.v ===== *)
(** * Mount points on Windows

    Models [pkg/driver/mount_util_windows.go] and
    [pkg/mountmanager/target_windows.go]: a weed mount is a directory reparse
    point, a published volume a directory symbolic link onto it, and what is
    mounted is read off the file attributes. The file system is a map from paths
    to nodes with the semantics of the [os] package on them, and an access of any
    kind can fail. Also how [configureCmd] of [process_windows.go] and
    [winfsp_case_sensitivity.go] extend the command of a mount. *)

From S2P Require Import Prelude GoLib Hash Params Driver Host MountUtil Target.
#[local] Open Scope go_scope.

(** A path, by its elements. *)
Abbreviation path := (list string).

Definition show (p : path) : string := Strings.Join p "\".

Inductive node :=
  | File
  | Dir
  | Mount (alive : bool)        (** a WinFsp mount point, dangling when not alive *)
  | Symlink (target : path).

#[export] Instance node_eq_dec : EqDecision node.
Proof. solve_decision. Defined.

Abbreviation files := (gmap path node).

(** An access that can fail for reasons of its own. *)
Inductive access :=
  | ALstat (p : path) | ARemove (p : path) | AReadDir (p : path) | ASymlink (target p : path).

Inductive fault := AccessDenied | SharingViolation | OtherFault (n : nat).
Definition fault_err (f : fault) : error :=
  match f with
  | AccessDenied => SysErr EACCES "Access is denied."
  | SharingViolation => SysErr EBUSY "The process cannot access the file because it is being used by another process."
  | OtherFault n => SysErr (EOTHER n) ""
  end.
Definition not_exist : error := SysErr ENOENT "The system cannot find the file specified.".

Section windows.
Context (faults : access → option fault).

(** ** The [os] package *)
Definition guarded {A} (a : access) (m : M files A) : M files A :=
  match faults a with Some f => throw (fault_err f) | None => m end.

Definition Lstat (p : path) : M files node :=
  guarded (ALstat p) (λ fs, (match fs !! p with Some n => Ok n | None => Err not_exist end, fs)).

Definition has_entries (fs : files) (p : path) : bool :=
  existsb (λ '(q, _), bool_decide (q ≠ [] ∧ removelast q = p)) (map_to_list fs).

(** [os.Remove]: a file, a link, a mount point or an empty directory, without
    recursing. *)
Definition Remove (p : path) : M files unit :=
  guarded (ARemove p) (λ fs,
    match fs !! p with
    | None => (Err not_exist, fs)
    | Some Dir => if has_entries fs p then (Err (SysErr ENOTEMPTY "The directory is not empty."), fs)
                  else (Ok tt, delete p fs)
    | Some _ => (Ok tt, delete p fs)
    end).

(** Opening a directory follows links, at most 63 of them. *)
Fixpoint open_dir (fuel : nat) (fs : files) (p : path) : result unit :=
  match fuel, fs !! p with
  | O, _ => Err (SysErr (EOTHER 1921) "The name of the file cannot be resolved by the system.")
  | S _, None => Err not_exist
  | S _, Some File => Err (SysErr (EOTHER 267) "The directory name is invalid.")
  | S _, Some Dir => Ok tt
  | S _, Some (Mount alive) => if alive : bool then Ok tt else Err (SysErr EIO "The volume is not accessible.")
  | S fuel, Some (Symlink q) => open_dir fuel fs q
  end.
Definition ReadDir (p : path) : M files unit :=
  guarded (AReadDir p) (λ fs, (open_dir 64 fs p, fs)).

Definition os_Symlink (source p : path) : M files unit :=
  guarded (ASymlink source p) (λ fs,
    match fs !! p with
    | Some _ => (Err (SysErr (EOTHER 183) "Cannot create a file when that file already exists."), fs)
    | None => (Ok tt, <[p := Symlink source]> fs)
    end).

(** ** mount_util_windows.go *)
Definition isReparsePointInfo (n : node) : bool :=
  match n with Mount _ | Symlink _ => true | _ => false end.

Definition isReparsePoint (p : path) : M files bool :=
  let! r := attempt (Lstat p) in
  ret (match r with Ok n => isReparsePointInfo n | Err _ => false end).

Definition removeMountArtifact (p : path) : M files unit :=
  let! r := attempt (Remove p) in
  of_result (match r with Err e => if is_not_exist e then Ok tt else Err e | Ok _ => Ok tt end).

Definition stagingPathHealth (p : path) : M files healthResult :=
  let! reparse := isReparsePoint p in
  if negb reparse then ret healthDead
  else
    let! r := attempt (ReadDir p) in
    ret (if is_ok r then healthOK else healthDead).

Definition isStagingPathHealthy (p : path) : M files bool :=
  let! r := stagingPathHealth p in ret (bool_decide (r = healthOK)).

Definition isPathMounted (p : path) : M files bool :=
  let! reparse := isReparsePoint p in
  if negb reparse then ret false
  else
    let! r := attempt (ReadDir p) in
    ret (is_ok r).

Definition isLikelyNotMountPointFn (p : path) : M files bool :=
  let! mounted := isPathMounted p in ret (negb mounted).

Definition cleanupCorruptedStagingPath : path → M files unit := removeMountArtifact.
Definition cleanupStaleStagingPath : path → M files unit := removeMountArtifact.
Definition unmountVolume : path → M files unit := removeMountArtifact.
Definition detachDeadMountPoint : path → M files unit := removeMountArtifact.
Definition cleanupMountPoint : path → M files unit := removeMountArtifact.

Definition isCorruptedMount (e : error) : bool := false.

Definition checkMount (p : path) : M files bool :=
  let! r := attempt (Lstat p) in
  of_result (match r with
             | Err e => if is_not_exist e then Ok false else Err e
             | Ok n => Ok (isReparsePointInfo n)
             end).

Definition defaultBindMount (source target : path) (readOnly : bool) : M files unit :=
  let! r := attempt (Remove target) in
  match r with
  | Err e => if is_not_exist e then os_Symlink source target
             else throw (Errorf ("removing pre-created publish target " +:+ show target +:+ ": " +:+ err_msg e))
  | Ok _ => os_Symlink source target
  end.

(** ** target_windows.go *)
Definition ensureTargetClean (p : path) : M files unit :=
  let! r := attempt (Lstat p) in
  match r with
  | Err e => if is_not_exist e then ret tt else throw (Errorf ("inspecting target " +:+ show p +:+ ": " +:+ err_msg e))
  | Ok _ =>
      let! r := attempt (Remove p) in
      of_result (match r with
                 | Err e => if is_not_exist e then Ok tt
                            else Err (Errorf ("target " +:+ show p
                                   +:+ " exists and cannot be removed for WinFsp mount: " +:+ err_msg e))
                 | Ok _ => Ok tt
                 end)
  end.

Definition cleanupDeadMountPoint (p : path) : M files unit :=
  let! _ := attempt (Remove p) in ret tt.

(** The polls of [waitForMount]: the file system at each, and whether the process
    has exited after it; [None] is out of fuel. The wait of mount_util_windows.go
    looks at no process. *)
Fixpoint waitForMount_loop (fuel : nat) (p : path) (seen : nat → files) (exited : nat → bool)
    (timeout elapsed : Z) (i : nat) : option (result unit) :=
  match fuel with
  | O => None
  | S fuel =>
      if bool_decide ((isReparsePoint p (seen i)).1 = Ok true) then Some (Ok tt)
      else if exited i then Some (Err errProcessExited)
      else
        let elapsed := (elapsed + interval)%Z in
        if (timeout <=? elapsed)%Z then Some (Err (Errorf "timeout waiting for mount"))
        else waitForMount_loop fuel p seen exited timeout elapsed (S i)
  end.
Definition waitForMount (p : path) (timeout : Z) (seen : nat → files) (exited : nat → bool)
    : option (result unit) :=
  waitForMount_loop (wait_fuel timeout) p seen exited timeout 0 0.
Definition waitForMount_driver (p : path) (timeout : Z) (seen : nat → files) : option (result unit) :=
  waitForMount p timeout seen (λ _, false).

(** ** What the operations do to the file system *)
Inductive operation :=
  | CleanupCorrupted | CleanupStale | Unmount | Detach | CleanupTarget | EnsureClean | CleanupDead
  | Bind (source : path) (readOnly : bool).

Definition perform (o : operation) : path → M files unit :=
  match o with
  | CleanupCorrupted => cleanupCorruptedStagingPath
  | CleanupStale => cleanupStaleStagingPath
  | Unmount => unmountVolume
  | Detach => detachDeadMountPoint
  | CleanupTarget => cleanupMountPoint
  | EnsureClean => ensureTargetClean
  | CleanupDead => cleanupDeadMountPoint
  | Bind source ro => λ p, defaultBindMount source p ro
  end.

(** A removal takes away the path and nothing else, and never a directory with
    entries. *)
Definition removed (p : path) (fs fs' : files) : Prop :=
  fs' = delete p fs ∧ (fs !! p = Some Dir → has_entries fs p = false).

Lemma Remove_spec p fs :
  wp (Remove p) (λ r fs',
    match r with
    | Ok _ => removed p fs fs'
    | Err e => fs' = fs ∧ (is_not_exist e = true → fs !! p = None)
    end) fs.
Proof.
  unfold wp, Remove, guarded, removed.
  destruct (faults (ARemove p)) as [[]|]; [done..|].
  destruct (fs !! p) as [[]|] eqn:Hp; [done| |done..].
  destruct (has_entries fs p); done.
Qed.

Lemma removeMountArtifact_spec p fs :
  wp (removeMountArtifact p) (λ r fs',
    match r with Ok _ => removed p fs fs' | Err _ => fs' = fs end) fs.
Proof.
  apply wp_bind, wp_attempt. eapply wp_mono; [apply Remove_spec|]. intros [[]|e] fs' H; apply wp_of_result; [done|].
  destruct H as [-> He]. destruct (is_not_exist e); [|done]. specialize (He eq_refl).
  split; [by rewrite delete_id|congruence].
Qed.

Lemma ensureTargetClean_spec p fs :
  wp (ensureTargetClean p) (λ r fs',
    match r with Ok _ => removed p fs fs' | Err _ => fs' = fs end) fs.
Proof.
  assert (fs !! p = None → removed p fs fs) as Hnone by (intros H; split; [by rewrite delete_id|congruence]).
  apply wp_bind, wp_attempt.
  apply (wp_mono _ (λ r fs', fs' = fs ∧ ∀ e, r = Err e → is_not_exist e = true → fs !! p = None)).
  { unfold wp, Lstat, guarded. destruct (faults (ALstat p)) as [[]|]; cbn; (split; [done|]); try by intros e [= <-].
    by destruct (fs !! p); intros e [= <-]. }
  intros [n|e] fs' [-> He]; [|destruct (is_not_exist e) eqn:Hn; [apply wp_ret; eauto|by apply wp_throw]].
  apply wp_bind, wp_attempt. eapply wp_mono; [apply Remove_spec|].
  intros [[]|e] fs' H; apply wp_of_result; [done|]. destruct H as [-> H].
  destruct (is_not_exist e); [|done]. auto.
Qed.

Lemma defaultBindMount_spec source p ro fs :
  wp (defaultBindMount source p ro) (λ r fs',
    match r with
    | Ok _ => removed p fs (delete p fs') ∧ fs' = <[p := Symlink source]> (delete p fs)
    | Err _ => fs' = fs ∨ removed p fs fs'
    end) fs.
Proof.
  assert (∀ fs1, removed p fs fs1 → wp (os_Symlink source p) (λ r fs',
    match r with
    | Ok _ => removed p fs (delete p fs') ∧ fs' = <[p := Symlink source]> (delete p fs)
    | Err _ => fs' = fs ∨ removed p fs fs'
    end) fs1) as Hlink.
  { intros fs1 [-> H]. unfold wp, os_Symlink, guarded.
    destruct (faults _) as [[]|]; [by right..|]. rewrite lookup_delete_eq. cbn.
    split; [|done]. split; [|done]. by rewrite delete_insert_id by apply lookup_delete_eq. }
  apply wp_bind, wp_attempt. eapply wp_mono; [apply Remove_spec|]. intros [[]|e] fs' H; [by apply Hlink|].
  destruct H as [-> H]. destruct (is_not_exist e); [|by apply wp_throw; left].
  apply Hlink. split; [by rewrite delete_id; auto|]. rewrite H; done.
Qed.

Lemma removed_lookup p fs fs' :
  removed p fs fs' →
  (∀ q, q ≠ p → fs' !! q = fs !! q) ∧ fs' !! p = None ∧
  (fs !! p = Some Dir → has_entries fs p = false).
Proof.
  intros [-> H]. split_and!; [|by apply lookup_delete_eq|done]. intros q Hq. by apply lookup_delete_ne.
Qed.

(** C36. No operation on a mount point deletes data: it changes nothing but the path it
    is given, and not even that if it is a directory with entries. A success means
    that the path is free, or a link to the staging path after a publish; only
    the best-effort cleanup after a process hides a failure. *)
Theorem windows_mounts_safe (o : operation) (p : path) (fs : files) :
  wp (perform o p) (λ r fs',
    (∀ q, q ≠ p → fs' !! q = fs !! q) ∧
    (fs !! p = Some Dir → has_entries fs p = true → fs' = fs ∧ (o ≠ CleanupDead → is_ok r = false)) ∧
    (r = Ok tt → o ≠ CleanupDead →
     fs' !! p = match o with Bind source _ => Some (Symlink source) | _ => None end) ∧
    (is_ok r = false → fs' !! p = fs !! p ∨ fs' !! p = None)) fs.
Proof.
  destruct o as [| | | | | | |source ro]; cbn [perform];
    try (eapply wp_mono; [apply removeMountArtifact_spec || apply ensureTargetClean_spec|];
         intros [[]|e] fs' H; [apply removed_lookup in H as (H1 & H2 & H3)|subst]; split_and!;
           first [done|by auto|by intros Hd; rewrite (H3 Hd)]).
  - apply wp_bind, wp_attempt. eapply wp_mono; [apply Remove_spec|].
    intros [[]|e] fs' H; apply wp_ret; [apply removed_lookup in H as (H1 & H2 & H3)|destruct H as [-> _]];
      split_and!; first [done|by auto|by intros Hd; rewrite (H3 Hd)].
  - eapply wp_mono; [apply defaultBindMount_spec|]. intros [[]|e] fs' H.
    + destruct H as [H ->]. apply removed_lookup in H as (_ & _ & H3). split_and!; try done.
      * intros q Hq. by rewrite lookup_insert_ne, lookup_delete_ne.
      * by intros Hd; rewrite (H3 Hd).
      * intros _ _. by rewrite lookup_insert_eq.
    + destruct H as [->|H]; [by split_and!; auto|]. apply removed_lookup in H as (H1 & H2 & H3).
      split_and!; first [done|by auto|by intros Hd; rewrite (H3 Hd)].
Qed.

(** A published link is mounted exactly while the mount it leads to is alive: it
    needs no publish of its own after a recovery. *)
Lemma publish_follows_mount fs p source alive :
  faults (ALstat p) = None → faults (AReadDir p) = None →
  fs !! p = Some (Symlink source) → fs !! source = Some (Mount alive) →
  (isPathMounted p fs).1 = Ok alive ∧ (checkMount p fs).1 = Ok true.
Proof.
  intros Hf1 Hf2 Hp Hs. unfold isPathMounted, checkMount, isReparsePoint, Lstat, ReadDir, guarded, attempt, bind.
  rewrite Hf1, Hf2, Hp. cbn. rewrite Hp. cbn. rewrite Hs. by destruct alive.
Qed.

(** What a wait finds: the first poll that saw a reparse point, if the process
    had not exited before, within the polls of the timeout. *)
Lemma waitForMount_loop_ok fuel p seen exited timeout elapsed i :
  waitForMount_loop fuel p seen exited timeout elapsed i = Some (Ok tt) →
  ∃ j, j < fuel ∧ (isReparsePoint p (seen (i + j))).1 = Ok true ∧
    ∀ k, k < j → exited (i + k) = false ∧ (isReparsePoint p (seen (i + k))).1 ≠ Ok true.
Proof.
  revert elapsed i. induction fuel as [|fuel IH]; intros elapsed i H; [done|]. cbn [waitForMount_loop] in H.
  case_bool_decide as Hr.
  { exists 0. rewrite Nat.add_0_r. split_and!; [lia|done|lia]. }
  destruct (exited i) eqn:He; [done|]. case_match; [done|].
  destruct (IH _ _ H) as (j & Hj & Hrj & Hk). exists (S j). rewrite <- Nat.add_succ_comm in *.
  split_and!; [lia|done|]. intros [|k] Hlt; [by rewrite Nat.add_0_r|].
  rewrite <- Nat.add_succ_comm. apply Hk. lia.
Qed.

Lemma waitForMount_loop_ends fuel p seen exited timeout k i :
  0 < fuel → (timeout <= Z.of_nat (k + fuel) * interval)%Z →
  is_Some (waitForMount_loop fuel p seen exited timeout (Z.of_nat k * interval) i).
Proof.
  revert k i. induction fuel as [|fuel IH]; intros k i Hf Ht; [lia|]. cbn [waitForMount_loop].
  case_bool_decide; [by eexists|]. destruct (exited i); [by eexists|].
  replace (Z.of_nat k * interval + interval)%Z with (Z.of_nat (k + 1) * interval)%Z by lia.
  destruct (Z.leb_spec timeout (Z.of_nat (k + 1) * interval)); [by eexists|].
  apply IH; [destruct fuel; lia|]. by replace (k + 1 + fuel) with (k + S fuel) by lia.
Qed.

(** The wait always ends. *)
Lemma waitForMount_ends p timeout seen exited :
  (0 <= timeout)%Z → is_Some (waitForMount p timeout seen exited).
Proof.
  intros Ht. apply (waitForMount_loop_ends _ _ _ _ _ 0); [unfold wait_fuel; lia|].
  unfold wait_fuel. pose proof (Z.div_mod timeout interval). pose proof (Z.mod_pos_bound timeout interval).
  unfold interval in *. rewrite Nat2Z.inj_add, Nat2Z.inj_succ, Z2Nat.id by (apply Z.div_pos; lia). lia.
Qed.
End windows.

(** ** process_windows.go and winfsp_case_sensitivity.go *)
Definition defaultVolumePrefix : string := "\seaweedfs".
Definition winFspCaseSensitiveEnv : string := "SEAWEEDFS_WINFSP_CASE_SENSITIVE".

Definition getenv (env : strmap) (key : string) : string := default "" (env !! key).

Definition winFspCaseSensitivityArgs (env : strmap) : list string :=
  let value := getenv env winFspCaseSensitiveEnv in
  if negb (String.eqb value "") then ["-winfspCaseSensitive=" +:+ value] else [].

(** [configureCmd]: the arguments, and the environment where it is not the one
    inherited; the process group is left out. *)
Definition configureCmd (env : strmap) (args : list string) : list string * option strmap :=
  let prefix := default defaultVolumePrefix (env !! "WEED_WINFSP_VOLUME_PREFIX") in
  let cmdEnv :=
    if negb (String.eqb (Strings.ToLower prefix) "local")
    then Some (<["WEED_WINFSP_VOLUME_PREFIX" := prefix]> env) else None in
  let opts := getenv env "SEAWEEDFS_WINFSP_OPTIONS" in
  let args := if negb (String.eqb opts "") then args ++ ["-winfspOptions=" +:+ opts] else args in
  (args ++ winFspCaseSensitivityArgs env, cmdEnv).

(** The command of a mount is extended, never changed, and nothing is added where the
    environment says nothing. *)
Lemma configureCmd_extends env args :
  ∃ more, (configureCmd env args).1 = args ++ more ∧
    (getenv env "SEAWEEDFS_WINFSP_OPTIONS" = "" → getenv env winFspCaseSensitiveEnv = "" → more = []).
Proof.
  unfold configureCmd, winFspCaseSensitivityArgs. cbn [fst].
  destruct (String.eqb_spec (getenv env "SEAWEEDFS_WINFSP_OPTIONS") "");
    destruct (String.eqb_spec (getenv env winFspCaseSensitiveEnv) ""); cbn [negb];
    eexists; rewrite <- ?app_assoc; (split; [reflexivity|]); done.
Qed.

(** ** Examples *)
Definition demo_files : files :=
  {[ ["C:"; "staging"] := Mount true; ["C:"; "pod"] := Dir; ["C:"; "data"] := Dir; ["C:"; "data"; "f"] := File ]}.

(** A publish replaces kubelet's empty directory by a link; a directory with
    entries stays. *)
Example demo_publish :
  let '(r, fs) := perform (λ _, None) (Bind ["C:"; "staging"] false) ["C:"; "pod"] demo_files in
  r = Ok tt ∧ fs !! ["C:"; "pod"] = Some (Symlink ["C:"; "staging"]) ∧
  (isPathMounted (λ _, None) ["C:"; "pod"] fs).1 = Ok true ∧
  is_ok (perform (λ _, None) CleanupStale ["C:"; "data"] fs).1 = false.
Proof. by vm_compute. Qed.
