(* ===== verification/WinProcess.v ===== *)
(** * The weed mount process on Windows

    Models [pkg/mountmanager/process_windows.go] but for [configureCmd], which is in
    [Windows]: the path of the binary, the job object that ends weed with the mount
    service, and the stop of the process. *)

From S2P Require Import Prelude GoLib Params WinPath Calls Windows.
#[local] Open Scope go_scope.

Definition resolveWeedBinary (env : strmap) (binary : string) : string :=
  let binary := if negb (WinPath.EqualFold (WinPath.Ext binary) ".exe") then binary +:+ ".exe" else binary in
  if WinPath.IsAbs binary then binary
  else
    let sandbox := getenv env "CONTAINER_SANDBOX_MOUNT_POINT" in
    if negb (String.eqb sandbox "") then WinPath.Join [sandbox; binary] else binary.

Example resolve_demo : map (resolveWeedBinary {["CONTAINER_SANDBOX_MOUNT_POINT" := "C:\hpc"]}) ["weed"; "C:\bin\weed.EXE"; "bin/weed.exe"]
  = ["C:\hpc\weed.exe"; "C:\bin\weed.EXE"; "C:\hpc\bin\weed.exe"].
Proof. vm_compute. reflexivity. Qed.

(** ** Handles *)
Definition Handle : Type := Z.

(** Calls of the Windows API and waits for the channel [done]. *)
Inductive processE : Type → Type :=
  | CreateJobObject : processE (result Handle)
  | SetKillOnJobClose (job : Handle) : processE (result unit)   (** [SetInformationJobObject] *)
  | OpenProcess (pid : Z) : processE (result Handle)
  | AssignProcessToJobObject (job proc : Handle) : processE (result unit)
  | CloseHandle (h : Handle) : processE (result unit)
  | GenerateConsoleCtrlEvent (pid : Z) : processE (result unit)
  | Kill : processE (result unit)
  | DoneWithin (ms : Z) : processE bool.

Section process.
Context {W : Type} (host : ∀ X, processE X → W → X * W) (pid : Z).
#[local] Abbreviation M := (M (W * calls processE)).
#[local] Abbreviation perform := (Calls.perform host).
#[local] Abbreviation call := (Calls.call host).

(** [p.job = job] is the value. *)
Definition afterStart : M Handle :=
  let! job := with_err (λ e, Errorf ("creating job object: " +:+ err_msg e)) (call CreateJobObject) in
  let! configured := perform (SetKillOnJobClose job) in
  match configured with
  | Err e => perform (CloseHandle job) ;;! throw (Errorf ("configuring job object: " +:+ err_msg e))
  | Ok _ =>
      let! opened := perform (OpenProcess pid) in
      match opened with
      | Err e => perform (CloseHandle job) ;;! throw (Errorf ("opening weed mount process: " +:+ err_msg e))
      | Ok proc =>
          let! r := attempt (
            let! assigned := perform (AssignProcessToJobObject job proc) in
            match assigned with
            | Err e => perform (CloseHandle job) ;;!
                throw (Errorf ("assigning weed mount process to job object: " +:+ err_msg e))
            | Ok _ => ret job
            end) in
          perform (CloseHandle proc) ;;!
          of_result r
      end
  end.

(** From [p.job] to the [p.job] it leaves. *)
Definition releaseProcessResources (job : Handle) : M Handle :=
  if negb (Z.eqb job 0) then perform (CloseHandle job) ;;! ret 0%Z else ret job.

Definition stop : M unit :=
  perform (GenerateConsoleCtrlEvent pid) ;;!
  let! done := perform (DoneWithin 5000) in
  if done : bool then ret tt
  else
    perform Kill ;;!
    let! done := perform (DoneWithin 1000) in
    if done : bool then ret tt else throw (Errorf "timed out waiting for weed mount to stop").

(** What [startWeedMountProcess] and [wait] do with the handles: an error of
    [afterStart] is logged and leaves [p.job] zero; [wait] releases when the process
    is gone. *)
Definition supervise : M Handle :=
  let! r := attempt afterStart in
  ret (match r with Ok job => job | Err _ => 0%Z end).

(** ** What the log tells *)

(** The handles open after a log, given those open before. *)
Fixpoint close (h : Handle) (hs : list Handle) : list Handle :=
  match hs with [] => [] | h' :: hs => if Z.eqb h h' then hs else h' :: close h hs end.
Definition handle_step (o : seen processE) (hs : list Handle) : list Handle :=
  let '(Seen e x) := o in
  match e in processE X return X → _ with
  | CreateJobObject | OpenProcess _ => λ r, match r with Ok h => h :: hs | Err _ => hs end
  | CloseHandle h => λ _, close h hs
  | _ => λ _, hs
  end x.
Definition open_handles (l : calls processE) : list Handle := foldl (λ hs o, handle_step o hs) [] l.

Lemma open_handles_snoc l o : open_handles (l ++ [o]) = handle_step o (open_handles l).
Proof. unfold open_handles. by rewrite foldl_app. Qed.

(** The job ends the process when its last handle is closed: it was configured and
    the process assigned to it, by calls that succeeded. *)
Definition owns (job : Handle) (l : calls processE) : Prop :=
  Seen (SetKillOnJobClose job) (Ok tt) ∈ l ∧
  ∃ proc, Seen (OpenProcess pid) (Ok proc) ∈ l ∧ Seen (AssignProcessToJobObject job proc) (Ok tt) ∈ l.

Lemma close_head h hs : close h (h :: hs) = hs.
Proof. cbn. by rewrite Z.eqb_refl. Qed.
Lemma close_two h h' hs : close h (close h' (h :: h' :: hs)) = hs.
Proof. cbn. destruct (Z.eqb_spec h' h) as [->|]; cbn; by rewrite !Z.eqb_refl. Qed.

(** A handle is not zero. *)
Hypothesis job_handles : ∀ w job w', host _ CreateJobObject w = (Ok job, w') → job ≠ 0%Z.

(** The log grew by the calls [k], which leave these handles open. *)
Lemma afterStart_handles w l :
  wp afterStart (λ r s, ∃ k, s.2 = l ++ k ∧
    match r with
    | Ok job => job ≠ 0%Z ∧ open_handles s.2 = job :: open_handles l ∧ owns job k
    | Err _ => open_handles s.2 = open_handles l
    end) (w, l).
Proof.
  apply wp_bind, wp_with_err, wp_call_host. intros [job|e] w1 Hjob; cbn [rmap_err].
  2: { eexists. split; [done|]. cbn [snd]. by rewrite open_handles_snoc. }
  apply wp_bind, wp_perform. intros [[]|e] w2.
  2: { apply wp_bind, wp_perform. intros x w3. apply wp_throw. eexists. split; [by rewrite <- !app_assoc|].
       cbn [snd]. rewrite !open_handles_snoc. apply close_head. }
  apply wp_bind, wp_perform. intros [proc|e] w3.
  2: { apply wp_bind, wp_perform. intros x w4. apply wp_throw. eexists. split; [by rewrite <- !app_assoc|].
       cbn [snd]. rewrite !open_handles_snoc. apply close_head. }
  apply wp_bind, wp_attempt, wp_bind, wp_perform. intros [[]|e] w4.
  - apply wp_ret, wp_bind, wp_perform. intros x w5. apply wp_of_result. eexists. split; [by rewrite <- !app_assoc|].
    cbn [snd]. rewrite !open_handles_snoc. split; [by eapply job_handles|]. split; [apply close_head|]. split; [set_solver|].
    exists proc. split; set_solver.
  - apply wp_bind, wp_perform. intros x w5. apply wp_throw, wp_bind, wp_perform. intros y w6.
    apply wp_of_result. eexists. split; [by rewrite <- !app_assoc|].
    cbn [snd]. rewrite !open_handles_snoc. apply close_two.
Qed.

(** A weed process on Windows holds at most one handle, and that one ends it should
    the mount service die: the job was told so and the process put in it before the
    handle was kept. A supervision that could not be set up keeps none, whatever call
    failed, and the release after the exit closes what was kept, once. *)
Theorem process_handles w :
  wp (let! job := supervise in
      let! held := gets (λ s, s.2) in
      let! job' := releaseProcessResources job in
      ret (job, held, job'))
    (λ r s, ∃ job held, r = Ok (job, held, 0%Z) ∧ open_handles s.2 = [] ∧
      (job = 0%Z ∧ open_handles held = [] ∧ s.2 = held ∨
       open_handles held = [job] ∧ owns job held ∧ ∃ x, s.2 = held ++ [Seen (CloseHandle job) x])) (w, []).
Proof.
  apply wp_bind, wp_bind, wp_attempt. eapply wp_mono; [apply afterStart_handles|].
  intros r [w1 l1] (k & Hl & Hr). cbn [app] in Hl. cbn [snd] in *. subst l1. apply wp_ret, wp_bind, wp_gets.
  unfold releaseProcessResources. destruct r as [job|e].
  - destruct Hr as (Hne & Ho & Howns). apply Z.eqb_neq in Hne as ->. cbn [negb].
    apply wp_bind, wp_bind, wp_perform. intros x w2. apply wp_ret, wp_ret. cbn [snd].
    exists job, k. split; [done|]. rewrite open_handles_snoc, Ho. split; [apply close_head|].
    right. split_and!; [done..|]. by exists x.
  - apply wp_bind, wp_ret, wp_ret. exists 0%Z, k. split; [done|]. split; [done|]. by left.
Qed.
End process.

(** ** An example *)

(** A host that hands out handles 7 and 9 and fails to assign the process if told so. *)
Definition demo_api (fails : bool) : ∀ X, processE X → calls processE → X * calls processE :=
  scripted (λ X e _, match e in processE Y return Y with
    | CreateJobObject => Ok 7%Z
    | OpenProcess _ => Ok 9%Z
    | AssignProcessToJobObject _ _ => if fails then Err (SysErr EACCES "Access is denied.") else Ok tt
    | DoneWithin _ => true
    | _ => Ok tt
    end).

Lemma demo_api_handles fails w job w' : demo_api fails _ CreateJobObject w = (Ok job, w') → job ≠ 0%Z.
Proof. by intros [= <- _]. Qed.

Lemma process_handles_witness :
  (afterStart (demo_api false) 42 ([], [])).1 = Ok 7%Z ∧
  is_ok (afterStart (demo_api true) 42 ([], [])).1 = false ∧
  wp (let! job := supervise (demo_api true) 42 in
      let! held := gets (λ s, s.2) in
      let! job' := releaseProcessResources (demo_api true) job in
      ret (job, held, job'))
    (λ r s, ∃ job held, r = Ok (job, held, 0%Z) ∧ open_handles s.2 = [] ∧
      (job = 0%Z ∧ open_handles held = [] ∧ s.2 = held ∨
       open_handles held = [job] ∧ owns 42 job held ∧ ∃ x, s.2 = held ++ [Seen (CloseHandle job) x])) ([], []).
Proof.
  split; [vm_compute; reflexivity|]. split; [vm_compute; reflexivity|].
  apply (process_handles (demo_api true) 42 (demo_api_handles true) []).
Defined.
