(* ===== verification/Version.v ===== *)
(** * Version information

    Models [pkg/driver/version.go] and the flag [-version] of
    [cmd/seaweedfs-csi-driver/main.go]. *)

From S2P Require Import Prelude GoLib Json Params Driver Command.
#[local] Open Scope go_scope.

(** What the linker and the Go runtime put into the program. *)
Class Build := {
  driverVersion : string;
  gitCommit : string;
  buildDate : string;
  runtime_Version : string;
  runtime_Compiler : string;
  GOOS : string;
  GOARCH : string;
}.

Record VersionInfo := {
  DriverVersion : string;
  GitCommit : string;
  BuildDate : string;
  GoVersion : string;
  Compiler : string;
  Platform : string;
}.

(** How [encoding/json] sees a [VersionInfo]. *)
Definition enc_version (v : VersionInfo) : value :=
  Obj [("driverVersion", Str (DriverVersion v)); ("gitCommit", Str (GitCommit v));
       ("buildDate", Str (BuildDate v)); ("goVersion", Str (GoVersion v));
       ("compiler", Str (Compiler v)); ("platform", Str (Platform v))].

(** What the process does with its flags: print and exit with status 0, exit with an
    error, or run a driver. *)
Inductive outcome :=
  | Printed (text : string)
  | Failed (e : error)
  | Running (drv : SeaweedFsDriver) (runNode runController : bool).

Section version.
Context {B : Build}.

Definition GetVersion : VersionInfo := {|
  DriverVersion := driverVersion;
  GitCommit := gitCommit;
  BuildDate := buildDate;
  GoVersion := runtime_Version;
  Compiler := runtime_Compiler;
  Platform := GOOS +:+ "/" +:+ GOARCH |}.

(** Strings have no encoding error. *)
Definition GetVersionJSON : string := MarshalIndent "" "  " (enc_version GetVersion).

Definition run_flags {P : Process} (version : bool) (f : Flags) : outcome :=
  if version then Printed (GetVersionJSON +:+ String "010" "")
  else match main f with
       | Ok (drv, runNode, runController) => Running drv runNode runController
       | Err e => Failed e
       end.

(** What [-version] prints is a JSON document of the version, whatever the other flags. *)
Lemma version_printed {P : Process} f :
  forallb Utf8.valid [driverVersion; gitCommit; buildDate; runtime_Version; runtime_Compiler;
                      GOOS +:+ "/" +:+ GOARCH] = true →
  ∃ text, run_flags true f = Printed text ∧ parse text = Some (enc_version GetVersion).
Proof.
  intros Hv. eexists. split; [done|]. unfold GetVersionJSON, MarshalIndent. apply parse_render; try done.
  intros n. unfold newline. cbn. by induction n.
Qed.
End version.

(** The layout. *)
Lemma version_example :
  MarshalIndent "" "  " (Obj [("a", Str "1"); ("b", Arr []); ("c", Arr [Null])]) =
  let nl := String "010" "" in
  let q s := String Strconv.dquote (s +:+ String Strconv.dquote "") in
  "{" +:+ nl +:+ "  " +:+ q "a" +:+ ": " +:+ q "1" +:+ "," +:+ nl +:+ "  " +:+ q "b" +:+ ": []," +:+ nl +:+
  "  " +:+ q "c" +:+ ": [" +:+ nl +:+ "    null" +:+ nl +:+ "  ]" +:+ nl +:+ "}".
Proof. reflexivity. Qed.
