(* ===== verification/Container.v ===== *)
(** * Mounts inside running containers

    Models [remountInContainers], [repairStaleContainerMounts] and
    [remountViaSetns] of [pkg/driver/container_remount_linux.go]: finding the
    containers of a pod through [/proc], and replacing a stale mount in the mount
    namespace of a container by a clone of the staging mount. *)

From S2P Require Import Prelude GoLib MountInfo Driver Host MountUtil.
Import Strings.
#[local] Open Scope go_scope.

Definition proc_path (pid : Z) (rest : string) : string :=
  "/proc/" +:+ Strconv.FormatInt pid +:+ "/" +:+ rest.

Section container.
Context {S : Type}.

(** [parseMountInfo]. *)
Definition parseMountInfo (pid : Z) : act S (list mountInfoEntry) :=
  do! text := call (ReadFile (proc_path pid "mountinfo")) in
  alift (parseMountInfoReader text).

Definition getMountDevice (mountPath : string) : act S string :=
  do! pid := ask Getpid in
  do! entries := awith_err (λ e, Errorf ("parse self mountinfo: " +:+ err_msg e))
                   (parseMountInfo pid) in
  alift (mountDevice entries mountPath).

Definition findContainerMountsByDevice (pid : Z) (oldDevice : string) : act S (list mountInfoEntry) :=
  do! entries := parseMountInfo pid in
  aret (containerMountsByDevice entries oldDevice).

(** *** The containers of a pod *)
Definition in_cgroup (podUID content : string) : bool :=
  Contains content podUID || Contains content (ReplaceChr podUID "-" "_").

(** The mount namespace of a process of the pod, if it is one of a container. *)
Definition containerNS (podUID selfNS : string) (pid : Z) : act S (option string) :=
  do! cgroup := atry (call (ReadFile (proc_path pid "cgroup"))) in
  match cgroup with
  | Err _ => aret None
  | Ok content =>
      if negb (in_cgroup podUID content) then aret None
      else
        do! link := atry (call (Readlink (proc_path pid "ns/mnt"))) in
        match link with
        | Err _ => aret None
        | Ok nsLink =>
            if negb (String.eqb selfNS "") && String.eqb nsLink selfNS then aret None
            else aret (Some nsLink)
        end
  end.

Fixpoint containerPIDs (podUID selfNS : string) (entries : list (string * bool))
    (seenNS : list string) : act S (list Z) :=
  match entries with
  | [] => aret []
  | (name, _) :: entries =>
      match Strconv.Atoi name with
      | None => containerPIDs podUID selfNS entries seenNS
      | Some pid =>
          do! ns := containerNS podUID selfNS pid in
          match ns with
          | None => containerPIDs podUID selfNS entries seenNS
          | Some nsLink =>
              if bool_decide (nsLink ∈ seenNS) then containerPIDs podUID selfNS entries seenNS
              else
                do! pids := containerPIDs podUID selfNS entries (nsLink :: seenNS) in
                aret (pid :: pids)
          end
      end
  end.

Definition findContainerPIDsForPod (podUID : string) : act S (list Z) :=
  do! entries := awith_err (λ e, Errorf ("read /proc: " +:+ err_msg e)) (call (ReadDir "/proc")) in
  do! self := atry (call (Readlink "/proc/self/ns/mnt")) in
  containerPIDs podUID (match self with Ok s => s | Err _ => "" end) entries [].

(** *** Replacing a mount *)

(** The subdirectory of the staging mount that a mount with this root shows. *)
Definition bind_source (stagingPath subPath : string) : string :=
  if negb (String.eqb subPath "") && negb (String.eqb subPath "/")
  then Path.JoinPath [stagingPath; subPath] else stagingPath.

(** In the namespace of the container. *)
Definition replaceMount (containerMountPath source : string) (containerPID : Z) (ro : bool)
    : act S unit :=
  do! _ := atry (call (NsUmount containerMountPath)) in
  awith_err (λ e, Errorf ("move_mount detached source -> " +:+ containerMountPath
               +:+ " in container PID " +:+ Strconv.FormatInt containerPID
               +:+ " (source path was " +:+ source +:+ "): " +:+ err_msg e))
    (call (NsMoveMount containerMountPath)) ;;>
  if ro then do! _ := atry (call (NsReadOnly containerMountPath)) in aret tt else aret tt.

Definition remountOnThread (containerPID : Z) (containerMountPath source : string) (ro : bool)
    : act S unit :=
  awith_err (λ e, Errorf ("unshare CLONE_FS: " +:+ err_msg e)) (call UnshareFS) ;;>
  awith_err (λ e, Errorf ("open_tree " +:+ source +:+ ": " +:+ err_msg e)) (call (OpenTree source)) ;;>
  awith_err (λ e, Errorf ("open current mount ns: " +:+ err_msg e)) (call OpenOwnNS) ;;>
  awith_err (λ e, Errorf ("open container mount ns " +:+ proc_path containerPID "ns/mnt" +:+ ": "
               +:+ err_msg e)) (call (OpenNS containerPID)) ;;>
  awith_err (λ e, Errorf ("setns to container PID " +:+ Strconv.FormatInt containerPID +:+ ": "
               +:+ err_msg e)) (call (Setns containerPID)) ;;>
  do! r := atry (replaceMount containerMountPath source containerPID ro) in
  do! _ := atry (call RestoreNS) in
  alift r.

Definition remountViaSetns (containerPID : Z) (containerMountPath stagingPath subPath : string)
    (ro : bool) : act S unit :=
  ask LockThread ;;>
  do! r := atry (remountOnThread containerPID containerMountPath (bind_source stagingPath subPath) ro) in
  ask UnlockThread ;;>
  alift r.

(** *** The two repairs *)
Definition remountMount (pid : Z) (stagingPath : string) (ro : bool) (m : mountInfoEntry) : act S unit :=
  do! _ := atry (remountViaSetns pid (mountpoint m) stagingPath (root m) (ro || mount_readOnly m)) in
  aret tt.

Definition remountContainer (stagingPath oldDevice : string) (ro : bool) (pid : Z) : act S unit :=
  do! mounts := atry (findContainerMountsByDevice pid oldDevice) in
  match mounts with
  | Err _ => aret tt
  | Ok mounts => amap (remountMount pid stagingPath ro) mounts ;;> aret tt
  end.

Definition remountInContainers (publishPath stagingPath oldDevice : string) (ro : bool) : act S unit :=
  let podUID := extractPodUID publishPath in
  if String.eqb podUID "" then aret tt
  else
    do! pids := atry (findContainerPIDsForPod podUID) in
    match pids with
    | Err _ => aret tt
    | Ok pids => amap (remountContainer stagingPath oldDevice ro) pids ;;> aret tt
    end.

Definition isStaleMount (err : option error) : bool :=
  match err with
  | Some (SysErr ENOTCONN _) | Some (SysErr ECONNABORTED _) => true
  | _ => false
  end.

(** A mount of the staged filesystem on another device than [staging]. *)
Definition older_mount (staging e : mountInfoEntry) : bool :=
  isFuseFS (fstype e) && negb (String.eqb (device e) (device staging)) &&
  sameFuseFilesystem (source e) (source staging).

Definition check_path (pid : Z) (e : mountInfoEntry) : string :=
  "/proc/" +:+ Strconv.FormatInt pid +:+ "/root" +:+ mountpoint e.

(** One mount of a container: how many were repaired. *)
Definition repairMount (stagingPath : string) (staging : mountInfoEntry) (pid : Z)
    (e : mountInfoEntry) : act S nat :=
  if negb (older_mount staging e) then aret 0
  else
    do! probe := ask (StatfsWithin (check_path pid e)) in
    match probe with
    | None => aret 0
    | Some statErr =>
        if negb (isStaleMount statErr) then aret 0
        else
          do! r := atry (remountViaSetns pid (mountpoint e) stagingPath (root e) (mount_readOnly e)) in
          match r with
          | Err _ => aret 0
          | Ok _ => resetStatfsProbe (check_path pid e) ;;> aret 1
          end
    end.

Definition repairContainer (stagingPath : string) (staging : mountInfoEntry) (pid : Z) : act S nat :=
  do! entries := atry (parseMountInfo pid) in
  match entries with
  | Err _ => aret 0
  | Ok entries => do! ns := amap (repairMount stagingPath staging pid) entries in aret (sum_list ns)
  end.

Definition repairStaleContainerMounts (publishPath stagingPath : string) : act S nat :=
  let podUID := extractPodUID publishPath in
  if String.eqb podUID "" then aret 0
  else
    do! pid := ask Getpid in
    do! staging := atry (do! entries := parseMountInfo pid in alift (mountEntryAt entries stagingPath)) in
    match staging with
    | Err _ => aret 0
    | Ok staging =>
        if negb (isFuseFS (fstype staging)) then aret 0
        else
          do! pids := atry (findContainerPIDsForPod podUID) in
          match pids with
          | Err _ => aret 0
          | Ok pids => do! ns := amap (repairContainer stagingPath staging) pids in aret (sum_list ns)
          end
    end.
End container.

(** ** Safety *)

(** The mount namespace the thread was put in, [None] for its own; a locked
    thread is taken to start in its own. And the tree it has cloned. *)
Definition ns_event {X} (ns : option Z) (e : hostE X) : X → option Z :=
  match e in hostE Y return Y → option Z with
  | LockThread => λ _, None
  | Setns pid => λ r, if is_ok r then Some pid else ns
  | RestoreNS => λ r, if is_ok r then None else ns
  | _ => λ _, ns
  end.
Definition tree_event {X} (t : option string) (e : hostE X) : X → option string :=
  match e in hostE Y return Y → option string with
  | LockThread => λ _, None
  | OpenTree src => λ r, if is_ok r then Some src else t
  | _ => λ _, t
  end.
Definition thread_ns (l : log) : option Z := foldl (λ ns '(Obs e x), ns_event ns e x) None l.
Definition tree (l : log) : option string := foldl (λ t '(Obs e x), tree_event t e x) None l.

Lemma thread_ns_snoc l {X} (e : hostE X) x : thread_ns (l ++ [Obs e x]) = ns_event (thread_ns l) e x.
Proof. unfold thread_ns. by rewrite foldl_app. Qed.
Lemma tree_snoc l {X} (e : hostE X) x : tree (l ++ [Obs e x]) = tree_event (tree l) e x.
Proof. unfold tree. by rewrite foldl_app. Qed.

Section safety.
Context {S : Type}.

(** Which mounts may be replaced, in which container and from which source. *)
Context (may : Z → string → string → log → Prop).
Hypothesis may_grows : ∀ pid p src l k, may pid p src l → may pid p src (l ++ k).

(** A mount in a container is only touched by a thread that is in the mount
    namespace of that container and holds a clone of the source; the thread is
    only given back in its own namespace, or after an attempt to return there
    failed. Nothing is unmounted or deleted on the host. *)
Definition container_allowed {X} (e : hostE X) (l : log) : Prop :=
  match e with
  | NsUmount p | NsMoveMount p | NsReadOnly p =>
      ∃ pid src, thread_ns l = Some pid ∧ tree l = Some src ∧ may pid p src l
  | UnlockThread => thread_ns l = None ∨ ∃ e, last l = Some (Obs RestoreNS (Err e))
  | ReadFile _ | ReadDir _ | Readlink _ | Getpid | StatfsWithin _ | ResetProbes _
  | LockThread | UnshareFS | OpenTree _ | OpenOwnNS | OpenNS _ | Setns _ | RestoreNS => True
  | _ => False
  end.

#[local] Abbreviation ok := (λ X, @container_allowed X).
#[local] Abbreviation cwp := (awp (S := S) ok).

Definition grown (l l' : log) : Prop := ∃ k, l' = l ++ k.
Lemma grown_refl l : grown l l.
Proof. exists []. by rewrite app_nil_r. Qed.
Lemma grown_trans l1 l2 l3 : grown l1 l2 → grown l2 l3 → grown l1 l3.
Proof. intros [k ->] [k' ->]. exists (k ++ k'). by rewrite app_assoc. Qed.
Lemma grown_snoc l l' o : grown l l' → grown l (l' ++ [o]).
Proof. intros [k ->]. exists (k ++ [o]). by rewrite app_assoc. Qed.
Lemma grown_elem l l' o : grown l l' → o ∈ l → o ∈ l'.
Proof. intros [k ->] Ho. apply elem_of_app. by left. Qed.
#[local] Hint Resolve grown_refl grown_snoc : core.

(** An action that keeps to the policy from every log. *)
Definition safe {A} (m : act S A) : Prop := ∀ s l, cwp m (λ _ s' l', s' = s ∧ grown l l') s l.

Lemma awp_grown {A} (m : act S A) Q s l :
  cwp m Q s l → cwp m (λ r s' l', Q r s' l' ∧ grown l l') s l.
Proof.
  intros H. eapply wpp_mono; [by apply wpp_prefix|]. intros [r s'] l' [HQ Hl]. by split.
Qed.

Lemma safe_bind {A B} (m : act S A) (k : A → act S B) :
  safe m → (∀ x, safe (k x)) → safe (abind m k).
Proof.
  intros Hm Hk s l. apply awp_bind. eapply awp_mono; [apply Hm|]. intros [a|e] s1 l1 [-> Hl1]; [|done].
  eapply awp_mono; [apply Hk|]. intros r s2 l2 [-> Hl2]. split; [done|]. by eapply grown_trans.
Qed.
Lemma safe_try {A} (m : act S A) : safe m → safe (atry m).
Proof. intros Hm s l. apply awp_try. eapply awp_mono; [apply Hm|]. done. Qed.
Lemma safe_with_err {A} f (m : act S A) : safe m → safe (awith_err f m).
Proof. intros Hm s l. apply awp_with_err. eapply awp_mono; [apply Hm|]. done. Qed.
Lemma safe_ret {A} (a : A) : safe (aret a).
Proof. intros s l. by apply awp_ret. Qed.
Lemma safe_lift {A} (r : result A) : safe (alift r).
Proof. intros s l. by apply awp_lift. Qed.
Lemma safe_ask {X} (e : hostE X) : (∀ l, container_allowed e l) → safe (ask e).
Proof. intros He s l. apply awp_ask; [apply He|]. intros x. auto. Qed.
Lemma safe_call {X} (e : hostE (result X)) : (∀ l, container_allowed e l) → safe (call e).
Proof. intros He s l. apply awp_call; [apply He|]. intros x. auto. Qed.
Lemma safe_amap {A B} (f : A → act S B) xs : (∀ x, safe (f x)) → safe (amap f xs).
Proof.
  intros Hf. induction xs as [|x xs IH]; cbn [amap]; [apply safe_ret|].
  apply safe_bind; [apply Hf|intros y]. apply safe_bind; [apply IH|intros ys]. apply safe_ret.
Qed.

(** A loop whose elements are safe once the log contains what it contains now. *)
Lemma amap_grown {A B} (f : A → act S B) xs s l :
  (∀ x l', x ∈ xs → grown l l' → cwp (f x) (λ _ s' _, s' = s) s l') →
  cwp (amap f xs) (λ _ s' _, s' = s) s l.
Proof.
  intros Hf. eapply awp_mono; [apply (awp_map ok f xs (λ s' l', s' = s ∧ grown l l'))|].
  - intros x s' l' Hx [-> Hl']. eapply awp_mono; [apply awp_grown, Hf; done|].
    intros r s'' l'' [-> Hl'']. split; [done|]. by eapply grown_trans.
  - done.
  - by intros r s' l' [-> _].
Qed.

Ltac safe_step :=
  lazymatch goal with
  | |- safe (abind _ _) => apply safe_bind; [|intros ?]
  | |- safe (atry _) => apply safe_try
  | |- safe (awith_err _ _) => apply safe_with_err
  | |- safe (aret _) => apply safe_ret
  | |- safe (alift _) => apply safe_lift
  | |- safe (ask _) => apply safe_ask; intros ?; exact I
  | |- safe (call _) => apply safe_call; intros ?; exact I
  | |- safe (match ?x with _ => _ end) => destruct x
  | |- safe (if ?x then _ else _) => destruct x
  end; cbn beta iota.

Lemma parseMountInfo_safe pid : safe (parseMountInfo pid).
Proof. unfold parseMountInfo. repeat safe_step. Qed.

Lemma containerPIDs_safe uid self entries seen : safe (containerPIDs uid self entries seen).
Proof.
  revert seen. induction entries as [|[name d] entries IH]; intros seen; cbn [containerPIDs].
  - apply safe_ret.
  - destruct (Strconv.Atoi name) as [pid|]; [|apply IH].
    apply safe_bind; [unfold containerNS; repeat safe_step|]. intros [ns|]; [|apply IH].
    destruct (bool_decide _); [apply IH|]. apply safe_bind; [apply IH|]. intros pids. apply safe_ret.
Qed.

Lemma findContainerPIDsForPod_safe uid : safe (findContainerPIDsForPod uid).
Proof. unfold findContainerPIDsForPod. repeat first [apply containerPIDs_safe | safe_step]. Qed.

(** *** The replacement of one mount *)
Lemma replaceMount_spec p src pid ro s l :
  thread_ns l = Some pid → tree l = Some src → may pid p src l →
  cwp (replaceMount p src pid ro) (λ _ s' l', s' = s ∧ thread_ns l' = Some pid) s l.
Proof.
  intros Hn Ht Hm. unfold replaceMount.
  assert (∀ l', grown l l' → thread_ns l' = Some pid → tree l' = Some src →
    ok _ (NsUmount p) l' ∧ ok _ (NsMoveMount p) l' ∧ ok _ (NsReadOnly p) l') as Hok.
  { intros l' [k ->] Hn' Ht'. split_and!; exists pid, src; auto. }
  assert (∀ o : obs, match o with Obs (NsUmount _) _ | Obs (NsMoveMount _) _ | Obs (NsReadOnly _) _ => True | _ => False end →
    ∀ l', thread_ns l' = Some pid ∧ tree l' = Some src →
    thread_ns (l' ++ [o]) = Some pid ∧ tree (l' ++ [o]) = Some src) as Hkeep.
  { intros [X e x] He l' Hl'. rewrite thread_ns_snoc, tree_snoc. by destruct e. }
  apply awp_bind, awp_try, awp_call; [by apply Hok|]. intros r1.
  destruct (Hkeep (Obs (NsUmount p) r1) I l) as [Hn1 Ht1]; [done|].
  apply awp_bind, awp_with_err, awp_call; [apply Hok; auto|]. intros r2.
  destruct (Hkeep (Obs (NsMoveMount p) r2) I _ (conj Hn1 Ht1)) as [Hn2 Ht2].
  destruct r2 as [[]|e]; cbn [rmap_err]; [|done]. destruct ro; [|by apply awp_ret].
  apply awp_bind, awp_try, awp_call; [apply Hok; auto|]. intros r3.
  apply awp_ret. split; [done|]. by apply (Hkeep (Obs (NsReadOnly p) r3)).
Qed.

Lemma remountViaSetns_spec pid p staging sub ro s l :
  may pid p (bind_source staging sub) l →
  cwp (remountViaSetns pid p staging sub ro) (λ _ s' _, s' = s) s l.
Proof.
  intros Hm. unfold remountViaSetns. set (src := bind_source staging sub).
  apply awp_bind, awp_ask; [done|]. intros [].
  set (l1 := l ++ _). assert (thread_ns l1 = None) as Hn1 by (unfold l1; by rewrite thread_ns_snoc).
  assert (may pid p src l1) as Hm1 by (by apply may_grows).
  assert (∀ r l', thread_ns l' = None ∨ (∃ e, last l' = Some (Obs RestoreNS (Err e))) →
    cwp (ask UnlockThread ;;> alift (A := unit) r) (λ _ s' _, s' = s) s l') as Hunlock.
  { intros r l' Hl'. apply awp_bind, awp_ask; [done|]. intros []. by apply awp_lift. }
  apply awp_bind, awp_try. unfold remountOnThread.
  apply awp_bind, awp_with_err, awp_call; [done|]. intros [[]|e]; cbn [rmap_err];
    [|apply Hunlock; left; by rewrite thread_ns_snoc].
  apply awp_bind, awp_with_err, awp_call; [done|]. intros [[]|e]; cbn [rmap_err];
    [|apply Hunlock; left; by rewrite !thread_ns_snoc].
  set (l3 := (l1 ++ _) ++ _). assert (thread_ns l3 = None ∧ tree l3 = Some src ∧ may pid p src l3) as (Hn3 & Ht3 & Hm3).
  { unfold l3. rewrite !thread_ns_snoc, !tree_snoc. split_and!; [done|done|]. auto. }
  apply awp_bind, awp_with_err, awp_call; [done|]. intros [[]|e]; cbn [rmap_err];
    [|apply Hunlock; left; by rewrite thread_ns_snoc].
  apply awp_bind, awp_with_err, awp_call; [done|]. intros [[]|e]; cbn [rmap_err];
    [|apply Hunlock; left; by rewrite !thread_ns_snoc].
  apply awp_bind, awp_with_err, awp_call; [done|]. intros [[]|e]; cbn [rmap_err];
    [|apply Hunlock; left; by rewrite !thread_ns_snoc].
  apply awp_bind, awp_try. eapply awp_mono; [apply (replaceMount_spec p src pid)|].
  - by rewrite thread_ns_snoc.
  - by rewrite !tree_snoc.
  - auto.
  - intros r s' l' [-> Hn']. apply awp_bind, awp_try, awp_call; [done|]. intros [[]|e];
      apply awp_lift, Hunlock.
    + left. by rewrite thread_ns_snoc.
    + right. exists e. by rewrite last_snoc.
Qed.
End safety.

(** ** Which mounts are replaced *)

(** The process's mount table was read and had these entries; the process was
    found in a cgroup of the pod. *)
Definition read_table (pid : Z) (entries : list mountInfoEntry) (l : log) : Prop :=
  ∃ text, Obs (ReadFile (proc_path pid "mountinfo")) (Ok text) ∈ l ∧
    parseMountInfoReader text = Ok entries.
Definition of_pod (podUID : string) (pid : Z) (l : log) : Prop :=
  ∃ content, Obs (ReadFile (proc_path pid "cgroup")) (Ok content) ∈ l ∧
    in_cgroup podUID content = true.

(** The mount [p] of process [pid] of the pod, as its table shows it, and the
    part of the staging mount that shows the same subdirectory. *)
Definition pod_mount (podUID stagingPath : string) (which : mountInfoEntry → log → Prop)
    (pid : Z) (p src : string) (l : log) : Prop :=
  ∃ entries e, of_pod podUID pid l ∧ read_table pid entries l ∧ e ∈ entries ∧ mountpoint e = p ∧
    src = bind_source stagingPath (root e) ∧ which e l.

(** An entry whose statfs failed with a dead connection, of the same filesystem
    as the FUSE mount at the staging path but on another device. *)
Definition found_dead (stagingPath : string) (pid : Z) (e : mountInfoEntry) (l : log) : Prop :=
  ∃ own oentries staging statErr,
    Obs Getpid own ∈ l ∧ read_table own oentries l ∧ mountEntryAt oentries stagingPath = Ok staging ∧
    isFuseFS (fstype staging) = true ∧ older_mount staging e = true ∧
    Obs (StatfsWithin (check_path pid e)) (Some statErr) ∈ l ∧ isStaleMount statErr = true.

Definition may_repair (podUID stagingPath : string) (pid : Z) (p src : string) (l : log) : Prop :=
  pod_mount podUID stagingPath (found_dead stagingPath pid) pid p src l.
Definition may_remount (podUID stagingPath oldDevice : string) (pid : Z) (p src : string) (l : log) : Prop :=
  pod_mount podUID stagingPath (λ e _, device e = oldDevice ∧ isFuseFS (fstype e) = true) pid p src l.

Section replaced.
Context {S : Type}.

Lemma read_table_grows pid entries l l' : grown l l' → read_table pid entries l → read_table pid entries l'.
Proof. intros Hl (text & Ht & He). exists text. split; [by eapply grown_elem|done]. Qed.
Lemma of_pod_grows uid pid l l' : grown l l' → of_pod uid pid l → of_pod uid pid l'.
Proof. intros Hl (c & Hc & He). exists c. split; [by eapply grown_elem|done]. Qed.
Lemma pod_mount_grows uid staging which pid p src l l' :
  grown l l' → (∀ e, which e l → which e l') →
  pod_mount uid staging which pid p src l → pod_mount uid staging which pid p src l'.
Proof.
  intros Hl Hw (entries & e & Ho & Hr & He & Hp & Hs & Hwe). exists entries, e.
  split_and!; eauto using read_table_grows, of_pod_grows.
Qed.
Lemma may_repair_grows uid staging pid p src l k :
  may_repair uid staging pid p src l → may_repair uid staging pid p src (l ++ k).
Proof.
  assert (grown l (l ++ k)) as Hl by (by exists k).
  apply pod_mount_grows; [done|]. intros e (own & oe & st & err & H1 & H2 & H3 & H4 & H5 & H6 & H7).
  exists own, oe, st, err. split_and!; eauto using read_table_grows, grown_elem.
Qed.
Lemma may_remount_grows uid staging dev pid p src l k :
  may_remount uid staging dev pid p src l → may_remount uid staging dev pid p src (l ++ k).
Proof. apply pod_mount_grows; [by exists k|done]. Qed.

Section finding.
Context (may : Z → string → string → log → Prop).
#[local] Abbreviation cwp := (awp (S := S) (λ X, @container_allowed may X)).

Lemma parseMountInfo_spec pid s l :
  cwp (parseMountInfo pid)
    (λ r s' l', s' = s ∧ grown l l' ∧ ∀ entries, r = Ok entries → read_table pid entries l') s l.
Proof.
  unfold parseMountInfo. apply awp_bind, awp_call; [done|]. intros [text|e].
  - apply awp_lift. split_and!; [done|by eexists|]. intros entries Hr. exists text. split; [|done].
    apply elem_of_app. right. by left.
  - split_and!; [done|by eexists|done].
Qed.

Lemma containerPIDs_spec uid self entries seen s l :
  cwp (containerPIDs uid self entries seen) (λ r s' l', s' = s ∧ grown l l' ∧
    ∀ pids, r = Ok pids → ∀ pid, pid ∈ pids → of_pod uid pid l') s l.
Proof.
  assert (∀ l, cwp (aret (A := list Z) []) (λ r s' l', s' = s ∧ grown l l' ∧
    ∀ pids, r = Ok pids → ∀ pid, pid ∈ pids → of_pod uid pid l') s l) as Hnil.
  { intros l0. apply awp_ret. split_and!; [done|apply grown_refl|]. intros pids [= <-] pid Hp.
    by apply elem_of_nil in Hp. }
  revert seen l. induction entries as [|[name d] entries IH]; intros seen l; cbn [containerPIDs]; [apply Hnil|].
  destruct (Strconv.Atoi name) as [pid|]; [|apply IH]. apply awp_bind.
  assert (cwp (containerNS uid self pid) (λ r s' l', s' = s ∧ grown l l' ∧
    ∀ ns, r = Ok (Some ns) → of_pod uid pid l') s l) as Hns.
  { unfold containerNS. apply awp_bind, awp_try, awp_call; [done|].
    intros [content|e]; [|apply awp_ret; split_and!; [done|by eexists|done]].
    destruct (in_cgroup uid content) eqn:Hc; cbn [negb];
      [|apply awp_ret; split_and!; [done|by eexists|done]].
    apply awp_bind, awp_try, awp_call; [done|]. intros link.
    set (l2 := _ ++ [Obs (Readlink _) link]).
    assert (grown l l2) as Hl2 by (unfold l2; rewrite <- app_assoc; by eexists).
    assert (of_pod uid pid l2) as Ho.
    { exists content. split; [|done]. unfold l2. apply elem_of_app. left. apply elem_of_app. right. by left. }
    destruct link as [nsLink|e]; [destruct (_ && _)|]; by apply awp_ret. }
  eapply awp_mono; [exact Hns|]. intros [[ns|]|e] s1 l1 (-> & Hl1 & Ho1).
  - destruct (bool_decide _).
    + eapply awp_mono; [apply IH|]. intros r s2 l2 (-> & Hl2 & H). split_and!; [done| |done].
      by eapply grown_trans.
    + apply awp_bind. eapply awp_mono; [apply IH|]. intros [pids|e] s2 l2 (-> & Hl2 & H).
      * apply awp_ret. split_and!; [done|by eapply grown_trans|]. intros pids' [= <-] pid' Hp.
        apply elem_of_cons in Hp as [->|Hp]; [|by eapply H]. eapply of_pod_grows; [done|by eapply Ho1].
      * split_and!; [done|by eapply grown_trans|done].
  - eapply awp_mono; [apply IH|]. intros r s2 l2 (-> & Hl2 & H). split_and!; [done| |done].
    by eapply grown_trans.
  - by split_and!.
Qed.

Lemma findContainerPIDsForPod_spec uid s l :
  cwp (findContainerPIDsForPod uid) (λ r s' l', s' = s ∧ grown l l' ∧
    ∀ pids, r = Ok pids → ∀ pid, pid ∈ pids → of_pod uid pid l') s l.
Proof.
  unfold findContainerPIDsForPod. apply awp_bind, awp_with_err, awp_call; [done|].
  intros [entries|e]; cbn [rmap_err]; [|split_and!; [done|by eexists|done]].
  apply awp_bind, awp_try, awp_call; [done|]. intros self.
  eapply awp_mono; [apply containerPIDs_spec|]. intros r s' l' (-> & Hl & H). split_and!; [done| |done].
  eapply grown_trans; [|exact Hl]. rewrite <- app_assoc. by eexists.
Qed.
End finding.
End replaced.

Section repairs.
Context {S : Type} (publishPath stagingPath : string).
#[local] Abbreviation uid := (extractPodUID publishPath).

Lemma repairContainer_spec staging own oentries pid s l :
  Obs Getpid own ∈ l → read_table own oentries l → mountEntryAt oentries stagingPath = Ok staging →
  isFuseFS (fstype staging) = true → of_pod uid pid l →
  awp (S := S) (λ X, @container_allowed (may_repair uid stagingPath) X)
    (repairContainer stagingPath staging pid) (λ _ s' _, s' = s) s l.
Proof.
  intros Hown Hot Hst Hfuse Hpod. unfold repairContainer. apply awp_bind, awp_try.
  eapply awp_mono; [apply parseMountInfo_spec|]. intros [entries|e] s1 l1 (-> & Hl1 & Hr); [|by apply awp_ret].
  specialize (Hr entries eq_refl). apply awp_bind.
  eapply awp_mono; [apply (amap_grown (may_repair uid stagingPath))|].
  { intros e l2 He Hl2. unfold repairMount. destruct (older_mount staging e) eqn:Hold; cbn [negb]; [|by apply awp_ret].
    apply awp_bind, awp_ask; [done|]. intros [statErr|]; [|by apply awp_ret].
    destruct (isStaleMount statErr) eqn:Hstale; cbn [negb]; [|by apply awp_ret].
    apply awp_bind, awp_try. eapply awp_mono; [apply remountViaSetns_spec|].
    - intros. by apply may_repair_grows.
    - assert (grown l (l2 ++ [Obs (StatfsWithin (check_path pid e)) (Some statErr)])) as Hl.
      { eapply grown_trans; [exact Hl1|]. by apply grown_snoc. }
      assert (grown l1 (l2 ++ [Obs (StatfsWithin (check_path pid e)) (Some statErr)])) as Hl'
        by (by apply grown_snoc).
      exists entries, e. split_and!; eauto using of_pod_grows, read_table_grows.
      exists own, oentries, staging, statErr. split_and!; eauto using read_table_grows, grown_elem.
      apply elem_of_app. right. by left.
    - intros [[]|err] s' l' ->; [|by apply awp_ret]. unfold resetStatfsProbe.
      apply awp_bind, awp_ask; [done|]. intros []. by apply awp_ret. }
  intros [ns|e] s2 l2 ->; [by apply awp_ret|done].
Qed.

Lemma repairStaleContainerMounts_spec s l :
  awp (S := S) (λ X, @container_allowed (may_repair uid stagingPath) X)
    (repairStaleContainerMounts publishPath stagingPath) (λ _ s' _, s' = s) s l.
Proof.
  unfold repairStaleContainerMounts. destruct (String.eqb uid ""); [by apply awp_ret|].
  apply awp_bind, awp_ask; [done|]. intros own. apply awp_bind, awp_try, awp_bind.
  set (l0 := l ++ _). assert (Obs Getpid own ∈ l0) as Hown by (apply elem_of_app; right; by left).
  eapply awp_mono; [apply parseMountInfo_spec|]. intros [oentries|e] s1 l1 (-> & Hl1 & Hr); [|by apply awp_ret].
  specialize (Hr oentries eq_refl). apply awp_lift.
  destruct (mountEntryAt oentries stagingPath) as [staging|e] eqn:Hst; [|by apply awp_ret].
  destruct (isFuseFS (fstype staging)) eqn:Hf; cbn [negb]; [|by apply awp_ret].
  apply awp_bind, awp_try. eapply awp_mono; [apply findContainerPIDsForPod_spec|].
  intros [pids|e] s2 l2 (-> & Hl2 & Hpods); [|by apply awp_ret]. specialize (Hpods pids eq_refl).
  apply awp_bind. eapply awp_mono; [apply (amap_grown (may_repair uid stagingPath))|].
  { intros pid l3 Hp Hl3. eapply (repairContainer_spec staging own oentries); try done.
    - eapply grown_elem; [|exact Hown]. eauto using grown_trans.
    - eapply read_table_grows; [|exact Hr]. eauto using grown_trans.
    - eapply of_pod_grows; [|by apply Hpods]. done. }
  intros [ns|e] s3 l3 ->; [by apply awp_ret|done].
Qed.

Lemma remountInContainers_spec dev ro s l :
  awp (S := S) (λ X, @container_allowed (may_remount uid stagingPath dev) X)
    (remountInContainers publishPath stagingPath dev ro) (λ _ s' _, s' = s) s l.
Proof.
  unfold remountInContainers. destruct (String.eqb uid ""); [by apply awp_ret|].
  apply awp_bind, awp_try. eapply awp_mono; [apply findContainerPIDsForPod_spec|].
  intros [pids|e] s1 l1 (-> & Hl1 & Hpods); [|by apply awp_ret]. specialize (Hpods pids eq_refl).
  apply awp_bind. eapply awp_mono; [apply (amap_grown (may_remount uid stagingPath dev))|].
  2:{ intros [us|e] s2 l2 ->; [by apply awp_ret|done]. }
  intros pid l2 Hp Hl2. unfold remountContainer, findContainerMountsByDevice.
  apply awp_bind, awp_try, awp_bind. eapply awp_mono; [apply parseMountInfo_spec|].
  intros [entries|e] s3 l3 (-> & Hl3 & Hr); [|by apply awp_ret]. specialize (Hr entries eq_refl).
  apply awp_ret, awp_bind. eapply awp_mono; [apply (amap_grown (may_remount uid stagingPath dev))|].
  2:{ intros [us|e] s4 l4 ->; [by apply awp_ret|done]. }
  intros e l4 He Hl4. unfold remountMount. apply awp_bind, awp_try.
  eapply awp_mono; [apply remountViaSetns_spec|].
  - intros. by apply may_remount_grows.
  - apply list_elem_of_filter in He as [Hb He]. apply Is_true_true, andb_true_iff in Hb as [Hd Hf].
    apply String.eqb_eq in Hd. exists entries, e. split_and!; eauto using read_table_grows.
    eapply of_pod_grows; [|by apply Hpods]. eauto using grown_trans.
  - intros r s' l' ->. by apply awp_ret.
Qed.
End repairs.

(** The thread of a replacement whose return to its own mount namespace fails is
    given back to the Go scheduler inside the container's: [UnlockOSThread] does
    not retire it. *)
Theorem thread_unlocked_in_container :
  ∃ host : ∀ X, hostE X → log → X,
    let out := run host (remountViaSetns (S := unit) 42 "/mnt" "/staging" "/" false tt) [] in
    is_ok out.1.1 = true ∧ last out.2 = Some (Obs UnlockThread tt) ∧ thread_ns out.2 = Some 42%Z.
Proof.
  exists (λ X e, match e in hostE Y return (log → Y) → log → Y with
                 | RestoreNS => λ _ _, Err (SysErr EPERM "operation not permitted")
                 | _ => λ answer, answer
                 end (exampleHost healthOK X e)).
  vm_compute. done.
Qed.
