(* ===== verification/Node.v ===== *)
(** * Volumes and the node service

    Models [pkg/driver/volume.go] and [nodeserver.go]: the volumes a node plugin
    tracks and the handlers that stage, publish, unpublish, unstage and expand
    them. A handler runs with the lock of its volume held, so it is a program
    over the tracked volumes. [recordMountRoots] and [forgetMountRoots] do
    nothing on Linux and are left out; statistics are in [VolumeStats]. *)

From S2P Require Import Prelude GoLib Hash Params Driver Controller MountFlags MountArgs Host MountUtil.
#[local] Open Scope go_scope.

(** ** Volumes *)
Record Volume := {
  VolumeId : string;
  StagedPath : string;
  unmounter : bool;                    (** is [unmounter] non-nil *)
  localSocket : string;
  healthFailCount : Z;
  unhealthyStreak : Z;
  abnormal : option string;
  publishPaths : gmap string bool;     (** target path to read-only *)
  volContext : option strmap;
  readOnly : bool;
}.

(** [NodeServer]: the part of its state that handlers change. *)
Definition Volumes : Type := gmap string Volume.

Definition set_staged (v : Volume) (p : string) (u : bool) : Volume := {|
  VolumeId := VolumeId v; StagedPath := p; unmounter := u; localSocket := localSocket v;
  healthFailCount := healthFailCount v; unhealthyStreak := unhealthyStreak v;
  abnormal := abnormal v; publishPaths := publishPaths v; volContext := volContext v;
  readOnly := readOnly v |}.

Definition set_context (v : Volume) (ctx : option strmap) (ro : bool) : Volume := {|
  VolumeId := VolumeId v; StagedPath := StagedPath v; unmounter := unmounter v;
  localSocket := localSocket v; healthFailCount := healthFailCount v;
  unhealthyStreak := unhealthyStreak v; abnormal := abnormal v;
  publishPaths := publishPaths v; volContext := ctx; readOnly := ro |}.

Definition set_paths (v : Volume) (ps : gmap string bool) : Volume := {|
  VolumeId := VolumeId v; StagedPath := StagedPath v; unmounter := unmounter v;
  localSocket := localSocket v; healthFailCount := healthFailCount v;
  unhealthyStreak := unhealthyStreak v; abnormal := abnormal v; publishPaths := ps;
  volContext := volContext v; readOnly := readOnly v |}.

Definition set_health (v : Volume) (fails streak : Z) (abn : option string) : Volume := {|
  VolumeId := VolumeId v; StagedPath := StagedPath v; unmounter := unmounter v;
  localSocket := localSocket v; healthFailCount := fails; unhealthyStreak := streak;
  abnormal := abn; publishPaths := publishPaths v; volContext := volContext v;
  readOnly := readOnly v |}.

Definition AddPublishPath (v : Volume) (path : string) (ro : bool) : Volume :=
  set_paths v (<[path := ro]> (publishPaths v)).
Definition RemovePublishPath (v : Volume) (path : string) : Volume :=
  set_paths v (delete path (publishPaths v)).
Definition HasPublishPath (v : Volume) (path : string) : bool :=
  bool_decide (is_Some (publishPaths v !! path)).

(** An [int32] counter. *)
Definition int32_add (z d : Z) : Z := ((z + d + 2 ^ 31) mod 2 ^ 32 - 2 ^ 31)%Z.

Definition noteUnhealthy (v : Volume) : Volume :=
  set_health v (healthFailCount v) (int32_add (unhealthyStreak v) 1) (abnormal v).
Definition noteHealthy (v : Volume) : Volume := set_health v (healthFailCount v) 0 None.
Definition setAbnormal (v : Volume) (message : string) : Volume :=
  set_health v (healthFailCount v) (unhealthyStreak v) (Some message).
Definition setFailCount (v : Volume) (n : Z) : Volume :=
  set_health v n (unhealthyStreak v) (abnormal v).

Section node.
Context {MU : MountUtils} {MR : MapRange}.
Context (Driver : SeaweedFsDriver).
#[local] Abbreviation act := (Host.act Volumes).

Definition NewVolume (volumeID : string) : Volume := {|
  VolumeId := volumeID; StagedPath := ""; unmounter := false;
  localSocket := LocalSocketPath (volumeSocketDir Driver) volumeID; healthFailCount := 0;
  unhealthyStreak := 0; abnormal := None; publishPaths := ∅; volContext := None;
  readOnly := false |}.

(** [Stage] with the volume's mounter: the staged volume. *)
Definition Stage (vol : Volume) (mounter : mountServiceMounter) (stagingTargetPath : string)
    : act Volume :=
  do! isMnt := checkMount stagingTargetPath in
  (if isMnt then
     do! r := atry (unmountVolume stagingTargetPath) in
     if is_ok r then resetStatfsProbe stagingTargetPath else aret tt
   else aret tt) ;;>
  do! req := alift (mount_request mounter stagingTargetPath) in
  call (SvcMount req) ;;>
  aret (set_staged vol stagingTargetPath true).

Definition Publish (stagingTargetPath targetPath : string) (ro : bool) : act unit :=
  do! isMnt := checkMount targetPath in
  if isMnt then aret tt else defaultBindMount stagingTargetPath targetPath ro.

(** A size of one byte stands for no quota. *)
Definition quota_of (sizeByte : Z) : Z := if (sizeByte =? 1)%Z then 0%Z else sizeByte.
Definition Quota (vol : Volume) (sizeByte : Z) : act unit :=
  call (Configure (localSocket vol) (quota_of sizeByte)).

Definition Unpublish (targetPath : string) : act unit :=
  cleanupMountPoint targetPath ;;> resetStatfsProbe targetPath.

(** [CleanupVolumeResources]: failures are logged only. *)
Definition cacheBaseOf : string :=
  if String.eqb (CacheDir Driver) "" then TempDir else CacheDir Driver.

Definition CleanupVolumeResources (volumeID : string) : act unit :=
  let cleanCacheDir := Path.Clean (GetCacheDir (CacheDir Driver) volumeID) in
  match Path.Rel (Path.Clean cacheBaseOf) cleanCacheDir with
  | Some rel =>
      if negb (String.eqb rel ".") && negb (Strings.HasPrefix rel "..") then
        do! _ := atry (call (RemoveAll cleanCacheDir)) in aret tt
      else aret tt
  | None => aret tt
  end ;;>
  do! _ := atry (call (Remove (GetLocalSocket (volumeSocketDir Driver) volumeID))) in
  aret tt.

Definition Unstage (vol : Volume) (stagingTargetPath : string) : act unit :=
  (if negb (unmounter vol) then cleanupMountPoint stagingTargetPath
   else call (SvcUnmount (VolumeId vol)) ;;> removeIfExists stagingTargetPath) ;;>
  resetStatfsProbe stagingTargetPath ;;>
  CleanupVolumeResources (VolumeId vol).

(** ** Staging *)
Definition resolveVolumeCapacity (volumeID : string) (ctx : strmap) : act (option Z) :=
  do! fromAPI := atry (call (Capacity volumeID)) in
  match fromAPI with
  | Ok capacity => aret (Some capacity)
  | Err _ =>
      let value := get ctx volumeCapacityKey in
      if String.eqb value "" then aret None
      else match Strconv.ParseInt value with
           | Some capacity =>
               if (capacity <? 0)%Z then
                 afail (Errorf ("invalid " +:+ volumeCapacityKey +:+ " value " +:+ Strconv.Quote value))
               else aret (Some capacity)
           | None =>
               afail (Errorf ("invalid " +:+ volumeCapacityKey +:+ " value " +:+ Strconv.Quote value))
           end
  end.

(** The context a volume is mounted with, before its capacity is filled in. *)
Definition effectiveContext (volumeID : string) (ctx : strmap) : act strmap :=
  do! persisted := awith_err (λ e, Errorf ("reading persisted volume attributes for "
                                +:+ volumeID +:+ ": " +:+ err_msg e))
                     (call (LoadVac volumeID)) in
  let ctx := if bool_decide (persisted = ∅) then ctx
             else mergePersistedVolumeAttributes ctx persisted in
  let invalid e := Errorf ("invalid argument: " +:+ err_msg e) in
  alift (rmap_err invalid (validateConstrainedParameterValues ctx)) ;;>
  alift (rmap_err invalid (validateWritebackDlmCombo ctx)) ;;>
  aret ctx.

Definition stageNewVolume (volumeID stagingTargetPath : string) (ctx : strmap) (ro : bool)
    : act Volume :=
  do! ctx := effectiveContext volumeID ctx in
  do! capacity := resolveVolumeCapacity volumeID ctx in
  let ctx := match capacity with
             | Some c => <[volumeCapacityKey := Strconv.FormatInt c]> ctx
             | None => ctx
             end in
  do! mounter := alift (newMounter volumeID ro Driver ctx) in
  let volume := set_context (NewVolume volumeID) (Some ctx) ro in
  do! volume := Stage volume mounter stagingTargetPath in
  match capacity with
  | None => aret volume
  | Some c =>
      do! r := atry (Quota volume c) in
      match r with
      | Ok _ => aret volume
      | Err e => atry (Unstage volume stagingTargetPath) ;;> afail e
      end
  end.

Definition rebuildVolumeFromStaging (volumeID stagingPath : string) : Volume :=
  set_staged (NewVolume volumeID) stagingPath false.

(** ** Health checks of staging paths ([health_monitor.go]) *)
Definition maxZ (a b : Z) : Z := if (a <? b)%Z then b else a.

(** [checkHealthUnanswered]. *)
Definition checkHealthUnanswered (path : string) : act (healthResult * Z) :=
  do! start := ask (HealthProbe path) in
  do! done := ask (AwaitHealth path) in
  match done with
  | Some healthSlow =>
      do! unanswered := statfsProbeUnanswered path in aret (healthSlow, unanswered)
  | Some r => aret (r, 0%Z)
  | None =>
      do! now := ask Now in
      do! statfs := statfsProbeUnanswered path in
      aret (healthSlow, maxZ (now - start) statfs)
  end.

Definition checkHealth (path : string) : act healthResult :=
  do! r := checkHealthUnanswered path in aret r.1.

Definition requireHealthyStaging (volumeID stagingPath : string) : act unit :=
  do! result := checkHealth stagingPath in
  if bool_decide (result = healthOK) then aret tt
  else afail (Status Unavailable ("volume " +:+ volumeID +:+ " staging path " +:+ stagingPath
         +:+ " is not ready (" +:+ health_String result +:+ "); retry after recovery")).

(** ** Handlers *)
Definition store (volumeID : string) (v : Volume) : act unit :=
  amodify (λ s, <[volumeID := v]> s).

(** The access mode of a request's capability, if it has one. *)
Definition cap_read_only (cap : option VolumeCapability) : bool :=
  match cap with
  | Some c => match AccessMode_ c with Some m => isReadOnlyAccessMode m | None => false end
  | None => false
  end.
Definition isPublishVolumeReadOnly (req_readonly : bool) (cap : option VolumeCapability) : bool :=
  req_readonly || cap_read_only cap.

(** The status code a failed stage is answered with. *)
Definition stage_status (err : error) : error :=
  if is_permission err then Status PermissionDenied (err_msg err)
  else if Strings.Contains (err_msg err) "invalid argument" then
    Status InvalidArgument (err_msg err)
  else Status Internal (err_msg err).

Record StageRequest := {
  s_volume : string; s_path : string; s_cap : option VolumeCapability; s_context : option strmap }.

Definition NodeStageVolume (req : StageRequest) : act unit :=
  let volumeID := s_volume req in
  let path := s_path req in
  alift (guard_err (bool_decide (s_cap req = None))
           (Status InvalidArgument "Volume capability missing in request")) ;;>
  alift (guard_err (String.eqb volumeID "")
           (Status InvalidArgument "Volume ID missing in request")) ;;>
  alift (guard_err (String.eqb path "")
           (Status InvalidArgument "Target path missing in request")) ;;>
  do! tracked := agets (λ s, s !! volumeID) in
  match tracked with
  | Some _ => requireHealthyStaging volumeID path
  | None =>
      do! healthy := isStagingPathHealthy path in
      if healthy then
        store volumeID (set_context (rebuildVolumeFromStaging volumeID path) (s_context req)
                          (cap_read_only (s_cap req)))
      else
        do! st := atry (call (Stat path)) in
        (if match st with Ok _ => true | Err e => IsCorruptedMnt e end then
           awith_err (λ e, Status Internal ("failed to cleanup stale staging path " +:+ path
                             +:+ ": " +:+ err_msg e))
             (cleanupStaleStagingPath path)
         else aret tt) ;;>
        do! volume := awith_err stage_status
                        (stageNewVolume volumeID path (default ∅ (s_context req))
                           (cap_read_only (s_cap req))) in
        store volumeID volume
  end.

Record PublishRequest := {
  p_volume : string; p_target : string; p_staging : string; p_cap : option VolumeCapability;
  p_context : option strmap; p_readonly : bool }.

(** The volume [NodePublishVolume] publishes: the tracked one, or one rebuilt
    from a healthy staging mount, or one staged again. *)
Definition publishedVolume (req : PublishRequest) : act Volume :=
  let volumeID := p_volume req in
  let staging := p_staging req in
  do! tracked := agets (λ s, s !! volumeID) in
  match tracked with
  | Some vol => requireHealthyStaging volumeID staging ;;> aret vol
  | None =>
      let ro := isPublishVolumeReadOnly (p_readonly req) (p_cap req) in
      do! healthy := isStagingPathHealthy staging in
      if healthy then
        let vol := set_context (rebuildVolumeFromStaging volumeID staging) (p_context req) ro in
        store volumeID vol ;;> aret vol
      else
        awith_err (λ e, Status Internal ("failed to cleanup stale staging path " +:+ staging
                          +:+ ": " +:+ err_msg e))
          (cleanupStaleStagingPath staging) ;;>
        do! vol := awith_err (λ e, Status Internal ("failed to re-stage volume: " +:+ err_msg e))
                     (stageNewVolume volumeID staging (default ∅ (p_context req)) ro) in
        store volumeID vol ;;> aret vol
  end.

Definition NodePublishVolume (req : PublishRequest) : act unit :=
  let volumeID := p_volume req in
  alift (guard_err (bool_decide (p_cap req = None))
           (Status InvalidArgument "Volume capability missing in request")) ;;>
  alift (guard_err (String.eqb volumeID "")
           (Status InvalidArgument "Volume ID missing in request")) ;;>
  alift (guard_err (String.eqb (p_target req) "")
           (Status InvalidArgument "Target path missing in request")) ;;>
  alift (guard_err (String.eqb (p_staging req) "")
           (Status InvalidArgument "Staging target path missing in request")) ;;>
  do! vol := publishedVolume req in
  awith_err (λ e, Status Internal (err_msg e))
    (Publish (p_staging req) (p_target req) (p_readonly req)) ;;>
  store volumeID (AddPublishPath vol (p_target req) (p_readonly req)).

Definition NodeUnpublishVolume (volumeID targetPath timestamp : string) : act unit :=
  alift (guard_err (String.eqb volumeID "")
           (Status InvalidArgument "Volume ID missing in request")) ;;>
  alift (guard_err (String.eqb targetPath "")
           (Status InvalidArgument "Target path missing in request")) ;;>
  do! tracked := agets (λ s, s !! volumeID) in
  match tracked with
  | None =>
      do! r := atry (unpublishTarget Driver timestamp targetPath cleanupMountPoint) in
      if is_ok r then resetStatfsProbe targetPath else aret tt
  | Some vol =>
      store volumeID (RemovePublishPath vol targetPath) ;;>
      awith_err (λ e, Status Internal (err_msg e))
        (unpublishTarget Driver timestamp targetPath Unpublish)
  end.

Definition NodeUnstageVolume (volumeID stagingTargetPath : string) : act unit :=
  alift (guard_err (String.eqb volumeID "")
           (Status InvalidArgument "Volume ID missing in request")) ;;>
  alift (guard_err (String.eqb stagingTargetPath "")
           (Status InvalidArgument "Target path missing in request")) ;;>
  do! tracked := agets (λ s, s !! volumeID) in
  match tracked with
  | None =>
      do! r := atry (cleanupMountPoint stagingTargetPath) in
      (if is_ok r then resetStatfsProbe stagingTargetPath else aret tt) ;;>
      CleanupVolumeResources volumeID
  | Some vol =>
      awith_err (λ e, Status Internal (err_msg e)) (Unstage vol stagingTargetPath) ;;>
      amodify (delete volumeID)
  end.

Definition NodeExpandVolume (volumeID volumePath : string) (requiredBytes : Z) : act unit :=
  alift (guard_err (String.eqb volumeID "")
           (Status InvalidArgument "Volume ID missing in request")) ;;>
  alift (guard_err (String.eqb volumePath "")
           (Status InvalidArgument "Volume path missing in request")) ;;>
  do! tracked := agets (λ s, s !! volumeID) in
  match tracked with
  | Some vol => Quota vol requiredBytes
  | None => aret tt
  end.

(** [nodeTopologySegments]: the configured keys the node has a label for. *)
Definition nodeTopologySegments : act strmap :=
  if bool_decide (TopologyKeys Driver = []) then aret ∅
  else
    do! labels := call (NodeLabels (nodeID Driver)) in
    aret (foldl (λ segments key, match labels !! key with
                                 | Some value => <[key := value]> segments
                                 | None => segments
                                 end) (∅ : strmap) (TopologyKeys Driver)).

(** The node's ID and, where it has any, its topology segments. *)
Definition NodeGetInfo : act (string * option strmap) :=
  do! segments := awith_err (λ e, Status Internal (err_msg e)) nodeTopologySegments in
  aret (nodeID Driver, if bool_decide (segments = ∅) then None else Some segments).
End node.

Inductive NodeRpc := STAGE_UNSTAGE_VOLUME | EXPAND_VOLUME | GET_VOLUME_STATS | VOLUME_CONDITION.
Definition NodeGetCapabilities : list NodeRpc :=
  [STAGE_UNSTAGE_VOLUME; EXPAND_VOLUME; GET_VOLUME_STATS; VOLUME_CONDITION].

(** ** The requests to the mount service are about the volume and its path *)
Section mounter_lemmas.
Context {MR : MapRange}.

Lemma mount_request_fields m target req :
  mount_request m target = Ok req → VolumeID req = m_volumeID m ∧ TargetPath req = target.
Proof.
  unfold mount_request. destruct (String.eqb target ""); [done|]. rewrite rbind_Ok.
  intros (args & _ & <-%Ok_inj). done.
Qed.

Lemma newMounter_volume volumeID ro d ctx m :
  newMounter volumeID ro d ctx = Ok m → m_volumeID m = volumeID.
Proof. unfold newMounter. rewrite rbind_Ok. by intros (? & _ & <-%Ok_inj). Qed.
End mounter_lemmas.

(** The laws of finite maps, at the type of the tracked volumes. *)
Lemma volumes_lookup (s : Volumes) v vol : (<[v := vol]> s) !! v = Some vol.
Proof. exact (lookup_insert_eq (M := gmap string) s v vol). Qed.
Lemma volumes_lookup_ne (s : Volumes) v v' vol : v ≠ v' → (<[v := vol]> s) !! v' = s !! v'.
Proof. exact (lookup_insert_ne (M := gmap string) s v v' vol). Qed.
Lemma volumes_insert2 (s : Volumes) v vol vol' :
  <[v := vol]> (<[v := vol']> s) = <[v := vol]> s.
Proof. exact (insert_insert_eq (M := gmap string) s v vol vol'). Qed.
Lemma volumes_delete (s : Volumes) v : delete v s !! v = None.
Proof. exact (lookup_delete_eq (M := gmap string) s v). Qed.
Lemma volumes_delete_ne (s : Volumes) v v' : v ≠ v' → delete v s !! v' = s !! v'.
Proof. exact (lookup_delete_ne (M := gmap string) s v v'). Qed.
Lemma volumes_insert_subseteq (s : Volumes) v vol : s !! v = None → s ⊆ <[v := vol]> s.
Proof. exact (insert_subseteq (M := gmap string) s v vol). Qed.
Lemma volumes_weaken (s s' : Volumes) v vol : s ⊆ s' → s !! v = Some vol → s' !! v = Some vol.
Proof. intros Hs Hv. exact (lookup_weaken (M := gmap string) s s' v vol Hv Hs). Qed.
