(* ===== verification/NodeSpec.v ===== *)
(** * What the node service promises

    The handlers of the node service against an abstract lifecycle of a volume,
    and the limits of what a handler does to the host. Both hold whatever the
    host answers. *)

From S2P Require Import Prelude GoLib Hash Params Driver Controller MountFlags MountArgs Host MountUtil Node.
#[local] Open Scope go_scope.

(** ** Requests *)
Inductive request :=
  | RStage (r : StageRequest)
  | RPublish (r : PublishRequest)
  | RUnpublish (volumeID target timestamp : string)
  | RUnstage (volumeID staging : string)
  | RExpand (volumeID path : string) (requiredBytes : Z).

Definition volume_of (q : request) : string :=
  match q with
  | RStage r => s_volume r
  | RPublish r => p_volume r
  | RUnpublish v _ _ | RUnstage v _ | RExpand v _ _ => v
  end.
Definition staging_of (q : request) : string :=
  match q with
  | RStage r => s_path r
  | RPublish r => p_staging r
  | RUnstage _ p => p
  | RUnpublish _ _ _ | RExpand _ _ _ => ""
  end.
Definition target_of (q : request) : string :=
  match q with
  | RPublish r => p_target r
  | RUnpublish _ t _ => t
  | _ => ""
  end.

(** The paths a request names. *)
Definition own_paths (q : request) : list string :=
  match q with
  | RStage _ | RUnstage _ _ => [staging_of q]
  | RPublish _ => [staging_of q; target_of q]
  | RUnpublish _ _ _ => [target_of q]
  | RExpand _ _ _ => []
  end.

Definition handle {MU : MountUtils} {MR : MapRange} (d : SeaweedFsDriver) (q : request)
    : act Volumes unit :=
  match q with
  | RStage r => NodeStageVolume d r
  | RPublish r => NodePublishVolume d r
  | RUnpublish v t ts => NodeUnpublishVolume d v t ts
  | RUnstage v p => NodeUnstageVolume d v p
  | RExpand v p n => NodeExpandVolume v p n
  end.

(** ** What is known of a staging path

    [Seen]: it was found to be a mount point. [Live]: a filesystem at it
    answered, or was just mounted, and it was not unmounted since. *)
Inductive view := Unseen | Seen | Live.
#[export] Instance view_eq_dec : EqDecision view.
Proof. solve_decision. Defined.

Section view.
Context {MU : MountUtils} (staging : string).

Definition vstep_event {X} (v : view) (e : hostE X) : X → view :=
  match e in hostE Y return Y → view with
  | AwaitHealth p => λ r,
      if decide (p = staging) then match r with Some healthOK => Live | _ => Unseen end else v
  | IsMountPoint p => λ r,
      if decide (p = staging) then
        match r with Ok true => if decide (v = Live) then Live else Seen | _ => Unseen end
      else v
  | AwaitStatfs p => λ r,
      if decide (p = staging) then
        match v, r with
        | Unseen, _ | _, None => Unseen
        | _, Some err => if isCorruptedMount err then Unseen else Live
        end
      else v
  | SvcMount req => λ r, if decide (TargetPath req = staging) then if is_ok r then Live else v else v
  | SvcUnmount _ => λ _, Unseen
  | Umount p | LazyUmount p | CleanupMountPoint p => λ _, if decide (p = staging) then Unseen else v
  | _ => λ _, v
  end.

Definition vstep (v : view) (o : obs) : view := match o with Obs e x => vstep_event v e x end.
Definition viewed (l : log) : view := foldl vstep Unseen l.

Lemma viewed_snoc l {X} (e : hostE X) x : viewed (l ++ [Obs e x]) = vstep_event (viewed l) e x.
Proof. unfold viewed. by rewrite foldl_app. Qed.
End view.

(** ** The limits of a handler *)
Section limits.
Context {MU : MountUtils} (d : SeaweedFsDriver) (q : request).

Definition cache_dir : string := Path.Clean (GetCacheDir (CacheDir d) (volume_of q)).

(** A path strictly below the cache base. *)
Definition below_cache_base (p : string) : Prop :=
  ∃ rel, Path.Rel (Path.Clean (cacheBaseOf d)) p = Some rel ∧ rel ≠ "." ∧
    Strings.HasPrefix rel ".." = false.

Definition quarantine_dir : string := Path.JoinPath [KubeletRootMount d; quarantineDirName].

(** The move of a publish target to the quarantine. *)
Definition quarantined (p dst : string) (l : log) : Prop :=
  ∃ rel entries timestamp,
    Path.Rel (Path.JoinPath [KubeletRootDir d; "pods"]) (target_of q) = Some rel ∧
    Strings.HasPrefix rel ".." = false ∧ rel ≠ "." ∧
    p = Path.JoinPath [KubeletRootMount d; "pods"; rel] ∧
    dst = Path.JoinPath [quarantine_dir; timestamp +:+ "-" +:+ quarantine_name rel] ∧
    Obs (IsLikelyNotMountPoint (target_of q)) (Ok true) ∈ l ∧
    Obs (ReadDir (target_of q)) (Ok entries) ∈ l ∧ entries ≠ [].

Definition within {X} (e : hostE X) (l : log) : Prop :=
  match e with
  | Umount p | LazyUmount p | CleanupMountPoint p => p ∈ own_paths q
  | Remove p => p = staging_of q ∨ p = GetLocalSocket (volumeSocketDir d) (volume_of q)
  | RemoveAll p => p = cache_dir ∧ below_cache_base p
  | MkdirAll p => p ∈ own_paths q ∨ p = quarantine_dir
  | Rename p dst => quarantined p dst l
  | Bind src dst ro =>
      src = staging_of q ∧ dst = target_of q ∧ (src ≠ dst → viewed src l = Live) ∧
      match q with RPublish r => ro = p_readonly r | _ => False end
  | SvcMount req => VolumeID req = volume_of q ∧ TargetPath req = staging_of q
  | SvcUnmount v => v = volume_of q
  | NewUnmounter _ | Setns _ | NsUmount _ | NsMoveMount _ | NsReadOnly _ => False
  | _ => True
  end.

Definition limits : policy := λ X e l, within e l.
End limits.

(** ** The abstract lifecycle

    A volume is not staged ([None]) or staged with the publish targets and
    whether each is read-only. *)
Definition lifecycle : Type := option (gmap string bool).

Definition abstract (s : Volumes) (v : string) : lifecycle := publishPaths <$> s !! v.

(** What a request does to its volume: [a] before, [a'] after. *)
Definition promised (q : request) (ok : bool) (a a' : lifecycle) : Prop :=
  match q, ok with
  | RStage _, true => a' = Some (default ∅ a)
  | RStage _, false => a' = a
  | RPublish r, true => a' = Some (<[p_target r := p_readonly r]> (default ∅ a))
  | RPublish _, false => a' = a ∨ a = None ∧ a' = Some ∅
  | RUnpublish v t _, _ =>
      a' = if String.eqb v "" || String.eqb t "" then a else delete t <$> a
  | RUnstage _ _, true => a' = None
  | RUnstage _ _, false => a' = a
  | RExpand _ _ _, _ => a' = a
  end.

(** The volumes are filed under their IDs; one with an unmounter was staged. *)
Definition volumes_ok (s : Volumes) : Prop :=
  ∀ v vol, s !! v = Some vol → VolumeId vol = v.

(** ** The helpers keep the limits *)
Section helpers.
Context {MU : MountUtils} {MR : MapRange} (d : SeaweedFsDriver) (q : request).
#[local] Abbreviation twp := (awp (S := Volumes) (limits d q)).
#[local] Abbreviation staging := (staging_of q).

(** An action within the limits that keeps the tracked volumes. *)
#[local] Abbreviation keeps := (Host.keeps (S := Volumes) (limits d q)).

Ltac keep := keeps_step; unfold limits; cbn [within]; auto.
Ltac keep_all := repeat keep; try done.

Lemma checkMount_keeps p : p ∈ own_paths q → keeps (checkMount p).
Proof. intros Hp. unfold checkMount, resetStatfsProbe. keep_all. Qed.

Lemma stagingPathHealth_keeps p : keeps (stagingPathHealth p).
Proof. unfold stagingPathHealth, probeStatfs. keep_all. Qed.

Lemma cleanupCorruptedStagingPath_keeps :
  staging ∈ own_paths q → keeps (cleanupCorruptedStagingPath staging).
Proof.
  intros Hp. unfold cleanupCorruptedStagingPath, removeIfExists, lazyUnmount, resetStatfsProbe. keep_all.
Qed.

Lemma cleanupStaleStagingPath_keeps :
  staging ∈ own_paths q → keeps (cleanupStaleStagingPath staging).
Proof.
  intros Hp. unfold cleanupStaleStagingPath, removeIfExists, resetStatfsProbe.
  repeat first [by apply cleanupCorruptedStagingPath_keeps | keep]; done.
Qed.

Lemma CleanupVolumeResources_keeps : keeps (CleanupVolumeResources d (volume_of q)).
Proof.
  unfold CleanupVolumeResources. fold (cache_dir d q).
  apply keeps_bind; [|intros []; keep_all].
  destruct (Path.Rel _ _) as [rel|] eqn:Hrel; [|keep_all].
  destruct (negb _ && negb _) eqn:Hb; [|keep_all].
  apply andb_true_iff in Hb as [H1%negb_true_iff H2%negb_true_iff]. apply String.eqb_neq in H1.
  apply keeps_bind; [|intros; keep_all]. apply keeps_try, keeps_call. intros l. split; [done|].
  by exists rel.
Qed.

Lemma Unstage_keeps vol :
  VolumeId vol = volume_of q → staging ∈ own_paths q → keeps (Unstage d vol staging).
Proof.
  intros Hv Hp. unfold Unstage, cleanupMountPoint, removeIfExists, resetStatfsProbe. rewrite Hv.
  repeat first [apply CleanupVolumeResources_keeps | keep]; done.
Qed.

Lemma effectiveContext_keeps v ctx : keeps (effectiveContext v ctx).
Proof. unfold effectiveContext. keep_all. Qed.
Lemma resolveVolumeCapacity_keeps v ctx : keeps (resolveVolumeCapacity v ctx).
Proof. unfold resolveVolumeCapacity. keep_all. Qed.

(** ** Evidence of a live staging mount *)
Ltac view_simpl := rewrite ?viewed_snoc; cbn [vstep_event]; rewrite ?decide_True by done.

Lemma isStagingPathHealthy_spec p s l :
  twp (isStagingPathHealthy p) (λ r s' l', s' = s ∧
    ∃ b, r = Ok b ∧ (b = true → viewed p l' = Live)) s l.
Proof.
  unfold isStagingPathHealthy, stagingPathHealth, probeStatfs.
  assert (∀ h l', h ≠ healthOK →
    twp (aret (bool_decide (h = healthOK))) (λ r s' l', s' = s ∧
      ∃ b, r = Ok b ∧ (b = true → viewed p l' = Live)) s l') as Hno.
  { intros h l' Hh. apply awp_ret. split; [done|]. eexists. split; [done|].
    by intros H%bool_decide_eq_true. }
  apply awp_bind, awp_bind, awp_try, awp_call; [done|]. intros [[]|e]; cbn [negb]; try by apply Hno.
  apply awp_bind, awp_try, awp_call; [done|]. intros [[]|e]; try by apply Hno.
  apply awp_bind, awp_ask; [done|]. intros [err|]; [|by apply Hno].
  apply awp_ret. destruct (isCorruptedMount err) eqn:Herr; [by apply Hno|].
  apply awp_ret. split; [done|]. eexists. split; [done|]. intros _.
  view_simpl. rewrite Herr. by destruct (decide _).
Qed.

Lemma requireHealthyStaging_spec v p s l :
  twp (requireHealthyStaging v p) (λ r s' l', s' = s ∧ (is_ok r = true → viewed p l' = Live)) s l.
Proof.
  unfold requireHealthyStaging, checkHealth, checkHealthUnanswered, statfsProbeUnanswered.
  apply awp_bind, awp_bind, awp_bind, awp_ask; [done|]. intros start.
  apply awp_bind, awp_ask; [done|].
  set (l1 := l ++ _). intros r.
  destruct r as [[]|]; repeat (awp_step; try done); split; try done; cbn [is_ok]; intros;
    try (view_simpl; done); by exfalso.
Qed.

(** [checkMount] of another path leaves what is known of the staging path. *)
Lemma checkMount_viewed src p s l v :
  p ∈ own_paths q → src ≠ p → viewed src l = v →
  twp (checkMount p) (λ r s' l', s' = s ∧ viewed src l' = v) s l.
Proof.
  intros Hp Hne Hv. unfold checkMount, resetStatfsProbe.
  assert (∀ {X} (e : hostE X) x l1, viewed src l1 = v →
    match e with MkdirAll _ | ResetProbes _ => True | IsMountPoint p' | Umount p' => p' = p | _ => False end →
    viewed src (l1 ++ [Obs e x]) = v) as Hkeep.
  { intros X e x l1 Hl1 He. rewrite viewed_snoc, Hl1. destruct e; try done; subst; cbn;
      by rewrite decide_False. }
  apply awp_bind, awp_try, awp_call; [done|]. intros r.
  assert (viewed src (l ++ [Obs (IsMountPoint p) r]) = v) as H1 by (by apply Hkeep).
  destruct r as [b|e]; [by apply awp_ret|].
  destruct (is_not_exist e); [|destruct (IsCorruptedMnt e); [|by apply awp_fail]].
  - apply awp_bind, awp_call; [by left|]. intros r.
    assert (viewed src ((l ++ [Obs (IsMountPoint p) (Err e)]) ++ [Obs (MkdirAll p) r]) = v) as H2
      by (by apply Hkeep).
    destruct r; [by apply awp_ret|done].
  - apply awp_bind, awp_call; [done|]. intros r.
    match goal with |- context [?l1 ++ [Obs (Umount p) r]] =>
      assert (viewed src (l1 ++ [Obs (Umount p) r]) = v) as H2 by (by apply Hkeep) end.
    destruct r as [[]|e']; [|done].
    apply awp_bind, awp_ask; [done|]. intros [].
    apply awp_bind, awp_try, awp_call; [done|]. intros r. apply awp_ret. split; [done|].
    repeat (apply Hkeep; [|done]). done.
Qed.

Lemma Stage_live vol m s l :
  m_volumeID m = volume_of q → staging ∈ own_paths q →
  twp (Stage vol m staging) (λ r s' l', s' = s ∧
    ∀ v, r = Ok v → v = set_staged vol staging true ∧ viewed staging l' = Live) s l.
Proof.
  intros Hm Hp. unfold Stage, unmountVolume, resetStatfsProbe. apply awp_bind.
  apply keeps_use; [by apply checkMount_keeps|]. intros [isMnt|e] l1; [|by split]. apply awp_bind.
  apply keeps_use.
  { destruct isMnt; [|apply keeps_ret]. apply keeps_bind; [|intros r; destruct (is_ok r)].
    - by apply keeps_try, keeps_call.
    - by apply keeps_ask.
    - apply keeps_ret. }
  intros [[]|e] l2; [|by split]. apply awp_bind, awp_lift.
  destruct (mount_request m staging) as [req|e] eqn:Hreq; [|by split].
  apply mount_request_fields in Hreq as [Hv Ht].
  apply awp_bind, awp_call; [unfold limits; cbn [within]; split; congruence|].
  intros [[]|e]; [|by split]. apply awp_ret. split; [done|]. intros v [= <-]. split; [done|].
  by view_simpl.
Qed.

Lemma stageNewVolume_live ctx ro s l :
  staging ∈ own_paths q →
  twp (stageNewVolume d (volume_of q) staging ctx ro) (λ r s' l', s' = s ∧
    ∀ v, r = Ok v → VolumeId v = volume_of q ∧ publishPaths v = ∅ ∧ viewed staging l' = Live) s l.
Proof.
  intros Hp. unfold stageNewVolume. apply awp_bind, keeps_use; [apply effectiveContext_keeps|].
  intros [ctx1|e] l1; [|done]. apply awp_bind, keeps_use; [apply resolveVolumeCapacity_keeps|].
  intros [capacity|e] l2; [|done]. cbn zeta. apply awp_bind, awp_lift.
  set (ctx2 := match capacity with Some _ => _ | None => _ end).
  destruct (newMounter _ ro d ctx2) as [m|e] eqn:Hm; [|done].
  apply newMounter_volume in Hm as Hmv.
  apply awp_bind. eapply awp_mono; [by apply Stage_live|].
  intros [v|e] s3 l3 [-> Hv]; [|done]. destruct (Hv v eq_refl) as [-> Hl3].
  destruct capacity as [c|]; [|apply awp_ret; split; [done|]; intros v [= <-]; done].
  unfold Quota. apply awp_bind, awp_try, awp_call; [done|]. intros [[]|e].
  - apply awp_ret. split; [done|]. intros v [= <-]. by rewrite viewed_snoc.
  - apply awp_bind, awp_try. apply keeps_use; [by apply Unstage_keeps|]. intros r l4. by apply awp_fail.
Qed.
End helpers.

(** ** The handlers *)

(** The outcome of a request, in terms of the lifecycles. *)
Definition outcome (q : request) (s : Volumes) (r : result unit) (s' : Volumes) : Prop :=
  promised q (is_ok r) (abstract s (volume_of q)) (abstract s' (volume_of q)) ∧
  (∀ v, v ≠ volume_of q → s' !! v = s !! v) ∧
  volumes_ok s'.

Lemma outcome_same q s r :
  volumes_ok s → promised q (is_ok r) (abstract s (volume_of q)) (abstract s (volume_of q)) →
  outcome q s r s.
Proof. by split. Qed.

Lemma abstract_insert (s : Volumes) v vol : abstract (<[v := vol]> s) v = Some (publishPaths vol).
Proof. unfold abstract. by rewrite volumes_lookup. Qed.

Lemma outcome_store q s r vol :
  volumes_ok s → VolumeId vol = volume_of q →
  promised q (is_ok r) (abstract s (volume_of q)) (Some (publishPaths vol)) →
  outcome q s r (<[volume_of q := vol]> s).
Proof.
  intros Hs Hv Hp. split_and!.
  - by rewrite abstract_insert.
  - intros v Hne. by rewrite volumes_lookup_ne.
  - intros v vol'. destruct (decide (v = volume_of q)) as [->|Hne].
    + rewrite volumes_lookup. by intros [= <-].
    + rewrite volumes_lookup_ne by done. apply Hs.
Qed.

Section handlers.
Context {MU : MountUtils} {MR : MapRange} (d : SeaweedFsDriver).

(** A guard of a handler, which answers with a status. *)
Lemma awp_guard {A} ok b e (k : unit → act Volumes A) Q s l :
  (b = true → Q (Err e) s l) → (b = false → awp ok (k tt) Q s l) →
  awp ok (abind (alift (guard_err b e)) k) Q s l.
Proof. intros H1 H2. apply awp_bind, awp_lift. destruct b; [by apply H1|by apply H2]. Qed.

Lemma NodeStageVolume_spec req s l :
  volumes_ok s →
  awp (limits d (RStage req)) (NodeStageVolume d req) (λ r s' _, outcome (RStage req) s r s') s l.
Proof.
  intros Hs. set (q := RStage req).
  assert (staging_of q ∈ own_paths q) as Hp by (by left).
  assert (∀ r, is_ok r = false → outcome q s r s) as Herr
    by (intros r Hr; apply outcome_same; [done|]; by rewrite Hr).
  unfold NodeStageVolume. do 3 (apply awp_guard; [by intros; apply Herr|intros _]).
  apply awp_bind, awp_gets. destruct (s !! s_volume req) as [vol|] eqn:Hvol.
  { eapply awp_mono; [apply (requireHealthyStaging_spec d q)|]. intros [[]|e] s' l' [-> _]; [|by apply Herr].
    apply outcome_same; [done|]. unfold abstract. cbn. by rewrite Hvol. }
  assert (abstract s (volume_of q) = None) as Ha by (unfold abstract; cbn; by rewrite Hvol).
  apply awp_bind. eapply awp_mono; [apply (isStagingPathHealthy_spec d q)|].
  intros r s1 l1 (-> & b & -> & _). destruct b.
  { apply awp_modify. apply (outcome_store q); [done..|]. cbn [promised is_ok]. by rewrite Ha. }
  apply awp_bind, awp_try, awp_call; [done|]. intros st. apply awp_bind.
  apply (keeps_use (limits d q)).
  { destruct (match st with Ok _ => true | Err e => _ end); [|apply keeps_ret].
    by apply keeps_with_err, cleanupStaleStagingPath_keeps. }
  intros [[]|e] l2; [|by apply Herr].
  apply awp_bind, awp_with_err. eapply awp_mono; [by apply (stageNewVolume_live d q)|].
  intros [v|e] s3 l3 [-> Hv]; cbn [rmap_err]; [|by apply Herr].
  destruct (Hv v eq_refl) as (Hid & Hpaths & _). apply awp_modify.
  apply (outcome_store q); [done..|]. cbn [promised is_ok]. by rewrite Ha, Hpaths.
Qed.

(** What [NodePublishVolume] has in hand before it binds. *)
Lemma publishedVolume_spec req s l :
  let q := RPublish req in
  volumes_ok s →
  awp (limits d q) (publishedVolume d req) (λ r s' l',
    (is_ok r = false → s' = s) ∧
    ∀ vol, r = Ok vol → viewed (p_staging req) l' = Live ∧ VolumeId vol = p_volume req ∧
      (s' = s ∧ s !! p_volume req = Some vol ∨
       s !! p_volume req = None ∧ s' = <[p_volume req := vol]> s ∧ publishPaths vol = ∅)) s l.
Proof.
  intros q Hs. assert (staging_of q ∈ own_paths q) as Hp by (by left).
  unfold publishedVolume. apply awp_bind, awp_gets. destruct (s !! p_volume req) as [vol|] eqn:Hvol.
  { apply awp_bind. eapply awp_mono; [apply (requireHealthyStaging_spec d q)|].
    intros [[]|e] s' l' [-> Hl]; [|by split]. apply awp_ret. split; [done|]. intros v [= <-].
    split_and!; [by apply Hl|by apply Hs|by left]. }
  apply awp_bind. eapply awp_mono; [apply (isStagingPathHealthy_spec d q)|].
  intros r s1 l1 (-> & b & -> & Hb). destruct b.
  { apply awp_bind, awp_modify, awp_ret. split; [done|]. intros v [= <-].
    split_and!; [by apply Hb|done|by right]. }
  apply awp_bind, awp_with_err. apply (keeps_use (limits d q)); [by apply cleanupStaleStagingPath_keeps|].
  intros [[]|e] l2; cbn [rmap_err]; [|by split].
  apply awp_bind, awp_with_err. eapply awp_mono; [by apply (stageNewVolume_live d q)|].
  intros [v|e] s3 l3 [-> Hv]; cbn [rmap_err]; [|by split].
  destruct (Hv v eq_refl) as (Hid & Hpaths & Hl).
  apply awp_bind, awp_modify, awp_ret. split; [done|]. intros v' [= <-].
  split_and!; [done..|]. by right.
Qed.

(** The bind of a publish is made from a live staging mount. *)
Lemma Publish_spec req ro s l :
  let q := RPublish req in
  ro = p_readonly req → viewed (p_staging req) l = Live →
  awp (S := Volumes) (limits d q) (Publish (p_staging req) (p_target req) ro)
    (λ _ s' _, s' = s) s l.
Proof.
  intros q Hro Hl. unfold Publish, defaultBindMount. apply awp_bind.
  eapply (awp_mono _ _ (λ r s' l', s' = s ∧
    (p_staging req ≠ p_target req → viewed (p_staging req) l' = Live))).
  { destruct (decide (p_staging req = p_target req)) as [He|Hne].
    - apply (keeps_use (limits d q)); [apply checkMount_keeps; right; left|]. by split.
    - eapply awp_mono; [apply (checkMount_viewed d q (p_staging req)); [right; left|done..]|].
      intros r s' l' [-> Hl']. by split. }
  intros [b|e] s' l' [-> Hl']; [|done]. destruct b; [by apply awp_ret|].
  apply awp_call; [|done]. unfold limits. cbn [within]. done.
Qed.

Lemma NodePublishVolume_spec req s l :
  volumes_ok s →
  awp (limits d (RPublish req)) (NodePublishVolume d req) (λ r s' _, outcome (RPublish req) s r s') s l.
Proof.
  intros Hs. set (q := RPublish req).
  assert (∀ r, is_ok r = false → outcome q s r s) as Herr
    by (intros r Hr; apply outcome_same; [done|]; rewrite Hr; by left).
  unfold NodePublishVolume. do 4 (apply awp_guard; [by intros; apply Herr|intros _]).
  apply awp_bind. eapply awp_mono; [by apply publishedVolume_spec|].
  intros [vol|e] s1 l1 [He Hok]; [|rewrite (He eq_refl); by apply Herr].
  destruct (Hok vol eq_refl) as (Hl & Hid & Hcase).
  apply awp_bind, awp_with_err. eapply awp_mono; [by apply Publish_spec|].
  intros [[]|e] s2 l2 ->; cbn [rmap_err].
  - apply awp_modify. destruct Hcase as [[-> Hvol]|(Hnone & -> & Hempty)].
    + apply (outcome_store q); [done..|]. cbn. unfold abstract. cbn. by rewrite Hvol.
    + rewrite volumes_insert2. apply (outcome_store q); [done..|]. cbn. unfold abstract. cbn.
      by rewrite Hnone, Hempty.
  - destruct Hcase as [[-> Hvol]|(Hnone & -> & Hempty)]; [by apply Herr|].
    apply (outcome_store q); [done..|]. cbn. right. unfold abstract. cbn. by rewrite Hnone, Hempty.
Qed.

Lemma quarantineStaleTarget_spec q timestamp s l :
  target_of q ∈ own_paths q →
  awp (S := Volumes) (limits d q) (quarantineStaleTarget d timestamp (target_of q) (target_of q))
    (λ _ s' _, s' = s) s l.
Proof.
  intros Hp. unfold quarantineStaleTarget, isPathMounted.
  destruct (_ || _); [by apply awp_ret|]. destruct (Path.Rel _ _) as [rel|] eqn:Hrel; [|by apply awp_ret].
  destruct (String.eqb rel "." || _) eqn:Hb; [by apply awp_ret|].
  apply orb_false_iff in Hb as [H1%String.eqb_neq H2].
  apply awp_bind, awp_try, awp_bind, awp_call; [done|]. intros [notMnt|e]; [|by apply awp_ret].
  apply awp_ret. destruct notMnt; cbn [negb]; [|by apply awp_ret].
  apply awp_bind, awp_try, awp_call; [done|]. intros [entries|e]; [|by apply awp_ret].
  destruct entries as [|x entries]; [by apply awp_ret|].
  apply awp_bind, awp_try, awp_call; [by right|]. intros [[]|e]; [|by apply awp_ret].
  apply awp_bind, awp_try, awp_call; [|intros r; by apply awp_ret].
  exists rel, (x :: entries), timestamp. split_and!; try done.
  - apply elem_of_app. left. apply elem_of_app. left. apply elem_of_app. right. by left.
  - apply elem_of_app. left. apply elem_of_app. right. by left.
Qed.

Lemma unpublishTarget_spec q timestamp (cleanup : string → act Volumes unit) s l :
  target_of q ∈ own_paths q → keeps (limits d q) (cleanup (target_of q)) →
  awp (S := Volumes) (limits d q) (unpublishTarget d timestamp (target_of q) cleanup)
    (λ _ s' _, s' = s) s l.
Proof.
  intros Hp Hc. unfold unpublishTarget, resetStatfsProbe. apply awp_bind, awp_try.
  apply (keeps_use (limits d q)); [done|]. intros [[]|e] l1; [by apply awp_ret|].
  apply awp_bind. eapply awp_mono; [by apply quarantineStaleTarget_spec|].
  intros [m|e'] s2 l2 ->; [|done]. destruct (negb _); [|by apply awp_fail]. by apply awp_ask.
Qed.

Lemma NodeUnpublishVolume_spec v t ts s l :
  let q := RUnpublish v t ts in
  volumes_ok s →
  awp (limits d q) (NodeUnpublishVolume d v t ts) (λ r s' _, outcome q s r s') s l.
Proof.
  intros q Hs. assert (target_of q ∈ own_paths q) as Hp by (by left).
  unfold NodeUnpublishVolume.
  apply awp_guard; [intros Hv; apply outcome_same; [done|]; cbn; by rewrite Hv|intros Hv].
  apply awp_guard; [intros Ht; apply outcome_same; [done|]; cbn; by rewrite Hv, Ht|intros Ht].
  apply awp_bind, awp_gets. destruct (s !! v) as [vol|] eqn:Hvol.
  - apply awp_bind, awp_modify, awp_with_err.
    eapply awp_mono; [apply (unpublishTarget_spec q); [done|]|].
    { unfold Unpublish, cleanupMountPoint, resetStatfsProbe.
      apply keeps_bind; [apply keeps_call; intros; exact Hp|intros; by apply keeps_ask]. }
    intros r s' l' ->. apply (outcome_store q); [done|exact (Hs v vol Hvol)|].
    cbn. rewrite Hv, Ht. cbn. unfold abstract. by rewrite Hvol.
  - eapply (awp_mono _ _ (λ r s' _, s' = s)).
    + apply awp_bind, awp_try. eapply awp_mono; [apply (unpublishTarget_spec q); [done|]|].
      { apply keeps_call. intros. exact Hp. }
      intros r s' l' ->. destruct (is_ok r); [by apply awp_ask|by apply awp_ret].
    + intros r s' l' ->. apply outcome_same; [done|]. cbn. rewrite Hv, Ht. cbn. unfold abstract.
      by rewrite Hvol.
Qed.

Lemma NodeUnstageVolume_spec v p s l :
  let q := RUnstage v p in
  volumes_ok s →
  awp (limits d q) (NodeUnstageVolume d v p) (λ r s' _, outcome q s r s') s l.
Proof.
  intros q Hs. assert (staging_of q ∈ own_paths q) as Hp by (by left).
  assert (∀ r, is_ok r = false → outcome q s r s) as Herr
    by (intros r Hr; apply outcome_same; [done|]; by rewrite Hr).
  unfold NodeUnstageVolume. do 2 (apply awp_guard; [by intros; apply Herr|intros _]).
  apply awp_bind, awp_gets. destruct (s !! v) as [vol|] eqn:Hvol.
  - apply awp_bind, awp_with_err. apply (keeps_use (limits d q)).
    { apply (Unstage_keeps d q); [by apply Hs|done]. }
    intros [[]|e] l1; cbn [rmap_err]; [|by apply Herr]. apply awp_modify. split_and!.
    + cbn. unfold abstract. by rewrite volumes_delete.
    + intros v' Hne. by rewrite volumes_delete_ne.
    + intros v' vol'. destruct (decide (v = v')) as [->|Hne]; [by rewrite volumes_delete|].
      rewrite volumes_delete_ne by done. apply Hs.
  - unfold cleanupMountPoint, resetStatfsProbe. apply awp_bind, awp_try, awp_call; [done|].
    intros r. apply awp_bind. apply (keeps_use (limits d q)).
    { destruct (is_ok r); [by apply keeps_ask|apply keeps_ret]. }
    intros [[]|e] l1; [|by apply Herr]. apply (keeps_use (limits d q)); [apply CleanupVolumeResources_keeps|].
    intros [[]|e] l2; [|by apply Herr]. apply outcome_same; [done|]. cbn. unfold abstract.
    by rewrite Hvol.
Qed.

Lemma NodeExpandVolume_spec v p n s l :
  let q := RExpand v p n in
  volumes_ok s →
  awp (limits d q) (NodeExpandVolume v p n) (λ r s' _, outcome q s r s') s l.
Proof.
  intros q Hs. eapply (awp_mono _ _ (λ r s' _, s' = s)).
  - unfold NodeExpandVolume, Quota. do 2 (apply awp_guard; [done|intros _]).
    apply awp_bind, awp_gets. destruct (s !! v); [by apply awp_call|by apply awp_ret].
  - intros r s' l' ->. by apply outcome_same.
Qed.

Lemma handle_spec q s l :
  volumes_ok s →
  awp (limits d q) (handle d q) (λ r s' _, outcome q s r s') s l.
Proof.
  intros Hs. destruct q; cbn [handle].
  - by apply NodeStageVolume_spec.
  - by apply NodePublishVolume_spec.
  - by apply NodeUnpublishVolume_spec.
  - by apply NodeUnstageVolume_spec.
  - by apply NodeExpandVolume_spec.
Qed.
End handlers.

(** ** Serving requests *)
Section serving.
Context {MU : MountUtils} {MR : MapRange} (d : SeaweedFsDriver).

(** The node service serves requests one after the other. *)
Fixpoint serve (host : ∀ X, hostE X → log → X) (qs : list request) (s : Volumes) (l : log)
    : list (request * bool) * Volumes * log :=
  match qs with
  | [] => ([], s, l)
  | q :: qs =>
      let '((r, s'), l') := run host (handle d q s) l in
      let '(rs, s'', l'') := serve host qs s' l' in
      ((q, is_ok r) :: rs, s'', l'')
  end.

(** The lifecycles of all volumes, request by request. *)
Inductive follows : list (request * bool) → (string → lifecycle) → (string → lifecycle) → Prop :=
  | follows_nil A : follows [] A A
  | follows_cons q ok rs A A' A'' :
      promised q ok (A (volume_of q)) (A' (volume_of q)) →
      (∀ v, v ≠ volume_of q → A' v = A v) →
      follows rs A' A'' →
      follows ((q, ok) :: rs) A A''.

(** A node service that serves any requests on any host refines the lifecycle:
    a stage that succeeds adds the volume without publish targets, or keeps the
    one it has; a publish that succeeds records the target with its access mode;
    an unpublish forgets the target whatever becomes of the unmount; only an
    unstage that succeeds drops a volume. A request that fails changes nothing,
    except that a publish may have brought the volume's staging back. No request
    touches another volume. *)
Theorem node_refines_lifecycle (host : ∀ X, hostE X → log → X) (qs : list request)
    (s : Volumes) (l : log) :
  volumes_ok s →
  let '(rs, s', _) := serve host qs s l in
  volumes_ok s' ∧ map fst rs = qs ∧ follows rs (abstract s) (abstract s').
Proof.
  revert s l. induction qs as [|q qs IH]; intros s l Hs; cbn [serve].
  { split_and!; [done..|constructor]. }
  pose proof (wpp_run _ host _ _ _ (handle_spec d q s l Hs)) as Hout.
  destruct (run host (handle d q s) l) as [[r s1] l1]. cbn in Hout.
  destruct Hout as (Hp & Hframe & Hs1). specialize (IH s1 l1 Hs1).
  destruct (serve host qs s1 l1) as [[rs s2] l2]. destruct IH as (Hs2 & Hmap & Hf).
  split_and!; [done|by cbn; rewrite Hmap|]. econstructor; [exact Hp| |exact Hf].
  intros v Hne. unfold abstract. by rewrite Hframe.
Qed.

(** C6. Whatever the host answers, a handler stays within the limits of its
    request: it unmounts only the paths the request names, deletes recursively
    only the cache directory of the volume, which lies below the cache base,
    asks the mount service only about its own volume and staging path, and
    binds the target to nothing but a staging mount found alive in this request
    and not unmounted since; a target is moved aside only when it was found
    unmounted and not empty, and only from below the kubelet's pods. *)
Theorem node_stays_within_limits (q : request) (s : Volumes) :
  volumes_ok s → awp (limits d q) (handle d q) (λ _ _ _, True) s [].
Proof. intros Hs. eapply awp_mono; [by apply handle_spec|done]. Qed.
End serving.

Definition example_requests : list request := [
  RStage {| s_volume := "pvc-1"; s_path := "/staging/1";
            s_cap := Some {| AccessMode_ := None |}; s_context := None |};
  RPublish {| p_volume := "pvc-1"; p_target := "/pods/a"; p_staging := "/staging/1";
              p_cap := Some {| AccessMode_ := None |}; p_context := None; p_readonly := true |};
  RPublish {| p_volume := "pvc-1"; p_target := "/pods/b"; p_staging := "/staging/1";
              p_cap := Some {| AccessMode_ := None |}; p_context := None; p_readonly := false |};
  RUnpublish "pvc-1" "/pods/a" "t"].

#[local] Abbreviation example_serve :=
  (serve (MU := demo_utils) (MR := range_sorted) demo_driver (exampleHost healthOK)).

Definition example_end : list (request * bool) * Volumes * log := example_serve example_requests ∅ [].

Lemma node_refines_lifecycle_witness :
  volumes_ok ∅ ∧ map snd example_end.1.1 = [true; true; true; true] ∧
  abstract example_end.1.2 "pvc-1" = Some {["/pods/b" := false]} ∧
  (let '(rs, s', _) := example_serve example_requests ∅ [] in
   volumes_ok s' ∧ map fst rs = example_requests ∧ follows rs (abstract ∅) (abstract s')).
Proof.
  assert (volumes_ok ∅) as H0 by done.
  split; [exact H0|]. split; [vm_compute; reflexivity|]. split.
  - apply (bool_decide_unpack _). vm_compute. exact I.
  - exact (node_refines_lifecycle (MU := demo_utils) (MR := range_sorted) demo_driver
      (exampleHost healthOK) example_requests ∅ [] H0).
Defined.

Lemma node_stays_within_limits_witness :
  volumes_ok example_end.1.2 ∧
  awp (limits (MU := demo_utils) demo_driver (RUnstage "pvc-1" "/staging/1"))
    (handle (MU := demo_utils) (MR := range_sorted) demo_driver (RUnstage "pvc-1" "/staging/1"))
    (λ _ _ _, True) example_end.1.2 [].
Proof.
  assert (volumes_ok example_end.1.2) as H1.
  { apply (bool_decide_unpack (map_Forall (λ v vol, VolumeId vol = v) example_end.1.2)).
    vm_compute. exact I. }
  split; [exact H1|].
  exact (node_stays_within_limits (MU := demo_utils) (MR := range_sorted) demo_driver
    (RUnstage "pvc-1" "/staging/1") example_end.1.2 H1).
Defined.
