(* ===== verification/NodeSuccess.v ===== *)
(** * What a handler that succeeds has done

    A successful answer of the node service is backed by what the host answered:
    this file states the evidence for each handler. *)

From S2P Require Import Prelude GoLib Hash Params Driver Controller MountFlags MountArgs Host MountUtil Node NodeSpec.
#[local] Open Scope go_scope.

(** The evidence in the log of a request that was answered with success, the
    volumes before it being [s]. *)
Definition evidence {MU : MountUtils} (q : request) (s : Volumes) (l : log) : Prop :=
  match q with
  | RStage r => viewed (s_path r) l = Live
  | RPublish r =>
      Obs (Bind (p_staging r) (p_target r) (p_readonly r)) (Ok tt) ∈ l ∨
      Obs (IsMountPoint (p_target r)) (Ok true) ∈ l
  | RUnpublish v t _ =>
      is_Some (s !! v) →
      Obs (CleanupMountPoint t) (Ok tt) ∈ l ∨ ∃ p dst, Obs (Rename p dst) (Ok tt) ∈ l
  | RUnstage v p =>
      ∀ vol, s !! v = Some vol →
      if unmounter vol then Obs (SvcUnmount (VolumeId vol)) (Ok tt) ∈ l
      else Obs (CleanupMountPoint p) (Ok tt) ∈ l
  | RExpand v _ n =>
      ∀ vol, s !! v = Some vol → Obs (Configure (localSocket vol) (quota_of n)) (Ok tt) ∈ l
  end.

Section evidence.
Context {MU : MountUtils} {MR : MapRange} (d : SeaweedFsDriver).
#[local] Abbreviation twp := (awp (S := Volumes) anything).

Lemma elem_of_snoc (l : log) o : o ∈ l ++ [o].
Proof. apply elem_of_app. right. by left. Qed.
#[local] Hint Resolve elem_of_snoc : core.

(** The rest of an action does not take evidence away. *)
Lemma awp_still {A} (m : act Volumes A) (Q : result A → Volumes → log → Prop) s l o :
  o ∈ l → (∀ r s' l', o ∈ l' → Q r s' l') → twp m Q s l.
Proof. intros Ho HQ. eapply awp_mono; [apply awp_grows|]. auto. Qed.

(** An action of which only the result matters. *)
Lemma awp_whatever {A} (m : act Volumes A) (Q : result A → Volumes → log → Prop) s l :
  (∀ r s' l', Q r s' l') → twp m Q s l.
Proof. intros HQ. eapply awp_mono; [apply awp_grows|]. auto. Qed.

Lemma awp_limits {A} q (m : act Volumes A) Q s l : awp (limits d q) m Q s l → twp m Q s l.
Proof. apply wpp_weaken. done. Qed.

Lemma checkMount_evidence p s l :
  twp (checkMount p) (λ r s' l', r = Ok true → Obs (IsMountPoint p) (Ok true) ∈ l') s l.
Proof.
  unfold checkMount. apply awp_bind, awp_try, awp_call; [done|]. intros [b|e].
  { apply awp_ret. by intros [= ->]. }
  destruct (is_not_exist e); [|destruct (IsCorruptedMnt e); [|by apply awp_fail]].
  - apply awp_bind, awp_whatever. by intros [[]|e'] s' l'.
  - apply awp_bind, awp_whatever. intros [[]|e'] s' l'; [|done].
    apply awp_bind, awp_ask; [done|]. intros []. apply awp_bind, awp_try, awp_call; [done|].
    intros [b|e'']; apply awp_ret; intros [= ->]. done.
Qed.

Lemma Publish_evidence src dst ro s l :
  twp (Publish src dst ro) (λ r s' l', is_ok r = true →
    Obs (Bind src dst ro) (Ok tt) ∈ l' ∨ Obs (IsMountPoint dst) (Ok true) ∈ l') s l.
Proof.
  unfold Publish, defaultBindMount. apply awp_bind. eapply awp_mono; [apply checkMount_evidence|].
  intros [[]|e] s' l' Hl; [| |done].
  - apply awp_ret. intros _. right. by apply Hl.
  - apply awp_call; [done|]. intros [[]|e]; [|done]. intros _. by left.
Qed.

Lemma quarantine_evidence t ts p s l :
  twp (quarantineStaleTarget d ts t p) (λ r s' l', ∀ dst, r = Ok dst → dst ≠ "" →
    ∃ src, Obs (Rename src dst) (Ok tt) ∈ l') s l.
Proof.
  assert (∀ s l, twp (aret "") (λ r s' l', ∀ dst, r = Ok dst → dst ≠ "" →
    ∃ src, Obs (Rename src dst) (Ok tt) ∈ l') s l) as Hno
    by (intros; apply awp_ret; by intros dst [= <-]).
  unfold quarantineStaleTarget. destruct (_ || _); [apply Hno|].
  destruct (Path.Rel _ _); [|apply Hno]. destruct (_ || _); [apply Hno|].
  apply awp_bind, awp_whatever. intros [[[]|]|e] s1 l1; try apply Hno; [|done].
  apply awp_bind, awp_try, awp_call; [done|]. intros [[|x es]|e]; try apply Hno.
  apply awp_bind, awp_try, awp_call; [done|]. intros [[]|e]; [|apply Hno].
  apply awp_bind, awp_try, awp_call; [done|]. intros [[]|e]; [|apply Hno].
  apply awp_ret. intros dst [= <-] _. by eexists.
Qed.

Lemma unpublishTarget_evidence ts t cleanup s l :
  (∀ s l, twp (cleanup t) (λ r s' l', is_ok r = true → Obs (CleanupMountPoint t) (Ok tt) ∈ l') s l) →
  twp (unpublishTarget d ts t cleanup) (λ r s' l', is_ok r = true →
    Obs (CleanupMountPoint t) (Ok tt) ∈ l' ∨ ∃ p dst, Obs (Rename p dst) (Ok tt) ∈ l') s l.
Proof.
  intros Hc. unfold unpublishTarget. apply awp_bind, awp_try. eapply awp_mono; [apply Hc|].
  intros [[]|e] s1 l1 H1; [apply awp_ret; left; by apply H1|].
  apply awp_bind. eapply awp_mono; [apply quarantine_evidence|].
  intros [dst|e'] s2 l2 H2; [|done]. destruct (String.eqb dst "") eqn:Hd; cbn [negb].
  { by apply awp_fail. }
  apply String.eqb_neq in Hd. destruct (H2 dst eq_refl Hd) as [src Hs].
  apply (awp_still _ _ _ _ _ Hs). intros r s' l' Hl' _. right. eauto.
Qed.

Lemma Unstage_evidence vol p s l :
  twp (Unstage d vol p) (λ r s' l', is_ok r = true →
    if unmounter vol then Obs (SvcUnmount (VolumeId vol)) (Ok tt) ∈ l'
    else Obs (CleanupMountPoint p) (Ok tt) ∈ l') s l.
Proof.
  unfold Unstage, cleanupMountPoint. apply awp_bind. destruct (unmounter vol); cbn [negb].
  - apply awp_bind, awp_call; [done|]. intros [[]|e]; [|done].
    eapply awp_still; [apply elem_of_snoc|]. intros [[]|e] s1 l1 H1; [|done].
    by eapply awp_still.
  - apply awp_call; [done|]. intros [[]|e]; [|done]. eapply awp_still; [apply elem_of_snoc|].
    by intros r s' l'.
Qed.

Lemma NodeStageVolume_evidence req s l :
  twp (NodeStageVolume d req) (λ r s' l', is_ok r = true → evidence (RStage req) s l') s l.
Proof.
  assert (staging_of (RStage req) ∈ own_paths (RStage req)) as Hp by (by left).
  unfold NodeStageVolume. do 3 (apply awp_guard; [done|intros _]).
  apply awp_bind, awp_gets. destruct (s !! s_volume req) as [vol|].
  { eapply awp_mono; [apply (awp_limits (RStage req)), requireHealthyStaging_spec|].
    intros r s' l' [_ H]. exact H. }
  apply awp_bind. eapply awp_mono; [apply (awp_limits (RStage req)), isStagingPathHealthy_spec|].
  intros r s1 l1 (-> & b & -> & Hb). destruct b.
  { apply awp_modify. intros _. by apply Hb. }
  apply awp_bind, awp_try, awp_call; [done|]. intros st.
  apply awp_bind, awp_whatever. intros [[]|e] s2 l2; [|done].
  apply awp_bind, awp_with_err.
  eapply awp_mono; [by apply (awp_limits (RStage req)), (stageNewVolume_live d (RStage req))|].
  intros [v|e] s3 l3 [-> Hv]; cbn [rmap_err]; [|done]. apply awp_modify. intros _.
  by apply (Hv v eq_refl).
Qed.

Lemma NodePublishVolume_evidence req s l :
  twp (NodePublishVolume d req) (λ r s' l', is_ok r = true → evidence (RPublish req) s l') s l.
Proof.
  unfold NodePublishVolume. do 4 (apply awp_guard; [done|intros _]).
  apply awp_bind, awp_whatever. intros [vol|e] s1 l1; [|done].
  apply awp_bind, awp_with_err. eapply awp_mono; [apply Publish_evidence|].
  intros [[]|e] s2 l2 H; cbn [rmap_err]; [|done]. apply awp_modify. intros _. by apply H.
Qed.

Lemma NodeUnpublishVolume_evidence v t ts s l :
  twp (NodeUnpublishVolume d v t ts)
    (λ r s' l', is_ok r = true → evidence (RUnpublish v t ts) s l') s l.
Proof.
  unfold NodeUnpublishVolume. do 2 (apply awp_guard; [done|intros _]).
  apply awp_bind, awp_gets. destruct (s !! v) as [vol|] eqn:Hvol.
  - apply awp_bind, awp_modify, awp_with_err. eapply awp_mono; [apply unpublishTarget_evidence|].
    { intros s1 l1. unfold Unpublish, cleanupMountPoint. apply awp_bind, awp_call; [done|].
      intros [[]|e]; [|done]. eapply awp_still; [apply elem_of_snoc|]. by intros. }
    intros [[]|e] s' l' H; [|done]. intros _ _. by apply H.
  - apply awp_whatever. intros r s' l' _ [vol Hs]. congruence.
Qed.

Lemma NodeUnstageVolume_evidence v p s l :
  twp (NodeUnstageVolume d v p) (λ r s' l', is_ok r = true → evidence (RUnstage v p) s l') s l.
Proof.
  unfold NodeUnstageVolume. do 2 (apply awp_guard; [done|intros _]).
  apply awp_bind, awp_gets. destruct (s !! v) as [vol|] eqn:Hvol.
  - apply awp_bind, awp_with_err. eapply awp_mono; [apply Unstage_evidence|].
    intros [[]|e] s' l' H; [|done]. apply awp_modify. intros _ vol' Hs. simplify_eq. by apply H.
  - apply awp_whatever. intros r s' l' _ vol Hs. congruence.
Qed.

Lemma NodeExpandVolume_evidence v p n s l :
  twp (NodeExpandVolume v p n) (λ r s' l', is_ok r = true → evidence (RExpand v p n) s l') s l.
Proof.
  unfold NodeExpandVolume, Quota. do 2 (apply awp_guard; [done|intros _]).
  apply awp_bind, awp_gets. destruct (s !! v) as [vol|] eqn:Hvol.
  - apply awp_call; [done|]. intros [[]|e]; [|done]. intros _ vol' Hs. simplify_eq. done.
  - apply awp_ret. intros _ vol Hs. congruence.
Qed.

(** C10. A handler that answers with success has the host's word for it: after a
    stage, the filesystem at the staging path answered or was just mounted;
    after a publish, the bind succeeded or the target was a mount point; after
    an unpublish of a tracked volume, the target was unmounted or moved aside;
    after an unstage, the mount service unmounted the volume, or, for a volume
    rebuilt from its mount, the mount point was cleaned up; after an expansion,
    the mount took the new quota. *)
Theorem success_has_evidence (host : ∀ X, hostE X → log → X) (q : request) (s : Volumes) :
  let out := run host (handle d q s) [] in
  is_ok out.1.1 = true → evidence q s out.2.
Proof.
  cbv zeta.
  assert (twp (handle d q) (λ r s' l', is_ok r = true → evidence q s l') s []) as H.
  { destruct q; cbn [handle].
    - apply NodeStageVolume_evidence.
    - apply NodePublishVolume_evidence.
    - apply NodeUnpublishVolume_evidence.
    - apply NodeUnstageVolume_evidence.
    - apply NodeExpandVolume_evidence. }
  exact (wpp_run _ host _ _ _ H).
Qed.
End evidence.

(** A request that the example host serves. *)
Definition example_publish : PublishRequest := {|
  p_volume := "pvc-1"; p_target := "/pods/a"; p_staging := "/staging/1";
  p_cap := Some {| AccessMode_ := None |}; p_context := None; p_readonly := true |}.

Lemma success_has_evidence_witness :
  let out := run (exampleHost healthOK) (handle (MU := demo_utils) (MR := range_sorted) demo_driver
               (RPublish example_publish) ∅) [] in
  is_ok out.1.1 = true ∧ evidence (MU := demo_utils) (RPublish example_publish) ∅ out.2.
Proof.
  cbv zeta.
  assert (is_ok (run (exampleHost healthOK) (handle (MU := demo_utils) (MR := range_sorted)
    demo_driver (RPublish example_publish) ∅) []).1.1 = true) as H by (vm_compute; reflexivity).
  split; [exact H|].
  exact (success_has_evidence (MU := demo_utils) (MR := range_sorted) demo_driver
    (exampleHost healthOK) (RPublish example_publish) ∅ H).
Defined.
