(* ===== verification/CacheSweep.v ===== *)
(** * The sweep of orphaned cache directories

    Models [removeOrphanCacheDirs] of [pkg/driver/utils.go] and the helpers it
    uses. The sweep runs beside staging: it takes the cache lock for writing with
    [TryLock], which fails while a stage holds it for reading, and moves an
    orphan aside before it deletes it without the lock. *)

From S2P Require Import Prelude GoLib Hash Params Driver Controller MountFlags MountArgs Host MountUtil Node.
Import Strings.
#[local] Open Scope go_scope.

Definition removingCachePrefix : string := ".removing-".

Definition is_hex (c : ascii) : bool :=
  let z := code_of c in
  ((48 <=? z) && (z <=? 57) || (97 <=? z) && (z <=? 102) || (65 <=? z) && (z <=? 70))%Z.

(** The name of a cache directory: the hex form of a SHA-256. *)
Definition is_cache_name (name : string) : bool :=
  (String.length name =? 64) && forallb is_hex (String.list_ascii_of_string name).

Section sweep.
Context (d : SeaweedFsDriver).
#[local] Abbreviation act := (Host.act Volumes).

Definition kubeletHasStaged (cacheDirName : string) : act bool :=
  if String.eqb (StagingScanDir d) "" then aret false
  else
    do! r := atry (call (Stat (Path.JoinPath [StagingScanDir d; Driver.name d; cacheDirName]))) in
    aret (is_ok r).

Definition isCacheOfServedMount (cacheDirName : string) : act bool :=
  if negb (is_cache_name cacheDirName) then aret false
  else ask (DialUnix (LocalSocketPathForHash (volumeSocketDir d) cacheDirName)).

(** One entry of the cache base: the path to delete, if any. *)
Definition detachEntry (cacheBase : string) (keep : gset string) (e : string * bool)
    : act (option string) :=
  let name := e.1 in
  if String.eqb name sharedChunkCacheDirName then aret None
  else if HasPrefix name removingCachePrefix then aret (Some (Path.JoinPath [cacheBase; name]))
  else if bool_decide (name ∈ keep) then aret None
  else
    do! staged := kubeletHasStaged name in
    if staged then aret None
    else
      do! served := isCacheOfServedMount name in
      if served then aret None
      else
        do! now := ask Now in
        let aside := Path.JoinPath
          [cacheBase; removingCachePrefix +:+ name +:+ "-" +:+ Strconv.FormatInt now] in
        do! r := atry (call (Rename (Path.JoinPath [cacheBase; name]) aside)) in
        aret (match r with Ok _ => Some aside | Err _ => None end).

(** The cache directories of the tracked volumes. *)
Definition keep_of (cacheBase : string) (s : Volumes) : gset string :=
  list_to_set (map (λ v, Path.Base (GetCacheDir cacheBase v)) (map fst (map_to_list s))).

Definition detachOrphanCacheDirs (cacheBase : string) : act (list string * bool) :=
  do! locked := ask TryLockCaches in
  if negb locked then aret ([], false)
  else
    do! r := atry (
      do! keep := agets (keep_of cacheBase) in
      do! entries := atry (call (ReadDir cacheBase)) in
      match entries with
      | Err _ => aret []
      | Ok entries => do! ds := amap (detachEntry cacheBase keep) entries in aret (omap id ds)
      end) in
    ask UnlockCaches ;;>
    do! ds := alift r in
    aret (ds, true).

Definition removeOrphanCacheDirs : act unit :=
  if String.eqb (CacheDir d) "" then aret tt
  else
    let cacheBase := Path.Clean (CacheDir d) in
    if String.eqb cacheBase (Path.Clean TempDir) then aret tt
    else
      do! (detached, swept) := detachOrphanCacheDirs cacheBase in
      if negb swept then aret tt
      else amap (λ dir, atry (call (RemoveAll dir))) detached ;;> aret tt.
End sweep.

(** ** The sweep only removes orphans *)
Section safety.
Context (d : SeaweedFsDriver) (s : Volumes).
#[local] Abbreviation base := (Path.Clean (CacheDir d)).

(** Is the cache lock held, so that no volume is being staged? *)
Definition lock_event {X} (h : bool) (e : hostE X) : X → bool :=
  match e in hostE Y return Y → bool with
  | TryLockCaches => λ r, r
  | UnlockCaches => λ _, false
  | _ => λ _, h
  end.
Definition lock_held (l : log) : bool := foldl (λ h '(Obs e x), lock_event h e x) false l.

Lemma lock_held_snoc l {X} (e : hostE X) x : lock_held (l ++ [Obs e x]) = lock_event (lock_held l) e x.
Proof. unfold lock_held. by rewrite foldl_app. Qed.

(** Nothing is known to use the directory: it is not the shared chunk cache, it
    belongs to no tracked volume, kubelet has no staging directory for it, and
    nothing answers on the socket of its volume. *)
Definition orphan (name : string) (l : log) : Prop :=
  name ≠ sharedChunkCacheDirName ∧
  (∀ v, is_Some (s !! v) → name ≠ sha256_hex v) ∧
  (StagingScanDir d = "" ∨
   ∃ e, Obs (Stat (Path.JoinPath [StagingScanDir d; Driver.name d; name])) (Err e) ∈ l) ∧
  (is_cache_name name = false ∨
   Obs (DialUnix (LocalSocketPathForHash (volumeSocketDir d) name)) false ∈ l).

(** An entry of the cache base is moved aside only while no volume is being
    staged and only as an orphan; a path is deleted recursively only if its name
    says that it was moved aside, so that no volume's cache directory and not
    the shared chunk cache is ever deleted in place. A directory entry is a
    plain path element. *)
Definition sweep_allowed {X} (e : hostE X) (l : log) : Prop :=
  match e with
  | Rename p q =>
      lock_held l = true ∧ ∃ name, p = Path.JoinPath [base; name] ∧ orphan name l ∧
        (elem_ok name → ∀ v, is_Some (s !! v) → p ≠ GetCacheDir (CacheDir d) v)
  | RemoveAll p =>
      ∃ name, p = Path.JoinPath [base; name] ∧ HasPrefix name removingCachePrefix = true ∧
        (elem_ok name → p ≠ SharedChunkCacheDir (CacheDir d) ∧ ∀ v, p ≠ GetCacheDir (CacheDir d) v)
  | TryLockCaches | UnlockCaches | Stat _ | DialUnix _ | ReadDir _ | Now => True
  | _ => False
  end.

#[local] Abbreviation swp := (awp (S := Volumes) (λ X, @sweep_allowed X)).

(** *** Names below the cache base *)
Lemma JoinPath_abs p x :
  Path.IsAbs p = true → elem_ok x →
  ∃ l, Forall elem_ok l ∧ Path.Clean p = abs_path l ∧ Path.JoinPath [p; x] = abs_path (l ++ [x]).
Proof.
  intros Hp Hx. pose proof Hx as (Hx1 & _ & _ & Hx2).
  exists (Path.clean_elems true (Split p "/")). split_and!.
  - unfold Path.clean_elems. apply Forall_rev, foldl_push_rooted; [|done]. apply Split_pieces.
  - unfold Path.Clean. by rewrite Hp.
  - unfold Path.JoinPath. assert (p ≠ "") as Hne by (by intros ->).
    rewrite !filter_cons_True, filter_nil by done.
    change (Join [p; x] "/") with (p +:+ String "/" x).
    unfold Path.Clean. rewrite IsAbs_app by done. unfold Path.clean_elems.
    rewrite Split_app_sep, (Split_no_byte "/" x), clean_elems_app_ok by (done || by apply Forall_singleton).
    done.
Qed.

Lemma JoinPath_inj p x y :
  Path.IsAbs p = true → elem_ok x → elem_ok y →
  Path.JoinPath [Path.Clean p; x] = Path.JoinPath [p; y] → x = y.
Proof.
  intros Hp Hx Hy. destruct (JoinPath_abs p y Hp Hy) as (l & Hl & Hc & ->).
  rewrite Hc, JoinPath_abs_path by done. intros H. apply (f_equal Path.Base) in H.
  by rewrite !Base_abs_path in H.
Qed.

Lemma removing_not_hash name v : HasPrefix name removingCachePrefix = true → name ≠ sha256_hex v.
Proof.
  intros Hp ->. unfold HasPrefix in Hp. apply prefix_inv in Hp.
  assert (no_byte "." (sha256_hex v)) as Hn
    by (apply sha256_hex_no_byte; vm_compute; intuition discriminate).
  rewrite Hp in Hn.
  by apply no_byte_app in Hn as [[]%no_byte_cons _].
Qed.

Lemma hash_in_keep v :
  Path.IsAbs (CacheDir d) = true → is_Some (s !! v) → sha256_hex v ∈ keep_of base s.
Proof.
  intros Hp [vol Hv]. unfold keep_of. apply elem_of_list_to_set, list_elem_of_fmap.
  exists v. split.
  - unfold GetCacheDir. destruct (Clean_abs_elems _ Hp) as (l & Hl & ->).
    change (String.eqb (abs_path l) "") with false. cbv iota.
    rewrite JoinPath_abs_path by (done || apply sha256_hex_elem).
    by rewrite Base_abs_path by (done || apply sha256_hex_elem).
  - apply list_elem_of_fmap. exists (v, vol). split; [done|]. by apply elem_of_map_to_list.
Qed.

(** A path that the sweep may delete. *)
Definition aside_path (p : string) : Prop :=
  ∃ name, p = Path.JoinPath [base; name] ∧ HasPrefix name removingCachePrefix = true.

Lemma detachEntry_spec e l :
  Path.IsAbs (CacheDir d) = true → lock_held l = true →
  swp (detachEntry d base (keep_of base s) e)
    (λ r s' l', (s' = s ∧ lock_held l' = true) ∧ ∀ o, r = Ok o → ∀ p, o = Some p → aside_path p) s l.
Proof.
  intros Hp Hl. unfold detachEntry. set (name := e.1).
  destruct (String.eqb_spec name sharedChunkCacheDirName) as [Hc|Hc].
  { apply awp_ret. split; [done|]. by intros o [= <-]. }
  destruct (HasPrefix name removingCachePrefix) eqn:Hr.
  { apply awp_ret. split; [done|]. intros o [= <-] p [= <-]. by exists name. }
  case_bool_decide as Hk; [apply awp_ret; split; [done|]; by intros o [= <-]|].
  assert (∀ v, is_Some (s !! v) → name ≠ sha256_hex v) as Hv
    by (intros v Hv Heq; apply Hk; rewrite Heq; by apply hash_in_keep).
  apply awp_bind.
  eapply (awp_mono _ _ (λ r s' l', (s' = s ∧ lock_held l' = true) ∧ ∃ b, r = Ok b ∧ (b = false →
    StagingScanDir d = "" ∨
    ∃ e, Obs (Stat (Path.JoinPath [StagingScanDir d; Driver.name d; name])) (Err e) ∈ l'))).
  { unfold kubeletHasStaged. destruct (String.eqb_spec (StagingScanDir d) "") as [He|He].
    - apply awp_ret. split; [done|]. exists false. auto.
    - apply awp_bind, awp_try, awp_call; [done|]. intros r. apply awp_ret.
      rewrite lock_held_snoc. split; [done|]. exists (is_ok r). split; [done|].
      intros Hb. right. destruct r as [x|err]; [done|]. exists err. apply elem_of_app. right. by left. }
  intros r s1 l1 [[-> Hl1] (b & -> & Hb)]. destruct b; [apply awp_ret; split; [done|]; by intros o [= <-]|].
  specialize (Hb eq_refl). apply awp_bind.
  eapply (awp_mono _ _ (λ r s' l', (s' = s ∧ lock_held l' = true) ∧ ∃ b, r = Ok b ∧ (b = false →
    (StagingScanDir d = "" ∨
     ∃ e, Obs (Stat (Path.JoinPath [StagingScanDir d; Driver.name d; name])) (Err e) ∈ l') ∧
    (is_cache_name name = false ∨
     Obs (DialUnix (LocalSocketPathForHash (volumeSocketDir d) name)) false ∈ l')))).
  { unfold isCacheOfServedMount. destruct (is_cache_name name); cbn [negb].
    - apply awp_ask; [done|]. intros b. rewrite lock_held_snoc. split; [done|]. exists b.
      split; [done|]. intros ->. split.
      + destruct Hb as [Hb|[err Hb]]; [by left|]. right. exists err. apply elem_of_app. by left.
      + right. apply elem_of_app. right. by left.
    - apply awp_ret. split; [done|]. exists false. auto. }
  intros r s2 l2 [[-> Hl2] (b & -> & Hb')]. destruct b; [apply awp_ret; split; [done|]; by intros o [= <-]|].
  destruct (Hb' eq_refl) as [Hs Hd].
  apply awp_bind, awp_ask; [done|]. intros now. apply awp_bind, awp_try, awp_call.
  - split; [by rewrite lock_held_snoc|]. exists name. split; [done|]. split.
    + split_and!; [done|done| |].
      * destruct Hs as [Hs|[err Hs]]; [by left|]. right. exists err. apply elem_of_app. by left.
      * destruct Hd as [Hd|Hd]; [by left|]. right. apply elem_of_app. by left.
    + intros Hn v Hv' Heq. unfold GetCacheDir in Heq.
      assert (CacheDir d ≠ "") as Hne by (by intros He; rewrite He in Hp).
      apply String.eqb_neq in Hne. rewrite Hne in Heq.
      apply (Hv v Hv'). by apply (JoinPath_inj (CacheDir d)); [|done|apply sha256_hex_elem|].
  - intros r. apply awp_ret. rewrite !lock_held_snoc. split; [done|]. intros o [= <-] p Hr'.
    destruct r as [[]|err]; [|done]. injection Hr' as <-.
    exists (removingCachePrefix +:+ name +:+ "-" +:+ Strconv.FormatInt now). split; [done|].
    unfold HasPrefix. apply prefix_app.
Qed.

Lemma aside_path_allowed p :
  Path.IsAbs (CacheDir d) = true → aside_path p → ∀ l, sweep_allowed (RemoveAll p) l.
Proof.
  intros Hp (name & -> & Hr) l. exists name. split_and!; [done..|]. intros Hn.
  assert (CacheDir d ≠ "") as Hne by (intros He; by rewrite He in Hp). apply String.eqb_neq in Hne.
  unfold SharedChunkCacheDir, GetCacheDir. rewrite Hne. split.
  - intros Heq. assert (elem_ok sharedChunkCacheDirName) as Hc by (apply (bool_decide_unpack _); done).
    apply (JoinPath_inj (CacheDir d)) in Heq; [|done..]. by rewrite Heq in Hr.
  - intros v Heq. apply (JoinPath_inj (CacheDir d)) in Heq; [|done|done|apply sha256_hex_elem].
    by apply (removing_not_hash name v).
Qed.

Lemma detachOrphanCacheDirs_spec l :
  Path.IsAbs (CacheDir d) = true →
  swp (detachOrphanCacheDirs d base) (λ r s' l', s' = s ∧ lock_held l' = false ∧
    ∀ ds b, r = Ok (ds, b) → Forall aside_path ds) s l.
Proof.
  intros Hp. unfold detachOrphanCacheDirs. apply awp_bind, awp_ask; [done|]. intros locked.
  destruct locked; cbn [negb].
  2:{ apply awp_ret. rewrite lock_held_snoc. split_and!; [done..|]. by intros ds b [= <- <-]. }
  apply awp_bind, awp_try.
  eapply (awp_mono _ _ (λ r s' l', s' = s ∧ ∀ ds, r = Ok ds → Forall aside_path ds)).
  - apply awp_bind, awp_gets, awp_bind, awp_try, awp_call; [done|]. intros [entries|e].
    2:{ apply awp_ret. split; [done|]. by intros ds [= <-]. }
    apply awp_bind. eapply awp_mono.
    + apply (awp_map_results _ _ entries (λ s' l', s' = s ∧ lock_held l' = true)
        (λ o, ∀ p, o = Some p → aside_path p)).
      * intros x s' l' _ [-> Hl']. by apply detachEntry_spec.
      * split; [done|]. by rewrite !lock_held_snoc.
    + intros [ds|e] s' l' [[-> _] Hds]; [|by split]. apply awp_ret. split; [done|].
      intros ds' [= <-]. specialize (Hds ds eq_refl).
      induction Hds as [|o ds Ho Hds IH]; [constructor|]. cbn. destruct o as [p|]; [|done].
      constructor; [by apply Ho|done].
  - intros r s1 l1 [-> Hr]. apply awp_bind, awp_ask; [done|]. intros [].
    apply awp_bind, awp_lift. destruct r as [ds|e]; [apply awp_ret|];
      rewrite lock_held_snoc; (split_and!; [done..|]); [|done].
    intros ds' b [= <- <-]. by apply Hr.
Qed.

Lemma removeOrphanCacheDirs_spec l :
  Path.IsAbs (CacheDir d) = true → lock_held l = false →
  awp (S := Volumes) (λ X, @sweep_allowed X) (removeOrphanCacheDirs d)
    (λ _ s' l', s' = s ∧ lock_held l' = false) s l.
Proof.
  intros Hp Hl. unfold removeOrphanCacheDirs. destruct (String.eqb _ ""); [by apply awp_ret|].
  destruct (String.eqb base _); [by apply awp_ret|].
  apply awp_bind. eapply awp_mono; [by apply detachOrphanCacheDirs_spec|].
  intros [[ds b]|e] s1 l1 (-> & Hl1 & Hds); [|done]. destruct b; cbn [negb]; [|by apply awp_ret].
  specialize (Hds ds true eq_refl). apply awp_bind.
  eapply awp_mono; [apply (awp_map _ _ ds (λ s' l', s' = s ∧ lock_held l' = false)); [|done]|].
  - intros p s' l' Hin [-> Hl']. apply awp_try, awp_call.
    + apply aside_path_allowed; [done|]. by eapply Forall_forall in Hds.
    + intros r. by rewrite lock_held_snoc.
  - intros [us|e] s2 l2 [-> Hl2]; [by apply awp_ret|done].
Qed.
(** C13. The sweep of orphaned caches is safe beside staging, whatever the host
    answers: it moves an entry aside only while it holds the cache lock, so that
    no volume is between its mount and its record, and only when no tracked
    volume, no staging directory of kubelet and no answering weed mount claims
    it; the only paths it deletes carry the name of a moved directory, so that it
    never deletes the cache directory of any volume in place nor the shared chunk
    cache; it leaves the lock free. *)
Theorem cache_sweep_safe :
  Path.IsAbs (CacheDir d) = true →
  awp (S := Volumes) (λ X, @sweep_allowed X) (removeOrphanCacheDirs d)
    (λ _ s' l', s' = s ∧ lock_held l' = false) s [].
Proof. intros Hp. by apply removeOrphanCacheDirs_spec. Qed.
End safety.

(** ** An example *)

(** A cache base with a directory of the tracked volume, the shared chunk cache
    and an orphan; nothing is staged by kubelet and nothing answers. *)
Definition sweepHost (X : Type) (e : hostE X) : log → X :=
  match e in hostE Y return (log → Y) → log → Y with
  | ReadDir _ => λ _ _, Ok [(sha256_hex "pvc-1", true); ("chunks", true); (sha256_hex "gone", true)]
  | Stat _ => λ _ _, Err (SysErr ENOENT "no such file")
  | DialUnix _ => λ _ _, false
  | Now => λ _ _, 7%Z
  | _ => λ answer, answer
  end (exampleHost healthOK X e).

Definition sweep_driver : SeaweedFsDriver := {|
  Driver.name := "csi"; nodeID := "n"; Driver.version := ""; endpoint := ""; mountEndpoint := "";
  volumeSocketDir := "/run"; vcap := []; cscap := []; filers := []; filerIndex := 0;
  ConcurrentWriters := 0; ConcurrentReaders := 0; MountExtraArgs := []; CacheCapacityMB := 0;
  WriteBufferSizeMB := 0; CacheMetaTtlSec := 0; CacheDir := "/var/cache/"; UidMap := "";
  GidMap := ""; DataCenter := ""; DataLocality_ := DL_None; TopologyKeys := [];
  StagingScanDir := "/kubelet"; KubeletRootDir := ""; KubeletRootMount := "" |}.

Definition sweep_volumes : Volumes := {["pvc-1" := NewVolume sweep_driver "pvc-1"]}.
Definition sweep_out : (result unit * Volumes) * log :=
  run sweepHost (removeOrphanCacheDirs sweep_driver sweep_volumes) [].
Definition removed (l : log) : list string :=
  omap (λ '(Obs e _), match e with RemoveAll p => Some p | _ => None end) l.

Lemma cache_sweep_safe_witness :
  Path.IsAbs (CacheDir sweep_driver) = true ∧
  removed sweep_out.2 =
    [Path.JoinPath ["/var/cache"; ".removing-" +:+ sha256_hex "gone" +:+ "-7"]] ∧
  sweep_out.1.2 = sweep_volumes ∧ lock_held sweep_out.2 = false.
Proof.
  assert (Path.IsAbs (CacheDir sweep_driver) = true) as H by reflexivity.
  split; [exact H|]. split; [vm_compute; reflexivity|].
  exact (wpp_run _ sweepHost _ _ [] (cache_sweep_safe sweep_driver sweep_volumes H)).
Defined.
