(* ===== verification/CacheLock.v ===== *)
(** * The sweep of the caches beside the handlers

    Models the concurrency of [pkg/driver/cache_sweep.go]: the sweep of
    [removeOrphanCacheDirs] interleaved with stages, which hold the cache lock for
    reading ([holdCaches]), with publishes, recoveries, unstages and restarts of
    the plugin, which do not, with the mount service and with the lives of the weed
    mounts. A mount the plugin has asked for goes on at the service when the client of
    the plugin has given up on it, so a weed mount may start at any later time. What the
    sweep does to the host is in [CacheSweep]; the order of its steps here is
    that of [detachEntry]. A volume stands for its cache directory, whose name is
    the hash of the volume's ID; other entries of the cache base are passed over
    or deleted by name, as [CacheSweep] has it. *)

From S2P Require Import Prelude GoLib Params Driver.

(** The weed mount of a volume: started, or accepting connections on its local
    socket. *)
Inductive mount_state := Starting | Serving.

#[export] Instance mount_state_eq_dec : EqDecision mount_state.
Proof. solve_decision. Defined.

(** The goroutine of [startCacheSweeper]: in its select; with the lock; with the
    tracked volumes it keeps; at the entries that are left; at an entry that
    kubelet does not have staged; at one nothing answers for, which it moves aside
    next; deleting without the lock. *)
Inductive sweep_pc :=
  | SelectingTick
  | Locked
  | Kept (keep : gset string)
  | Entries (keep : gset string) (todo : list string)
  | Unstaged (keep : gset string) (v : string) (todo : list string)
  | Unserved (keep : gset string) (v : string) (todo : list string)
  | Deleting (detached : list string).

Record cstate := CState {
  recorded : gset string;                (** [ns.volumes] *)
  kubelet : gset string;                 (** volumes kubelet has a staging directory for *)
  mounts : gmap string mount_state;      (** the weed mounts of the node *)
  calls : gmap nat string;               (** Mount requests the mount service has not ended *)
  readers : gmap nat string;             (** stages inside [holdCaches], by goroutine *)
  sweeper : sweep_pc;
  detached : list string;                (** moved aside by this sweep *)
  exposed : gset string;                 (** volumes that left the protection of the lock *)
}.

(** A plugin that starts: the mounts on the node accept connections and are
    staged by kubelet. *)
Definition cinit (serving : gset string) : cstate :=
  CState ∅ serving (gset_to_gmap Serving serving) ∅ ∅ SelectingTick [] ∅.

Inductive clabel :=
  | KubeletStages (v : string)           (** the directory, before NodeStageVolume is called *)
  | KubeletForgets (v : string)          (** after NodeUnstageVolume returned success *)
  | Hold (t : nat) (v : string)          (** [cacheMu.RLock] of a stage *)
  | Ask (n : nat) (v : string)           (** a stage or a recovery calls [Client.Mount] *)
  | Start (n : nat)                      (** the service starts the weed mount, the caller waiting or not *)
  | Answer (n : nat)                     (** the service ends the request *)
  | Serve (v : string)
  | Die (v : string)
  | RecordStaged (t : nat)               (** [ns.volumes.Store] of a stage *)
  | Release (t : nat)                    (** [cacheMu.RUnlock] *)
  | Adopt (v : string)                   (** NodePublishVolume rebuilds a volume from a healthy mount *)
  | Forget (v : string)                  (** [ns.volumes.Delete] of NodeUnstageVolume *)
  | RestartPlugin
  | RecoverStaged (v : string)           (** staging recovery, before the first sweep *)
  | TryLock                              (** [cacheMu.TryLock] succeeds *)
  | RangeVolumes                         (** [ns.volumes.Range] *)
  | ReadEntries (entries : list string)  (** [os.ReadDir] *)
  | Keep                                 (** the entry is in [keep] *)
  | StatStaging                          (** [kubeletHasStaged] *)
  | DialMount                            (** [isCacheOfServedMount] *)
  | MoveAside (moved : bool)             (** [os.Rename] *)
  | Unlock
  | Delete.                              (** [os.RemoveAll], or the end of the sweep *)

Section cachelock.
Context (d : SeaweedFsDriver).

(** [kubeletHasStaged] looks for the staging directory. *)
Definition scanning : bool := negb (String.eqb (StagingScanDir d) "").

Definition holds_lock (pc : sweep_pc) : bool :=
  match pc with SelectingTick | Deleting _ => false | _ => true end.

Definition set_sweeper (s : cstate) (pc : sweep_pc) : cstate :=
  CState (recorded s) (kubelet s) (mounts s) (calls s) (readers s) pc (detached s) (exposed s).
Definition set_recorded (s : cstate) (vs : gset string) : cstate :=
  CState vs (kubelet s) (mounts s) (calls s) (readers s) (sweeper s) (detached s) (exposed s).
Definition set_kubelet (s : cstate) (vs : gset string) : cstate :=
  CState (recorded s) vs (mounts s) (calls s) (readers s) (sweeper s) (detached s) (exposed s).
Definition set_mounts (s : cstate) (m : gmap string mount_state) : cstate :=
  CState (recorded s) (kubelet s) m (calls s) (readers s) (sweeper s) (detached s) (exposed s).
Definition set_calls (s : cstate) (c : gmap nat string) : cstate :=
  CState (recorded s) (kubelet s) (mounts s) c (readers s) (sweeper s) (detached s) (exposed s).
Definition set_readers (s : cstate) (r : gmap nat string) : cstate :=
  CState (recorded s) (kubelet s) (mounts s) (calls s) r (sweeper s) (detached s) (exposed s).
Definition expose (s : cstate) (vs : gset string) : cstate :=
  CState (recorded s) (kubelet s) (mounts s) (calls s) (readers s) (sweeper s) (detached s) (vs ∪ exposed s).

Definition is_starting (s : cstate) (v : string) : bool := bool_decide (mounts s !! v = Some Starting).
Definition names (m : gmap nat string) (v : string) : bool := existsb (λ '(_, u), String.eqb u v) (map_to_list m).
Definition staging (s : cstate) (v : string) : bool := names (readers s) v.

(** Without staging directories to look at, a mount that does not answer yet, or that is
    asked for, is protected only by the lock or its record. *)
Definition expose_starting (s : cstate) (v : string) : cstate :=
  if negb scanning && (is_starting s v || names (calls s) v) then expose s {[v]} else s.

Definition starting_mounts (s : cstate) : gset string :=
  dom (filter (λ p, p.2 = Starting) (mounts s)) ∪ list_to_set (map_to_list (calls s)).*2.

(** *** The handlers *)
Definition hold (s : cstate) (t : nat) (v : string) : option cstate :=
  if holds_lock (sweeper s) || negb (bool_decide (v ∈ kubelet s))
     || bool_decide (is_Some (readers s !! t)) then None
  else Some (set_readers s (<[t := v]> (readers s))).

Definition release (s : cstate) (t : nat) : option cstate :=
  v ← readers s !! t;
  let s' := set_readers s (delete t (readers s)) in
  Some (if bool_decide (v ∈ recorded s) then s' else expose_starting s' v).

Definition adopt (s : cstate) (v : string) : option cstate :=
  if bool_decide (mounts s !! v = Some Serving) then
    let s' := set_recorded s ({[v]} ∪ recorded s) in
    Some (if negb scanning && holds_lock (sweeper s) then expose s' {[v]} else s')
  else None.

Definition handler_step (s : cstate) (l : clabel) : option cstate :=
  match l with
  | KubeletStages v => Some (set_kubelet s ({[v]} ∪ kubelet s))
  | KubeletForgets v =>
      if bool_decide (v ∈ recorded s) || staging s v then None
      else
        let s' := set_kubelet s (kubelet s ∖ {[v]}) in
        Some (if bool_decide (mounts s !! v = None) && negb (names (calls s) v) then s' else expose s' {[v]})
  | Hold t v => hold s t v
  | Ask n v =>
      if bool_decide (calls s !! n = None) && (bool_decide (v ∈ recorded s) || staging s v)
      then Some (set_calls s (<[n := v]> (calls s))) else None
  | Start n =>
      v ← calls s !! n;
      if bool_decide (mounts s !! v = None) then Some (set_mounts s (<[v := Starting]> (mounts s))) else None
  | Answer n => Some (set_calls s (delete n (calls s)))
  | Serve v => if is_starting s v then Some (set_mounts s (<[v := Serving]> (mounts s))) else None
  | Die v => Some (set_mounts s (delete v (mounts s)))
  | RecordStaged t => v ← readers s !! t; Some (set_recorded s ({[v]} ∪ recorded s))
  | Release t => release s t
  | Adopt v => adopt s v
  | Forget v => Some (expose_starting (set_recorded s (recorded s ∖ {[v]})) v)
  | RestartPlugin =>
      let s' := CState ∅ (kubelet s) (mounts s) (calls s) ∅ SelectingTick [] (exposed s) in
      Some (if scanning then s' else expose s' (starting_mounts s))
  | RecoverStaged v =>
      if scanning && bool_decide (v ∈ kubelet s) && negb (holds_lock (sweeper s))
      then Some (set_recorded s ({[v]} ∪ recorded s)) else None
  | _ => None
  end.

(** *** The sweep *)
Definition sweep_step (s : cstate) (l : clabel) : option cstate :=
  match l, sweeper s with
  | TryLock, SelectingTick =>
      if bool_decide (readers s = ∅) then Some (set_sweeper s Locked) else None
  | RangeVolumes, Locked => Some (set_sweeper s (Kept (recorded s)))
  | ReadEntries es, Kept keep => Some (set_sweeper s (Entries keep es))
  | Keep, Entries keep (v :: todo) =>
      if bool_decide (v ∈ keep) then Some (set_sweeper s (Entries keep todo)) else None
  | StatStaging, Entries keep (v :: todo) =>
      if bool_decide (v ∈ keep) then None
      else Some (set_sweeper s (if scanning && bool_decide (v ∈ kubelet s) then Entries keep todo
                                else Unstaged keep v todo))
  | DialMount, Unstaged keep v todo =>
      Some (set_sweeper s (if bool_decide (mounts s !! v = Some Serving) then Entries keep todo
                           else Unserved keep v todo))
  | MoveAside moved, Unserved keep v todo =>
      Some (CState (recorded s) (kubelet s) (mounts s) (calls s) (readers s) (Entries keep todo)
              (if moved then v :: detached s else detached s) (exposed s))
  | Unlock, Entries _ [] =>
      Some (CState (recorded s) (kubelet s) (mounts s) (calls s) (readers s) (Deleting (detached s)) [] (exposed s))
  | Delete, Deleting (_ :: ds) => Some (set_sweeper s (Deleting ds))
  | Delete, Deleting [] => Some (set_sweeper s SelectingTick)
  | _, _ => None
  end.

Definition cstep (s : cstate) (l : clabel) : option cstate :=
  match l with
  | TryLock | RangeVolumes | ReadEntries _ | Keep | StatStaging | DialMount | MoveAside _ | Unlock | Delete =>
      sweep_step s l
  | _ => handler_step s l
  end.

Fixpoint crun (s : cstate) (ls : list clabel) : option cstate :=
  match ls with
  | [] => Some s
  | l :: ls => s' ← cstep s l; crun s' ls
  end.

(** ** The invariant *)
Definition reader (s : cstate) (v : string) : Prop := ∃ t, readers s !! t = Some v.
Definition owned (s : cstate) (v : string) : Prop := v ∈ recorded s ∨ reader s v.
(** A weed mount of the volume is there or asked for; none that answers is. *)
Definition alive (s : cstate) (v : string) : Prop := mounts s !! v ≠ None ∨ ∃ n, calls s !! n = Some v.
Definition starting (s : cstate) (v : string) : Prop := mounts s !! v = Some Starting ∨ ∃ n, calls s !! n = Some v.
Definition idle (s : cstate) (v : string) : Prop := ¬ alive s v ∧ v ∉ recorded s.

Definition keep_set (pc : sweep_pc) : option (gset string) :=
  match pc with
  | Kept keep | Entries keep _ | Unstaged keep _ _ | Unserved keep _ _ => Some keep
  | _ => None
  end.

(** What holds of a volume that is not exposed. *)
Record protected (s : cstate) (v : string) : Prop := {
  p_staged : scanning = true → alive s v ∨ owned s v → v ∈ kubelet s;
  p_starting : scanning = false → starting s v → owned s v;
  p_keep keep : scanning = false → keep_set (sweeper s) = Some keep → v ∈ recorded s → v ∈ keep;
  p_unstaged keep todo : sweeper s = Unstaged keep v todo → v ∉ keep ∧ (scanning = true → idle s v);
  p_unserved keep todo : sweeper s = Unserved keep v todo → idle s v;
}.

Record CInv (s : cstate) : Prop := {
  c_lock : holds_lock (sweeper s) = true → readers s = ∅;
  c_protected v : v ∉ exposed s → protected s v;
}.

Lemma names_spec m v : reflect (∃ n, m !! n = Some v) (names m v).
Proof.
  apply iff_reflect. unfold names. rewrite existsb_exists. split.
  - intros [t Ht]. exists (t, v). rewrite <- list_elem_of_In, elem_of_map_to_list. by rewrite String.eqb_refl.
  - intros [[t u] [Hin Hu]]. apply String.eqb_eq in Hu as ->. exists t.
    by rewrite <- list_elem_of_In, elem_of_map_to_list in Hin.
Qed.

Lemma staging_spec s v : reflect (reader s v) (staging s v).
Proof. apply names_spec. Qed.

Lemma no_reader s v : readers s = ∅ → ¬ reader s v.
Proof. intros He [t Ht]. by rewrite He in Ht. Qed.

Lemma cinit_inv serving : CInv (cinit serving).
Proof.
  split; [done|]. intros v _. split; cbn.
  - intros _ [[H|[n Hn]]|[H|[t Ht]]]; [|done..].
    destruct (gset_to_gmap Serving serving !! v) eqn:He; [|done].
    by apply lookup_gset_to_gmap_Some in He as [].
  - intros _ [[_ H]%lookup_gset_to_gmap_Some|[n Hn]]; done.
  - done.
  - done.
  - done.
Qed.

(** A step of the sweep changes only where the sweep is. *)
Lemma sweeper_inv s pc det :
  CInv s →
  (holds_lock pc = true → readers s = ∅) →
  (∀ keep, keep_set pc = Some keep → keep_set (sweeper s) = Some keep ∨ keep = recorded s) →
  (∀ keep v todo, pc = Unstaged keep v todo → v ∉ exposed s →
    v ∉ keep ∧ (scanning = true → v ∉ kubelet s)) →
  (∀ keep v todo, pc = Unserved keep v todo → v ∉ exposed s → idle s v) →
  CInv (CState (recorded s) (kubelet s) (mounts s) (calls s) (readers s) pc det (exposed s)).
Proof.
  intros [_ Hp] Hl Hk Hu Hs. split; [done|]. intros v Hv. destruct (Hp v Hv) as [P1 P2 P3 _ _].
  split; [done|done| | |]; cbn.
  - intros keep Hsc Hkeep Hr. destruct (Hk keep Hkeep) as [Ho| ->]; [|done]. by eapply P3.
  - intros keep todo Hpc. destruct (Hu keep v todo Hpc Hv) as [Hn Hi]. split; [done|].
    intros Hsc. specialize (Hi Hsc). split.
    + intros H. by destruct Hi; apply P1; [|left].
    + intros Hr. by destruct Hi; apply P1; [|right; left].
  - intros keep todo Hpc. by apply (Hs keep v todo).
Qed.

(** An entry kubelet does not have staged, and nothing answers for, is idle. *)
Lemma unanswered_idle s keep v todo :
  CInv s → sweeper s = Unstaged keep v todo → mounts s !! v ≠ Some Serving → v ∉ exposed s → idle s v.
Proof.
  intros [Hl Hp] Hpc Hm Hv. destruct (Hp v Hv) as [_ P2 P3 P4 _].
  rewrite Hpc in *. destruct (P4 keep todo eq_refl) as [Hk Hi].
  destruct scanning; [by apply Hi|].
  assert (v ∉ recorded s) as Hr by (intros Hr; apply Hk; by apply P3).
  split; [|done]. intros Ha. assert (starting s v) as Hst.
  { destruct Ha as [H|H]; [left|by right]. by destruct (mounts s !! v) as [[]|]. }
  destruct (P2 eq_refl Hst) as [?|Hrd]; [done|]. by apply no_reader in Hrd; [|apply Hl].
Qed.

Lemma sweep_step_inv s l s' : CInv s → sweep_step s l = Some s' → CInv s'.
Proof.
  intros Hinv Hs. unfold sweep_step, set_sweeper in Hs.
  pose proof (c_lock _ Hinv) as Hl. pose proof (c_protected _ Hinv) as Hp.
  destruct l, (sweeper s) as [ | | keep | keep [ | u todo ] | keep u todo | keep u todo | [ | x ds ] ] eqn:Hpc;
    try discriminate Hs; repeat case_bool_decide; simplify_eq;
    try (destruct scanning eqn:Hscan; cbn [andb]); repeat case_bool_decide;
    apply sweeper_inv; rewrite ?Hpc; cbn; try done; try (by intros; simplify_eq; auto);
    intros; simplify_eq; first [by eapply unanswered_idle | split; congruence].
Qed.

(** A step of a handler keeps a volume protected if what it starts, records or
    holds was staged by kubelet and owned before. *)
Lemma handler_keeps s s' v :
  CInv s → protected s v → sweeper s' = sweeper s →
  (scanning = true → alive s' v ∨ owned s' v → v ∈ kubelet s') →
  (scanning = false → starting s' v → owned s' v) →
  (v ∈ recorded s' → v ∈ recorded s ∨ holds_lock (sweeper s) = false ∨
    reader s v ∨ scanning = true ∧ alive s v) →
  (alive s' v → alive s v ∨ owned s v) →
  protected s' v.
Proof.
  intros [Hl _] [P1 P2 P3 P4 P5] Hpc Hk Hst Hr Hm.
  assert (holds_lock (sweeper s) = true → idle s v → idle s' v) as Hidle.
  { intros Hh [Hi1 Hi2]. pose proof (no_reader s v (Hl Hh)) as Hn. unfold idle, owned in *. split.
    - intros H. by destruct (Hm H) as [|[]].
    - intros [H|[H|[H|[_ H]]]]%Hr; [done|congruence|done..]. }
  split; rewrite ?Hpc; [done|done|..].
  - intros keep Hsc Hkeep [H|[H|[H|[H _]]]]%Hr; [by eapply P3| | |congruence].
    + by destruct (sweeper s).
    + apply no_reader in H; [done|]. apply Hl. by destruct (sweeper s).
  - intros keep todo H. destruct (P4 keep todo H) as [Hn Hi]. split; [done|].
    intros Hsc. apply Hidle; [by rewrite H|by apply Hi].
  - intros keep todo H. apply Hidle; [by rewrite H|by eapply P5].
Qed.

Lemma handler_inv s s' :
  CInv s → sweeper s' = sweeper s → exposed s ⊆ exposed s' →
  (holds_lock (sweeper s) = true → readers s' = ∅) →
  (∀ v, v ∉ exposed s' → protected s v →
    (scanning = true → alive s' v ∨ owned s' v → v ∈ kubelet s') ∧
    (scanning = false → starting s' v → owned s' v) ∧
    (v ∈ recorded s' → v ∈ recorded s ∨ holds_lock (sweeper s) = false ∨
      reader s v ∨ scanning = true ∧ alive s v) ∧
    (alive s' v → alive s v ∨ owned s v)) →
  CInv s'.
Proof.
  intros Hinv Hpc Hex Hl Hv. split; [by rewrite Hpc|]. intros v Hin.
  assert (protected s v) as Hp by (apply (c_protected _ Hinv); set_solver).
  destruct (Hv v Hin Hp) as (H1 & H2 & H3 & H4). by apply (handler_keeps s).
Qed.

#[local] Ltac handler_at u P1 P2 :=
  intros u Hu [P1 P2 _ _ _]; unfold owned, reader, alive, starting in *; cbn in *; split_and!.

Lemma expose_none s : expose s ∅ = s.
Proof. destruct s. unfold expose. cbn. by rewrite union_empty_l_L. Qed.

Lemma kubelet_stages_inv s v s' : CInv s → handler_step s (KubeletStages v) = Some s' → CInv s'.
Proof.
  intros Hinv [= <-]. apply (handler_inv s); [done..|by apply (c_lock s)|]. handler_at u P1 P2; auto.
  intros Hsc H. apply elem_of_union_r. by apply P1.
Qed.

Lemma kubelet_forgets_inv s v s' : CInv s → handler_step s (KubeletForgets v) = Some s' → CInv s'.
Proof.
  intros Hinv Hs. cbn in Hs. case_bool_decide as Hr; [done|].
  destruct (staging_spec s v) as [|Hrd]; [done|]. cbn in Hs.
  assert (∃ vs, s' = expose (set_kubelet s (kubelet s ∖ {[v]})) vs ∧ (alive s v → v ∈ vs)) as (vs & -> & Hvs).
  { case_bool_decide as Hm; [destruct (names_spec (calls s) v) as [Hn|Hn]|]; cbn in Hs; simplify_eq;
      first [exists {[v]}; split; [done|set_solver]|exists ∅; rewrite expose_none; split; [done|by intros []]]. }
  apply (handler_inv s); [done..|by apply union_subseteq_r|by apply (c_lock s)|]. handler_at u P1 P2; auto.
  intros Hsc H. assert (u ≠ v); [|specialize (P1 Hsc H); set_solver]. intros ->.
  assert (¬ alive s v) as Hna by (intros Ha; apply Hu; set_solver).
  destruct H as [H|[H|H]]; [by apply Hna|done..].
Qed.

Lemma hold_inv s t v s' : CInv s → handler_step s (Hold t v) = Some s' → CInv s'.
Proof.
  intros Hinv Hs. cbn in Hs. unfold hold in Hs. destruct (holds_lock _) eqn:Hh; [done|].
  case_bool_decide as Hk; [|done]. case_bool_decide as Ht; [done|]. cbn in Hs. simplify_eq.
  apply (handler_inv s); [done..|cbn; congruence|]. handler_at u P1 P2; auto.
  - intros Hsc [H|[H|[t' H]]]; [auto..|]. apply lookup_insert_Some in H as [[_ <-]|[_ H]]; eauto 6.
  - intros Hsc H. destruct (P2 Hsc H) as [H'|[t' H']]; [by left|]. right. exists t'.
    rewrite lookup_insert_ne; [done|]. intros ->. by destruct Ht.
Qed.
Lemma ask_inv s n v s' : CInv s → handler_step s (Ask n v) = Some s' → CInv s'.
Proof.
  intros Hinv Hs. cbn in Hs. case_bool_decide as Hn; [|done].
  assert (owned s v) as Ho.
  { case_bool_decide; [by left|]. destruct (staging_spec s v); [by right|done]. }
  destruct (_ || _); [|done]. cbn in Hs. simplify_eq.
  assert (∀ u, (∃ n', <[n := v]> (calls s) !! n' = Some u) → u = v ∨ ∃ n', calls s !! n' = Some u) as Hnew.
  { intros u [n' [[_ <-]|[_ H]]%lookup_insert_Some]; [by left|right; by exists n']. }
  apply (handler_inv s); [done..|by apply (c_lock s)|]. handler_at u P1 P2; auto.
  - intros Hsc [[H|[->|H]%Hnew]|H]; auto.
  - intros Hsc [H|[->|H]%Hnew]; auto.
  - intros [H|[->|H]%Hnew]; auto.
Qed.

Lemma answered_inv s n s' : CInv s → handler_step s (Answer n) = Some s' → CInv s'.
Proof.
  intros Hinv [= <-].
  assert (∀ u, (∃ n', delete n (calls s) !! n' = Some u) → ∃ n', calls s !! n' = Some u) as Hold.
  { intros u [n' [_ H]%lookup_delete_Some]. by exists n'. }
  apply (handler_inv s); [done..|by apply (c_lock s)|]. handler_at u P1 P2; auto.
  - intros Hsc [[H|H%Hold]|H]; auto.
  - intros Hsc [H|H%Hold]; auto.
  - intros [H|H%Hold]; auto.
Qed.

(** A step that changes a mount of a volume only. *)
Lemma mount_inv s v m :
  CInv s → (∀ u, u ≠ v → m !! u = mounts s !! u) →
  (m !! v ≠ None → alive s v) → (m !! v = Some Starting → starting s v) → CInv (set_mounts s m).
Proof.
  intros Hinv Hm Ha Hs.
  assert (∀ u, alive (set_mounts s m) u → alive s u) as Halive.
  { intros u [H|H]; [|by right]. destruct (decide (u = v)) as [->|Hne]; [by apply Ha|]. cbn in H. rewrite Hm in H by done. by left. }
  assert (∀ u, starting (set_mounts s m) u → starting s u) as Hstart.
  { intros u [H|H]; [|by right]. destruct (decide (u = v)) as [->|Hne]; [by apply Hs|]. cbn in H. rewrite Hm in H by done. by left. }
  apply (handler_inv s); [done..|by apply (c_lock s)|]. intros u Hu [P1 P2 _ _ _]. split_and!; [..|by left|].
  - intros Hsc [H%Halive|H]; apply P1; auto.
  - intros Hsc H%Hstart. by apply P2.
  - intros H%Halive. by left.
Qed.

Lemma start_inv s n s' : CInv s → handler_step s (Start n) = Some s' → CInv s'.
Proof.
  intros Hinv Hs. cbn in Hs. destruct (calls s !! n) as [v|] eqn:Hn; [|done]. cbn in Hs.
  case_bool_decide as Hm; [|done]. simplify_eq.
  apply mount_inv with v; [done|by intros; rewrite lookup_insert_ne|by right; exists n..].
Qed.

Lemma serve_inv s v s' : CInv s → handler_step s (Serve v) = Some s' → CInv s'.
Proof.
  intros Hinv Hs. cbn in Hs. unfold is_starting in Hs. case_bool_decide as Hm; [|done]. simplify_eq.
  apply mount_inv with v; [done|by intros; rewrite lookup_insert_ne|by left; rewrite Hm|by rewrite lookup_insert_eq].
Qed.

Lemma die_inv s v s' : CInv s → handler_step s (Die v) = Some s' → CInv s'.
Proof.
  intros Hinv [= <-]. apply mount_inv with v; [done|by intros; rewrite lookup_delete_ne|by rewrite lookup_delete_eq..].
Qed.

Lemma record_inv s t s' : CInv s → handler_step s (RecordStaged t) = Some s' → CInv s'.
Proof.
  intros Hinv Hs. cbn in Hs. destruct (readers s !! t) as [v|] eqn:Ht; [|done]. cbn in Hs. simplify_eq.
  apply (handler_inv s); [done..|by apply (c_lock s)|]. handler_at u P1 P2; auto.
  - intros Hsc H. apply P1; [done|]. set_solver.
  - intros Hsc H. set_solver.
  - set_solver.
Qed.

Lemma expose_starting_spec s v :
  ∃ vs, expose_starting s v = expose s vs ∧
    (scanning = false → starting s v → v ∈ vs).
Proof.
  unfold expose_starting, is_starting. destruct scanning; cbn [negb andb].
  - exists ∅. by rewrite expose_none.
  - case_bool_decide as Hm; [exists {[v]}; set_solver|]. destruct (names_spec (calls s) v) as [Hn|Hn]; cbn [orb].
    + exists {[v]}. set_solver.
    + exists ∅. rewrite expose_none. split; [done|]. by intros _ [].
Qed.

Lemma release_inv s t s' : CInv s → handler_step s (Release t) = Some s' → CInv s'.
Proof.
  intros Hinv Hs. cbn in Hs. unfold release in Hs. destruct (readers s !! t) as [v|] eqn:Ht; [|done]. cbn in Hs.
  assert (∃ vs, s' = expose (set_readers s (delete t (readers s))) vs ∧
    (scanning = false → starting s v → v ∉ recorded s → v ∈ vs)) as (vs & -> & Hvs).
  { case_bool_decide; simplify_eq; [exists ∅; by rewrite expose_none|].
    destruct (expose_starting_spec (set_readers s (delete t (readers s))) v) as (vs & -> & Hvs). eauto. }
  apply (handler_inv s); [done..|by apply union_subseteq_r| |].
  { intros H. cbn. by rewrite (c_lock _ Hinv H), delete_empty. }
  handler_at u P1 P2; auto.
  - intros Hsc [H|[H|[t' H]]]; [auto..|]. apply lookup_delete_Some in H as [_ H]. eauto.
  - intros Hsc H. destruct (decide (u ∈ recorded s)) as [Hr|Hr]; [by left|].
    destruct (P2 Hsc H) as [H'|[t' H']]; [done|]. right. exists t'.
    rewrite lookup_delete_ne; [done|]. intros ->. simplify_eq. set_solver.
Qed.

Lemma forget_inv s v s' : CInv s → handler_step s (Forget v) = Some s' → CInv s'.
Proof.
  intros Hinv Hs. cbn in Hs. simplify_eq.
  destruct (expose_starting_spec (set_recorded s (recorded s ∖ {[v]})) v) as (vs & -> & Hvs).
  apply (handler_inv s); [done..|by apply union_subseteq_r|by apply (c_lock s)|]. handler_at u P1 P2; auto.
  - intros Hsc H. apply P1; [done|]. set_solver.
  - intros Hsc H. specialize (P2 Hsc H). set_solver.
  - set_solver.
Qed.

Lemma adopt_inv s v s' : CInv s → handler_step s (Adopt v) = Some s' → CInv s'.
Proof.
  intros Hinv Hs. cbn in Hs. unfold adopt in Hs. case_bool_decide as Hm; [|done].
  assert (∃ vs, s' = expose (set_recorded s ({[v]} ∪ recorded s)) vs ∧
    (scanning = false → holds_lock (sweeper s) = true → v ∈ vs)) as (vs & -> & Hvs).
  { destruct scanning; cbn in Hs; [|destruct (holds_lock _)]; simplify_eq;
      first [exists ∅; by rewrite expose_none|exists {[v]}; set_solver]. }
  apply (handler_inv s); [done..|by apply union_subseteq_r|by apply (c_lock s)|]. handler_at u P1 P2; auto.
  - intros Hsc H. apply P1; [done|]. destruct (decide (u = v)) as [->|]; [left; left; by rewrite Hm|set_solver].
  - intros Hsc H. specialize (P2 Hsc H). set_solver.
  - intros H. destruct (decide (u = v)) as [->|]; [|set_solver]. right.
    destruct (holds_lock _); [|by left]. right. right. destruct scanning; [split; [done|]; left; by rewrite Hm|set_solver].
Qed.

Lemma recover_inv s v s' : CInv s → handler_step s (RecoverStaged v) = Some s' → CInv s'.
Proof.
  intros Hinv Hs. cbn in Hs. destruct scanning eqn:Hsc; [|done]. case_bool_decide as Hk; [|done].
  destruct (holds_lock _) eqn:Hh; [done|]. cbn in Hs. simplify_eq.
  apply (handler_inv s); [done..|by apply (c_lock s)|]. handler_at u P1 P2; auto; [|congruence].
  intros _ H. destruct (decide (u = v)) as [->|]; [done|]. apply P1; [done|]. set_solver.
Qed.

Lemma starting_mounts_spec s v : starting s v → v ∈ starting_mounts s.
Proof.
  intros [H|[n Hn]]; apply elem_of_union; [left|right].
  - apply elem_of_dom. exists Starting. by apply map_lookup_filter_Some.
  - apply elem_of_list_to_set, list_elem_of_fmap. exists (n, v). split; [done|]. by apply elem_of_map_to_list.
Qed.

Lemma restart_inv s s' : CInv s → handler_step s RestartPlugin = Some s' → CInv s'.
Proof.
  intros [_ Hp] Hs. cbn in Hs.
  assert (∃ vs, s' = expose (CState ∅ (kubelet s) (mounts s) (calls s) ∅ SelectingTick [] (exposed s)) vs ∧
    (scanning = false → starting_mounts s ⊆ vs)) as (vs & -> & Hvs).
  { destruct scanning; simplify_eq; [exists ∅; by rewrite expose_none|by exists (starting_mounts s)]. }
  split; [done|]. cbn. intros v Hv. destruct (Hp v ltac:(set_solver)) as [P1 P2 _ _ _]. split; cbn; [..|done|done|done].
  - intros Hsc [H|[H|[t H]]]; [auto|set_solver|done].
  - intros Hsc H. destruct Hv. by apply elem_of_union_l, (Hvs Hsc), starting_mounts_spec.
Qed.

Lemma handler_step_inv s l s' : CInv s → handler_step s l = Some s' → CInv s'.
Proof.
  intros Hinv. destruct l; first [by intros | by apply kubelet_stages_inv | by apply kubelet_forgets_inv
    | by apply hold_inv | by apply ask_inv | by apply start_inv | by apply answered_inv | by apply serve_inv | by apply die_inv | by apply record_inv
    | by apply release_inv | by apply adopt_inv | by apply forget_inv | by apply restart_inv
    | by apply recover_inv].
Qed.

Lemma cstep_inv s l s' : CInv s → cstep s l = Some s' → CInv s'.
Proof. intros Hinv. destruct l; solve [by apply handler_step_inv | by apply sweep_step_inv]. Qed.

Lemma crun_inv s ls s' : CInv s → crun s ls = Some s' → CInv s'.
Proof.
  revert s. induction ls as [|l ls IH]; intros s Hinv Hs; cbn in Hs; [by simplify_eq|].
  destruct (cstep s l) as [s1|] eqn:Hl; [|done]. by apply (IH s1); [eapply cstep_inv|].
Qed.

(** *** What exposes a volume *)
Definition exposed_by (s : cstate) (l : clabel) (v : string) : Prop :=
  match l with
  | KubeletForgets u => u = v ∧ alive s v
  | Release t => scanning = false ∧ readers s !! t = Some v ∧ v ∉ recorded s ∧ starting s v
  | Forget u => scanning = false ∧ u = v ∧ starting s v
  | RestartPlugin => scanning = false ∧ starting s v
  | Adopt u => scanning = false ∧ u = v ∧ holds_lock (sweeper s) = true
  | _ => False
  end.

Lemma expose_starting_exposed s u v :
  v ∈ exposed (expose_starting s u) → v ∈ exposed s ∨ scanning = false ∧ u = v ∧ starting s v.
Proof.
  unfold expose_starting, is_starting. destruct scanning; cbn [negb andb]; [by left|].
  case_bool_decide as Hm; [|destruct (names_spec (calls s) u) as [Hn|Hn]]; cbn [orb]; [..|by left];
    intros [->%elem_of_singleton|?]%elem_of_union; auto; right; split_and!; [done..|by left|done|done|by right].
Qed.

Lemma starting_mounts_starting s v : v ∈ starting_mounts s → starting s v.
Proof.
  intros [[x Hx]%elem_of_dom|H]%elem_of_union.
  - apply map_lookup_filter_Some in Hx as [Hx Hs]. cbn in Hs. subst x. by left.
  - apply elem_of_list_to_set, list_elem_of_fmap in H as ([n u] & -> & Hin). right. exists n.
    by apply elem_of_map_to_list in Hin.
Qed.

Lemma cstep_exposed s l s' v :
  cstep s l = Some s' → v ∈ exposed s' → v ∈ exposed s ∨ exposed_by s l v.
Proof.
  intros Hs Hv. destruct l; cbn [cstep handler_step] in Hs;
    try (unfold sweep_step in Hs; repeat case_match; simplify_eq; by left);
    try (simplify_eq; by left); try (by (repeat case_match; simplify_eq; left)).
  - destruct (_ || _); [done|]. injection Hs as <-.
    case_bool_decide as Hm; [destruct (names_spec (calls s) v0) as [Hn|Hn]|]; cbn [andb negb] in Hv;
      [|by left|]; apply elem_of_union in Hv as [->%elem_of_singleton|?]; auto; right; split; [done|by right|done|by left].
  - unfold hold in Hs. destruct (_ || _); [done|]. injection Hs as <-. by left.
  - destruct (calls s !! n); [|done]. cbn in Hs. case_bool_decide; [|done]. injection Hs as <-. by left.
  - destruct (readers s !! t); [|done]. cbn in Hs. injection Hs as <-. by left.
  - unfold release in Hs. destruct (readers s !! t) as [u|] eqn:Ht; [|done]. cbn in Hs. injection Hs as <-.
    case_bool_decide as Hr; [by left|]. apply expose_starting_exposed in Hv as [?|(? & -> & ?)]; [by left|by right].
  - unfold adopt in Hs. case_bool_decide; [|done]. injection Hs as <-.
    destruct scanning eqn:Hsc; cbn [negb andb] in Hv; [by left|].
    destruct (holds_lock _) eqn:Hh; [|by left]. apply elem_of_union in Hv as [->%elem_of_singleton|?]; [by right|by left].
  - injection Hs as <-. apply expose_starting_exposed in Hv as [?|(? & -> & ?)]; [by left|by right].
  - injection Hs as <-. destruct scanning eqn:Hsc; [by left|].
    apply elem_of_union in Hv as [Hv%starting_mounts_starting|?]; [by right|by left].
Qed.

Lemma crun_app s ls1 ls2 : crun s (ls1 ++ ls2) = s1 ← crun s ls1; crun s1 ls2.
Proof.
  revert s. induction ls1 as [|l ls1 IH]; intros s; cbn; [done|]. destruct (cstep s l); [|done]. apply IH.
Qed.

Lemma crun_exposed s0 ls s v :
  exposed s0 = ∅ → crun s0 ls = Some s → v ∈ exposed s →
  ∃ ls1 l ls2 s1, ls = ls1 ++ l :: ls2 ∧ crun s0 ls1 = Some s1 ∧ exposed_by s1 l v.
Proof.
  intros H0. revert s. induction ls as [|l ls IH] using rev_ind; intros s Hs Hv; cbn in Hs.
  { simplify_eq. by rewrite H0 in Hv. }
  rewrite crun_app in Hs. destruct (crun s0 ls) as [s1|] eqn:Hs1; [|done]. cbn in Hs.
  destruct (cstep s1 l) as [s2|] eqn:Hl; [|done]. cbn in Hs. simplify_eq.
  destruct (cstep_exposed s1 l s v Hl Hv) as [Hv1|Hm]; [|by exists ls, l, [], s1].
  destruct (IH s1 eq_refl Hv1) as (ls1 & l' & ls2 & s2 & -> & ? & ?).
  exists ls1, l', (ls2 ++ [l]), s2. by rewrite <- app_assoc.
Qed.

End cachelock.

(** ** Examples *)
Definition scan_driver (dir : string) : SeaweedFsDriver := {|
  Driver.name := "csi"; nodeID := "n"; Driver.version := ""; endpoint := ""; mountEndpoint := "";
  volumeSocketDir := "/run"; vcap := []; cscap := []; filers := []; filerIndex := 0;
  ConcurrentWriters := 0; ConcurrentReaders := 0; MountExtraArgs := []; CacheCapacityMB := 0;
  WriteBufferSizeMB := 0; CacheMetaTtlSec := 0; CacheDir := "/var/cache/"; UidMap := "";
  GidMap := ""; DataCenter := ""; DataLocality_ := DL_None; TopologyKeys := [];
  StagingScanDir := dir; KubeletRootDir := ""; KubeletRootMount := "" |}.

(** A volume is staged while a sweep waits for the next tick; the sweep then spares
    it, and a volume whose mount serves without a record, and comes to the cache
    nobody uses. *)
Definition spared_run : list clabel :=
  [KubeletStages "a"; Hold 0 "a"; Ask 0 "a"; Start 0; Serve "a"; Answer 0; RecordStaged 0; Release 0;
   TryLock; RangeVolumes; ReadEntries ["a"; "b"; "gone"];
   Keep; StatStaging; StatStaging; DialMount].


(** Without staging directories, a publish that rebuilds a volume during a sweep
    exposes it: its mount dies, a recovery starts another, and the sweep, which
    found nothing answering in between, takes the cache the new mount writes. *)
Theorem sweep_takes_adopted_cache :
  ∃ s, crun (scan_driver "") (cinit {["a"]})
    [TryLock; RangeVolumes; ReadEntries ["a"]; Adopt "a"; StatStaging; Die "a"; DialMount;
     Ask 0 "a"; Start 0] = Some s ∧
  sweeper s = Unserved ∅ "a" [] ∧ mounts s !! "a" = Some Starting ∧ exposed s = {["a"]}.
Proof. eexists. split; [vm_compute; reflexivity|]. by vm_compute. Qed.

(** The client of the plugin gives up on a mount request after 30 s, the service does not:
    the stage fails and lets the lock go. Without staging directories, a sweep takes the
    cache while the request waits, and the weed mount starts on it. *)
Theorem sweep_takes_late_mount :
  ∃ s, crun (scan_driver "") (cinit ∅)
    [KubeletStages "a"; Hold 0 "a"; Ask 0 "a"; Release 0; TryLock; RangeVolumes; ReadEntries ["a"];
     StatStaging; DialMount; Start 0] = Some s ∧
  sweeper s = Unserved ∅ "a" [] ∧ mounts s !! "a" = Some Starting ∧ exposed s = {["a"]}.
Proof. eexists. split; [vm_compute; reflexivity|]. by vm_compute. Qed.
