(* ===== verification/VolumeStats.v ===== *)
(** * Volume statistics

    Models [NodeGetVolumeStats] of [pkg/driver/nodeserver.go], with the path
    check of [volume_stats.go] and the arithmetic of [volume_stats_linux.go].
    The waits for the volume's lock and for the reading of the usage, which runs
    in a goroutine of its own, are events that tell whether they ended before the
    context of the request. *)

From S2P Require Import Prelude GoLib Hash Params Driver Controller MountFlags MountArgs Host MountUtil Node NodeSpec NodeSuccess.
Import Strings.
#[local] Open Scope go_scope.

(** ** The paths of a volume *)

(** Do six elements name a publish directory of kubelet, from here on? *)
Definition publish_here (parts : list string) : bool :=
  match parts with
  | a :: uid :: b :: c :: vol :: m :: _ =>
      String.eqb a "pods" && negb (String.eqb uid "") && String.eqb b "volumes" &&
      String.eqb c "kubernetes.io~csi" && negb (String.eqb vol "") && String.eqb m "mount"
  | _ => false
  end.
Fixpoint first_publish (parts : list string) : bool :=
  match parts with
  | [] => false
  | _ :: rest => if publish_here parts then length parts =? 6 else first_publish rest
  end.
Definition isKubeletCSIPublishPath (path : string) : bool :=
  first_publish (Split (Path.Clean path) "/").

(** [sync.Map.Range] over the volumes visits them in some order. *)
Class VolumeRange := {
  range_volumes : Volumes → list (string * Volume);
  range_volumes_perm s : range_volumes s ≡ₚ map_to_list s;
}.

Definition owns (vol : Volume) (path : string) : bool :=
  String.eqb (StagedPath vol) path || HasPublishPath vol path.

(** ** Usage *)
Definition wrap64 (z : Z) : Z := ((z + 2 ^ 63) mod 2 ^ 64 - 2 ^ 63)%Z.
Definition sub_u64 (a b : Z) : Z := ((a - b) mod 2 ^ 64)%Z.

Record volumeUsage := {
  capacityBytes : Z; usedBytes : Z; availableBytes : Z; inodes : Z; inodesUsed : Z; inodesFree : Z }.

(** The arithmetic of [readVolumeUsage]. *)
Definition usage_of (sfs : Statfs_t) : volumeUsage :=
  let blockSize := wrap64 (Bsize sfs) in
  let total := wrap64 (Files sfs) in
  let free := wrap64 (Ffree sfs) in
  let used := wrap64 (total - free) in
  {| capacityBytes := wrap64 (wrap64 (Blocks sfs) * blockSize);
     usedBytes := wrap64 (wrap64 (sub_u64 (Blocks sfs) (Bfree sfs)) * blockSize);
     availableBytes := wrap64 (wrap64 (Bavail sfs) * blockSize);
     inodes := total; inodesFree := free;
     inodesUsed := if (used <? 0)%Z then 0%Z else used |}.

Inductive usage_unit := BYTES | INODES.
Record usage_entry := { u_unit : usage_unit; u_total : Z; u_used : Z; u_available : Z }.
Record StatsResponse := { r_usage : list usage_entry; r_abnormal : bool; r_message : string }.

Definition response_of (u : volumeUsage) : StatsResponse := {|
  r_usage :=
    {| u_unit := BYTES; u_total := capacityBytes u; u_used := usedBytes u;
       u_available := availableBytes u |} ::
    (if (0 <? inodes u)%Z && negb (inodes u =? Strconv.max_int64)%Z then
       [{| u_unit := INODES; u_total := inodes u; u_used := inodesUsed u;
           u_available := inodesFree u |}]
     else []);
  r_abnormal := false; r_message := "volume mount answered statfs" |}.

Section stats.
Context {MU : MountUtils} {VR : VolumeRange}.
#[local] Abbreviation act := (Host.act Volumes).

Definition volumeStatsPathOwner (s : Volumes) (volumePath : string) : option string :=
  match list_find (λ kv : string * Volume, owns kv.2 volumePath) (range_volumes s) with
  | Some (_, (owner, _)) => if String.eqb owner "" then None else Some owner
  | None => None
  end.

Definition validateVolumeStatsPath (s : Volumes) (volumeID volumePath : string) : result unit :=
  if negb (Path.IsAbs volumePath) then
    Err (Status InvalidArgument ("volume path " +:+ volumePath +:+ " is not absolute"))
  else if match volumeStatsPathOwner s volumePath with
          | Some owner => negb (String.eqb owner volumeID)
          | None => false
          end then
    Err (Status NotFound ("volume path " +:+ volumePath +:+ " is not published for volume " +:+ volumeID))
  else if match s !! volumeID with Some vol => owns vol volumePath | None => false end then Ok tt
  else if isKubeletCSIPublishPath volumePath then Ok tt
  else Err (Status NotFound ("volume " +:+ volumeID +:+ " is not staged or published")).

Definition readVolumeUsage (path : string) : act volumeUsage :=
  do! sfs := awith_err (λ err,
      if is_not_exist err then Status NotFound ("volume path " +:+ path +:+ " does not exist")
      else Status Internal ("statfs " +:+ path +:+ " failed: " +:+ err_msg err))
    (call (Statfs path)) in
  aret (usage_of sfs).

Definition readVolumeUsageForStats (path : string) : act volumeUsage :=
  do! healthy := isStagingPathHealthy path in
  if negb healthy then
    afail (Status NotFound ("volume path " +:+ path +:+ " is not a live mount"))
  else readVolumeUsage path.

(** A wait that its context may end. *)
Definition wait_for (what : string) : act unit :=
  do! err := ask (InTime what) in
  match err with Some e => afail e | None => aret tt end.

Definition NodeGetVolumeStats (volumeID volumePath : string) : act StatsResponse :=
  alift (guard_err (String.eqb volumeID "")
           (Status InvalidArgument "Volume ID missing in request")) ;;>
  alift (guard_err (String.eqb volumePath "")
           (Status InvalidArgument "Volume path missing in request")) ;;>
  wait_for "lock" ;;>
  do! s := agets id in
  alift (validateVolumeStatsPath s volumeID volumePath) ;;>
  match s !! volumeID ≫= abnormal with
  | Some message => aret {| r_usage := []; r_abnormal := true; r_message := message |}
  | None =>
      wait_for "usage" ;;>
      do! usage := readVolumeUsageForStats volumePath in
      aret (response_of usage)
  end.
End stats.

(** ** Properties *)
Lemma wrap64_small z : (- 2 ^ 63 <= z < 2 ^ 63)%Z → wrap64 z = z.
Proof. intros Hz. unfold wrap64. rewrite Z.mod_small; lia. Qed.
Lemma wrap64_range z : (- 2 ^ 63 <= wrap64 z < 2 ^ 63)%Z.
Proof. unfold wrap64. pose proof (Z.mod_pos_bound (z + 2 ^ 63) (2 ^ 64)). lia. Qed.

(** A filesystem whose numbers are consistent and fit a signed 64-bit count of
    bytes. *)
Record statfs_ok (f : Statfs_t) : Prop := {
  st_bsize : (0 < Bsize f < 2 ^ 63)%Z;
  st_free : (0 <= Bavail f <= Bfree f)%Z;
  st_blocks : (Bfree f <= Blocks f)%Z;
  st_size : (Blocks f * Bsize f < 2 ^ 63)%Z;
  st_inodes : (0 <= Ffree f)%Z;
  st_files : (0 <= Files f < 2 ^ 63)%Z;
  st_ffree : (Ffree f < 2 ^ 63)%Z;
}.

(** C39. The usage of a filesystem that fits is reported exactly: the capacity, the
    used and the available bytes are the numbers of blocks, of blocks that are not
    free and of blocks available to unprivileged users, times the size of a block,
    with no overflow; the used and the free blocks make up the capacity, and what is
    available does not exceed what is not used. The inodes are those of the
    filesystem; used inodes are never negative, also when more inodes are free than
    the filesystem has. *)
Theorem usage_exact (f : Statfs_t) :
  statfs_ok f →
  let u := usage_of f in
  capacityBytes u = (Blocks f * Bsize f)%Z ∧
  usedBytes u = ((Blocks f - Bfree f) * Bsize f)%Z ∧
  availableBytes u = (Bavail f * Bsize f)%Z ∧
  (usedBytes u + Bfree f * Bsize f = capacityBytes u)%Z ∧
  (0 <= availableBytes u <= capacityBytes u - usedBytes u)%Z ∧
  inodes u = Files f ∧ inodesFree u = Ffree f ∧
  inodesUsed u = Z.max 0 (Files f - Ffree f).
Proof.
  intros [[Hb1 Hb2] [Hf1 Hf2] Hbl Hs Hi [Hfi1 Hfi2] Hff]. cbv zeta.
  assert (Blocks f <= Blocks f * Bsize f)%Z as H1 by nia.
  assert (Bfree f * Bsize f <= Blocks f * Bsize f)%Z as H2 by nia.
  assert (Bavail f * Bsize f <= Bfree f * Bsize f)%Z as H3 by nia.
  assert (0 <= Bavail f * Bsize f)%Z as H4 by nia.
  assert ((Blocks f - Bfree f) * Bsize f = Blocks f * Bsize f - Bfree f * Bsize f)%Z as H5 by ring.
  unfold usage_of, sub_u64.
  cbn [capacityBytes usedBytes availableBytes inodes inodesFree inodesUsed].
  rewrite (Z.mod_small (Blocks f - Bfree f)) by lia.
  rewrite (wrap64_small (Bsize f)), (wrap64_small (Blocks f)), (wrap64_small (Blocks f - Bfree f)),
    (wrap64_small (Bavail f)), (wrap64_small (Files f)), (wrap64_small (Ffree f)) by lia.
  rewrite H5, !wrap64_small by lia. destruct (Z.ltb_spec (Files f - Ffree f) 0); lia.
Qed.

Lemma usage_exact_witness :
  statfs_ok {| Bsize := 4096; Blocks := 1000; Bfree := 400; Bavail := 300; Files := 5; Ffree := 20 |} ∧
  usedBytes (usage_of {| Bsize := 4096; Blocks := 1000; Bfree := 400; Bavail := 300; Files := 5; Ffree := 20 |})
    = 2457600%Z ∧
  availableBytes (usage_of {| Bsize := 4096; Blocks := 1000; Bfree := 400; Bavail := 300; Files := 5; Ffree := 20 |})
    = 1228800%Z ∧
  inodesUsed (usage_of {| Bsize := 4096; Blocks := 1000; Bfree := 400; Bavail := 300; Files := 5; Ffree := 20 |})
    = 0%Z.
Proof.
  assert (statfs_ok {| Bsize := 4096; Blocks := 1000; Bfree := 400; Bavail := 300; Files := 5; Ffree := 20 |}) as H
    by (split; cbn; lia).
  split; [exact H|].
  destruct (usage_exact _ H) as (_ & Hu & Ha & _ & _ & _ & _ & Hi).
  split; [exact Hu|]. split; [exact Ha|exact Hi].
Defined.

(** ** The publish directories of kubelet *)
Lemma publish_here_spec parts :
  publish_here parts = true ↔
  ∃ uid vol rest, parts = "pods" :: uid :: "volumes" :: "kubernetes.io~csi" :: vol :: "mount" :: rest ∧
    uid ≠ "" ∧ vol ≠ "".
Proof.
  split.
  - destruct parts as [|a [|uid [|b [|c [|vol [|m rest]]]]]]; try done. cbn.
    rewrite !andb_true_iff, !negb_true_iff, !String.eqb_eq, !String.eqb_neq.
    intros [[[[[-> Hu] ->] ->] Hv] ->]. by exists uid, vol, rest.
  - intros (uid & vol & rest & -> & Hu & Hv). cbn.
    apply String.eqb_neq in Hu, Hv. by rewrite Hu, Hv.
Qed.

Lemma first_publish_spec parts :
  first_publish parts = true ↔
  ∃ pre uid vol,
    parts = pre ++ ["pods"; uid; "volumes"; "kubernetes.io~csi"; vol; "mount"] ∧
    uid ≠ "" ∧ vol ≠ "" ∧ ∀ i, i < length pre → publish_here (drop i parts) = false.
Proof.
  induction parts as [|x parts IH]; cbn [first_publish].
  { split; [done|]. intros (pre & uid & vol & H & _). by destruct pre. }
  destruct (publish_here (x :: parts)) eqn:Hh.
  - split.
    + intros Hlen%Nat.eqb_eq. apply publish_here_spec in Hh as (uid & vol & rest & Heq & Hu & Hv).
      rewrite Heq in Hlen. cbn in Hlen. destruct rest; [|cbn in Hlen; lia].
      exists [], uid, vol. split_and!; [done..|]. cbn. lia.
    + intros (pre & uid & vol & Heq & _ & _ & Hfirst). destruct pre as [|y pre]; [by rewrite Heq|].
      specialize (Hfirst 0 ltac:(cbn; lia)). rewrite drop_0 in Hfirst. congruence.
  - rewrite IH. split.
    + intros (pre & uid & vol & -> & Hu & Hv & Hfirst). exists (x :: pre), uid, vol.
      split_and!; [done..|]. intros [|i] Hi; [done|]. apply Hfirst. cbn in Hi. lia.
    + intros (pre & uid & vol & Heq & Hu & Hv & Hfirst). destruct pre as [|y pre].
      * cbn in Heq. rewrite Heq in Hh. exfalso.
        assert (publish_here ["pods"; uid; "volumes"; "kubernetes.io~csi"; vol; "mount"] = true) as H
          by (apply publish_here_spec; by exists uid, vol, []).
        congruence.
      * injection Heq as -> ->. exists pre, uid, vol. split_and!; [done..|].
        intros i Hi. apply (Hfirst (S i)). cbn. lia.
Qed.

(** ** What statistics are answered from *)
Section answers.
Context {MU : MountUtils} {VR : VolumeRange}.

(** The paths statistics are answered for: a path of the volume when it is tracked,
    and, whatever the ID asked for, a path of the form of a publish directory of
    kubelet that no tracked volume owns. *)
Definition stats_path (s : Volumes) (volumeID volumePath : string) : Prop :=
  (∃ vol, s !! volumeID = Some vol ∧ owns vol volumePath = true) ∨
  (∀ v vol, s !! v = Some vol → owns vol volumePath = false) ∧
  ∃ pre uid vol, Split (Path.Clean volumePath) "/" =
    pre ++ ["pods"; uid; "volumes"; "kubernetes.io~csi"; vol; "mount"] ∧ uid ≠ "" ∧ vol ≠ "".

Lemma validateVolumeStatsPath_sound s v p :
  s !! "" = None → validateVolumeStatsPath s v p = Ok tt →
  Path.IsAbs p = true ∧ stats_path s v p.
Proof.
  intros Hempty. unfold validateVolumeStatsPath, volumeStatsPathOwner.
  destruct (Path.IsAbs p); cbn [negb]; [|done].
  assert (∀ kv, kv ∈ range_volumes s ↔ s !! kv.1 = Some kv.2) as Hin.
  { intros [k vol]. rewrite range_volumes_perm. apply elem_of_map_to_list. }
  destruct (list_find _ _) as [[i [owner ovol]]|] eqn:Hfind.
  - apply list_find_Some in Hfind as (Hi & Ho & _). cbn in Ho. apply Is_true_true in Ho.
    apply list_elem_of_lookup_2, Hin in Hi. cbn in Hi.
    destruct (String.eqb_spec owner "") as [->|Hne]; [congruence|].
    destruct (String.eqb_spec owner v) as [->|Hne']; cbn [negb]; [|done].
    intros _. split; [done|]. left. by exists ovol.
  - apply list_find_None in Hfind.
    assert (∀ v' vol, s !! v' = Some vol → owns vol p = false) as Hnone.
    { intros v' vol Hs. apply not_true_iff_false. intros Ho.
      eapply Forall_forall in Hfind; [|apply (Hin (v', vol)); exact Hs]. apply Hfind. cbn. by rewrite Ho. }
    assert (match s !! v with Some vol => owns vol p | None => false end = false) as ->
      by (destruct (s !! v) eqn:Hs; [by eapply Hnone|done]).
    destruct (isKubeletCSIPublishPath p) eqn:Hk; [|done]. intros _. split; [done|]. right.
    split; [exact Hnone|].
    apply first_publish_spec in Hk as (pre & uid & vol' & Hk & Hu & Hv & _). by exists pre, uid, vol'.
Qed.

(** C25. Statistics are only answered for a path the tracked volume of the given ID owns,
    or for a path no tracked volume owns that has the form of a publish directory of
    kubelet (then for any volume ID); a path only other tracked volumes own is refused. And only
    in two ways: with the recorded condition of an abnormal volume, without
    touching its mount; or from a statfs of the path made after the path was
    found to be a live mount, never from the filesystem below an unmounted
    target. *)
Theorem stats_answer_sound (host : ∀ X, hostE X → log → X) (s s' : Volumes) (volumeID volumePath : string)
    (resp : StatsResponse) (l : log) :
  s !! "" = None →
  run host (NodeGetVolumeStats volumeID volumePath s) [] = (Ok resp, s', l) →
  s' = s ∧ Path.IsAbs volumePath = true ∧ stats_path s volumeID volumePath ∧
  if r_abnormal resp then
    (∃ vol, s !! volumeID = Some vol ∧ abnormal vol = Some (r_message resp)) ∧
    r_usage resp = [] ∧ l = [Obs (InTime "lock") None]
  else
    ∃ l0 f, l = l0 ++ [Obs (Statfs volumePath) (Ok f)] ∧ viewed volumePath l0 = Live ∧
      resp = response_of (usage_of f).
Proof.
  intros Hempty Hrun.
  assert (awp anything (NodeGetVolumeStats volumeID volumePath) (λ r s' l, ∀ resp, r = Ok resp →
    s' = s ∧ Path.IsAbs volumePath = true ∧ stats_path s volumeID volumePath ∧
    if r_abnormal resp then
      (∃ vol, s !! volumeID = Some vol ∧ abnormal vol = Some (r_message resp)) ∧
      r_usage resp = [] ∧ l = [Obs (InTime "lock") None]
    else
      ∃ l0 f, l = l0 ++ [Obs (Statfs volumePath) (Ok f)] ∧ viewed volumePath l0 = Live ∧
        resp = response_of (usage_of f)) s []) as H.
  2:{ apply (wpp_run _ host) in H. rewrite Hrun in H. by apply H. }
  clear Hrun. unfold NodeGetVolumeStats. do 2 (apply awp_guard; [done|intros _]).
  unfold wait_for. apply awp_bind, awp_bind, awp_ask; [done|]. intros [e|]; [by apply awp_fail|].
  apply awp_ret, awp_bind, awp_gets, awp_bind, awp_lift. cbn [id].
  destruct (validateVolumeStatsPath s volumeID volumePath) as [[]|e] eqn:Hval; [|done].
  apply validateVolumeStatsPath_sound in Hval as [Habs Hpath]; [|done].
  destruct (s !! volumeID ≫= abnormal) as [m|] eqn:Hab.
  { apply awp_ret. intros r [= <-]. split_and!; [done..|]. cbn. split_and!; [|done..].
    apply bind_Some in Hab as (vol & Hv & Hm). by exists vol. }
  apply awp_bind, awp_bind, awp_ask; [done|]. intros [e|]; [by apply awp_fail|].
  apply awp_ret, awp_bind. unfold readVolumeUsageForStats. apply awp_bind.
  eapply awp_mono.
  { apply (awp_limits (NewSeaweedFsDriver (λ x, [x]) "" "" "" "" "" false) (RExpand "" "" 0)).
    apply isStagingPathHealthy_spec. }
  intros r s1 l1 (-> & b & -> & Hb). destruct b; cbn [negb]; [|by apply awp_fail].
  specialize (Hb eq_refl). unfold readVolumeUsage. apply awp_bind, awp_with_err, awp_call; [done|].
  intros [f|e]; cbn [rmap_err]; [|done]. apply awp_ret, awp_ret. intros r [= <-].
  split_and!; [done..|]. cbn. by exists l1, f.
Qed.
End answers.

(** ** An example *)
Definition demo_range : VolumeRange :=
  {| range_volumes := map_to_list; range_volumes_perm s := reflexivity _ |}.
Definition stats_volumes : Volumes :=
  {["pvc-1" := set_staged (NewVolume demo_driver "pvc-1") "/staging/1" true]}.
(** A host where every path is a mount point. *)
Definition mountedHost (X : Type) (e : hostE X) : log → X :=
  match e in hostE Y return (log → Y) → log → Y with
  | IsMountPoint _ => λ _ _, Ok true
  | _ => λ answer, answer
  end (exampleHost healthOK X e).

Definition stats_run : (result StatsResponse * Volumes) * log :=
  run mountedHost (NodeGetVolumeStats (MU := demo_utils) (VR := demo_range) "pvc-1" "/staging/1"
    stats_volumes) [].
Definition stats_resp : StatsResponse :=
  match stats_run.1.1 with Ok r => r | Err _ => {| r_usage := []; r_abnormal := true; r_message := "" |} end.

Lemma stats_answer_sound_witness :
  stats_volumes !! "" = None ∧
  r_usage stats_resp =
    [{| u_unit := BYTES; u_total := 4096000; u_used := 2457600; u_available := 1228800 |};
     {| u_unit := INODES; u_total := 50; u_used := 30; u_available := 20 |}] ∧
  stats_run.1.2 = stats_volumes ∧
  ∃ l0 f, stats_run.2 = l0 ++ [Obs (Statfs "/staging/1") (Ok f)] ∧
    viewed (MU := demo_utils) "/staging/1" l0 = Live ∧ stats_resp = response_of (usage_of f).
Proof.
  assert (stats_volumes !! "" = None) as H0 by reflexivity.
  assert (stats_run = (Ok stats_resp, stats_run.1.2, stats_run.2)) as H1 by (vm_compute; reflexivity).
  split; [exact H0|]. split; [vm_compute; reflexivity|].
  destruct (stats_answer_sound (MU := demo_utils) (VR := demo_range) mountedHost stats_volumes
    stats_run.1.2 "pvc-1" "/staging/1" stats_resp stats_run.2 H0 H1) as (Hs & _ & _ & Hr).
  split; [exact Hs|]. exact Hr.
Defined.
