(* ===== verification/StatsCalls.v ===== *)
(** * Shared reads of statistics

    Models the concurrency of [pkg/driver/volume_stats.go]: requests for the same volume
    and path share one goroutine that reads the statistics ([activeStats]), each waits
    for it within its own context, and the wait for the volume's lock polls. What is
    read is in [VolumeStats]. *)

From S2P Require Import Prelude.
#[local] Open Scope go_scope.

Section stats.
Context {usage : Type}.

(** [volumeStatsRequest]. *)
Definition volumeStatsRequest : Type := string * string.

(** A call: its goroutine reads; has stored the answer; has left [activeStats]; has
    closed [done]. *)
Inductive call_pc :=
  | Reading
  | Answered (a : result usage)
  | Withdrawn (a : result usage)
  | Closed (a : result usage).

Record volumeStatsCall := { c_request : volumeStatsRequest; c_pc : call_pc }.

Record sstate := SState {
  activeStats : gmap volumeStatsRequest nat;
  stat_calls : gmap nat volumeStatsCall;
  waiting : gmap nat (volumeStatsRequest * nat);   (** requests in [waitVolumeStatsCall] and their call *)
  given : list (volumeStatsRequest * result usage);  (** the answers of requests *)
}.

Definition sinit : sstate := SState ∅ ∅ ∅ [].

Inductive slabel :=
  | Request (w : nat) (r : volumeStatsRequest) (id : nat)   (** [LoadOrStore]; [id] is the new call, if one is made *)
  | Answer (id : nat) (a : result usage)
  | Withdraw (id : nat)                                     (** [activeStats.Delete] *)
  | CloseDone (id : nat)
  | Receive (w : nat)                                       (** [<-call.done] *)
  | ContextDone (w : nat) (e : error).

Definition set_call (s : sstate) (id : nat) (pc : call_pc) : sstate :=
  match stat_calls s !! id with
  | Some c => SState (activeStats s) (<[id := {| c_request := c_request c; c_pc := pc |}]> (stat_calls s))
                (waiting s) (given s)
  | None => s
  end.
Definition give (s : sstate) (w : nat) (r : volumeStatsRequest) (a : result usage) : sstate :=
  SState (activeStats s) (stat_calls s) (delete w (waiting s)) (given s ++ [(r, a)]).

(** [readVolumeUsageWithTimeout] and the goroutine it starts. *)
Definition stats_step (s : sstate) (l : slabel) : option sstate :=
  match l with
  | Request w r id =>
      if bool_decide (is_Some (waiting s !! w)) then None
      else match activeStats s !! r with
           | Some id => Some (SState (activeStats s) (stat_calls s) (<[w := (r, id)]> (waiting s)) (given s))
           | None =>
               if bool_decide (is_Some (stat_calls s !! id)) then None
               else Some (SState (<[r := id]> (activeStats s))
                            (<[id := {| c_request := r; c_pc := Reading |}]> (stat_calls s))
                            (<[w := (r, id)]> (waiting s)) (given s))
           end
  | Answer id a =>
      match c_pc <$> stat_calls s !! id with Some Reading => Some (set_call s id (Answered a)) | _ => None end
  | Withdraw id =>
      match stat_calls s !! id with
      | Some {| c_request := r; c_pc := Answered a |} =>
          Some (SState (delete r (activeStats s)) (<[id := {| c_request := r; c_pc := Withdrawn a |}]> (stat_calls s))
                  (waiting s) (given s))
      | _ => None
      end
  | CloseDone id =>
      match c_pc <$> stat_calls s !! id with Some (Withdrawn a) => Some (set_call s id (Closed a)) | _ => None end
  | Receive w =>
      '(r, id) ← waiting s !! w;
      match c_pc <$> stat_calls s !! id with Some (Closed a) => Some (give s w r a) | _ => None end
  | ContextDone w e => '(r, id) ← waiting s !! w; Some (give s w r (Err e))
  end.

Fixpoint stats_run (s : sstate) (ls : list slabel) : option sstate :=
  match ls with
  | [] => Some s
  | l :: ls => s' ← stats_step s l; stats_run s' ls
  end.

(** ** The invariant *)

(** The call is in [activeStats] as long as its goroutine has not taken it out. *)
Definition in_flight (s : sstate) (id : nat) (r : volumeStatsRequest) : Prop :=
  ∃ pc, stat_calls s !! id = Some {| c_request := r; c_pc := pc |} ∧
    match pc with Reading | Answered _ => True | _ => False end.

(** The goroutine of a call has stored the answer. *)
Definition answered (s : sstate) (id : nat) (r : volumeStatsRequest) (a : result usage) : Prop :=
  ∃ pc, stat_calls s !! id = Some {| c_request := r; c_pc := pc |} ∧
    match pc with Reading => False | Answered b | Withdrawn b | Closed b => b = a end.

Record SInv (s : sstate) : Prop := {
  s_active r id : activeStats s !! r = Some id ↔ in_flight s id r;
  s_waiting w r id : waiting s !! w = Some (r, id) → ∃ pc, stat_calls s !! id = Some {| c_request := r; c_pc := pc |};
  s_given r a : (r, a) ∈ given s → (∃ id, answered s id r a) ∨ ∃ e, a = Err e;
}.

Lemma sinit_inv : SInv sinit.
Proof.
  split; cbn.
  - intros r id. rewrite lookup_empty. split; [done|]. intros (pc & H & _). cbn in H. by rewrite lookup_empty in H.
  - intros w r id. by rewrite lookup_empty.
  - intros r a H. by apply not_elem_of_nil in H.
Qed.

(** A call whose goroutine moves on, staying on its side of [activeStats]. *)
Lemma set_call_inv s id r pc pc' :
  SInv s → stat_calls s !! id = Some {| c_request := r; c_pc := pc |} →
  (match pc with Reading | Answered _ => True | _ => False end ↔
   match pc' with Reading | Answered _ => True | _ => False end) →
  (∀ a, match pc with Reading => False | Answered b | Withdrawn b | Closed b => b = a end →
        match pc' with Reading => False | Answered b | Withdrawn b | Closed b => b = a end) →
  SInv (set_call s id pc').
Proof.
  intros [Ha Hw Hg] Hid Hside Hkeep. unfold set_call. rewrite Hid. cbn. split; cbn.
  - intros r' id'. rewrite Ha. unfold in_flight. cbn. destruct (decide (id = id')) as [<-|Hne].
    + rewrite lookup_insert_eq, Hid. split; intros (pc0 & [= <- <-] & H); eexists; (split; [done|]); by apply Hside.
    + by rewrite lookup_insert_ne.
  - intros w r' id' H. destruct (Hw w r' id' H) as [pc0 H0]. destruct (decide (id = id')) as [<-|Hne].
    + rewrite Hid in H0. injection H0 as <- <-. exists pc'. by rewrite lookup_insert_eq.
    + exists pc0. by rewrite lookup_insert_ne.
  - intros r' a H. destruct (Hg r' a H) as [(id' & pc0 & H0 & Hpc)|?]; [left|by right]. exists id'.
    unfold answered. cbn. destruct (decide (id = id')) as [<-|Hne].
    + rewrite Hid in H0. injection H0 as <- <-. exists pc'. rewrite lookup_insert_eq. split; [done|]. by apply Hkeep.
    + exists pc0. by rewrite lookup_insert_ne.
Qed.

Lemma give_inv s w r id a :
  SInv s → waiting s !! w = Some (r, id) → (answered s id r a ∨ ∃ e, a = Err e) → SInv (give s w r a).
Proof.
  intros [Ha Hw Hg] Hwid Hans. split; cbn; [done| |].
  - intros w' r' id' H. apply lookup_delete_Some in H as [_ H]. by apply Hw in H.
  - intros r' a' [H|[= -> ->]%list_elem_of_singleton]%elem_of_app; [by apply Hg in H|].
    destruct Hans as [?|?]; [left; by exists id|by right].
Qed.

Lemma stats_step_inv s l s' : SInv s → stats_step s l = Some s' → SInv s'.
Proof.
  intros Hinv. destruct l as [w r id|id a|id|id|w|w e]; cbn [stats_step].
  - destruct Hinv as [Ha Hw Hg]. case_bool_decide as Hnw; [done|]. destruct (activeStats s !! r) as [id'|] eqn:Hr.
    + intros [= <-]. split; cbn; [done| |done].
      intros w' r' id'' [[<- [= <- <-]]|[_ H]]%lookup_insert_Some; [|by apply Hw in H].
      apply Ha in Hr as (pc & Hpc & _). by exists pc.
    + case_bool_decide as Hid; [done|]. apply eq_None_not_Some in Hid. intros [= <-]. split; cbn.
      * intros r' id'. unfold in_flight. cbn. rewrite lookup_insert_Some. split.
        -- intros [[<- <-]|[Hne H]]; [exists Reading; by rewrite lookup_insert_eq|].
           apply Ha in H as (pc & Hpc & ?). exists pc. rewrite lookup_insert_ne; [done|congruence].
        -- intros (pc & [[<- [= <- <-]]|[Hne H]]%lookup_insert_Some & Hpc); [by left|]. right.
           assert (activeStats s !! r' = Some id') as Hr' by (apply Ha; by exists pc). split; [congruence|done].
      * intros w' r' id' [[<- [= <- <-]]|[_ H]]%lookup_insert_Some; [exists Reading; by rewrite lookup_insert_eq|].
        apply Hw in H as [pc H]. exists pc. rewrite lookup_insert_ne; [done|congruence].
      * intros r' a H. destruct (Hg r' a H) as [(id' & pc & Hpc & ?)|?]; [left|by right].
        exists id', pc. cbn. rewrite lookup_insert_ne; [done|congruence].
  - destruct (stat_calls s !! id) as [[r []]|] eqn:Hid; cbn; try done. intros [= <-].
    by eapply set_call_inv; [done|exact Hid| |].
  - destruct (stat_calls s !! id) as [[r [|a|a|a]]|] eqn:Hid; try done. intros [= <-].
    destruct Hinv as [Ha Hw Hg].
    assert (activeStats s !! r = Some id) as Hr by (apply Ha; by eexists). split; cbn.
    + intros r' id'. unfold in_flight. cbn. rewrite lookup_delete_Some, Ha. unfold in_flight. split.
      * intros [Hne (pc & Hpc & ?)]. exists pc. rewrite lookup_insert_ne; [done|]. congruence.
      * intros (pc & [[<- [= <- <-]]|[Hne H]]%lookup_insert_Some & Hpc); [done|].
        split; [|by exists pc]. intros ->. assert (activeStats s !! r' = Some id') as H' by (apply Ha; by exists pc).
        congruence.
    + intros w r' id' H. destruct (Hw w r' id' H) as [pc H0]. destruct (decide (id = id')) as [<-|Hne].
      * rewrite Hid in H0. injection H0 as <- <-. eexists. by rewrite lookup_insert_eq.
      * exists pc. by rewrite lookup_insert_ne.
    + intros r' a' H. destruct (Hg r' a' H) as [(id' & pc & H0 & Hpc)|?]; [left|by right]. exists id'.
      unfold answered. cbn. destruct (decide (id = id')) as [<-|Hne].
      * rewrite Hid in H0. injection H0 as <- <-. eexists. by rewrite lookup_insert_eq.
      * exists pc. by rewrite lookup_insert_ne.
  - destruct (stat_calls s !! id) as [[r []]|] eqn:Hid; cbn; try done. intros [= <-].
    by eapply set_call_inv; [done|exact Hid| |].
  - destruct (waiting s !! w) as [[r id]|] eqn:Hw; [|done]. cbn.
    destruct (s_waiting s Hinv w r id Hw) as [pc Hpc]. rewrite Hpc. cbn. destruct pc; try done. intros [= <-].
    eapply give_inv; [done..|]. left. by eexists.
  - destruct (waiting s !! w) as [[r id]|] eqn:Hw; [|done]. cbn. intros [= <-].
    eapply give_inv; [done..|]. right. by eexists.
Qed.

(** In every interleaving: for a volume and path one goroutine at most reads; a request
    waits for a call made for its own volume and path; the answer it gives is one that
    such a call has read, or an error of its context. *)
Lemma stats_calls_shared ls s :
  stats_run sinit ls = Some s →
  (∀ i j r, in_flight s i r → in_flight s j r → i = j) ∧
  (∀ w r id, waiting s !! w = Some (r, id) → ∃ pc, stat_calls s !! id = Some {| c_request := r; c_pc := pc |}) ∧
  (∀ r a, (r, a) ∈ given s → (∃ id, answered s id r a) ∨ ∃ e, a = Err e).
Proof.
  intros Hrun. assert (SInv s) as [Ha Hw Hg].
  { revert Hrun. generalize sinit_inv. generalize sinit. induction ls as [|l ls IH]; intros s0 H0; cbn.
    - by intros [= <-].
    - destruct (stats_step s0 l) as [s1|] eqn:Hl; [|done]. cbn. apply IH. by eapply stats_step_inv. }
  split_and!; [|done|done]. intros i j r Hi Hj. apply Ha in Hi, Hj. congruence.
Qed.
End stats.

(** ** The wait for the lock *)

(** What [lockVolumeStats] sees in turn: a tick with the outcome of [TryLock], or the end
    of its context. *)
Inductive poll := Ticked (locked : bool) | Ended (canceled : bool).

Definition volumeStatsContextError (volumeID : string) (canceled : bool) : error :=
  if canceled then Status Canceled "volume stats request canceled"
  else Status DeadlineExceeded ("volume stats collection timed out for volume " +:+ volumeID).

(** [None]: it still waits. *)
Fixpoint lock_loop (volumeID : string) (polls : list poll) : option (result unit) :=
  match polls with
  | [] => None
  | Ended canceled :: _ => Some (Err (volumeStatsContextError volumeID canceled))
  | Ticked true :: _ => Some (Ok tt)
  | Ticked false :: polls => lock_loop volumeID polls
  end.
Definition lockVolumeStats (volumeID : string) (first : bool) (polls : list poll) : option (result unit) :=
  if first then Some (Ok tt) else lock_loop volumeID polls.

(** It returns with the lock or with an error of its context, never with the lock and
    an error, and it does not outlast its context. *)
Lemma lockVolumeStats_spec volumeID first polls :
  match lockVolumeStats volumeID first polls with
  | Some (Ok _) => first = true ∨ Ticked true ∈ polls
  | Some (Err e) => first = false ∧ ∃ c, Ended c ∈ polls ∧ e = volumeStatsContextError volumeID c
  | None => ∀ c, Ended c ∉ polls
  end.
Proof.
  unfold lockVolumeStats. destruct first; [by left|].
  assert (match lock_loop volumeID polls with
          | Some (Ok _) => Ticked true ∈ polls
          | Some (Err e) => ∃ c, Ended c ∈ polls ∧ e = volumeStatsContextError volumeID c
          | None => ∀ c, Ended c ∉ polls
          end) as H.
  { induction polls as [|[[]|c] polls IH]; cbn; [by intros c Hc%not_elem_of_nil|left| |].
    - destruct (lock_loop volumeID polls) as [[[]|e]|]; [by right| |].
      + destruct IH as (c & Hc & ->). exists c. split; [by right|done].
      + intros c [?|Hc]%elem_of_cons; [done|by apply (IH c)].
    - exists c. split; [left|done]. }
  destruct (lock_loop volumeID polls) as [[[]|e]|]; [by right| |done]. by split.
Qed.
