(* ===== verification/InstanceCache.v ===== *)
(** * Instance caches of past weed mounts

    Models [pkg/mountmanager/instance_cache_linux.go]: a weed mount keeps its
    cache in a directory named after its version below the cache directory of
    the volume; once a new one is up, the directories that no process holds a
    file open or mapped in are removed. *)

From S2P Require Import Prelude GoLib MountInfo Host.
Import Strings.
#[local] Open Scope go_scope.

(** The entry of [cacheDir] below which a path lies ([note]). *)
Definition instance_of (prefix path : string) : option string :=
  if HasPrefix path prefix then Some (default "" (head (Split (TrimPrefix path prefix) "/")))
  else None.

(** The file of one line of [/proc/<pid>/maps]. *)
Definition mapped_file (line : string) : option string :=
  let fields := Fields line in
  if 6 <=? length fields then Some (Join (drop 5 fields) " ") else None.

Definition mapped_files (text : string) : list string :=
  omap mapped_file (scan_lines (raw_lines text)).1.

(** *** The lines of maps that the kernel prints

    proc(5): addresses, permissions, offset, device, inode and, after blanks, the path of
    the file, here one without runs of white space. *)
Record mapping := {
  m_address : string; m_perms : string; m_offset : string; m_device : string; m_inode : string;
  m_blanks : nat; m_words : list string }.

Definition m_path (m : mapping) : string := Join (m_words m) " ".
Fixpoint blanks (n : nat) (s : string) : string := match n with 0 => s | S n => String " " (blanks n s) end.
Definition show_mapping (m : mapping) : string :=
  m_address m +:+ String " " (m_perms m +:+ String " " (m_offset m +:+ String " " (m_device m +:+ String " "
    (m_inode m +:+ String " " (blanks (m_blanks m) (m_path m)))))).

Record mapping_ok (m : mapping) : Prop := {
  mo_fields : Forall field_ok [m_address m; m_perms m; m_offset m; m_device m; m_inode m];
  mo_words : m_words m ≠ [] ∧ Forall field_ok (m_words m);
  mo_length : (Z.of_nat (String.length (show_mapping m)) < MaxScanTokenSize)%Z;
}.

Lemma mapped_file_show m : mapping_ok m → mapped_file (show_mapping m) = Some (m_path m).
Proof.
  intros [Hf [Hne Hw] _]. rewrite !Forall_cons in Hf. destruct Hf as (? & ? & ? & ? & ? & _).
  unfold mapped_file, show_mapping. rewrite !Fields_field by done.
  assert (∀ n s, Fields (blanks n s) = Fields s) as ->.
  { induction n as [|n IH]; intros s; [done|]. cbn [blanks]. by rewrite Fields_blank. }
  unfold m_path. rewrite Fields_Join by done. destruct (m_words m); done.
Qed.

(** A text whose reads gave the line of the mapping; no line before it is too long. *)
Definition shows (text : string) (m : mapping) : Prop :=
  mapping_ok m ∧ ∃ before after,
    text = String.concat "" (map (λ x, x +:+ String nl "") before) +:+ show_mapping m +:+ String nl after ∧
    Forall (λ x, (Z.of_nat (String.length x) < MaxScanTokenSize)%Z ∧ no_byte nl x) before.

Lemma show_mapping_no_byte c m :
  mapping_ok m → is_space c = true → c ≠ " "%char → no_byte c (show_mapping m).
Proof.
  intros [Hf [_ Hw] _] Hc Hne. rewrite !Forall_cons in Hf. destruct Hf as (H1 & H2 & H3 & H4 & H5 & _).
  assert (∀ n, no_byte c (blanks n (m_path m))) as Hb.
  { induction n as [|n IH]; [by apply Join_no_byte|]. by apply no_byte_cons. }
  unfold show_mapping.
  repeat (apply no_byte_app; split; [by apply field_ok_no_byte|]; apply no_byte_cons; split; [done|]). done.
Qed.

Lemma scan_lines_prefix before line after :
  Forall (λ x, (Z.of_nat (String.length x) < MaxScanTokenSize)%Z) (before ++ [line]) →
  TrimSuffix line cr ∈ (scan_lines (before ++ line :: after)).1.
Proof.
  intros [Hb Hl]%Forall_app. apply Forall_cons in Hl as [Hl _].
  induction Hb as [|x before Hx Hb IH]; cbn [app scan_lines]; cbv beta in *.
  - destruct (Z.leb_spec MaxScanTokenSize (Z.of_nat (String.length line))); [lia|].
    destruct (scan_lines after). by left.
  - destruct (Z.leb_spec MaxScanTokenSize (Z.of_nat (String.length x))); [lia|].
    destruct (scan_lines (before ++ line :: after)). by right.
Qed.

Lemma mapped_files_show text m : shows text m → m_path m ∈ mapped_files text.
Proof.
  intros (Hm & before & after & -> & Hb). unfold mapped_files. apply list_elem_of_omap.
  exists (show_mapping m). split; [|by apply mapped_file_show].
  rewrite <- (TrimSuffix_cr (show_mapping m)) at 1 by (by apply show_mapping_no_byte).
  unfold raw_lines. rewrite Split_lines by (eapply Forall_impl; [exact Hb|naive_solver]).
  rewrite Split_app_sep, Split_no_byte by (by apply show_mapping_no_byte).
  destruct (exists_last (split_by_nonnil (chr_eqb nl) after)) as (ls & x & Hx). change (Split after nl) with (split_by (chr_eqb nl) after).
  rewrite Hx. assert (∃ after', match rev (before ++ [show_mapping m] ++ ls ++ [x]) with
    | EmptyString :: rest => rev rest | l => rev l end = before ++ show_mapping m :: after') as [after' ->].
  { rewrite !app_assoc, rev_unit. destruct x; [exists ls; by rewrite rev_involutive, <- app_assoc|].
    exists (ls ++ [String a x]). cbn [rev]. by rewrite rev_involutive, <- !app_assoc. }
  apply scan_lines_prefix, Forall_app. split; [|by apply Forall_singleton; apply Hm].
  eapply Forall_impl; [exact Hb|naive_solver].
Qed.

Section instances.
Context {S : Type} (cacheDir procRoot : string).
#[local] Abbreviation prefix := (Path.Clean cacheDir +:+ "/").

Definition proc_dir (pid : string) : string := Path.JoinPath [procRoot; pid].
Definition fd_dir (pid : string) : string := Path.JoinPath [proc_dir pid; "fd"].
Definition fd_path (pid fd : string) : string := Path.JoinPath [proc_dir pid; "fd"; fd].
Definition maps_path (pid : string) : string := Path.JoinPath [proc_dir pid; "maps"].

(** The entries held through open files. *)
Definition held_open (pid : string) (fd : string * bool) : act S (option string) :=
  do! target := atry (call (Readlink (fd_path pid fd.1))) in
  aret (match target with Ok t => instance_of prefix t | Err _ => None end).

(** The entries one process holds. *)
Definition held_by (pid : string) : act S (list string) :=
  match Strconv.Atoi pid with
  | None => aret []
  | Some _ =>
      do! fds := atry (call (ReadDir (fd_dir pid))) in
      match fds with
      | Err e => if is_not_exist e then aret [] else afail e
      | Ok fds =>
          do! opened := amap (held_open pid) fds in
          do! maps := atry (call (OpenFile (maps_path pid))) in
          match maps with
          | Err e => if is_not_exist e then aret (omap id opened) else afail e
          | Ok _ =>
              do! read := ask (ScanFile (maps_path pid)) in   (* [scanner.Err] is not asked *)
              aret (omap id opened ++ omap (instance_of prefix) (mapped_files read.1))
          end
      end
  end.

Definition heldInstances : act S (list string) :=
  do! procs := call (ReadDir procRoot) in
  do! helds := amap (λ p : string * bool, held_by p.1) procs in
  aret (concat helds).

Definition removeInstance (held : list string) (e : string * bool) : act S unit :=
  if negb e.2 || bool_decide (e.1 ∈ held) then aret tt
  else do! _ := atry (call (RemoveAll (Path.JoinPath [cacheDir; e.1]))) in aret tt.

Definition removeUnheldInstanceCaches : act S unit :=
  do! entries := atry (call (ReadDir cacheDir)) in
  match entries with
  | Err _ => aret tt
  | Ok entries =>
      do! held := atry heldInstances in
      match held with
      | Err _ => aret tt
      | Ok held => amap (removeInstance held) entries ;;> aret tt
      end
  end.

(** ** What the host shows in use *)

(** An entry of the cache directory, and what lies below it. *)
Definition below (name path : string) : Prop :=
  no_byte "/" name ∧ ∃ rest, path = prefix +:+ name +:+ rest ∧ (rest = "" ∨ ∃ r, rest = String "/" r).

(** Some answer of the host shows a file below the entry open or mapped. *)
Definition in_use (l : log) (name : string) : Prop :=
  (∃ q target, Obs (Readlink q) (Ok target) ∈ l ∧ below name target) ∨
  (∃ q text err m, Obs (ScanFile q) (text, err) ∈ l ∧ shows text m ∧ below name (m_path m)).

Lemma instance_of_below name path : below name path → instance_of prefix path = Some name.
Proof.
  intros (Hn & rest & -> & Hrest). unfold instance_of, HasPrefix. rewrite prefix_app.
  unfold TrimPrefix, HasPrefix. rewrite prefix_app, sdrop_app. f_equal.
  destruct Hrest as [->|[r ->]].
  - by rewrite sapp_nil_r, Split_no_byte.
  - by rewrite Split_app_sep, Split_no_byte.
Qed.

(** ** Nothing in use is removed *)

(** The process was looked at: every open file, and its maps, as far as they could be
    read; or it was gone. *)
Definition looked_at (pid : string) (l : log) : Prop :=
  (∃ e, Obs (ReadDir (fd_dir pid)) (Err e) ∈ l ∧ is_not_exist e = true) ∨
  (∃ fds, Obs (ReadDir (fd_dir pid)) (Ok fds) ∈ l ∧
     ∀ fd, fd ∈ fds → ∃ r, Obs (Readlink (fd_path pid fd.1)) r ∈ l) ∧
  ((∃ e, Obs (OpenFile (maps_path pid)) (Err e) ∈ l ∧ is_not_exist e = true) ∨
   ∃ text err, Obs (ScanFile (maps_path pid)) (text, err) ∈ l).

(** Every file the code finds in the host's answers below the cache directory lies in
    one of these entries. *)
Definition shown (l : log) (held : list string) : Prop :=
  (∀ q target name, Obs (Readlink q) (Ok target) ∈ l → instance_of prefix target = Some name →
     name ∈ held) ∧
  (∀ q text err path name, Obs (ScanFile q) (text, err) ∈ l → path ∈ mapped_files text →
     instance_of prefix path = Some name → name ∈ held).

Lemma shown_in_use l held name : shown l held → in_use l name → name ∈ held.
Proof.
  intros [H1 H2] [(q & t & Ho & Hb)|(q & text & err & m & Ho & Hm & Hb)]; apply instance_of_below in Hb.
  - by eapply H1.
  - eapply H2; [exact Ho|by apply mapped_files_show|done].
Qed.

Definition removal_allowed {X} (e : hostE X) (l : log) : Prop :=
  match e with
  | RemoveAll p =>
      ∃ name entries procs,
        p = Path.JoinPath [cacheDir; name] ∧
        Obs (ReadDir cacheDir) (Ok entries) ∈ l ∧ (name, true) ∈ entries ∧
        Obs (ReadDir procRoot) (Ok procs) ∈ l ∧
        (∀ p, p ∈ procs → is_Some (Strconv.Atoi p.1) → looked_at p.1 l) ∧
        ¬ in_use l name
  | ReadDir _ | Readlink _ | OpenFile _ | ScanFile _ => True
  | _ => False
  end.
#[local] Abbreviation iwp := (awp (S := S) (λ X, @removal_allowed X)).

Lemma shown_nil H : shown [] H.
Proof. split; [intros q t n Ho|intros q t err path n Ho]; by apply elem_of_nil in Ho. Qed.

Lemma shown_mono l H H' : H ⊆ H' → shown l H → shown l H'.
Proof. intros HH [H1 H2]. split; eauto. Qed.

(** What an observation shows. *)
Definition link_of (o : obs) : option (string * result string) :=
  match o with
  | Obs e x => match e in hostE Y return Y → option (string * result string) with
               | Readlink q => λ r, Some (q, r)
               | _ => λ _, None
               end x
  end.
Definition file_of (o : obs) : option (string * (string * option error)) :=
  match o with
  | Obs e x => match e in hostE Y return Y → option (string * (string * option error)) with
               | ScanFile q => λ r, Some (q, r)
               | _ => λ _, None
               end x
  end.

Lemma elem_of_log_snoc (l : log) o o' : o ∈ l ++ [o'] ↔ o ∈ l ∨ o = o'.
Proof. by rewrite elem_of_app, list_elem_of_singleton. Qed.

(** [H] says that an observation is the last one. *)
Ltac same_obs H :=
  let H1 := fresh in let H2 := fresh in
  pose proof (f_equal link_of H) as H1; pose proof (f_equal file_of H) as H2;
  cbn in H1, H2; simplify_eq.

(** An observation that shows nothing. *)
Lemma shown_other l H {X} (e : hostE X) x :
  match e with Readlink _ | ScanFile _ => False | _ => True end →
  shown l H → shown (l ++ [Obs e x]) H.
Proof.
  intros He [H1 H2]. split.
  - intros q t n [Ho|Ho]%elem_of_log_snoc; [by eapply H1|]. apply (f_equal link_of) in Ho.
    destruct e; done.
  - intros q t err path n [Ho|Ho]%elem_of_log_snoc; [by eapply H2|]. apply (f_equal file_of) in Ho.
    destruct e; done.
Qed.

Lemma shown_link l H q r :
  shown l H →
  shown (l ++ [Obs (Readlink q) r])
    (H ++ omap id [match r with Ok t => instance_of prefix t | Err _ => None end]).
Proof.
  intros [H1 H2]. split.
  - intros q' t n [Ho|Ho]%elem_of_log_snoc Hn; apply elem_of_app; [left; by eapply H1|].
    right. same_obs Ho. cbn. rewrite Hn. by left.
  - intros q' t err path n [Ho|Ho]%elem_of_log_snoc Hp Hn; [|same_obs Ho].
    apply elem_of_app. left. by eapply H2.
Qed.

Lemma shown_maps l H q text err :
  shown l H →
  shown (l ++ [Obs (ScanFile q) (text, err)]) (H ++ omap (instance_of prefix) (mapped_files text)).
Proof.
  intros [H1 H2]. split.
  - intros q' t n [Ho|Ho]%elem_of_log_snoc Hn; [|same_obs Ho].
    apply elem_of_app. left. by eapply H1.
  - intros q' t err' path n [Ho|Ho]%elem_of_log_snoc Hp Hn; apply elem_of_app; [left; by eapply H2|].
    right. same_obs Ho. apply list_elem_of_omap. eauto.
Qed.

Definition extends (l l' : log) : Prop := ∀ o, o ∈ l → o ∈ l'.
Lemma extends_snoc l l' o : extends l l' → extends l (l' ++ [o]).
Proof. intros H x Hx. apply elem_of_app. left. by apply H. Qed.
Lemma extends_trans l1 l2 l3 : extends l1 l2 → extends l2 l3 → extends l1 l3.
Proof. unfold extends. auto. Qed.
Lemma elem_snoc (l : log) o : o ∈ l ++ [o].
Proof. apply elem_of_app. right. by left. Qed.

Lemma held_open_all pid fds H s l :
  shown l H →
  iwp (amap (held_open pid) fds) (λ r s' l', s' = s ∧ extends l l' ∧ ∃ os, r = Ok os ∧
    shown l' (H ++ omap id os) ∧
    ∀ fd, fd ∈ fds → ∃ r, Obs (Readlink (fd_path pid fd.1)) r ∈ l') s l.
Proof.
  revert H l. induction fds as [|fd fds IH]; intros H l Hl; cbn [amap].
  - apply awp_ret. split_and!; [done..|]. exists []. rewrite app_nil_r. split_and!; [done..|].
    by intros fd Hfd%elem_of_nil.
  - apply awp_bind. unfold held_open at 1. apply awp_bind, awp_try, awp_call; [done|]. intros r.
    apply awp_ret, awp_bind. eapply awp_mono; [by apply IH, shown_link|].
    intros r' s' l' (-> & Hext & os & -> & Hs & Hfds). apply awp_ret. split_and!; [done| |].
    + eapply extends_trans; [|exact Hext]. by apply extends_snoc.
    + eexists. split; [done|]. split.
      * rewrite <- app_assoc in Hs.
        change (omap id (?o :: os)) with (omap id ([o] ++ os)). by rewrite omap_app.
      * intros fd' [->|Hfd]%elem_of_cons; [|by apply Hfds]. exists r. apply Hext, elem_snoc.
Qed.

Lemma held_by_spec pid H s l :
  shown l H →
  iwp (held_by pid) (λ r s' l', s' = s ∧ extends l l' ∧ ∀ hs, r = Ok hs →
    shown l' (H ++ hs) ∧ (is_Some (Strconv.Atoi pid) → looked_at pid l')) s l.
Proof.
  intros Hl. unfold held_by. destruct (Strconv.Atoi pid) as [n|].
  2:{ apply awp_ret. split_and!; [done..|]. intros hs [= <-]. rewrite app_nil_r. split; [done|]. by intros []. }
  apply awp_bind, awp_try, awp_call; [done|]. intros [fds|e].
  - apply awp_bind. eapply awp_mono; [apply held_open_all; by apply shown_other|].
    intros r s1 l1 (-> & Hext & os & -> & Hs & Hfds).
    assert (extends l l1) as Hext1 by (eapply extends_trans; [|exact Hext]; by apply extends_snoc).
    apply awp_bind, awp_try, awp_call; [done|]. intros [[]|e].
    + apply awp_bind, awp_ask; [done|]. intros [text err]. apply awp_ret.
      split_and!; [done|by do 2 apply extends_snoc|]. intros hs [= <-]. split.
      * rewrite app_assoc. apply shown_maps. by apply shown_other.
      * intros _. right. split.
        -- exists fds. split; [do 2 (apply elem_of_app; left); apply Hext, elem_snoc|].
           intros fd Hfd. destruct (Hfds fd Hfd) as [r Hr]. exists r. do 2 (apply elem_of_app; left). done.
        -- right. exists text, err. apply elem_snoc.
    + destruct (is_not_exist e) eqn:He; [apply awp_ret|apply awp_fail];
        (split_and!; [done|by apply extends_snoc|]); [|done].
      intros hs [= <-]. split; [by apply shown_other|]. intros _. right. split.
      * exists fds. split; [apply extends_snoc with l1; [done|]; apply Hext, elem_snoc|].
        intros fd Hfd. destruct (Hfds fd Hfd) as [r Hr]. exists r. apply elem_of_app. by left.
      * left. exists e. split; [apply elem_snoc|done].
  - destruct (is_not_exist e) eqn:He; [apply awp_ret|apply awp_fail];
      (split_and!; [done|by apply extends_snoc|]); [|done].
    intros hs [= <-]. rewrite app_nil_r. split; [by apply shown_other|]. intros _. left.
    exists e. split; [apply elem_snoc|done].
Qed.

Lemma looked_at_extends pid l l' : extends l l' → looked_at pid l → looked_at pid l'.
Proof.
  intros Hl [(e & He & H)|[(fds & Hf & Hr) Hm]]; [left; exists e; auto|right]. split.
  - exists fds. split; [by apply Hl|]. intros fd Hfd. destruct (Hr fd Hfd) as [r ?]. exists r. by apply Hl.
  - destruct Hm as [(e & He & H)|(t & err & Ht)]; [left; exists e|right; exists t, err]; auto.
Qed.

Lemma held_by_all procs H s l :
  shown l H →
  iwp (amap (λ p : string * bool, held_by p.1) procs) (λ r s' l', s' = s ∧ extends l l' ∧ ∀ hss, r = Ok hss →
    shown l' (H ++ concat hss) ∧
    ∀ p, p ∈ procs → is_Some (Strconv.Atoi p.1) → looked_at p.1 l') s l.
Proof.
  revert H l. induction procs as [|p procs IH]; intros H l Hl; cbn [amap].
  - apply awp_ret. split_and!; [done..|]. intros hss [= <-]. rewrite app_nil_r. split; [done|].
    by intros p Hp%elem_of_nil.
  - apply awp_bind. eapply awp_mono; [by apply held_by_spec|].
    intros [hs|e] s1 l1 (-> & Hext & Hhs); [|done]. destruct (Hhs hs eq_refl) as [Hs Hlook].
    apply awp_bind. eapply awp_mono; [by apply IH|].
    intros [hss|e] s2 l2 (-> & Hext2 & Hhss); [|split_and!; [done|by eapply extends_trans|done]].
    destruct (Hhss hss eq_refl) as [Hs2 Hlook2]. apply awp_ret. split_and!; [done|by eapply extends_trans|].
    intros hss' [= <-]. split; [cbn; by rewrite app_assoc|].
    intros q [->|Hq]%elem_of_cons Hn; [|by apply Hlook2]. eapply looked_at_extends; [done|]. by apply Hlook.
Qed.

(** C30. An instance cache is removed only after every process was looked at, and only if
    no answer of the host showed a file below it open, or mapped in a line of maps that the
    kernel prints; when the open files of a process cannot be listed or its maps not opened,
    nothing is removed. Nothing else is removed. What an answer does not show is not known
    to be in use: an open file whose link cannot be read, the rest of maps whose reading
    fails. *)
Theorem instance_caches_in_use_kept (s : S) :
  iwp removeUnheldInstanceCaches (λ r s' _, s' = s ∧ is_ok r = true) s [].
Proof.
  unfold removeUnheldInstanceCaches. apply awp_bind, awp_try, awp_call; [done|].
  intros [entries|e]; [|by apply awp_ret]. apply awp_bind, awp_try. unfold heldInstances.
  apply awp_bind, awp_call; [done|]. intros [procs|e]; [|by apply awp_ret].
  apply awp_bind. eapply awp_mono; [apply (held_by_all procs []); do 2 (apply shown_other; [done|]); apply shown_nil|].
  intros [hss|e] s1 l1 (-> & Hext & Hh); [|by apply awp_ret]. destruct (Hh hss eq_refl) as [Hs Hlook].
  cbn [app] in Hs. apply awp_ret, awp_bind.
  assert (∀ es l', es ⊆ entries → extends l1 l' → shown l' (concat hss) →
    iwp (amap (removeInstance (concat hss)) es) (λ r s' _, s' = s ∧ is_ok r = true) s l') as Hloop.
  2:{ eapply awp_mono; [by apply Hloop|]. by intros [us|e] s2 l2 [-> ?]. }
  induction es as [|e es IH]; intros l' Hes Hl' Hs'; cbn [amap]; [by apply awp_ret|].
  assert (iwp (amap (removeInstance (concat hss)) es) (λ r s' _, s' = s ∧ is_ok r = true) s l') as Hrest.
  { apply IH; [|done..]. intros x Hx. apply Hes. by right. }
  apply awp_bind. unfold removeInstance at 1. destruct (negb e.2 || _) eqn:Hb.
  { apply awp_ret, awp_bind. eapply awp_mono; [exact Hrest|]. intros [us|e'] s2 l2 [-> ?]; [by apply awp_ret|done]. }
  apply orb_false_iff in Hb as [Hd%negb_false_iff Hn%bool_decide_eq_false].
  apply awp_bind, awp_try, awp_call.
  - exists e.1, entries, procs. split_and!.
    + done.
    + apply Hl', Hext. apply elem_of_app. left. apply elem_of_app. right. by left.
    + rewrite <- Hd. destruct e. apply Hes. by left.
    + apply Hl', Hext, elem_snoc.
    + intros p Hp Ha. eapply looked_at_extends; [exact Hl'|]. by apply Hlook.
    + by intros Hu%(shown_in_use _ _ _ Hs').
  - intros r. apply awp_ret, awp_bind. eapply awp_mono; [apply IH|].
    + intros x Hx. apply Hes. by right.
    + by apply extends_snoc.
    + by apply shown_other.
    + intros [us|e'] s2 l2 [-> ?]; [by apply awp_ret|done].
Qed.
End instances.

(** ** Examples *)

(** One process, without open files, and what the reads of its maps give. *)
Definition mapsHost (maps : string * option error) (X : Type) (e : hostE X) : log → X :=
  match e in hostE Y return (log → Y) → log → Y with
  | ReadDir p => λ _ _,
      if String.eqb p "/c" then Ok [("8000GB_3.90", true); ("8000GB_3.91", true)]
      else if String.eqb p "/proc" then Ok [("self", true); ("7", true)] else Ok []
  | ScanFile _ => λ _ _, maps
  | _ => λ answer, answer
  end (exampleHost healthOK X e).

Definition demo_mapping : mapping := {|
  m_address := "7f2c8c021000-7f2c8c022000"; m_perms := "r--s"; m_offset := "00000000"; m_device := "08:02";
  m_inode := "135522"; m_blanks := 20; m_words := ["/c/8000GB_3.91/meta.db"] |}.
Definition removed (l : log) : list string :=
  omap (λ o, match o with Obs e _ => match e with RemoveAll p => Some p | _ => None end end) l.
Definition removed_with (maps : string * option error) : list string :=
  removed (run (mapsHost maps) (removeUnheldInstanceCaches "/c" "/proc" tt) []).2.

Example mapped_cache_kept : removed_with (show_mapping demo_mapping +:+ String nl "", None) = ["/c/8000GB_3.90"].
Proof. vm_compute. reflexivity. Qed.

(** A read of the maps that fails ends the loop of the scanner as their end does: the cache
    the process has mapped is removed. *)
Lemma failed_read_removes_cache :
  removed_with ("", Some (Errorf "input/output error")) = ["/c/8000GB_3.90"; "/c/8000GB_3.91"].
Proof. vm_compute. reflexivity. Qed.
