(* ===== verification/Health.v ===== *)
(** * The health monitor

    Models [pkg/driver/health_monitor.go]: the decision a health check takes,
    the recovery of a dead or hung staging mount, and the repair of publish
    binds. The registries of probes in flight are events of the host. *)

From S2P Require Import Prelude GoLib Hash Params Driver Controller MountFlags MountArgs MountInfo Host MountUtil Container Node.
#[local] Open Scope go_scope.

(** Durations are in nanoseconds. *)
Definition second : Z := 1000000000.
Definition defaultUnhealthyThreshold : Z := 3.
Definition defaultHungMountAfter : Z := 60 * second.

(** ** The decision of one check *)

(** What [performVolumeHealthCheck] does after a check, besides its counters. *)
Inductive decision :=
  | Wait                    (** nothing yet *)
  | RecoverHung
  | RecoverDead
  | CheckPublishes.         (** the staging mount is alive *)
#[export] Instance decision_eq_dec : EqDecision decision.
Proof. solve_decision. Defined.

Definition hung_message (vol : Volume) (streak : Z) : string :=
  "staging mount " +:+ StagedPath vol +:+ " has left a health probe unanswered across "
  +:+ Strconv.FormatInt streak
  +:+ " consecutive health checks, longer than weed mount takes to answer any request; treating it as dead".
Definition dead_message (vol : Volume) : string :=
  "staging mount " +:+ StagedPath vol +:+ " failed " +:+ Strconv.FormatInt defaultUnhealthyThreshold
  +:+ " consecutive health checks: the FUSE mount is dead".

(** The switch of [performVolumeHealthCheck] on the result of a check. The
    messages leave out the measured duration. *)
Definition note_check (hungAfter : Z) (vol : Volume) (result : healthResult) (unanswered : Z)
    : Volume * decision :=
  match result with
  | healthSlow =>
      let vol := noteUnhealthy (setFailCount vol 0) in
      let streak := unhealthyStreak vol in
      if (streak <? defaultUnhealthyThreshold)%Z || (unanswered <=? hungAfter)%Z then (vol, Wait)
      else (setAbnormal vol (hung_message vol streak), RecoverHung)
  | healthDead =>
      let vol := noteUnhealthy vol in
      let n := int32_add (healthFailCount vol) 1 in
      let vol := setFailCount vol n in
      if (n <? defaultUnhealthyThreshold)%Z then (vol, Wait)
      else (setAbnormal (setFailCount vol 0) (dead_message vol), RecoverDead)
  | healthOK => (noteHealthy (setFailCount vol 0), CheckPublishes)
  end.

(** [sync.Map.Range] over the publish paths visits them in some order. *)
Class PathRange := {
  range_paths : gmap string bool → list (string * bool);
  range_paths_perm m : range_paths m ≡ₚ map_to_list m;
}.

Section health.
Context {MU : MountUtils} {MR : MapRange} {PR : PathRange}.
Context (Driver : SeaweedFsDriver) (hungMountAfter : Z).
#[local] Abbreviation act := (Host.act Volumes).

Definition hungAfter : Z :=
  if (0 <? hungMountAfter)%Z then hungMountAfter else defaultHungMountAfter.

(** A step whose outcome is only logged. *)
Definition quietly {A} (m : act A) : act unit := do! _ := atry m in aret tt.

(** ** Publish binds *)
Definition tearDownStalePublishBind (path : string) : act bool :=
  do! r := atry (unmountVolume path) in
  match r with
  | Ok _ => resetStatfsProbe path ;;> aret true
  | Err _ =>
      do! c := atry (cleanupMountPoint path) in
      match c with
      | Err _ => aret false
      | Ok _ => resetStatfsProbe path ;;> aret true
      end
  end.

(** [hasUnhealthyPublishPath]: stops at the first dead path. *)
Fixpoint anyDead (paths : list (string * bool)) : act bool :=
  match paths with
  | [] => aret false
  | (path, _) :: paths =>
      do! r := checkHealth path in
      if bool_decide (r = healthDead) then aret true else anyDead paths
  end.

(** One path of [retryPublishPaths]. *)
Definition retryPath (vol : Volume) (pr : string * bool) : act unit :=
  let '(path, ro) := pr in
  do! r := checkHealth path in
  if negb (bool_decide (r = healthDead)) then aret tt
  else
    do! gone := tearDownStalePublishBind path in
    if negb gone then aret tt
    else
      do! p := atry (Publish (StagedPath vol) path ro) in
      match p with
      | Err _ => aret tt
      | Ok _ => quietly (repairStaleContainerMounts path (StagedPath vol))
      end.

Definition retryPublishPaths (volumeID : string) : act unit :=
  do! tracked := agets (λ s, s !! volumeID) in
  match tracked with
  | None => aret tt
  | Some vol =>
      do! r := checkHealth (StagedPath vol) in
      if bool_decide (r = healthDead) then aret tt
      else amap (retryPath vol) (range_paths (publishPaths vol)) ;;> aret tt
  end.

Definition repairContainerMounts (volumeID : string) : act unit :=
  do! tracked := agets (λ s, s !! volumeID) in
  match tracked with
  | None => aret tt
  | Some vol =>
      if String.eqb (StagedPath vol) "" then aret tt
      else
        amap (λ pr : string * bool, quietly (repairStaleContainerMounts pr.1 (StagedPath vol)))
          (range_paths (publishPaths vol)) ;;>
        aret tt
  end.

(** ** Recovery *)

(** [recheck]: is the mount still confirmed dead, or hung. *)
Definition recheck (hungAfter : Z) (path : string) : act bool :=
  do! (r, unanswered) := checkHealthUnanswered path in
  aret (bool_decide (r = healthDead) ||
        ((0 <? hungAfter)%Z && bool_decide (r = healthSlow) && (hungAfter <? unanswered)%Z)).

(** The first device found among the publish binds. *)
Fixpoint firstDevice (paths : list (string * bool)) : act string :=
  match paths with
  | [] => aret ""
  | (path, _) :: paths =>
      do! d := atry (getMountDevice path) in
      match d with
      | Ok d => if String.eqb d "" then firstDevice paths else aret d
      | Err _ => firstDevice paths
      end
  end.

(** Step 1: stop the weed mount through the mount service; [false] aborts. *)
Definition stopMount (volumeID : string) (vol : Volume) (hung : bool) : act bool :=
  do! u :=
    if negb (unmounter vol) && hung then
      do! r := atry (call (NewUnmounter volumeID)) in
      aret (match r with Ok _ => Some true | Err _ => None end)
    else aret (Some (unmounter vol)) in
  match u with
  | None => aret false
  | Some false => aret true
  | Some true =>
      do! r := atry (call (SvcUnmount volumeID)) in
      match r with
      | Err _ => aret false
      | Ok _ => resetStatfsProbe (StagedPath vol) ;;> aret true
      end
  end.

(** Detach the staging mount after it was confirmed dead again, and make sure
    that nothing is mounted there; [false] aborts. *)
Definition detachStaging (hungAfter : Z) (stagingPath : string) : act bool :=
  do! confirmed := recheck hungAfter stagingPath in
  if negb confirmed then aret false
  else
    do! notMnt := atry (call (IsLikelyNotMountPoint stagingPath)) in
    do! proceed :=
      match notMnt with
      | Ok false => isDeadMount stagingPath hungAfter
      | _ => aret true
      end in
    if negb proceed then aret false
    else
      do! r := atry (detachDeadMountPoint stagingPath) in
      match r with
      | Err _ => aret false
      | Ok _ =>
          resetStatfsProbe stagingPath ;;>
          do! mounted := atry (isPathMounted stagingPath) in
          aret (match mounted with Ok true => false | _ => true end)
      end.

(** Step 5 for one path. *)
Definition republish (stagingPath : string) (p : (string * bool) * bool) : act bool :=
  let '((path, ro), unmounted) := p in
  if negb unmounted then aret false
  else do! r := atry (Publish stagingPath path ro) in aret (is_ok r).

Definition repairRecovered (stagingPath oldDevice : string) (p : (string * bool) * bool) : act unit :=
  let '((path, ro), recovered) := p in
  if negb recovered then aret tt
  else
    (if negb (String.eqb oldDevice "") then quietly (remountInContainers path stagingPath oldDevice ro)
     else aret tt) ;;>
    quietly (repairStaleContainerMounts path stagingPath).

(** Steps 2 to 7, the staging path being free: a fresh mount, the publish binds
    on it, and the new volume in place of the old one. *)
Definition restage (volumeID stagingPath oldDevice : string) (vol : Volume) (ctx : strmap)
    (publishes : list (string * bool)) : act unit :=
  do! cleaned := atry (cleanupStaleStagingPath stagingPath) in
  if negb (is_ok cleaned) then aret tt
  else
    do! staged := atry (stageNewVolume Driver volumeID stagingPath ctx (readOnly vol)) in
    match staged with
    | Err _ => aret tt
    | Ok newVol =>
        do! unmounted := amap (λ p : string * bool, tearDownStalePublishBind p.1) publishes in
        do! recovered := amap (republish stagingPath) (zip publishes unmounted) in
        let newVol := foldl (λ v (p : string * bool), AddPublishPath v p.1 p.2) newVol publishes in
        store volumeID newVol ;;>
        amap (repairRecovered stagingPath oldDevice) (zip publishes recovered) ;;>
        aret tt
    end.

Definition recoverVolumeAs (volumeID : string) (hung : bool) : act unit :=
  let hungAfter := if hung then hungAfter else 0%Z in
  do! tracked := agets (λ s, s !! volumeID) in
  match tracked with
  | None => aret tt
  | Some vol =>
      let stagingPath := StagedPath vol in
      do! confirmed := recheck hungAfter stagingPath in
      if negb confirmed then aret tt
      else match volContext vol with
      | None => aret tt
      | Some ctx =>
          do! dev := atry (getMountDevice stagingPath) in
          let publishes := range_paths (publishPaths vol) in
          do! oldDevice := match dev with
                           | Ok d => if String.eqb d "" then firstDevice publishes else aret d
                           | Err _ => firstDevice publishes
                           end in
          do! stopped := stopMount volumeID vol hung in
          if negb stopped then aret tt
          else
            do! free := detachStaging hungAfter stagingPath in
            if negb free then aret tt
            else restage volumeID stagingPath oldDevice vol ctx publishes
      end
  end.

(** ** One health check of a volume *)
Definition performVolumeHealthCheck (volumeID : string) : act unit :=
  do! tracked := agets (λ s, s !! volumeID) in
  match tracked with
  | None => aret tt
  | Some vol =>
      if String.eqb (StagedPath vol) "" then aret tt
      else
        do! (result, unanswered) := checkHealthUnanswered (StagedPath vol) in
        let '(vol, d) := note_check hungAfter vol result unanswered in
        store volumeID vol ;;>
        match d with
        | Wait => aret tt
        | RecoverHung => recoverVolumeAs volumeID true
        | RecoverDead => recoverVolumeAs volumeID false
        | CheckPublishes =>
            do! bad := anyDead (range_paths (publishPaths vol)) in
            (if bad then retryPublishPaths volumeID else aret tt) ;;>
            repairContainerMounts volumeID
        end
  end.
End health.

(** ** A sequence of checks *)

(** The checks of a volume, the most recent first. *)
Fixpoint run_checks (hungAfter : Z) (vol : Volume) (cs : list (healthResult * Z)) : Volume :=
  match cs with
  | [] => vol
  | (r, u) :: cs => (note_check hungAfter (run_checks hungAfter vol cs) r u).1
  end.

(** How many of the latest checks were dead, and how many were not ok. *)
Fixpoint dead_run (cs : list (healthResult * Z)) : Z :=
  match cs with
  | (healthDead, _) :: cs => dead_run cs + 1
  | _ => 0
  end.
Fixpoint bad_run (cs : list (healthResult * Z)) : Z :=
  match cs with
  | (healthOK, _) :: _ | [] => 0
  | _ :: cs => bad_run cs + 1
  end.

Lemma dead_run_nonneg cs : (0 <= dead_run cs)%Z.
Proof. induction cs as [|[[] u] cs IH]; cbn; lia. Qed.

Lemma bad_run_bounds cs : (0 <= bad_run cs <= Z.of_nat (length cs))%Z.
Proof. induction cs as [|[[] u] cs IH]; cbn [bad_run length]; lia. Qed.

Lemma int32_add_small z : (0 <= z < 2 ^ 31 - 1)%Z → int32_add z 1 = (z + 1)%Z.
Proof.
  intros Hz. unfold int32_add. change (2 ^ 31)%Z with 2147483648%Z in *.
  change (2 ^ 32)%Z with 4294967296%Z. rewrite Z.mod_small; lia.
Qed.

(** A check changes the counters and the condition only. *)
Lemma note_check_paths H vol r u : publishPaths (note_check H vol r u).1 = publishPaths vol.
Proof.
  unfold note_check. destruct r; cbv zeta; [done|..]; [destruct (_ <? _)%Z|destruct (_ || _)]; done.
Qed.

Lemma note_check_staged H vol r u : StagedPath (note_check H vol r u).1 = StagedPath vol.
Proof.
  unfold note_check. destruct r; cbv zeta; [done|..]; [destruct (_ <? _)%Z|destruct (_ || _)]; done.
Qed.

(** The two counters of a volume after its checks. *)
Lemma run_checks_counters H vol cs :
  healthFailCount vol = 0%Z → unhealthyStreak vol = 0%Z →
  (Z.of_nat (length cs) < 2 ^ 31)%Z →
  healthFailCount (run_checks H vol cs) = (dead_run cs mod 3)%Z ∧
  unhealthyStreak (run_checks H vol cs) = bad_run cs.
Proof.
  intros Hf Hs. induction cs as [|[r u] cs IH]; intros Hlen; [by cbn; rewrite Hf, Hs|].
  cbn [length] in Hlen. destruct IH as [IH1 IH2]; [lia|].
  pose proof (bad_run_bounds cs). pose proof (dead_run_nonneg cs).
  pose proof (Z.mod_pos_bound (dead_run cs) 3).
  cbn [run_checks note_check]. destruct r; cbn [note_check].
  - done.
  - cbn [dead_run bad_run noteUnhealthy set_health healthFailCount].
    rewrite IH1, (int32_add_small (dead_run cs mod 3)) by lia.
    assert (((dead_run cs + 1) mod 3 =
      if (dead_run cs mod 3 + 1 <? 3)%Z then dead_run cs mod 3 + 1 else 0)%Z) as Hmod.
    { pose proof (Z.div_mod (dead_run cs) 3).
      destruct (Z.ltb_spec (dead_run cs mod 3 + 1) 3).
      - symmetry. apply Z.mod_unique with (dead_run cs / 3)%Z; lia.
      - symmetry. apply Z.mod_unique with (dead_run cs / 3 + 1)%Z; lia. }
    unfold defaultUnhealthyThreshold. rewrite Hmod.
    destruct (Z.ltb_spec (dead_run cs mod 3 + 1) 3); cbn;
      rewrite IH2, int32_add_small by lia; done.
  - cbn [dead_run bad_run].
    assert (∀ v d, (if (unhealthyStreak v <? defaultUnhealthyThreshold)%Z || (u <=? H)%Z
      then (v, Wait) else (setAbnormal v (hung_message v (unhealthyStreak v)), d)).1 = v ∨
      ∃ m, (if (unhealthyStreak v <? defaultUnhealthyThreshold)%Z || (u <=? H)%Z
      then (v, Wait) else (setAbnormal v (hung_message v (unhealthyStreak v)), d)).1
      = setAbnormal v m) as Hcase by (intros v d; destruct (_ || _); [by left|right; by eexists]).
    set (v := noteUnhealthy (setFailCount (run_checks H vol cs) 0)).
    destruct (Hcase v RecoverHung) as [-> |[m ->]]; cbn; rewrite IH2, int32_add_small by lia; done.
Qed.

(** C19. Recovery, which unmounts under running pods, is decided exactly in two
    cases: at every third consecutive dead check, and at a timed-out check that
    is at least the third check in a row the mount did not pass and whose probe
    has been unanswered longer than the bound. One check that the mount answers
    starts both counts anew; a slow check starts the count of dead ones anew. *)
Theorem health_check_decision (H : Z) (vol : Volume) (cs : list (healthResult * Z))
    (r : healthResult) (u : Z) :
  healthFailCount vol = 0%Z → unhealthyStreak vol = 0%Z →
  (Z.of_nat (length cs) < 2 ^ 31 - 1)%Z →
  let d := (note_check H (run_checks H vol cs) r u).2 in
  (d = RecoverDead ↔ r = healthDead ∧ ((dead_run cs + 1) mod 3 = 0)%Z) ∧
  (d = RecoverHung ↔ r = healthSlow ∧ (3 <= bad_run cs + 1)%Z ∧ (H < u)%Z) ∧
  (d = CheckPublishes ↔ r = healthOK).
Proof.
  intros Hf Hs Hlen. cbv zeta.
  destruct (run_checks_counters H vol cs Hf Hs) as [H1 H2]; [lia|].
  pose proof (bad_run_bounds cs). pose proof (dead_run_nonneg cs).
  pose proof (Z.mod_pos_bound (dead_run cs) 3). pose proof (Z.div_mod (dead_run cs) 3).
  destruct r; cbn [note_check].
  - naive_solver.
  - cbn [noteUnhealthy set_health healthFailCount]. rewrite H1, int32_add_small by lia.
    unfold defaultUnhealthyThreshold. destruct (Z.ltb_spec (dead_run cs mod 3 + 1) 3); cbn [snd].
    + split_and!; [|naive_solver..]. split; [done|]. intros [_ Hm].
      rewrite <- (Z.mod_unique (dead_run cs + 1) 3 (dead_run cs / 3) (dead_run cs mod 3 + 1)) in Hm; lia.
    + split_and!; [|naive_solver..]. split; [|done]. intros _. split; [done|].
      symmetry. apply Z.mod_unique with (dead_run cs / 3 + 1)%Z; lia.
  - cbn [noteUnhealthy setFailCount set_health unhealthyStreak]. rewrite H2, int32_add_small by lia.
    unfold defaultUnhealthyThreshold.
    destruct (Z.ltb_spec (bad_run cs + 1) 3); [|destruct (Z.leb_spec u H)]; cbn;
      (split_and!; [naive_solver| |naive_solver]); split; try done; try naive_solver lia.
Qed.

Definition fresh_volume : Volume := {|
  VolumeId := "v"; StagedPath := "/s"; unmounter := true; localSocket := "/v.sock";
  healthFailCount := 0; unhealthyStreak := 0; abnormal := None; publishPaths := ∅;
  volContext := None; readOnly := false |}.

Lemma health_check_decision_witness :
  healthFailCount fresh_volume = 0%Z ∧ unhealthyStreak fresh_volume = 0%Z ∧
  (note_check defaultHungMountAfter
     (run_checks defaultHungMountAfter fresh_volume [(healthDead, 0%Z); (healthDead, 0%Z)])
     healthDead 0).2 = RecoverDead ∧
  (note_check defaultHungMountAfter
     (run_checks defaultHungMountAfter fresh_volume [(healthSlow, 0%Z); (healthDead, 0%Z)])
     healthSlow (defaultHungMountAfter + 1)).2 = RecoverHung.
Proof.
  split; [reflexivity|]. split; [reflexivity|]. split.
  - apply (health_check_decision defaultHungMountAfter fresh_volume
      [(healthDead, 0%Z); (healthDead, 0%Z)] healthDead 0 eq_refl eq_refl eq_refl).
    split; [reflexivity|]. reflexivity.
  - apply (health_check_decision defaultHungMountAfter fresh_volume
      [(healthSlow, 0%Z); (healthDead, 0%Z)] healthSlow (defaultHungMountAfter + 1)
      eq_refl eq_refl eq_refl).
    split; [reflexivity|]. split; [discriminate|]. reflexivity.
Defined.
