(* ===== verification/ContainerRepair.v ===== *)
(** * Which mounts in containers the health monitor replaces

    The repairs of [Container.v] as the health monitor of [Health.v] uses them:
    the pods and the staging path are those of the tracked volume, and the device
    whose mounts a recovery replaces is one the volume's own mounts had. *)

From S2P Require Import Prelude GoLib Hash Params Driver Controller MountFlags MountArgs MountInfo Host MountUtil Container Node Health.
#[local] Open Scope go_scope.

(** A probe of the staging mount found it dead, or got no answer in time. *)
Definition condemned (vol : Volume) (l : log) : Prop :=
  ∃ r, Obs (AwaitHealth (StagedPath vol)) r ∈ l ∧ r ≠ Some healthOK.

(** The plugin's own mount table showed the device at the staging path of the
    volume, or at one of its publish paths. *)
Definition volume_device (vol : Volume) (dev : string) (l : log) : Prop :=
  ∃ own entries path, Obs Getpid own ∈ l ∧ read_table own entries l ∧
    mountDevice entries path = Ok dev ∧
    (path = StagedPath vol ∨ is_Some (publishPaths vol !! path)).

(** The mount of a container that may be replaced: one of a pod the volume is
    published to, found dead on another device than the staging mount; or on the
    device the volume had when its staging mount was condemned. *)
Definition may_replace (vol : Volume) (pid : Z) (p src : string) (l : log) : Prop :=
  ∃ target, is_Some (publishPaths vol !! target) ∧
    let uid := extractPodUID target in
    (may_repair uid (StagedPath vol) pid p src l ∨
     condemned vol l ∧ ∃ dev, dev ≠ "" ∧ volume_device vol dev l ∧
       may_remount uid (StagedPath vol) dev pid p src l).

(** Nothing is asked of what the monitor does outside the containers. *)
Definition replaces_safely (vol : Volume) : policy := λ X e l,
  match e with
  | NsUmount p | NsMoveMount p | NsReadOnly p =>
      ∃ pid src, thread_ns l = Some pid ∧ tree l = Some src ∧ may_replace vol pid p src l
  | UnlockThread => thread_ns l = None ∨ ∃ e, last l = Some (Obs RestoreNS (Err e))
  | _ => True
  end.

(** ** Policies and the log so far *)

(** An action may rely on the log it was started with. *)
Lemma wpp_since (ok ok' : policy) {A} (m : prog A) Q l0 l :
  (∀ X (e : hostE X) l, grown l0 l → ok X e l → ok' X e l) → grown l0 l →
  wpp ok m Q l → wpp ok' m Q l.
Proof.
  intros Hok. revert l. induction m as [a|X e k IH]; intros l Hl; cbn; [done|]. intros [H1 H2].
  split; [by apply Hok|]. intros x. apply IH; [by apply grown_snoc|apply H2].
Qed.

Lemma replaces_container (may : Z → string → string → log → Prop) vol {X} (e : hostE X) l :
  (∀ pid p src, may pid p src l → may_replace vol pid p src l) →
  container_allowed may e l → replaces_safely vol X e l.
Proof. intros Hm. destruct e; cbn; try done; naive_solver. Qed.

Section monitor.
Context {MU : MountUtils} {MR : MapRange} {PR : PathRange}.
Context (Driver : SeaweedFsDriver) (hungMountAfter : Z).

(** A volume with the paths of the one that is checked. *)
Definition same_paths (vol vol' : Volume) : Prop :=
  StagedPath vol' = StagedPath vol ∧ publishPaths vol' = publishPaths vol.

Context (vol : Volume).
#[local] Abbreviation ok := (replaces_safely vol).
#[local] Abbreviation twp := (awp (S := Volumes) ok).
#[local] Abbreviation outside := (keeps (S := Volumes) ok).

Lemma condemned_grows l l' : grown l l' → condemned vol l → condemned vol l'.
Proof. intros Hl (r & Hr & Hne). exists r. split; [by eapply grown_elem|done]. Qed.
Lemma volume_device_grows dev l l' : grown l l' → volume_device vol dev l → volume_device vol dev l'.
Proof.
  intros Hl (own & es & path & Ho & Ht & H). exists own, es, path.
  split_and!; [by eapply grown_elem|by eapply read_table_grows|naive_solver..].
Qed.

(** *** What stays outside the containers *)
Lemma reset_outside p : outside (resetStatfsProbe p).
Proof. unfold resetStatfsProbe. keeps_auto. Qed.
#[local] Hint Resolve reset_outside : keeps.
Lemma check_outside p : outside (checkHealthUnanswered p).
Proof. unfold checkHealthUnanswered, statfsProbeUnanswered. keeps_auto. Qed.
#[local] Hint Resolve check_outside : keeps.
Lemma health_outside p : outside (checkHealth p).
Proof. unfold checkHealth. keeps_auto. Qed.
Lemma cleanup_outside p : outside (cleanupStaleStagingPath p).
Proof.
  unfold cleanupStaleStagingPath, cleanupCorruptedStagingPath, removeIfExists, lazyUnmount. keeps_auto.
Qed.
Lemma checkMount_outside p : outside (checkMount p).
Proof. unfold checkMount. keeps_auto. Qed.
#[local] Hint Resolve health_outside cleanup_outside checkMount_outside : keeps.
Lemma publish_outside p t ro : outside (Publish p t ro).
Proof. unfold Publish, defaultBindMount. keeps_auto. Qed.
Lemma tearDown_outside p : outside (tearDownStalePublishBind p).
Proof. unfold tearDownStalePublishBind, unmountVolume, cleanupMountPoint. keeps_auto. Qed.
Lemma anyDead_outside ps : outside (anyDead ps).
Proof. induction ps as [|[p ro] ps IH]; cbn [anyDead]; keeps_auto. Qed.
Lemma stopMount_outside v w hung : outside (stopMount v w hung).
Proof. unfold stopMount. keeps_auto. Qed.
Lemma detach_outside H p : outside (detachStaging H p).
Proof.
  unfold detachStaging, recheck, isDeadMount, detachDeadMountPoint, lazyUnmount, isPathMounted,
    probeStatfs, statfsProbeUnanswered. keeps_auto.
Qed.
#[local] Hint Resolve publish_outside tearDown_outside anyDead_outside stopMount_outside detach_outside : keeps.
Lemma republish_outside staging p : outside (republish staging p).
Proof. unfold republish. keeps_auto. Qed.
Lemma stageNewVolume_outside v p ctx ro : outside (stageNewVolume Driver v p ctx ro).
Proof.
  unfold stageNewVolume, effectiveContext, resolveVolumeCapacity, Stage, Unstage, Quota,
    unmountVolume, cleanupMountPoint, removeIfExists, CleanupVolumeResources. keeps_auto.
Qed.
#[local] Hint Resolve republish_outside stageNewVolume_outside : keeps.

(** *** What replaces mounts *)
Lemma use_since {A} (m : Host.act Volumes A) Q s l :
  outside m → (∀ r l', grown l l' → Q r s l') → twp m Q s l.
Proof.
  intros Hm HQ. eapply awp_mono; [apply awp_prefix_log, Hm|]. intros r s' l' [-> Hl]. by apply HQ.
Qed.

Lemma map_since {A B} (f : A → Host.act Volumes B) xs s l :
  (∀ x l', x ∈ xs → grown l l' → twp (f x) (λ _ s' _, s' = s) s l') →
  twp (amap f xs) (λ _ s' _, s' = s) s l.
Proof.
  intros Hf. eapply awp_mono; [apply (awp_map ok f xs (λ s' l', s' = s ∧ grown l l'))|].
  - intros x s' l' Hx [-> Hl]. eapply awp_mono; [apply awp_prefix_log, Hf; done|].
    intros r s'' l'' [-> Hl']. split; [done|]. by eapply grown_trans.
  - split; [done|apply grown_refl].
  - by intros r s' l' [-> _].
Qed.

Lemma quietly_since {A} (m : Host.act Volumes A) s l :
  twp m (λ _ s' _, s' = s) s l → twp (quietly m) (λ _ s' _, s' = s) s l.
Proof. intros Hm. apply awp_bind, awp_try. eapply awp_mono; [exact Hm|]. intros r s' l' ->. by apply awp_ret. Qed.

Lemma repair_within target s l :
  is_Some (publishPaths vol !! target) →
  twp (repairStaleContainerMounts target (StagedPath vol)) (λ _ s' _, s' = s) s l.
Proof.
  intros Ht. eapply wpp_weaken; [|apply repairStaleContainerMounts_spec].
  intros X e l'. apply replaces_container. intros pid p src H. exists target. split; [done|]. by left.
Qed.

Lemma remount_within target dev ro s l :
  is_Some (publishPaths vol !! target) → dev ≠ "" → condemned vol l → volume_device vol dev l →
  twp (remountInContainers target (StagedPath vol) dev ro) (λ _ s' _, s' = s) s l.
Proof.
  intros Ht Hne Hc Hd. eapply wpp_since; [|apply grown_refl|apply remountInContainers_spec].
  intros X e l' Hl. apply replaces_container. intros pid p src H. exists target. split; [done|]. right.
  split; [by eapply condemned_grows|]. exists dev. split_and!; [done|by eapply volume_device_grows|done].
Qed.

Lemma repairRecovered_within dev target ro b s l :
  is_Some (publishPaths vol !! target) → condemned vol l → (dev ≠ "" → volume_device vol dev l) →
  twp (repairRecovered (StagedPath vol) dev ((target, ro), b)) (λ _ s' _, s' = s) s l.
Proof.
  intros Ht Hc Hd. unfold repairRecovered. destruct b; cbn [negb]; [|by apply awp_ret]. apply awp_bind.
  eapply awp_mono with (Q := λ _ s' _, s' = s).
  - destruct (String.eqb_spec dev ""); cbn [negb]; [by apply awp_ret|]. by apply quietly_since, remount_within; auto.
  - intros [[]|e] s1 l1 ->; [|done]. by apply quietly_since, repair_within.
Qed.

(** *** Recovery *)
Lemma recheck_within H s l :
  twp (recheck H (StagedPath vol)) (λ r s' l', s' = s ∧ ∀ b, r = Ok b → b = true → condemned vol l') s l.
Proof.
  unfold recheck, checkHealthUnanswered. apply awp_bind, awp_bind, awp_ask; [exact I|]. intros start.
  apply awp_bind, awp_ask; [exact I|]. intros r. set (l1 := _ ++ [Obs (AwaitHealth _) r]).
  assert (r ≠ Some healthOK → condemned vol l1) as Hc.
  { intros Hr. exists r. split; [|done]. apply elem_of_app. right. by left. }
  destruct r as [[]|]; cbn beta iota.
  - apply awp_ret, awp_ret. split; [done|]. intros b <-%Ok_inj. cbn. by destruct (0 <? H)%Z.
  - apply awp_ret, awp_ret. split; [done|]. intros b _ _. by apply Hc.
  - apply awp_bind, use_since; [unfold statfsProbeUnanswered; keeps_auto|]. intros [u|e] l2 Hl2; [|done].
    apply awp_ret, awp_ret. split; [done|]. intros b _ _. eapply condemned_grows; [done|]. by apply Hc.
  - apply awp_bind, awp_ask; [exact I|]. intros now. apply awp_bind.
    apply use_since; [unfold statfsProbeUnanswered; keeps_auto|]. intros [u|e] l2 Hl2; [|done].
    apply awp_ret, awp_ret. split; [done|]. intros b _ _. eapply condemned_grows; [|by apply Hc].
    eapply grown_trans; [|done]. by apply grown_snoc, grown_refl.
Qed.

Lemma getMountDevice_within path s l :
  (path = StagedPath vol ∨ is_Some (publishPaths vol !! path)) →
  twp (getMountDevice path) (λ r s' l', s' = s ∧ ∀ d, r = Ok d → volume_device vol d l') s l.
Proof.
  intros Hp. unfold getMountDevice, parseMountInfo. apply awp_bind, awp_ask; [exact I|]. intros own.
  apply awp_bind, awp_with_err, awp_bind, awp_call; [exact I|]. intros [text|e]; cbn [rmap_err]; [|done].
  apply awp_lift. destruct (parseMountInfoReader text) as [es|e] eqn:Hes; cbn [rmap_err]; [|done].
  apply awp_lift. split; [done|]. intros d Hd. exists own, es, path. split_and!; [| |done|done].
  - apply elem_of_app. left. apply elem_of_app. right. by left.
  - exists text. split; [|done]. apply elem_of_app. right. by left.
Qed.

Lemma firstDevice_within paths s l :
  (∀ pr, pr ∈ paths → is_Some (publishPaths vol !! pr.1)) →
  twp (firstDevice paths) (λ r s' l', s' = s ∧ ∀ d, r = Ok d → d ≠ "" → volume_device vol d l') s l.
Proof.
  intros Hp. revert l. induction paths as [|[path ro] paths IH]; intros l; cbn [firstDevice].
  { apply awp_ret. split; [done|]. by intros d [= <-]. }
  apply awp_bind, awp_try. eapply awp_mono; [apply getMountDevice_within|].
  { right. apply (Hp (path, ro)). left. }
  intros [d|e] s1 l1 [-> Hd]; [|apply IH; intros pr Hpr; apply Hp; by right].
  destruct (String.eqb_spec d ""); [apply IH; intros pr Hpr; apply Hp; by right|].
  apply awp_ret. split; [done|]. intros d' [= <-] _. by apply Hd.
Qed.

Lemma range_tracked pr : pr ∈ range_paths (publishPaths vol) → is_Some (publishPaths vol !! pr.1).
Proof. destruct pr as [p ro]. rewrite range_paths_perm, elem_of_map_to_list. by exists ro. Qed.

Lemma restage_within v w dev ctx s l :
  condemned vol l → (dev ≠ "" → volume_device vol dev l) →
  twp (restage Driver v (StagedPath vol) dev w ctx (range_paths (publishPaths vol))) (λ _ _ _, True) s l.
Proof.
  intros Hc Hd. unfold restage, store.
  apply awp_bind, awp_try, use_since; [auto 1 with keeps nocore|]. intros r1 l1 Hl1.
  destruct (negb _); [by apply awp_ret|].
  apply awp_bind, awp_try, use_since; [auto 1 with keeps nocore|]. intros [newVol|e] l2 Hl2; [|by apply awp_ret].
  apply awp_bind, use_since; [keeps_auto|]. intros [un|e] l3 Hl3; [|done].
  apply awp_bind, use_since; [keeps_auto|]. intros [re|e] l4 Hl4; [|done].
  assert (grown l l4) as Hl by eauto using grown_trans. cbv zeta.
  apply awp_bind, awp_modify, awp_bind. eapply awp_mono; [apply map_since|].
  - intros [[p ro] b] l5 Hp Hl5. assert (grown l l5) as Hl' by eauto using grown_trans.
    apply repairRecovered_within; [|by eapply condemned_grows|].
    + apply (range_tracked (p, ro)). by eapply elem_of_zip_l.
    + intros Hne. eapply volume_device_grows; [done|auto].
  - by intros [us|e] s5 l5 ->; [apply awp_ret|].
Qed.

Lemma recoverVolumeAs_within v w hung s l :
  s !! v = Some w → same_paths vol w →
  twp (recoverVolumeAs Driver hungMountAfter v hung) (λ _ _ _, True) s l.
Proof.
  intros Hs [Hst Hps]. unfold recoverVolumeAs. cbv zeta. apply awp_bind, awp_gets. rewrite Hs, Hst, Hps.
  apply awp_bind. eapply awp_mono; [apply recheck_within|]. intros [b|e] s1 l1 [-> Hc]; [|done].
  specialize (Hc b eq_refl). destruct b; cbn [negb]; [|by apply awp_ret]. specialize (Hc eq_refl).
  destruct (volContext w) as [ctx|]; [|by apply awp_ret].
  apply awp_bind, awp_try. eapply awp_mono; [apply awp_prefix_log, getMountDevice_within; by left|].
  intros dev s2 l2 [[-> Hdev] Hl2]. apply awp_bind.
  apply (awp_mono ok _ (λ r s' l', (s' = s ∧ ∀ d, r = Ok d → d ≠ "" → volume_device vol d l') ∧ grown l2 l')).
  { apply awp_prefix_log. destruct dev as [d|e]; [destruct (String.eqb d "")|];
      try (by apply firstDevice_within, range_tracked).
    apply awp_ret. split; [done|]. intros d' [= <-] _. by apply Hdev. }
  intros [d|e] s3 l3 [[-> Hd] Hl3]; [|done]. specialize (Hd d eq_refl).
  apply awp_bind, use_since; [auto 1 with keeps nocore|]. intros [st|e] l4 Hl4; [|done].
  destruct (negb st); [by apply awp_ret|].
  apply awp_bind, use_since; [auto 1 with keeps nocore|]. intros [fr|e] l5 Hl5; [|done].
  destruct (negb fr); [by apply awp_ret|]. apply restage_within.
  - eapply condemned_grows; [|exact Hc]. eauto using grown_trans.
  - intros Hne. eapply volume_device_grows; [|by apply Hd]. eauto using grown_trans.
Qed.

(** *** The other repairs *)
Lemma retryPath_within w pr s l :
  same_paths vol w → pr ∈ range_paths (publishPaths vol) →
  twp (retryPath w pr) (λ _ s' _, s' = s) s l.
Proof.
  intros [Hst _] Hp. pose proof (range_tracked pr Hp) as Ht. destruct pr as [path ro]. unfold retryPath.
  apply awp_bind, use_since; [auto 1 with keeps nocore|]. intros [r|e] l1 _; [|done].
  destruct (negb _); [by apply awp_ret|].
  apply awp_bind, use_since; [auto 1 with keeps nocore|]. intros [gone|e] l2 _; [|done].
  destruct (negb _); [by apply awp_ret|].
  apply awp_bind, awp_try, use_since; [auto 1 with keeps nocore|]. intros [p|e] l3 _; [|by apply awp_ret].
  rewrite Hst. by apply quietly_since, repair_within.
Qed.

Lemma retryPublishPaths_within v w s l :
  s !! v = Some w → same_paths vol w → twp (retryPublishPaths v) (λ _ s' _, s' = s) s l.
Proof.
  intros Hs Hw. unfold retryPublishPaths. apply awp_bind, awp_gets. rewrite Hs.
  apply awp_bind, use_since; [auto 1 with keeps nocore|]. intros [r|e] l1 _; [|done].
  destruct (bool_decide _); [by apply awp_ret|]. destruct Hw as [Hst Hps]. rewrite Hps.
  apply awp_bind. eapply awp_mono; [apply map_since|].
  - intros pr l2 Hp _. by apply retryPath_within.
  - by intros [us|e] s2 l2 ->; [apply awp_ret|].
Qed.

Lemma repairContainerMounts_within v w s l :
  s !! v = Some w → same_paths vol w → twp (repairContainerMounts v) (λ _ s' _, s' = s) s l.
Proof.
  intros Hs [Hst Hps]. unfold repairContainerMounts. apply awp_bind, awp_gets. rewrite Hs, Hst, Hps.
  destruct (String.eqb _ ""); [by apply awp_ret|]. apply awp_bind. eapply awp_mono; [apply map_since|].
  - intros pr l1 Hp _. by apply quietly_since, repair_within, range_tracked.
  - by intros [us|e] s1 l1 ->; [apply awp_ret|].
Qed.

Lemma performVolumeHealthCheck_within v s l :
  s !! v = Some vol →
  twp (performVolumeHealthCheck Driver hungMountAfter v) (λ _ _ _, True) s l.
Proof.
  intros Hs. unfold performVolumeHealthCheck, store. apply awp_bind, awp_gets. rewrite Hs.
  destruct (String.eqb _ ""); [by apply awp_ret|].
  apply awp_bind, use_since; [auto 1 with keeps nocore|]. intros [[r u]|e] l1 _; [|done].
  pose proof (note_check_paths (hungAfter hungMountAfter) vol r u) as Hps.
  pose proof (note_check_staged (hungAfter hungMountAfter) vol r u) as Hst.
  destruct (note_check _ vol r u) as [w d]. cbn [fst] in *. apply awp_bind, awp_modify.
  set (s1 := <[v := w]> s). assert (s1 !! v = Some w) as Hs1 by apply volumes_lookup.
  assert (same_paths vol w) as Hw by done.
  destruct d; [by apply awp_ret|by eapply recoverVolumeAs_within..|].
  apply awp_bind, use_since; [auto 1 with keeps nocore|]. intros [bad|e] l2 _; [|done].
  apply awp_bind. eapply (awp_mono _ _ (λ _ s' _, s' = s1)).
  - destruct bad; [by eapply retryPublishPaths_within|by apply awp_ret].
  - intros [[]|e] s2 l3 ->; [|done]. eapply awp_mono; [by eapply repairContainerMounts_within|done].
Qed.
End monitor.

(** ** Property *)

(** C12. Whatever the host answers, a health check of a volume, with the recoveries and
    repairs it leads to, replaces a mount in a container only if the container is
    a process of a pod the volume is published to and the mount is one of its FUSE
    mounts, on one of two grounds: it is of the same filesystem as the staging
    mount, on another device, and its connection was found dead; or it is on the
    device that the plugin's own mount table showed for the staging path or a
    publish path of the volume, and a probe of the staging mount had found it dead
    or got no answer. The replacement shows the same subdirectory of the staging
    mount of the volume and is made by a thread inside that container's mount
    namespace; the thread is given back only after it returned to its namespace or
    tried to. The two repairs themselves touch no mount of the host. *)
Theorem container_mounts_replaced_safely {S} {MU : MountUtils} {MR : MapRange} {PR : PathRange}
    (Driver : SeaweedFsDriver) (hungMountAfter : Z) (volumeID : string) (vol : Volume) (s : Volumes) :
  s !! volumeID = Some vol →
  awp (replaces_safely vol) (performVolumeHealthCheck Driver hungMountAfter volumeID)
    (λ _ _ _, True) s [] ∧
  ∀ (publishPath stagingPath oldDevice : string) (ro : bool) (s : S),
    let uid := extractPodUID publishPath in
    awp (λ X, @container_allowed (may_repair uid stagingPath) X)
      (repairStaleContainerMounts publishPath stagingPath) (λ _ s' _, s' = s) s [] ∧
    awp (λ X, @container_allowed (may_remount uid stagingPath oldDevice) X)
      (remountInContainers publishPath stagingPath oldDevice ro) (λ _ s' _, s' = s) s [].
Proof.
  intros Hs. split; [by apply performVolumeHealthCheck_within|]. intros publishPath stagingPath dev ro t.
  split; [apply repairStaleContainerMounts_spec|apply remountInContainers_spec].
Qed.

(** ** A repair

    The staging mount is live and a container of pod [a] still holds the mount of
    the volume that kubelet unstaged before. *)
Definition stale_volume : Volume :=
  AddPublishPath
    (set_context (set_staged (NewVolume demo_driver "pvc-1") "/staging/1" true) (Some ∅) false)
    "/pods/a/mount" true.
Definition stale_host (X : Type) (e : hostE X) : log → X :=
  match e in hostE Y return log → Y with
  | ReadDir _ => λ _, Ok [("42", true)]
  | Getpid => λ _, 7%Z
  | ReadFile p => λ _,
      if String.eqb p "/proc/7/mountinfo" then
        Ok "36 35 0:50 / /staging/1 rw - fuse.seaweedfs filer:/buckets/pvc-1 rw"
      else if String.eqb p "/proc/42/mountinfo" then
        Ok "90 80 0:45 /sub /data ro - fuse.seaweedfs filer:/buckets/pvc-1 rw"
      else Ok "0::/kubepods/a/x"
  | StatfsWithin _ => λ _, Some (Some (SysErr ENOTCONN "transport endpoint is not connected"))
  | e => exampleHost healthOK _ e
  end.
Definition stale_paths : PathRange :=
  {| range_paths := map_to_list; range_paths_perm m := reflexivity _ |}.
Definition stale_log : log :=
  (run stale_host (performVolumeHealthCheck (MU := demo_utils) (MR := range_sorted) (PR := stale_paths)
     demo_driver 0 "pvc-1" {["pvc-1" := stale_volume]}) []).2.
Definition replaced_paths (l : log) : list string :=
  omap (λ o : obs, match o with Obs (NsMoveMount p) (Ok _) => Some p | _ => None end) l.

Lemma container_mounts_replaced_safely_witness :
  ({["pvc-1" := stale_volume]} : Volumes) !! "pvc-1" = Some stale_volume ∧
  awp (replaces_safely stale_volume)
    (performVolumeHealthCheck (MU := demo_utils) (MR := range_sorted) (PR := stale_paths)
       demo_driver 0 "pvc-1") (λ _ _ _, True) {["pvc-1" := stale_volume]} [] ∧
  replaced_paths stale_log = ["/data"] ∧
  tree stale_log = Some "/staging/1/sub".
Proof.
  assert (({["pvc-1" := stale_volume]} : Volumes) !! "pvc-1" = Some stale_volume) as H by reflexivity.
  split; [exact H|]. split; [|split; vm_compute; reflexivity].
  exact (proj1 (container_mounts_replaced_safely (S := unit) (MU := demo_utils) (MR := range_sorted)
    (PR := stale_paths) demo_driver 0 "pvc-1" stale_volume _ H)).
Defined.
