(* ===== verification/Recovery.v ===== *)
(** * The recovery protocol

    An abstract specification of what the recovery of a staging mount may do to
    the host, as a state machine over the log, and the proof that
    [recoverVolumeAs] keeps to it whatever the host answers: nothing is
    detached, deleted, mounted or bound out of turn. *)

From S2P Require Import Prelude GoLib Hash Params Driver Controller MountFlags MountArgs MountInfo Host MountUtil Container Node Health.
#[local] Open Scope go_scope.

(** ** The protocol

    [Unconfirmed]: nothing is known of the staging mount. [Confirmed]: the
    latest probe found it dead, or, for a hung mount, left unanswered.
    [Attached]: it is confirmed but still looks mounted, so that only a statfs
    probe can tell. [Detached]: it was detached. [Free]: nothing is mounted at
    the staging path. [Restaged]: a fresh mount is up. [Withdrawn]: the fresh
    mount was stopped again. *)
Inductive rphase := Unconfirmed | Confirmed | Attached | Detached | Free | Restaged | Withdrawn.
#[export] Instance rphase_eq_dec : EqDecision rphase.
Proof. solve_decision. Defined.

Section protocol.
Context {MU : MountUtils}.
Context (hung : bool) (volumeID staging cacheDir socket : string).

(** Does the end of a wait for a health probe confirm the mount as lost? *)
Definition confirms (r : option healthResult) : bool :=
  match r with
  | Some healthDead => true
  | Some healthSlow | None => hung
  | Some healthOK => false
  end.

Definition detached (r : result unit) : bool :=
  match r with Ok _ | Err (SysErr EINVAL _) | Err (SysErr ENOENT _) => true | Err _ => false end.

Definition is_staging (p : string) : bool := bool_decide (p = staging).

Definition rstep_event {X} (ph : rphase) (e : hostE X) : X → rphase :=
  match e in hostE Y return Y → rphase with
  | AwaitHealth p => λ r, if is_staging p then (if confirms r then Confirmed else Unconfirmed) else ph
  | SvcUnmount _ => λ r, match ph with
                         | Restaged => if is_ok r then Withdrawn else Restaged
                         | _ => Unconfirmed
                         end
  | IsLikelyNotMountPoint p => λ r,
      if is_staging p then
        match ph, r with
        | Confirmed, Ok false => Attached
        | Detached, Ok false => Detached
        | Detached, _ => Free
        | _, _ => ph
        end
      else ph
  | AwaitStatfs p => λ r,
      if is_staging p then
        match ph, r with
        | Attached, Some err => if isCorruptedMount err then Confirmed else Attached
        | Attached, None => if hung then Confirmed else Attached
        | _, _ => ph
        end
      else ph
  | LazyUmount p => λ r,
      match ph with
      | Confirmed => if detached r then Detached else Unconfirmed
      | _ => ph
      end
  | SvcMount _ => λ r, match ph with Free => if is_ok r then Restaged else Free | _ => ph end
  | _ => λ _, ph
  end.

Definition rstep (ph : rphase) (o : obs) : rphase :=
  match o with Obs e x => rstep_event ph e x end.
Definition phase (l : log) : rphase := foldl rstep Unconfirmed l.

(** What may be done in a phase. The path of a publish bind is any path but
    the staging path. *)
Definition allowed {X} (ph : rphase) (e : hostE X) : Prop :=
  match e with
  | LazyUmount p => p = staging ∧ (ph = Confirmed ∨ ph = Free)
  | Umount p | CleanupMountPoint p => if is_staging p then ph = Free else ph = Restaged
  | Remove p => p = staging ∧ (ph = Free ∨ ph = Withdrawn) ∨ p = socket ∧ ph = Withdrawn
  | RemoveAll p => p = cacheDir ∧ ph = Withdrawn
  | Rename _ _ => False
  | SvcUnmount v => v = volumeID ∧ (ph = Confirmed ∨ ph = Restaged)
  | SvcMount req => ph = Free ∧ VolumeID req = volumeID ∧ TargetPath req = staging
  | Bind src dst _ => src = staging ∧ dst ≠ staging ∧ ph = Restaged
  | OpenTree src => ph = Restaged ∧ ∃ sub, src = bind_source staging sub
  | Setns _ | NsUmount _ | NsMoveMount _ | NsReadOnly _ => ph = Restaged
  | _ => True
  end.

Definition protocol : policy := λ X e l, allowed (phase l) e.

Lemma phase_snoc l {X} (e : hostE X) x : phase (l ++ [Obs e x]) = rstep_event (phase l) e x.
Proof. unfold phase. by rewrite foldl_app. Qed.

Lemma is_staging_refl : is_staging staging = true.
Proof. unfold is_staging. by apply bool_decide_true. Qed.
Lemma is_staging_ne p : p ≠ staging → is_staging p = false.
Proof. intros H. unfold is_staging. by apply bool_decide_false. Qed.
End protocol.

(** ** The steps of a recovery follow the protocol *)
Section recovery.
Context {MU : MountUtils} {MR : MapRange} {PR : PathRange}.
Context (Driver : SeaweedFsDriver) (hungMountAfter : Z).
Context (hung : bool) (volumeID staging : string).

Definition cache_of : string := Path.Clean (GetCacheDir (CacheDir Driver) volumeID).
Definition socket_of : string := GetLocalSocket (volumeSocketDir Driver) volumeID.

#[local] Abbreviation ph := (phase hung staging).
#[local] Abbreviation ok := (protocol hung volumeID staging cache_of socket_of).
#[local] Abbreviation twp := (awp (S := Volumes) ok).

(** The bound in force: zero unless the mount is recovered as hung. *)
Definition bound : Z := if hung then hungAfter hungMountAfter else 0%Z.

Lemma bound_pos : (0 <? bound)%Z = true → hung = true.
Proof. unfold bound. by destruct hung. Qed.

(** Solve the side conditions of an event: it is allowed in the phase of the
    log, and the phase after it. *)
Ltac phase_simpl := rewrite ?phase_snoc in *; cbn [rstep_event] in *; rewrite ?is_staging_refl in *.
Ltac tstep := awp_step; try exact I.

(** The step ends with [false]. *)
Ltac no_more := apply awp_ret; split; [done|]; eexists; (split; [reflexivity|]); done.

Lemma checkHealthUnanswered_spec s l :
  twp (checkHealthUnanswered staging) (λ r s' l', s' = s ∧
    ∃ h u, r = Ok (h, u) ∧
      (h = healthDead → ph l' = Confirmed) ∧
      (h = healthSlow → hung = true → ph l' = Confirmed)) s l.
Proof.
  unfold checkHealthUnanswered, statfsProbeUnanswered.
  repeat (tstep; try done); split; try done; eexists _, _; (split; [reflexivity|]);
    phase_simpl; cbn; naive_solver.
Qed.

Lemma recheck_spec s l :
  twp (recheck bound staging) (λ r s' l', s' = s ∧
    ∃ b, r = Ok b ∧ (b = true → ph l' = Confirmed)) s l.
Proof.
  unfold recheck. apply awp_bind. eapply awp_mono; [apply checkHealthUnanswered_spec|].
  intros r s' l' (-> & h & u & -> & Hd & Hs). apply awp_ret. split; [done|].
  eexists. split; [done|]. intros Hb. apply orb_true_iff in Hb as [Hb|Hb].
  - apply Hd. by apply bool_decide_eq_true in Hb.
  - apply andb_true_iff in Hb as [Hb _]. apply andb_true_iff in Hb as [Hb1 Hb2].
    apply Hs; [by apply bool_decide_eq_true in Hb2|by apply bound_pos].
Qed.

Lemma detachDeadMountPoint_spec s l :
  ph l = Confirmed →
  twp (detachDeadMountPoint staging) (λ r s' l', s' = s ∧
    (is_ok r = true → ph l' = Detached)) s l.
Proof.
  intros Hl. unfold detachDeadMountPoint, lazyUnmount. apply awp_bind, awp_try, awp_call.
  { split; [done|]. by left. }
  intros r. assert (ph (l ++ [Obs (LazyUmount staging) r]) =
    if detached r then Detached else Unconfirmed) as Hph by (rewrite phase_snoc; cbn; by rewrite Hl).
  destruct r as [[]|[m|c m|[] m]]; (apply awp_ret || apply awp_fail); split; try done;
    intros; by rewrite Hph.
Qed.

Lemma isDeadMount_spec s l :
  ph l = Attached →
  twp (isDeadMount staging bound) (λ r s' l', s' = s ∧
    ∃ b, r = Ok b ∧ (b = true → ph l' = Confirmed)) s l.
Proof.
  intros Hl. unfold isDeadMount, probeStatfs, statfsProbeUnanswered.
  apply awp_bind, awp_ask; [done|]. intros [err|].
  - apply awp_ret. split; [done|]. eexists. split; [done|]. intros Hb.
    rewrite phase_snoc. cbn. by rewrite is_staging_refl, Hl, Hb.
  - assert (ph (l ++ [Obs (AwaitStatfs staging) None]) = if hung then Confirmed else Attached) as Hph
      by (rewrite phase_snoc; cbn; by rewrite is_staging_refl, Hl).
    repeat (tstep; try done); (split; [done|]); eexists; (split; [reflexivity|]);
      intros Hb; apply andb_true_iff in Hb as [Hb%bound_pos _];
      rewrite ?(phase_snoc _ _ (_ ++ _)); cbn [rstep_event]; by rewrite Hph, Hb.
Qed.

(** The staging mount is detached only when confirmed, and the path is free
    when the step reports success. *)
Lemma detachStaging_spec s l :
  twp (detachStaging bound staging) (λ r s' l', s' = s ∧
    ∃ b, r = Ok b ∧ (b = true → ph l' = Free)) s l.
Proof.
  unfold detachStaging. apply awp_bind. eapply awp_mono; [apply recheck_spec|].
  intros r s1 l1 (-> & b & -> & Hb). destruct b; cbn [negb]; [|no_more].
  specialize (Hb eq_refl). apply awp_bind, awp_try, awp_call; [done|]. intros notMnt.
  apply awp_bind.
  assert (∀ l2, ph l2 = Confirmed →
    twp (do! r := atry (detachDeadMountPoint staging) in
         match r with
         | Err _ => aret false
         | Ok _ =>
             resetStatfsProbe staging ;;>
             do! mounted := atry (isPathMounted staging) in
             aret (match mounted with Ok true => false | _ => true end)
         end) (λ r s' l', s' = s ∧ ∃ b, r = Ok b ∧ (b = true → ph l' = Free)) s l2) as Hrest.
  { intros l2 Hl2. apply awp_bind, awp_try. eapply awp_mono; [by apply detachDeadMountPoint_spec|].
    intros [[]|e] s2 l3 [-> Hd]; [|no_more]. specialize (Hd eq_refl).
    apply awp_bind, awp_ask; [done|]. intros [].
    apply awp_bind, awp_try, awp_bind, awp_call; [done|]. intros m.
    destruct m as [[]|e]; apply awp_ret; (split; [done|]); eexists; (split; [reflexivity|]);
      intros; try done; rewrite !phase_snoc; cbn; by rewrite is_staging_refl, Hd. }
  destruct notMnt as [[]|e].
  - apply awp_ret. cbn [negb]. apply Hrest. rewrite phase_snoc. cbn.
    by rewrite is_staging_refl, Hb.
  - eapply awp_mono; [apply isDeadMount_spec; rewrite phase_snoc; cbn; by rewrite is_staging_refl, Hb|].
    intros r s2 l2 (-> & b & -> & Hd). destruct b; [|no_more]. by apply Hrest, Hd.
  - apply awp_ret. cbn [negb]. apply Hrest. rewrite phase_snoc. cbn.
    by rewrite is_staging_refl, Hb.
Qed.

Lemma stopMount_spec vol s l :
  VolumeId vol = volumeID → StagedPath vol = staging → ph l = Confirmed →
  twp (stopMount volumeID vol hung) (λ r s' l', s' = s ∧ ∃ b, r = Ok b) s l.
Proof.
  intros Hv Hst Hl. unfold stopMount. apply awp_bind.
  assert (∀ l1, ph l1 = Confirmed →
    twp (do! r := atry (call (SvcUnmount volumeID)) in
         match r with
         | Err _ => aret false
         | Ok _ => resetStatfsProbe (StagedPath vol) ;;> aret true
         end) (λ r s' l', s' = s ∧ ∃ b, r = Ok b) s l1) as Hstop.
  { intros l1 Hl1. apply awp_bind, awp_try, awp_call; [split; [done|by left]|].
    unfold resetStatfsProbe. intros [[]|e]; repeat tstep; (split; [done|]); by eexists. }
  destruct (negb (unmounter vol) && hung).
  - apply awp_bind, awp_try, awp_call; [done|]. intros [[]|e]; apply awp_ret.
    + apply Hstop. rewrite phase_snoc. done.
    + apply awp_ret. split; [done|by eexists].
  - apply awp_ret. destruct (unmounter vol); [by apply Hstop|]. apply awp_ret.
    split; [done|by eexists].
Qed.

(** Cleaning the free staging path up leaves it free. *)
Lemma cleanupStaleStagingPath_spec s l :
  ph l = Free →
  twp (cleanupStaleStagingPath staging) (λ r s' l', s' = s ∧ ph l' = Free) s l.
Proof.
  intros Hl.
  unfold cleanupStaleStagingPath, cleanupCorruptedStagingPath, removeIfExists, resetStatfsProbe,
    lazyUnmount.
  assert (∀ {X} (e : hostE X) x l1, ph l1 = Free →
    match e with IsLikelyNotMountPoint _ | AwaitStatfs _ | AwaitHealth _ | SvcUnmount _ | SvcMount _ => False
    | _ => True end → ph (l1 ++ [Obs e x]) = Free) as Hkeep.
  { intros X e x l1 Hl1 He. rewrite phase_snoc, Hl1. by destruct e. }
  assert (ph l = Free) as H0 by done.
  repeat (first
    [ lazymatch goal with |- _ = _ ∧ _ = _ => split; [done|assumption] end
    | lazymatch goal with
      | |- awp _ (call ?e) _ _ ?l1 =>
          apply awp_call; [unfold protocol; cbn [allowed]; rewrite ?is_staging_refl; auto|];
          let r := fresh "r" in intros r;
          assert (ph (l1 ++ [Obs e r]) = Free) by (apply Hkeep; [assumption|exact I]);
          destruct r; cbn [rmap_err]
      | |- awp _ (ask ?e) _ _ ?l1 =>
          apply awp_ask; [exact I|];
          let r := fresh "r" in intros r;
          assert (ph (l1 ++ [Obs e r]) = Free) by (apply Hkeep; [assumption|exact I])
      end
    | awp_step ]).
Qed.

(** [checkMount] of the staging path while it is free, or of another path while
    the staging mount is up. *)
Lemma checkMount_spec p s l f :
  ph l = f → (p = staging ∧ f = Free ∨ p ≠ staging ∧ f = Restaged) →
  twp (checkMount p) (λ r s' l', s' = s ∧ ph l' = f) s l.
Proof.
  intros Hl Hp. unfold checkMount, resetStatfsProbe.
  assert (∀ l1, ph l1 = f → protocol hung volumeID staging cache_of socket_of _ (Umount p) l1) as Hum.
  { intros l1 Hl1. unfold protocol. cbn [allowed].
    destruct Hp as [[-> ->]|[Hne ->]]; [by rewrite is_staging_refl|by rewrite is_staging_ne]. }
  apply awp_bind, awp_try, awp_call; [done|]. intros [b|e].
  { apply awp_ret. split; [done|]. by rewrite phase_snoc. }
  destruct (is_not_exist e); [|destruct (IsCorruptedMnt e)].
  - apply awp_bind, awp_call; [done|]. intros [[]|e']; try apply awp_ret;
      (split; [done|]); by rewrite !phase_snoc.
  - apply awp_bind, awp_call; [apply Hum; by rewrite phase_snoc|]. intros [[]|e'].
    2:{ split; [done|]. by rewrite !phase_snoc. }
    apply awp_bind, awp_ask; [done|]. intros []. apply awp_bind, awp_try, awp_call; [done|].
    intros r. apply awp_ret. split; [done|]. by rewrite !phase_snoc.
  - apply awp_fail. split; [done|]. by rewrite phase_snoc.
Qed.

Lemma CleanupVolumeResources_spec s l :
  ph l = Withdrawn →
  twp (CleanupVolumeResources Driver volumeID) (λ r s' l', s' = s) s l.
Proof.
  intros Hl. unfold CleanupVolumeResources. fold cache_of.
  assert (∀ l1, ph l1 = Withdrawn →
    twp (do! _ := atry (call (Remove (GetLocalSocket (volumeSocketDir Driver) volumeID))) in aret tt)
      (λ r s' l', s' = s) s l1) as Hsock.
  { intros l1 Hl1. apply awp_bind, awp_try, awp_call; [by right|]. intros r. by apply awp_ret. }
  apply awp_bind. destruct (Path.Rel _ _) as [rel|]; [|apply awp_ret; by apply Hsock].
  destruct (negb _ && negb _); [|apply awp_ret; by apply Hsock].
  apply awp_bind, awp_try, awp_call; [done|]. intros r. apply awp_ret. apply Hsock.
  by rewrite phase_snoc.
Qed.

Lemma Unstage_spec vol s l :
  VolumeId vol = volumeID → unmounter vol = true → ph l = Restaged →
  twp (Unstage Driver vol staging) (λ r s' l', s' = s) s l.
Proof.
  intros Hv Hu Hl. unfold Unstage, removeIfExists, resetStatfsProbe. rewrite Hu, Hv. cbn [negb].
  apply awp_bind, awp_bind, awp_call; [split; [done|by right]|]. intros [[]|e]; [|done].
  assert (ph (l ++ [Obs (SvcUnmount volumeID) (Ok ())]) = Withdrawn) as H1
    by (rewrite phase_snoc; cbn [rstep_event]; by rewrite Hl).
  apply awp_bind, awp_try, awp_call; [left; split; [done|by right]|]. intros r.
  set (l2 := _ ++ [Obs (Remove staging) r]).
  assert (ph l2 = Withdrawn) as H2 by (unfold l2; by rewrite phase_snoc).
  assert (twp (ask (ResetProbes staging) ;;> CleanupVolumeResources Driver volumeID)
    (λ r s' l', s' = s) s l2) as Hrest.
  { apply awp_bind, awp_ask; [done|]. intros []. apply CleanupVolumeResources_spec.
    by rewrite phase_snoc. }
  destruct r as [[]|e]; [by apply awp_ret|]. destruct (is_not_exist e); [by apply awp_ret|done].
Qed.

(** Staging on the free path: success means that the fresh mount is up. *)
Lemma Stage_spec vol m s l :
  m_volumeID m = volumeID → ph l = Free →
  twp (Stage vol m staging) (λ r s' l', s' = s ∧
    ∀ v, r = Ok v → v = set_staged vol staging true ∧ ph l' = Restaged) s l.
Proof.
  intros Hm Hl. unfold Stage, unmountVolume, resetStatfsProbe. apply awp_bind.
  eapply awp_mono; [apply (checkMount_spec staging _ _ Free); auto|].
  intros [isMnt|e] s1 l1 [-> Hl1]; [|by split]. apply awp_bind.
  assert (∀ l2, ph l2 = Free →
    twp (do! req := alift (mount_request m staging) in call (SvcMount req) ;;>
         aret (set_staged vol staging true)) (λ r s' l', s' = s ∧
      ∀ v, r = Ok v → v = set_staged vol staging true ∧ ph l' = Restaged) s l2) as Hmount.
  { intros l2 Hl2. apply awp_bind, awp_lift.
    destruct (mount_request m staging) as [req|e] eqn:Hreq; [|done].
    apply mount_request_fields in Hreq as [Hv Ht].
    apply awp_bind, awp_call; [unfold protocol; cbn [allowed]; split_and!; [done|congruence|done]|].
    intros [[]|e]; [|done]. apply awp_ret. split; [done|]. intros v [= <-]. split; [done|].
    rewrite phase_snoc. cbn [rstep_event]. by rewrite Hl2. }
  destruct isMnt; [|apply awp_ret; by apply Hmount].
  apply awp_bind, awp_try, awp_call; [unfold protocol; cbn [allowed]; by rewrite is_staging_refl|].
  intros [[]|e]; cbn [is_ok].
  - apply awp_ask; [done|]. intros []. apply Hmount. by rewrite !phase_snoc.
  - apply awp_ret. apply Hmount. by rewrite !phase_snoc.
Qed.

(** The events that change no phase and are always allowed. *)
Lemma effectiveContext_spec ctx s l f :
  ph l = f →
  twp (effectiveContext volumeID ctx) (λ r s' l', s' = s ∧ ph l' = f) s l.
Proof.
  intros Hl. unfold effectiveContext.
  apply awp_bind, awp_with_err, awp_call; [done|].
  intros [p|e]; cbn [rmap_err]; [|split; [done|by rewrite phase_snoc]].
  apply awp_bind, awp_lift. destruct (validateConstrainedParameterValues _) as [[]|e]; cbn [rmap_err];
    [|split; [done|by rewrite phase_snoc]].
  apply awp_bind, awp_lift. destruct (validateWritebackDlmCombo _) as [[]|e]; cbn [rmap_err];
    [|split; [done|by rewrite phase_snoc]].
  apply awp_ret. split; [done|by rewrite phase_snoc].
Qed.

Lemma resolveVolumeCapacity_spec ctx s l f :
  ph l = f →
  twp (resolveVolumeCapacity volumeID ctx) (λ r s' l', s' = s ∧ ph l' = f) s l.
Proof.
  intros Hl. unfold resolveVolumeCapacity.
  apply awp_bind, awp_try, awp_call; [done|]. intros [c|e].
  { apply awp_ret. split; [done|by rewrite phase_snoc]. }
  destruct (String.eqb _ ""); [apply awp_ret; split; [done|by rewrite phase_snoc]|].
  destruct (Strconv.ParseInt _) as [c|]; [destruct (c <? 0)%Z|];
    (apply awp_fail || apply awp_ret); (split; [done|by rewrite phase_snoc]).
Qed.

Lemma stageNewVolume_spec ctx ro s l :
  ph l = Free →
  twp (stageNewVolume Driver volumeID staging ctx ro) (λ r s' l', s' = s ∧
    ∀ v, r = Ok v → ph l' = Restaged ∧ ∃ ctx',
      v = set_staged (set_context (NewVolume Driver volumeID) (Some ctx') ro) staging true) s l.
Proof.
  intros Hl. unfold stageNewVolume. apply awp_bind.
  eapply awp_mono; [by apply effectiveContext_spec|]. intros [ctx1|e] s1 l1 [-> Hl1]; [|done].
  apply awp_bind. eapply awp_mono; [by apply resolveVolumeCapacity_spec|].
  intros [capacity|e] s2 l2 [-> Hl2]; [|done]. cbn zeta. apply awp_bind, awp_lift.
  set (ctx2 := match capacity with Some _ => _ | None => _ end).
  destruct (newMounter volumeID ro Driver ctx2) as [m|e] eqn:Hm; [|done].
  apply newMounter_volume in Hm as Hmv.
  apply awp_bind. eapply awp_mono; [by apply Stage_spec|].
  intros [v|e] s3 l3 [-> Hv]; [|done]. destruct (Hv v eq_refl) as [-> Hl3].
  destruct capacity as [c|]; [|apply awp_ret; split; [done|]; intros v [= <-]; split; [done|by eexists]].
  unfold Quota. apply awp_bind, awp_try, awp_call; [done|]. intros [[]|e].
  - apply awp_ret. split; [done|]. intros v [= <-]. rewrite phase_snoc. split; [done|by eexists].
  - apply awp_bind, awp_try. eapply awp_mono; [apply Unstage_spec; [done..|by rewrite phase_snoc]|].
    intros r s4 l4 ->. by apply awp_fail.
Qed.

(** While the fresh mount is up, the binds of other paths keep it up. *)
Definition other (path : string) : Prop := path ≠ staging.

(** A step that keeps the state, keeps the fresh mount up and does not fail. *)
Definition step_done {A} (s : Volumes) (r : result A) (s' : Volumes) (l : log) : Prop :=
  s' = s ∧ is_ok r = true ∧ ph l = Restaged.

Lemma tearDown_spec path s l :
  other path → ph l = Restaged →
  twp (tearDownStalePublishBind path) (step_done s) s l.
Proof.
  intros Hp Hl.
  assert (∀ l1, ph l1 = Restaged → ok _ (Umount path) l1 ∧ ok _ (CleanupMountPoint path) l1) as Hok.
  { intros l1 Hl1. unfold protocol. cbn [allowed]. by rewrite is_staging_ne. }
  unfold tearDownStalePublishBind, unmountVolume, cleanupMountPoint, resetStatfsProbe.
  apply awp_bind, awp_try, awp_call; [by apply Hok|]. intros [[]|e].
  - repeat tstep. unfold step_done; by rewrite !phase_snoc.
  - apply awp_bind, awp_try, awp_call; [apply Hok; by rewrite phase_snoc|].
    intros [[]|e']; repeat tstep; unfold step_done; by rewrite !phase_snoc.
Qed.

Lemma republish_spec pr b s l :
  other pr.1 → ph l = Restaged →
  twp (republish staging (pr, b)) (step_done s) s l.
Proof.
  intros Hp Hl. destruct pr as [path ro]. cbn [fst] in Hp. unfold republish, Publish, defaultBindMount.
  destruct b; cbn [negb]; [|by apply awp_ret].
  apply awp_bind, awp_try, awp_bind. eapply awp_mono; [apply (checkMount_spec path _ _ Restaged); auto|].
  intros [[]|e] s1 l1 [-> Hl1]; try (by apply awp_ret); [].
  apply awp_call; [unfold protocol; cbn [allowed]; by split_and!|].
  intros r. apply awp_ret. unfold step_done; by rewrite phase_snoc.
Qed.

(** Actions that keep the state and the phase [f]. *)
Definition inert {A} (f : rphase) (m : Host.act Volumes A) : Prop :=
  ∀ s l, ph l = f → twp m (λ _ s' l', s' = s ∧ ph l' = f) s l.

Lemma inert_bind {A B} f (m : Host.act Volumes A) (k : A → Host.act Volumes B) :
  inert f m → (∀ x, inert f (k x)) → inert f (abind m k).
Proof.
  intros Hm Hk s l Hl. apply awp_bind. eapply awp_mono; [by apply Hm|].
  intros [a|e] s1 l1 [-> Hl1]; [by apply Hk|done].
Qed.
Lemma inert_try {A} f (m : Host.act Volumes A) : inert f m → inert f (atry m).
Proof. intros Hm s l Hl. apply awp_try. eapply awp_mono; [by apply Hm|done]. Qed.
Lemma inert_with_err {A} f g (m : Host.act Volumes A) : inert f m → inert f (awith_err g m).
Proof. intros Hm s l Hl. apply awp_with_err. eapply awp_mono; [by apply Hm|done]. Qed.
Lemma inert_ret {A} f (a : A) : inert f (aret a).
Proof. intros s l Hl. by apply awp_ret. Qed.
Lemma inert_lift {A} f (r : result A) : inert f (alift r).
Proof. intros s l Hl. by apply awp_lift. Qed.
Lemma inert_ask {X} f (e : hostE X) :
  (∀ l, ph l = f → ok _ e l) → (∀ x, rstep_event hung staging f e x = f) → inert f (ask e).
Proof.
  intros He Hx s l Hl. apply awp_ask; [by apply He|]. intros x. split; [done|].
  by rewrite phase_snoc, Hl.
Qed.
Lemma inert_call {X} f (e : hostE (result X)) :
  (∀ l, ph l = f → ok _ e l) → (∀ x, rstep_event hung staging f e x = f) → inert f (call e).
Proof.
  intros He Hx s l Hl. apply awp_call; [by apply He|]. intros x. split; [done|].
  by rewrite phase_snoc, Hl.
Qed.
Lemma inert_amap {A B} f (g : A → Host.act Volumes B) xs : (∀ x, inert f (g x)) → inert f (amap g xs).
Proof.
  intros Hg. induction xs as [|x xs IH]; cbn [amap]; [apply inert_ret|].
  apply inert_bind; [apply Hg|intros y]. apply inert_bind; [apply IH|intros ys]. apply inert_ret.
Qed.

Ltac inert_step :=
  lazymatch goal with
  | |- inert _ (abind _ _) => apply inert_bind; [|intros ?]
  | |- inert _ (atry _) => apply inert_try
  | |- inert _ (awith_err _ _) => apply inert_with_err
  | |- inert _ (aret _) => apply inert_ret
  | |- inert _ (alift _) => apply inert_lift
  | |- inert _ (amap _ _) => apply inert_amap; intros ?
  | |- inert _ (ask _) => apply inert_ask; [intros ??; exact I|done]
  | |- inert _ (call _) => apply inert_call; [intros ??; first [exact I|done]|done]
  | |- inert _ (match ?x with _ => _ end) => destruct x
  | |- inert _ (if ?x then _ else _) => destruct x
  end; cbn beta iota.

Lemma getMountDevice_inert f path : inert f (getMountDevice path).
Proof. unfold getMountDevice, parseMountInfo. repeat inert_step. Qed.

Lemma containerPIDs_inert f uid self entries seen : inert f (containerPIDs uid self entries seen).
Proof.
  revert seen. induction entries as [|[name d] entries IH]; intros seen; cbn [containerPIDs].
  - apply inert_ret.
  - unfold containerNS. repeat first [apply IH | inert_step].
Qed.

Lemma remountViaSetns_inert pid p sub ro : inert Restaged (remountViaSetns pid p staging sub ro).
Proof.
  unfold remountViaSetns, remountOnThread, replaceMount.
  repeat first
    [ inert_step
    | apply inert_call; [intros l Hl; unfold protocol; cbn [allowed]; split; [done|by eexists]|done] ].
Qed.

Lemma repairStale_inert path : inert Restaged (repairStaleContainerMounts path staging).
Proof.
  unfold repairStaleContainerMounts, findContainerPIDsForPod, repairContainer, repairMount,
    parseMountInfo, resetStatfsProbe. cbv zeta.
  repeat first [apply containerPIDs_inert | apply remountViaSetns_inert | inert_step].
Qed.
Lemma remountInContainers_inert path dev ro :
  inert Restaged (remountInContainers path staging dev ro).
Proof.
  unfold remountInContainers, findContainerPIDsForPod, remountContainer, remountMount,
    findContainerMountsByDevice, parseMountInfo. cbv zeta.
  repeat first [apply containerPIDs_inert | apply remountViaSetns_inert | inert_step].
Qed.

Lemma quietly_spec {A} (m : Host.act Volumes A) s l :
  inert Restaged m → ph l = Restaged → twp (quietly m) (step_done s) s l.
Proof.
  intros Hm Hl. apply awp_bind, awp_try. eapply awp_mono; [by apply Hm|].
  intros r s' l' [-> Hl']. by apply awp_ret.
Qed.

Lemma repairRecovered_spec dev pr b s l :
  ph l = Restaged →
  twp (repairRecovered staging dev (pr, b)) (step_done s) s l.
Proof.
  intros Hl. destruct pr as [path ro]. unfold repairRecovered.
  destruct b; cbn [negb]; [|by apply awp_ret]. apply awp_bind.
  eapply (awp_mono _ _ (step_done s)).
  - destruct (negb _); [|by apply awp_ret]. apply quietly_spec; [apply remountInContainers_inert|done].
  - intros [[]|e] s1 l1 (-> & ? & Hl1); [|done]. apply quietly_spec; [apply repairStale_inert|done].
Qed.

Lemma firstDevice_spec paths s l f :
  ph l = f → twp (firstDevice paths) (λ r s' l', s' = s ∧ (∃ d, r = Ok d) ∧ ph l' = f) s l.
Proof.
  revert l. induction paths as [|[path ro] paths IH]; intros l Hl; cbn [firstDevice].
  - apply awp_ret. split_and!; [done|by eexists|done].
  - apply awp_bind, awp_try. eapply awp_mono; [by apply getMountDevice_inert|].
    intros [d|e] s1 l1 [-> Hl1]; [|by apply IH].
    destruct (String.eqb d ""); [by apply IH|]. apply awp_ret. split_and!; [done|by eexists|done].
Qed.

(** A loop over paths that keeps the state and the phase. *)
Lemma amap_phase {A B} (f : A → Host.act Volumes B) (xs : list A) s l :
  (∀ x l', x ∈ xs → ph l' = Restaged → twp (f x) (step_done s) s l') →
  ph l = Restaged →
  twp (amap f xs) (λ r s' l', s' = s ∧ ph l' = Restaged ∧ ∃ ys, r = Ok ys ∧ length ys = length xs) s l.
Proof.
  revert l. induction xs as [|x xs IH]; intros l Hf Hl; cbn [amap].
  { apply awp_ret. split_and!; [done..|by eexists]. }
  apply awp_bind. eapply awp_mono; [apply Hf; [left|done]|]. intros [y|e] s1 l1 (-> & ? & Hl1); [|done].
  apply awp_bind. eapply awp_mono; [apply IH; [|done]|].
  { intros x' l' Hx'. apply Hf. by right. }
  intros r s2 l2 (-> & Hl2 & ys & -> & Hlen). apply awp_ret. split_and!; [done..|].
  eexists. split; [done|]. cbn. by rewrite Hlen.
Qed.

(** The volume a completed recovery tracks instead of [vol]. *)
Definition restaged_of (vol newVol : Volume) : Prop :=
  VolumeId newVol = VolumeId vol ∧ StagedPath newVol = StagedPath vol ∧ unmounter newVol = true ∧
  publishPaths newVol = publishPaths vol ∧ readOnly newVol = readOnly vol ∧
  healthFailCount newVol = 0%Z ∧ unhealthyStreak newVol = 0%Z ∧ abnormal newVol = None.

Lemma foldl_AddPublishPath v ps :
  foldl (λ v (p : string * bool), AddPublishPath v p.1 p.2) v ps =
  set_paths v (foldl (λ m (p : string * bool), <[p.1 := p.2]> m) (publishPaths v) ps).
Proof. revert v. induction ps as [|p ps IH]; intros v; cbn; [by destruct v|]. by rewrite IH. Qed.

Lemma foldl_insert_range (m : gmap string bool) :
  foldl (λ m (p : string * bool), <[p.1 := p.2]> m) ∅ (range_paths m) = m.
Proof. apply foldl_insert_perm, range_paths_perm. Qed.

Lemma restage_spec dev vol ctx s l :
  VolumeId vol = volumeID → StagedPath vol = staging → publishPaths vol !! staging = None →
  ph l = Free →
  twp (restage Driver volumeID staging dev vol ctx (range_paths (publishPaths vol)))
    (λ r s' l', is_ok r = true ∧
      (s' = s ∨ ∃ newVol, s' = <[volumeID := newVol]> s ∧ restaged_of vol newVol ∧ ph l' = Restaged)) s l.
Proof.
  intros Hv Hst Hnone Hl. unfold restage, store.
  assert (∀ p, p ∈ range_paths (publishPaths vol) → other p.1) as Hother.
  { intros [path ro]. rewrite range_paths_perm. intros Hp%elem_of_map_to_list.
    unfold other. cbn. intros ->. congruence. }
  apply awp_bind, awp_try. eapply awp_mono; [by apply cleanupStaleStagingPath_spec|].
  intros [[]|e] s1 l1 [-> Hl1]; cbn [is_ok negb]; [|apply awp_ret; auto].
  apply awp_bind, awp_try. eapply awp_mono; [by apply stageNewVolume_spec|].
  intros [newVol|e] s2 l2 [-> Hnew]; [|apply awp_ret; auto].
  destruct (Hnew newVol eq_refl) as [Hl2 [ctx' ->]].
  apply awp_bind. eapply awp_mono; [apply amap_phase; [|done]|].
  { intros p l' Hp Hl'. by apply tearDown_spec; [apply Hother|]. }
  intros r s3 l3 (-> & Hl3 & ys & -> & _).
  apply awp_bind. eapply awp_mono; [apply amap_phase; [|done]|].
  { intros [p b] l' Hp%elem_of_zip_l Hl'. by apply republish_spec; [apply Hother|]. }
  intros r s4 l4 (-> & Hl4 & zs & -> & _). cbv zeta.
  apply awp_bind, awp_modify, awp_bind. eapply awp_mono; [apply amap_phase; [|done]|].
  { intros [p b] l' _ Hl'. by apply repairRecovered_spec. }
  intros r s5 l5 (-> & Hl5 & us & -> & _). apply awp_ret. split; [done|]. right.
  eexists. split; [done|]. split; [|done].
  rewrite foldl_AddPublishPath. unfold restaged_of. split_and!; cbn; try done.
  by rewrite foldl_insert_range.
Qed.

Lemma recoverVolumeAs_spec vol s l :
  s !! volumeID = Some vol → VolumeId vol = volumeID → StagedPath vol = staging →
  publishPaths vol !! staging = None →
  twp (recoverVolumeAs Driver hungMountAfter volumeID hung)
    (λ r s' l', is_ok r = true ∧
      (s' = s ∨ ∃ newVol, s' = <[volumeID := newVol]> s ∧ restaged_of vol newVol ∧ ph l' = Restaged)) s l.
Proof.
  intros Hs Hv Hst Hnone. unfold recoverVolumeAs. cbv zeta. fold bound.
  apply awp_bind, awp_gets. rewrite Hs, Hst.
  apply awp_bind. eapply awp_mono; [apply recheck_spec|].
  intros r s1 l1 (-> & b & -> & Hb). destruct b; cbn [negb]; [|apply awp_ret; auto].
  specialize (Hb eq_refl). destruct (volContext vol) as [ctx|]; [|apply awp_ret; auto].
  apply awp_bind, awp_try. eapply awp_mono; [by apply getMountDevice_inert|].
  intros dev s2 l2 [-> Hl2].
  apply awp_bind.
  apply (awp_mono ok _ (λ r s' l', s' = s ∧ (∃ d, r = Ok d) ∧ ph l' = Confirmed)).
  { destruct dev as [d|e]; [destruct (String.eqb d "")|]; try (by apply firstDevice_spec).
    apply awp_ret. split_and!; [done|by eexists|done]. }
  intros r s3 l3 (-> & [d ->] & Hl3).
  apply awp_bind. eapply awp_mono; [by apply stopMount_spec|].
  intros r s4 l4 (-> & b & ->). destruct b; cbn [negb]; [|apply awp_ret; auto].
  apply awp_bind. eapply awp_mono; [apply detachStaging_spec|].
  intros r s5 l5 (-> & b & -> & Hfree). destruct b; cbn [negb]; [|apply awp_ret; auto].
  by apply restage_spec; [..|apply Hfree].
Qed.
End recovery.

(** C1. Whatever the host answers, the recovery of a volume keeps to the protocol:
    the staging mount is only ever detached after the latest probe found it
    dead, or left unanswered in a recovery of a hung mount; nothing is removed
    or mounted at the staging path before the mount point is known to be free;
    publish binds are only touched once a fresh mount is up, and are then taken
    from the staging path; the cache of the volume is only deleted when the
    fresh mount was withdrawn. In the end the volume is either left as it was,
    or replaced by one that is freshly mounted at the same path with the same
    publish paths and clean counters. *)
Theorem recovery_protocol {MU : MountUtils} {MR : MapRange} {PR : PathRange}
    (Driver : SeaweedFsDriver) (hungMountAfter : Z) (hung : bool) (volumeID : string)
    (vol : Volume) (s : Volumes) :
  s !! volumeID = Some vol → VolumeId vol = volumeID →
  publishPaths vol !! StagedPath vol = None →
  awp (protocol hung volumeID (StagedPath vol) (cache_of Driver volumeID) (socket_of Driver volumeID))
    (recoverVolumeAs Driver hungMountAfter volumeID hung)
    (λ r s' l, is_ok r = true ∧
      (s' = s ∨
       ∃ newVol, s' = <[volumeID := newVol]> s ∧ restaged_of vol newVol ∧
         phase hung (StagedPath vol) l = Restaged))
    s [].
Proof. intros Hs Hv Hnone. by apply recoverVolumeAs_spec. Qed.

(** ** A recovery that succeeds *)

Definition demo_paths : PathRange :=
  {| range_paths := map_to_list; range_paths_perm m := reflexivity _ |}.

Definition demo_volume : Volume :=
  AddPublishPath
    (set_context (set_staged (NewVolume demo_driver "pvc-1") "/staging/1" true) (Some ∅) false)
    "/pods/a/mount" true.

Definition demo_recovery : (result unit * Volumes) * log :=
  run (exampleHost healthDead)
    (recoverVolumeAs (MU := demo_utils) (MR := range_sorted) (PR := demo_paths) demo_driver 0
       "pvc-1" false {["pvc-1" := demo_volume]}) [].

Lemma recovery_protocol_witness :
  ({["pvc-1" := demo_volume]} : Volumes) !! "pvc-1" = Some demo_volume ∧
  publishPaths demo_volume !! StagedPath demo_volume = None ∧
  is_ok demo_recovery.1.1 = true ∧
  phase (MU := demo_utils) false "/staging/1" demo_recovery.2 = Restaged ∧
  (demo_recovery.1.2 = {["pvc-1" := demo_volume]} ∨
   ∃ newVol, demo_recovery.1.2 = <["pvc-1" := newVol]> {["pvc-1" := demo_volume]} ∧
     restaged_of demo_volume newVol ∧
     phase (MU := demo_utils) false (StagedPath demo_volume) demo_recovery.2 = Restaged).
Proof.
  assert (({["pvc-1" := demo_volume]} : Volumes) !! "pvc-1" = Some demo_volume) as H1
    by reflexivity.
  assert (publishPaths demo_volume !! StagedPath demo_volume = None) as H2 by reflexivity.
  split; [exact H1|]. split; [exact H2|].
  destruct (wpp_run _ (exampleHost healthDead) _ _ [] (recovery_protocol (MU := demo_utils) (MR := range_sorted)
    (PR := demo_paths) demo_driver 0 false "pvc-1" demo_volume _ H1 eq_refl H2)) as [H3 H4].
  split; [exact H3|]. split; [vm_compute; reflexivity|]. exact H4.
Defined.
