(* ===== verification/StagingRecovery.v ===== *)
(** * Recovery of the staged volumes after a restart

    Models [pkg/driver/staging_recovery.go]: before it serves requests the node
    plugin finds the volumes kubelet has staged, and the targets they are
    published at, from kubelet's directories. *)

From S2P Require Import Prelude GoLib Json Hash Params Driver Controller MountFlags MountArgs Host MountUtil Node.
#[local] Open Scope go_scope.

(** ** kubelet's vol_data.json *)
Record kubeletVolData := { DriverName : string; VolumeHandle : string }.

Definition kubeletVolData_fields : list (string * decoder kubeletVolData) :=
  [("driverName", λ d v, (λ s, {| DriverName := s; VolumeHandle := VolumeHandle d |})
      <$> dec_string (DriverName d) v);
   ("volumeHandle", λ d v, (λ s, {| DriverName := DriverName d; VolumeHandle := s |})
      <$> dec_string (VolumeHandle d) v)].
Definition unmarshal_vol_data : string → result kubeletVolData :=
  Unmarshal (dec_struct kubeletVolData_fields) {| DriverName := ""; VolumeHandle := "" |}.

Section staging_recovery.
Context {MU : MountUtils} (Driver : SeaweedFsDriver).
#[local] Abbreviation act := (Host.act Volumes).

Definition vol_data (dir : string) : string := Path.JoinPath [dir; "vol_data.json"].

(** Files without a driver name are taken as the driver's own. *)
Definition of_driver (vd : kubeletVolData) : bool :=
  String.eqb (DriverName vd) "" || String.eqb (DriverName vd) (Driver.name Driver).

(** ** Publish paths *)

(** One directory of a pod's CSI volumes: the path the volume is published at. *)
Definition publishOf (volumeID csiDir : string) (v : string * bool) : act (option string) :=
  if negb v.2 then aret None
  else
    let volumeDir := Path.JoinPath [csiDir; v.1] in
    let publishPath := Path.JoinPath [volumeDir; "mount"] in
    do! data := atry (call (ReadFile (vol_data volumeDir))) in
    match data with
    | Ok data =>
        match unmarshal_vol_data data with
        | Err _ => aret None
        | Ok vd =>
            aret (if negb (String.eqb (VolumeHandle vd) volumeID) then None
                  else if negb (of_driver vd) then None
                  else Some publishPath)
        end
    | Err _ =>
        if negb (String.eqb v.1 (Path.Base volumeID)) then aret None
        else
          do! st := atry (call (Lstat publishPath)) in
          aret (match st with
                | Ok _ => Some publishPath
                | Err err => if isCorruptedMount (Some err) then Some publishPath else None
                end)
    end.

Definition csi_dir (podsDir pod : string) : string :=
  Path.JoinPath [podsDir; pod; "volumes"; "kubernetes.io~csi"].

Definition publishesOf (volumeID podsDir : string) (pod : string * bool) : act (list (option string)) :=
  if negb pod.2 then aret []
  else
    let csiDir := csi_dir podsDir pod.1 in
    do! volumes := atry (call (ReadDir csiDir)) in
    match volumes with
    | Err _ => aret []
    | Ok volumes => amap (publishOf volumeID csiDir) volumes
    end.

Definition pods_dir (scanDir : string) : string :=
  Path.JoinPath [Path.Clean (Path.JoinPath [scanDir; ".."; ".."; ".."]); "pods"].

Definition recoverPublishPathsFromDisk (scanDir volumeID : string) (vol : Volume) : act Volume :=
  do! pods := atry (call (ReadDir (pods_dir scanDir))) in
  match pods with
  | Err _ => aret vol
  | Ok pods =>
      do! found := amap (publishesOf volumeID (pods_dir scanDir)) pods in
      aret (foldl (λ vol p, AddPublishPath vol p false) vol (omap id (concat found)))
  end.

(** ** Staged volumes *)
Definition recoverEntry (scanDir base : string) (e : string * bool) : act unit :=
  if negb e.2 then aret tt
  else
    let volDir := Path.JoinPath [base; e.1] in
    do! data := atry (call (ReadFile (vol_data volDir))) in
    match data with
    | Err _ => aret tt
    | Ok data =>
        match unmarshal_vol_data data with
        | Err _ => aret tt
        | Ok vd =>
            if String.eqb (VolumeHandle vd) "" then aret tt
            else if negb (of_driver vd) then aret tt
            else
              do! tracked := agets (λ s, s !! VolumeHandle vd) in
              match tracked with
              | Some _ => aret tt
              | None =>
                  let stagingPath := Path.JoinPath [volDir; "globalmount"] in
                  let vol := rebuildVolumeFromStaging Driver (VolumeHandle vd) stagingPath in
                  let vol := set_context vol (Some ∅) (readOnly vol) in
                  do! vol := recoverPublishPathsFromDisk scanDir (VolumeHandle vd) vol in
                  store (VolumeHandle vd) vol ;;>
                  do! _ := checkHealth stagingPath in aret tt
              end
        end
    end.

Definition recoverStagedVolumesFromDisk (scanDir : string) : act unit :=
  if String.eqb scanDir "" then aret tt
  else
    let base := Path.JoinPath [scanDir; Driver.name Driver] in
    do! entries := atry (call (ReadDir base)) in
    match entries with
    | Err _ => aret tt
    | Ok entries => amap (recoverEntry scanDir base) entries ;;> aret tt
    end.

(** ** What the recovery may conclude from *)

(** Only these events: nothing on the host is changed. *)
Definition looks_only : policy := λ X e _,
  match e with
  | ReadDir _ | ReadFile _ | Lstat _ | HealthProbe _ | AwaitHealth _ | StatfsProbe _ | Now => True
  | _ => False
  end.

(** A vol_data.json in [dir] names the volume and is the driver's. *)
Definition names_volume (l : log) (dir volumeID : string) : Prop :=
  ∃ data vd, Obs (ReadFile (vol_data dir)) (Ok data) ∈ l ∧ unmarshal_vol_data data = Ok vd ∧
    VolumeHandle vd = volumeID ∧ of_driver vd = true.

(** Why [p] counts as a publish path of the volume: kubelet's file next to it
    says so, or there is no such file to read and kubelet's directory is named
    after the volume and holds the mount point. *)
Definition publish_evidence (l : log) (podsDir volumeID p : string) : Prop :=
  ∃ pod v, let dir := Path.JoinPath [csi_dir podsDir pod; v] in
    p = Path.JoinPath [dir; "mount"] ∧
    (names_volume l dir volumeID ∨
     v = Path.Base volumeID ∧ (∃ err, Obs (ReadFile (vol_data dir)) (Err err) ∈ l) ∧
     ∃ r, Obs (Lstat p) r ∈ l ∧ (r = Ok tt ∨ ∃ err, r = Err err ∧ IsCorruptedMnt err = true)).

(** *** What the recovery may not miss

    Every directory of kubelet's is looked at, and a target for which there is
    evidence is found, as far as the host could be read. *)
Definition target_found (l : log) (csiDir volumeID : string) (found : string → Prop)
    (v : string * bool) : Prop :=
  v.2 = true →
  let dir := Path.JoinPath [csiDir; v.1] in
  let p := Path.JoinPath [dir; "mount"] in
  ∃ a, Obs (ReadFile (vol_data dir)) a ∈ l ∧
    match a with
    | Ok data => ∀ vd, unmarshal_vol_data data = Ok vd → VolumeHandle vd = volumeID →
        of_driver vd = true → found p
    | Err _ => v.1 = Path.Base volumeID → ∃ r, Obs (Lstat p) r ∈ l ∧
        (r = Ok tt ∨ (∃ err, r = Err err ∧ IsCorruptedMnt err = true) → found p)
    end.
Definition pod_found (l : log) (podsDir volumeID : string) (found : string → Prop)
    (pod : string * bool) : Prop :=
  pod.2 = true → ∃ a, Obs (ReadDir (csi_dir podsDir pod.1)) a ∈ l ∧
    ∀ volumes v, a = Ok volumes → v ∈ volumes →
      target_found l (csi_dir podsDir pod.1) volumeID found v.
Definition paths_found (l : log) (podsDir volumeID : string) (found : string → Prop) : Prop :=
  ∃ a, Obs (ReadDir podsDir) a ∈ l ∧
    ∀ pods pod, a = Ok pods → pod ∈ pods → pod_found l podsDir volumeID found pod.

(** The volume the recovery tracks for a staging directory [dir]. *)
Definition recovered_volume (volumeID dir : string) (paths : gmap string bool) : Volume :=
  set_paths (set_context (set_staged (NewVolume Driver volumeID)
    (Path.JoinPath [dir; "globalmount"]) false) (Some ∅) false) paths.

Definition recovered (l : log) (scanDir volumeID : string) (vol : Volume) : Prop :=
  volumeID ≠ "" ∧ ∃ e paths,
    let dir := Path.JoinPath [Path.JoinPath [scanDir; Driver.name Driver]; e] in
    names_volume l dir volumeID ∧ vol = recovered_volume volumeID dir paths ∧
    map_Forall (λ p ro, ro = false ∧ publish_evidence l (pods_dir scanDir) volumeID p) paths ∧
    paths_found l (pods_dir scanDir) volumeID (λ p, paths !! p = Some false).
End staging_recovery.

(** ** Lemmas *)
Section lemmas.
Context {MU : MountUtils} (Driver : SeaweedFsDriver).
#[local] Abbreviation twp := (awp (S := Volumes) looks_only).

Lemma names_volume_mono l l' dir v :
  (∀ o, o ∈ l → o ∈ l') → names_volume Driver l dir v → names_volume Driver l' dir v.
Proof. intros Hl (data & vd & Hin & H). exists data, vd. split; [by apply Hl|done]. Qed.

Lemma publish_evidence_mono l l' pods v p :
  (∀ o, o ∈ l → o ∈ l') → publish_evidence Driver l pods v p → publish_evidence Driver l' pods v p.
Proof.
  intros Hl (pod & w & Hp & H). exists pod, w. split; [done|].
  destruct H as [H|(Hw & [err He] & r & Hr & Hr')]; [left; by eapply names_volume_mono|right].
  split; [done|]. split; [exists err; by apply Hl|]. exists r. split; [by apply Hl|done].
Qed.

Lemma target_found_mono l l' csiDir v (f f' : string → Prop) w :
  (∀ o, o ∈ l → o ∈ l') → (∀ p, f p → f' p) →
  target_found Driver l csiDir v f w → target_found Driver l' csiDir v f' w.
Proof.
  intros Hl Hf H Hw. destruct (H Hw) as (a & Ha & Hr). exists a. split; [by apply Hl|].
  destruct a as [data|err]; [by eauto|]. intros Hn. destruct (Hr Hn) as (r & Hin & Hp).
  exists r. eauto.
Qed.
Lemma pod_found_mono l l' podsDir v (f f' : string → Prop) pod :
  (∀ o, o ∈ l → o ∈ l') → (∀ p, f p → f' p) →
  pod_found Driver l podsDir v f pod → pod_found Driver l' podsDir v f' pod.
Proof.
  intros Hl Hf H Hp. destruct (H Hp) as (a & Ha & Hr). exists a. split; [by apply Hl|].
  intros vs w Hvs Hw. eapply target_found_mono; [done..|]. by eapply Hr.
Qed.
Lemma paths_found_mono l l' podsDir v (f : string → Prop) :
  (∀ o, o ∈ l → o ∈ l') → paths_found Driver l podsDir v f → paths_found Driver l' podsDir v f.
Proof.
  intros Hl (a & Ha & Hr). exists a. split; [by apply Hl|]. intros pods pod Hpods Hp.
  eapply pod_found_mono; [exact Hl|done|by eapply Hr].
Qed.

Lemma elem_snoc_last l (o : obs) : o ∈ l ++ [o].
Proof. apply elem_of_app. right. by left. Qed.
Lemma elem_snoc_init l (o o' : obs) : o ∈ l → o ∈ l ++ [o'].
Proof. intros H. apply elem_of_app. by left. Qed.
#[local] Hint Resolve elem_snoc_last elem_snoc_init : core.

(** What one directory shows: a path only on evidence, and no evidence missed. *)
Definition found_of (podsDir volumeID pod : string) (w : string * bool) (o : option string) (l : log) : Prop :=
  (∀ p, o = Some p → publish_evidence Driver l podsDir volumeID p) ∧
  target_found Driver l (csi_dir podsDir pod) volumeID (λ p, o = Some p) w.
Definition found_in (podsDir volumeID : string) (pod : string * bool) (os : list (option string)) (l : log) : Prop :=
  (∀ p, Some p ∈ os → publish_evidence Driver l podsDir volumeID p) ∧
  pod_found Driver l podsDir volumeID (λ p, Some p ∈ os) pod.

Lemma publishOf_spec pods v pod w s l :
  twp (publishOf Driver v (csi_dir pods pod) w)
    (λ r s' l', s' = s ∧ ∃ o, r = Ok o ∧ found_of pods v pod w o l') s l.
Proof.
  unfold publishOf. set (dir := Path.JoinPath [csi_dir pods pod; w.1]).
  destruct w.2 eqn:Hw; cbn [negb].
  2:{ apply awp_ret. split; [done|]. eexists. split; [done|]. split; [done|]. intros Hw'. congruence. }
  apply awp_bind, awp_try, awp_call; [done|]. intros [data|err].
  - assert (∀ o, (∀ p, o = Some p → p = Path.JoinPath [dir; "mount"] ∧ names_volume Driver
        (l ++ [Obs (ReadFile (vol_data dir)) (Ok data)]) dir v) →
      (∀ vd, unmarshal_vol_data data = Ok vd → VolumeHandle vd = v → of_driver Driver vd = true →
        o = Some (Path.JoinPath [dir; "mount"])) →
      found_of pods v pod w o (l ++ [Obs (ReadFile (vol_data dir)) (Ok data)])) as Hfound.
    { intros o Ho Hc. split.
      - intros p Hp. destruct (Ho p Hp) as [-> Hn]. exists pod, w.1. split; [done|]. by left.
      - intros _. exists (Ok data). by split. }
    destruct (unmarshal_vol_data data) as [vd|] eqn:Hvd; apply awp_ret; (split; [done|]);
      (eexists; split; [reflexivity|]); apply Hfound; try done.
    + intros p. destruct (String.eqb_spec (VolumeHandle vd) v); [|done].
      destruct (of_driver Driver vd) eqn:Hd; [|done]. intros [= <-]. split; [done|].
      exists data, vd. by split_and!.
    + intros vd' <-%Ok_inj -> ->. by rewrite String.eqb_refl.
  - destruct (String.eqb_spec w.1 (Path.Base v)) as [Hn|Hn]; cbn [negb].
    2:{ apply awp_ret. split; [done|]. eexists. split; [done|]. split; [done|]. intros _.
        exists (Err err). by split. }
    apply awp_bind, awp_try, awp_call; [done|]. intros st.
    apply awp_ret. split; [done|]. eexists. split; [done|].
    set (l' := _ ++ [Obs (Lstat _) st]).
    assert (Obs (ReadFile (vol_data dir)) (Err err) ∈ l') as Hread by (unfold l'; auto). split.
    + intros p Hp.
      assert (p = Path.JoinPath [dir; "mount"] ∧
        (st = Ok tt ∨ ∃ e, st = Err e ∧ IsCorruptedMnt e = true)) as [-> Hst].
      { destruct st as [[]|e]; [split; [congruence|by left]|].
        unfold isCorruptedMount in Hp. cbn in Hp. destruct (IsCorruptedMnt e) eqn:He; [|done].
        split; [congruence|]. right. by exists e. }
      exists pod, w.1. split; [done|]. right. split; [done|]. split; [by exists err|].
      exists st. split; [unfold l'; auto|done].
    + intros _. exists (Err err). split; [done|]. intros _. exists st. split; [unfold l'; auto|].
      intros [->|(e & -> & He)]; [done|]. unfold isCorruptedMount. cbn. by rewrite He.
Qed.

Lemma publishesOf_spec pods v pod s l :
  twp (publishesOf Driver v pods pod)
    (λ r s' l', s' = s ∧ ∃ os, r = Ok os ∧ found_in pods v pod os l') s l.
Proof.
  unfold publishesOf. destruct pod.2 eqn:Hpod; cbn [negb].
  2:{ apply awp_ret. split; [done|]. eexists. split; [done|].
      split; [by intros p Hp%elem_of_nil|]. intros Hp. congruence. }
  apply awp_bind, awp_try, awp_call; [done|]. intros [volumes|err].
  2:{ apply awp_ret. split; [done|]. eexists. split; [done|]. split; [by intros p Hp%elem_of_nil|].
      intros _. exists (Err err). split; [auto|done]. }
  eapply awp_mono; [apply awp_growing, (awp_map_related looks_only _ _ (found_of pods v pod.1))|].
  - intros w o l1 l2 Hl [H1 H2]. split.
    + intros p Hp. by eapply publish_evidence_mono, H1.
    + by eapply target_found_mono, H2.
  - intros w l1 _. apply publishOf_spec.
  - intros r s1 l1 [(-> & os & -> & Hos) Hl]. split; [done|]. eexists. split; [done|]. split.
    + intros p Hp. apply list_elem_of_lookup in Hp as [i Hi].
      destruct (Forall2_lookup_r _ _ _ _ _ Hos Hi) as (w & _ & H & _). by apply H.
    + intros _. exists (Ok volumes). split; [apply Hl; auto|]. intros vols w <-%Ok_inj Hw.
      apply list_elem_of_lookup in Hw as [i Hi].
      destruct (Forall2_lookup_l _ _ _ _ _ Hos Hi) as (o & Ho & _ & H).
      eapply target_found_mono; [|intros p Hp|exact H]; [done|]. rewrite Hp in Ho. by eapply list_elem_of_lookup_2.
Qed.

Lemma foldl_AddPublishPath_false vol ps :
  ∃ paths, foldl (λ vol p, AddPublishPath vol p false) vol ps = set_paths vol paths ∧
    (∀ p ro, paths !! p = Some ro → publishPaths vol !! p = Some ro ∨ ro = false ∧ p ∈ ps) ∧
    (∀ p, p ∈ ps ∨ publishPaths vol !! p = Some false → paths !! p = Some false).
Proof.
  revert vol. induction ps as [|q ps IH]; intros vol; cbn [foldl].
  { exists (publishPaths vol). split; [by destruct vol|]. split; [by left|].
    by intros p [Hp%elem_of_nil|Hp]. }
  destruct (IH (AddPublishPath vol q false)) as (paths & -> & H & H'). exists paths.
  split; [done|]. split.
  - intros p ro Hp. destruct (H p ro Hp) as [Hq|[-> Hq]]; [|right; split; [done|by right]].
    cbn in Hq. destruct (decide (p = q)) as [->|Hne].
    + rewrite lookup_insert_eq in Hq. injection Hq as <-. right. split; [done|]. by left.
    + rewrite lookup_insert_ne in Hq by done. by left.
  - intros p Hp. apply H'. cbn. destruct (decide (p = q)) as [->|Hne].
    + right. apply lookup_insert_eq.
    + rewrite lookup_insert_ne by done. destruct Hp as [[->|Hp]%elem_of_cons|Hp]; [done|auto..].
Qed.

Lemma recoverPublishPathsFromDisk_spec scanDir v vol s l :
  publishPaths vol = ∅ →
  twp (recoverPublishPathsFromDisk Driver scanDir v vol) (λ r s' l', s' = s ∧
    ∃ paths, r = Ok (set_paths vol paths) ∧
      map_Forall (λ p ro, ro = false ∧ publish_evidence Driver l' (pods_dir scanDir) v p) paths ∧
      paths_found Driver l' (pods_dir scanDir) v (λ p, paths !! p = Some false)) s l.
Proof.
  intros Hvol. unfold recoverPublishPathsFromDisk.
  apply awp_bind, awp_try, awp_call; [done|]. intros [pods|err].
  2:{ apply awp_ret. split; [done|]. exists ∅. split; [f_equal; rewrite <- Hvol; by destruct vol|].
      split; [done|]. exists (Err err). split; [auto|done]. }
  apply awp_bind. eapply awp_mono; [apply awp_growing, (awp_map_related looks_only _ _
    (found_in (pods_dir scanDir) v))|].
  - intros pod os l1 l2 Hl [H1 H2]. split.
    + intros p Hp. by eapply publish_evidence_mono, H1.
    + by eapply pod_found_mono, H2.
  - intros pod l1 _. apply publishesOf_spec.
  - intros r s1 l1 [(-> & found & -> & Hfound) Hl]. apply awp_ret. split; [done|].
    destruct (foldl_AddPublishPath_false vol (omap id (concat found))) as (paths & -> & Hsound & Hcomplete).
    assert (∀ p os, os ∈ found → Some p ∈ os → p ∈ omap id (concat found)) as Hin.
    { intros p os Hos Hp. apply list_elem_of_omap. exists (Some p). split; [|done].
      apply list_elem_of_In, in_concat. exists os. by rewrite <- !list_elem_of_In. }
    exists paths. split; [done|]. split.
    + intros p ro Hp.
      destruct (Hsound p ro Hp) as [Hq|[-> Hq]]; [rewrite Hvol in Hq; by rewrite lookup_empty in Hq|].
      split; [done|]. apply list_elem_of_omap in Hq as (o & Ho & Hop). cbn in Hop. subst o.
      apply list_elem_of_In, in_concat in Ho as (os & Hos & Ho). apply list_elem_of_In in Hos, Ho.
      apply list_elem_of_lookup in Hos as [i Hi].
      destruct (Forall2_lookup_r _ _ _ _ _ Hfound Hi) as (pod & _ & H & _). by apply H.
    + exists (Ok pods). split; [apply Hl; auto|]. intros pods' pod <-%Ok_inj Hpod.
      apply list_elem_of_lookup in Hpod as [i Hi].
      destruct (Forall2_lookup_l _ _ _ _ _ Hfound Hi) as (os & Hos & _ & H).
      eapply pod_found_mono; [|intros p Hp|exact H]; [done|]. apply Hcomplete. left.
      eapply Hin; [by eapply list_elem_of_lookup_2|done].
Qed.

Lemma recovered_mono l l' scanDir v vol :
  (∀ o, o ∈ l → o ∈ l') → recovered Driver l scanDir v vol → recovered Driver l' scanDir v vol.
Proof.
  intros Hl (Hv & e & paths & Hn & Hvol & Hps & Hf). split; [done|]. exists e, paths.
  split; [by eapply names_volume_mono|]. split; [done|]. split; [|by eapply paths_found_mono].
  intros p ro Hp. destruct (Hps p ro Hp) as [? ?]. split; [done|]. by eapply publish_evidence_mono.
Qed.

(** What has become of one directory entry: its file was read, and the volume
    it names is tracked. *)
Definition entry_done (base : string) (e : string * bool) (s : Volumes) (l : log) : Prop :=
  e.2 = true → ∃ a, Obs (ReadFile (vol_data (Path.JoinPath [base; e.1]))) a ∈ l ∧
    ∀ data vd, a = Ok data → unmarshal_vol_data data = Ok vd → VolumeHandle vd ≠ "" →
      of_driver Driver vd = true → is_Some (s !! VolumeHandle vd).

(** Every tracked volume was tracked at the start or is a recovered one. *)
Definition tracked_from (scanDir : string) (s0 s : Volumes) (l : log) : Prop :=
  s0 ⊆ s ∧ ∀ v vol, s !! v = Some vol → s0 !! v = Some vol ∨ recovered Driver l scanDir v vol.

Lemma tracked_from_mono scanDir s0 s l l' :
  (∀ o, o ∈ l → o ∈ l') → tracked_from scanDir s0 s l → tracked_from scanDir s0 s l'.
Proof.
  intros Hl [Hs H]. split; [done|]. intros v vol Hv.
  destruct (H v vol Hv); [by left|right; by eapply recovered_mono].
Qed.

Lemma entry_done_mono base e s s' l l' :
  s ⊆ s' → (∀ o, o ∈ l → o ∈ l') → entry_done base e s l → entry_done base e s' l'.
Proof.
  intros Hs Hl H He. destruct (H He) as (a & Ha & Hd). exists a. split; [by apply Hl|].
  intros data vd Hdata Hvd Hh Hours. destruct (Hd data vd Hdata Hvd Hh Hours) as [vol Hvol].
  exists vol. by eapply lookup_weaken.
Qed.

#[local] Hint Resolve elem_snoc_last elem_snoc_init : core.

Lemma checkHealth_spec p (s : Volumes) l :
  twp (checkHealth p) (λ r s' l', s' = s ∧ is_ok r = true) s l.
Proof.
  unfold checkHealth, checkHealthUnanswered, statfsProbeUnanswered.
  repeat (awp_step; try exact I); by split.
Qed.

Lemma recoverEntry_spec scanDir s0 e s l (base := Path.JoinPath [scanDir; Driver.name Driver]) :
  tracked_from scanDir s0 s l →
  twp (recoverEntry Driver scanDir base e) (λ r s' l', is_ok r = true ∧
    tracked_from scanDir s0 s' l' ∧ entry_done base e s' l' ∧
    ∀ y, entry_done base y s l → entry_done base y s' l') s l.
Proof.
  intros HI. unfold recoverEntry. set (dir := Path.JoinPath [base; e.1]).
  destruct (negb e.2) eqn:He.
  { apply awp_ret. split_and!; [done..| |done]. intros He'. by rewrite He' in He. }
  apply awp_bind, awp_try, awp_call; [done|]. intros a.
  set (l1 := l ++ [Obs (ReadFile (vol_data dir)) a]).
  assert (∀ o, o ∈ l → o ∈ l1) as Hl1 by (intros o Ho; apply elem_of_app; by left).
  assert (∀ s' l', s ⊆ s' → (∀ o, o ∈ l1 → o ∈ l') →
    (∀ data vd, a = Ok data → unmarshal_vol_data data = Ok vd → VolumeHandle vd ≠ "" →
      of_driver Driver vd = true → is_Some (s' !! VolumeHandle vd)) →
    entry_done base e s' l' ∧ ∀ y, entry_done base y s l → entry_done base y s' l') as Hdone.
  { intros s' l' Hs Hl Hd. split.
    - intros _. exists a. split; [by apply Hl, elem_snoc_last|done].
    - intros y. apply entry_done_mono; auto. }
  assert ((∀ data vd, a = Ok data → unmarshal_vol_data data = Ok vd → VolumeHandle vd ≠ "" →
      of_driver Driver vd = true → is_Some (s !! VolumeHandle vd)) →
    twp (aret tt) (λ r s' l', is_ok r = true ∧ tracked_from scanDir s0 s' l' ∧
      entry_done base e s' l' ∧ ∀ y, entry_done base y s l → entry_done base y s' l') s l1) as Hskip.
  { intros Hd. apply awp_ret. split; [done|]. split; [by eapply tracked_from_mono|]. by apply Hdone. }
  destruct a as [data|err]; [|by apply Hskip].
  assert ((∀ vd, unmarshal_vol_data data = Ok vd → VolumeHandle vd ≠ "" → of_driver Driver vd = true →
      is_Some (s !! VolumeHandle vd)) →
    ∀ data' vd, Ok data = Ok data' → unmarshal_vol_data data' = Ok vd → VolumeHandle vd ≠ "" →
      of_driver Driver vd = true → is_Some (s !! VolumeHandle vd)) as Hdata
    by (intros H data' vd <-%Ok_inj; apply H).
  destruct (unmarshal_vol_data data) as [vd|] eqn:Hvd.
  2:{ apply Hskip, Hdata. by intros vd. }
  assert ((VolumeHandle vd ≠ "" → of_driver Driver vd = true → is_Some (s !! VolumeHandle vd)) →
    ∀ vd', Ok vd = Ok vd' → VolumeHandle vd' ≠ "" → of_driver Driver vd' = true →
      is_Some (s !! VolumeHandle vd')) as Hvol
    by (intros H vd' <-%Ok_inj; apply H).
  destruct (String.eqb_spec (VolumeHandle vd) ""); [by apply Hskip, Hdata, Hvol|].
  destruct (of_driver Driver vd) eqn:Hours; [|by apply Hskip, Hdata, Hvol]. cbn [negb].
  apply awp_bind, awp_gets. destruct (s !! VolumeHandle vd) as [vol|] eqn:Htr.
  { apply Hskip, Hdata, Hvol. intros _ _. by exists vol. }
  apply awp_bind. eapply awp_mono; [apply awp_growing; by apply recoverPublishPathsFromDisk_spec|].
  intros r s1 l2 [(-> & paths & -> & Hpaths & Hfound) Hl2]. apply awp_bind, awp_modify, awp_bind.
  eapply awp_mono; [apply awp_growing, checkHealth_spec|].
  intros [h|err] s2 l3 [[-> ?] Hl3]; [|done]. apply awp_ret.
  change (set_paths _ paths) with (recovered_volume Driver (VolumeHandle vd) dir paths).
  assert (s ⊆ <[VolumeHandle vd := recovered_volume Driver (VolumeHandle vd) dir paths]> s) as Hsub
    by (exact (volumes_insert_subseteq _ _ _ Htr)).
  split; [done|]. split.
  - destruct HI as [Hs0 HI]. split; [by etrans|]. intros v vol.
    destruct (decide (v = VolumeHandle vd)) as [->|Hne].
    + rewrite volumes_lookup. intros [= <-]. right. split; [done|]. exists e.1, paths.
      split; [|split; [done|]].
      * exists data, vd. split; [by apply Hl3, Hl2, elem_snoc_last|done].
      * split; [|by eapply paths_found_mono]. intros p ro Hp. destruct (Hpaths p ro Hp).
        split; [done|]. by eapply publish_evidence_mono.
    + rewrite volumes_lookup_ne by done. intros Hv. destruct (HI v vol Hv); [by left|].
      right. eapply recovered_mono; [|done]. auto.
  - apply Hdone; [done|auto|]. intros data' vd' <-%Ok_inj. rewrite Hvd.
    intros <-%Ok_inj _ _. eexists. apply volumes_lookup.
Qed.

(** Publish paths and staging paths end in different names. *)
Lemma recovered_disjoint l scanDir v vol :
  recovered Driver l scanDir v vol → publishPaths vol !! StagedPath vol = None.
Proof.
  intros (_ & e & paths & _ & -> & Hps & _). cbn.
  destruct (paths !! _) as [ro|] eqn:Hp; [|done].
  destruct (Hps _ ro Hp) as [_ (pod & w & Heq & _)].
  assert (elem_ok "mount" ∧ elem_ok "globalmount") as [H1 H2]
    by (split; apply (bool_decide_unpack _); done).
  apply (f_equal Path.Base) in Heq. by rewrite !Base_JoinPath in Heq.
Qed.
End lemmas.

(** ** Property *)

Lemma recoverStaged_spec {MU : MountUtils} (Driver : SeaweedFsDriver) (scanDir : string)
    (s : Volumes) (l0 : log) (base := Path.JoinPath [scanDir; Driver.name Driver]) :
  awp looks_only (recoverStagedVolumesFromDisk Driver scanDir) (λ r s' l,
    r = Ok tt ∧
    (∀ v vol, s !! v = Some vol → s' !! v = Some vol) ∧
    (∀ v vol, s' !! v = Some vol →
      s !! v = Some vol ∨
      recovered Driver l scanDir v vol ∧ VolumeId vol = v ∧ volContext vol = Some ∅ ∧
        unmounter vol = false ∧ publishPaths vol !! StagedPath vol = None) ∧
    (scanDir ≠ "" → ∃ a k, l = l0 ++ Obs (ReadDir base) a :: k ∧
      ∀ entries e, a = Ok entries → e ∈ entries → entry_done Driver base e s' l)) s l0.
Proof.
  unfold recoverStagedVolumesFromDisk.
  destruct (String.eqb_spec scanDir "") as [->|Hne].
  { apply awp_ret. split_and!; [done|auto..|done]. }
  fold base. apply awp_bind, awp_try, awp_call; [done|]. intros [entries|err].
  2:{ apply awp_ret. split_and!; [done|auto..|]. intros _. eexists _, []. split; [reflexivity|done]. }
  apply awp_bind. eapply awp_mono; [apply awp_prefix_log, (awp_map_goals looks_only _ _
    (tracked_from Driver scanDir s) (entry_done Driver base))|].
  - intros e s1 l1 _. apply recoverEntry_spec.
  - split; [done|]. by left.
  - intros [ys|err] s' l' [(? & [Hs HI] & Hgoals & _) [k ->]]; [|done]. apply awp_ret.
    split_and!; [done| | |].
    + intros v vol. by apply volumes_weaken.
    + intros v vol Hv. destruct (HI v vol Hv) as [|Hr]; [by left|]. right.
      pose proof (recovered_disjoint _ _ _ _ _ Hr). split; [done|].
      destruct Hr as (_ & e & paths & _ & -> & _). by split_and!.
    + intros _. eexists _, _. split; [by rewrite <- app_assoc|]. intros entries' e <-%Ok_inj He. by apply Hgoals.
Qed.

(** C18. The recovery after a restart only looks at the host. It keeps
    every tracked volume as it is and never fails. A volume it adds is one that
    a vol_data.json of this driver names, at the staging path beside that file,
    without mount service handle and with an empty, non-nil context, so that
    the health monitor can re-stage it; its publish paths are the targets for
    which kubelet's files or directory names are evidence, all of them as far as
    kubelet's directories could be read, and never include
    the staging path, as the recovery of a dead mount requires. Every
    directory entry whose file names a volume of this driver ends up tracked. *)
Theorem staged_recovery_sound {MU : MountUtils} (Driver : SeaweedFsDriver) (scanDir : string)
    (s : Volumes) (base := Path.JoinPath [scanDir; Driver.name Driver]) :
  awp looks_only (recoverStagedVolumesFromDisk Driver scanDir) (λ r s' l,
    r = Ok tt ∧
    (∀ v vol, s !! v = Some vol → s' !! v = Some vol) ∧
    (∀ v vol, s' !! v = Some vol →
      s !! v = Some vol ∨
      recovered Driver l scanDir v vol ∧ VolumeId vol = v ∧ volContext vol = Some ∅ ∧
        unmounter vol = false ∧ publishPaths vol !! StagedPath vol = None) ∧
    (scanDir ≠ "" → ∃ a k, l = Obs (ReadDir base) a :: k ∧
      ∀ entries e, a = Ok entries → e ∈ entries → entry_done Driver base e s' l)) s [].
Proof. exact (recoverStaged_spec Driver scanDir s []). Qed.

(** A host with one staged volume, published read-only to a pod. *)
Definition demo_vol_data : string :=
  print (Obj [("attachmentID", Str "csi-1"); ("driverName", Str "seaweedfs-csi-driver");
              ("volumeHandle", Str "/buckets/pvc-1")]).
Definition demo_disk (X : Type) (e : hostE X) : log → X :=
  match e in hostE Y return log → Y with
  | ReadDir p => λ _,
      if String.eqb p "/k/plugins/kubernetes.io/csi/seaweedfs-csi-driver" then Ok [("h1", true); ("f", false)]
      else if String.eqb p "/k/pods" then Ok [("uid-1", true)]
      else if String.eqb p "/k/pods/uid-1/volumes/kubernetes.io~csi" then Ok [("pvc-1", true)]
      else Ok []
  | ReadFile p => λ _,
      if Strings.HasSuffix p "/vol_data.json" then Ok demo_vol_data
      else Err (SysErr ENOENT "no such file")
  | e => exampleHost healthDead _ e
  end.

Definition demo_recovered : (result unit * Volumes) * log :=
  run demo_disk (recoverStagedVolumesFromDisk (MU := demo_utils) demo_driver
    "/k/plugins/kubernetes.io/csi" ∅) [].

(** The volume is found with its publish path; that the pod had it read-only is
    not recorded by kubelet and is lost. *)
Example staged_recovery_demo :
  demo_recovered.1.1 = Ok tt ∧
  map (λ p : string * Volume, (p.1, StagedPath p.2, map_to_list (publishPaths p.2)))
    (map_to_list demo_recovered.1.2)
  = [("/buckets/pvc-1", "/k/plugins/kubernetes.io/csi/seaweedfs-csi-driver/h1/globalmount",
      [("/k/pods/uid-1/volumes/kubernetes.io~csi/pvc-1/mount", false)])].
Proof. split; vm_compute; reflexivity. Qed.
