(* ===== verification/MountRoots.v ===== *)
(** * Where the containers of a pod mount a volume

    Models [pkg/driver/mount_roots.go]: the file a weed mount reads to place
    absolute symlinks, updated by every publish and unpublish. On Linux the
    lookup of a pod's mounts is not configured and both do nothing. Paths follow the rules
    of the system the driver is built for ([Platform]). *)

From S2P Require Import Prelude GoLib Json Params Driver MountFlags MountArgs Platform Host Node.
#[local] Open Scope go_scope.

Definition podNameKey : string := "csi.storage.k8s.io/pod.name".
Definition podNamespaceKey : string := "csi.storage.k8s.io/pod.namespace".

(** ** The file's format; nil slices are [None] *)
Record containerMount := ContainerMount { mountPath : string; mountSubPath : string }.

Definition Views : Type := option (list (option (list containerMount))).
Record mountRootsFile := MountRootsFile { Publishes : option (gmap string Views) }.

Definition containerMount_fields : list (string * decoder containerMount) :=
  [("path", λ m v, (λ s, ContainerMount s (mountSubPath m)) <$> dec_string (mountPath m) v);
   ("subPath", λ m v, ContainerMount (mountPath m) <$> dec_string (mountSubPath m) v)].
Definition dec_views : decoder Views :=
  dec_list None (dec_list (ContainerMount "" "") (dec_struct containerMount_fields)).
Definition mountRootsFile_fields : list (string * decoder mountRootsFile) :=
  [("publishes", λ f v, MountRootsFile <$> dec_map None dec_views (Publishes f) v)].
Definition unmarshal_roots : string → result mountRootsFile :=
  Unmarshal (dec_struct mountRootsFile_fields) (MountRootsFile None).

Definition enc_mount (m : containerMount) : value :=
  Obj (("path", Str (mountPath m)) ::
       if String.eqb (mountSubPath m) "" then [] else [("subPath", Str (mountSubPath m))]).
Definition enc_views : Views → value :=
  enc_opt (λ l, Arr (map (enc_opt (λ c, Arr (map enc_mount c))) l)).
Definition marshal_roots (m : gmap string Views) : string :=
  print (Obj [("publishes", enc_map enc_views m)]).

Section roots.
Context (pf : Platform) (Driver : SeaweedFsDriver) (podVolumeMountsFn : bool).
#[local] Abbreviation act := (Host.act Volumes).

(** [views = None] removes the entry of the target. *)
Definition set_publish (m : gmap string Views) (targetPath : string)
    (views : option (list (list containerMount))) : gmap string Views :=
  match views with
  | None => delete targetPath m
  | Some l => <[targetPath := Some (map Some l)]> m
  end.

(** The map a readable file holds; an unreadable one is replaced. *)
Definition old_publishes (data : string) : gmap string Views :=
  match unmarshal_roots data with
  | Ok f => default ∅ (Publishes f)
  | Err _ => ∅
  end.

(** Write the data beside the file, and put it in the file's place. *)
Definition replaceFile (file data : string) : act unit :=
  call (MkdirAll (Dir pf file)) ;;>
  do! tmp := call (CreateTemp (Dir pf file) (Base pf file +:+ ".*")) in
  let undo e := do! _ := atry (call (Remove tmp)) in afail e in
  do! w := atry (call (WriteTemp tmp data)) in
  match w with
  | Err e => atry (call (CloseTemp tmp)) ;;> undo e
  | Ok _ =>
      do! c := atry (call (CloseTemp tmp)) in
      match c with
      | Err e => undo e
      | Ok _ =>
          do! r := atry (call (Rename tmp file)) in
          match r with Err e => undo e | Ok _ => aret tt end
      end
  end.

Definition updateMountRoots (file targetPath : string)
    (views : option (list (list containerMount))) : act unit :=
  do! data := atry (call (ReadFile file)) in
  do! old := match data with
             | Ok data => aret (old_publishes data)
             | Err e => if is_not_exist e then aret ∅ else afail e
             end in
  let roots := set_publish old targetPath views in
  if bool_decide (roots = ∅) then
    do! r := atry (call (Remove file)) in
    match r with
    | Err e => if is_not_exist e then aret tt else afail e
    | Ok _ => aret tt
    end
  else replaceFile file (marshal_roots roots).

Definition roots_file (volumeID : string) : string :=
  MountRootsPath_on pf (volumeSocketDir Driver) volumeID.

(** A pod whose mounts are unknown records one container without mounts. *)
Definition unknown_views : list (list containerMount) := [[]].

Definition recordMountRoots (volumeID targetPath : string) (ctx : option strmap) : act unit :=
  if negb podVolumeMountsFn then aret tt
  else
    let podName := get (default ∅ ctx) podNameKey in
    let podNamespace := get (default ∅ ctx) podNamespaceKey in
    do! views :=
      if String.eqb podName "" || String.eqb podNamespace "" then aret unknown_views
      else
        do! mounts := atry (call (PodVolumeMounts volumeID podNamespace podName)) in
        aret (match mounts with
              | Err _ => unknown_views
              | Ok mounts => map (map (λ m : string * string, ContainerMount m.1 m.2)) mounts
              end) in
    do! _ := atry (updateMountRoots (roots_file volumeID) targetPath (Some views)) in
    aret tt.

Definition forgetMountRoots (volumeID targetPath : string) : act unit :=
  if negb podVolumeMountsFn then aret tt
  else
    do! _ := atry (updateMountRoots (roots_file volumeID) targetPath None) in
    aret tt.
End roots.

(** ** The file's content comes back *)
Definition utf8_roots (m : gmap string Views) : Prop := plain (enc_map enc_views m) = true.

Lemma dec_enc_mount m : dec_struct containerMount_fields (ContainerMount "" "") (enc_mount m) = Some m.
Proof.
  destruct m as [p s]. unfold enc_mount. cbn [mountPath mountSubPath].
  assert (list_find (λ f : string * decoder containerMount, foldName f.1 = foldName "path")
    containerMount_fields = Some (0, ("path", λ m v,
      (λ s, ContainerMount s (mountSubPath m)) <$> dec_string (mountPath m) v))) as H1 by reflexivity.
  assert (list_find (λ f : string * decoder containerMount, foldName f.1 = foldName "subPath")
    containerMount_fields = Some (1, ("subPath", λ m v,
      ContainerMount (mountPath m) <$> dec_string (mountSubPath m) v))) as H2 by reflexivity.
  destruct (String.eqb_spec s "") as [->|_];
    cbn [dec_struct foldl mbind option_bind fst snd]; rewrite H1; [done|].
  cbn [mbind option_bind fmap option_fmap option_map dec_string fst snd mountSubPath]. by rewrite H2.
Qed.

Lemma dec_enc_views v : dec_views None (enc_views v) = Some v.
Proof.
  destruct v as [l|]; [|done]. cbn [enc_views enc_opt]. unfold dec_views.
  apply (dec_enc_list None _ (enc_opt (λ c, Arr (map enc_mount c)))).
  apply Forall_forall. intros [c|] _; [|done]. cbn [enc_opt].
  apply dec_enc_list. apply Forall_forall. intros m _. apply dec_enc_mount.
Qed.

Lemma depth_enc_views v : (depth_of (enc_views v) <= 3)%Z.
Proof.
  assert (∀ m, (depth_of (enc_mount m) <= 1)%Z) as Hm.
  { intros [p s]. unfold enc_mount. cbn. by destruct (String.eqb s ""). }
  assert (∀ o, (depth_of (enc_opt (λ c, Arr (map enc_mount c)) o) <= 2)%Z) as Ho.
  { intros [c|]; cbn [enc_opt depth_of]; [|lia]. pose proof (depth_foldr enc_mount c 1 ltac:(lia) Hm). lia. }
  destruct v as [l|]; cbn [enc_views enc_opt depth_of]; [|lia].
  pose proof (depth_foldr _ l 2 ltac:(lia) Ho). lia.
Qed.

Lemma roots_roundtrip m :
  utf8_roots m → unmarshal_roots (marshal_roots m) = Ok (MountRootsFile (Some m)).
Proof.
  intros Hm. apply Unmarshal_print.
  - cbn [plain forallb fst snd]. by rewrite Hm.
  - cbn [depth_of foldr snd]. unfold maxNestingDepth.
    assert (depth_of (enc_map enc_views m) <= 1 + 3)%Z by (apply depth_enc_map; [lia|apply depth_enc_views]).
    lia.
  - assert (list_find (λ f : string * decoder mountRootsFile, foldName f.1 = foldName "publishes")
      mountRootsFile_fields = Some (0, ("publishes", λ f v,
        MountRootsFile <$> dec_map None dec_views (Publishes f) v))) as Hfind by reflexivity.
    cbn [dec_struct foldl mbind option_bind fst snd]. rewrite Hfind. cbn [snd Publishes].
    rewrite dec_enc_map; [done|]. intros. apply dec_enc_views.
Qed.

(** ** What an update may do *)
Section update.
Context (pf : Platform) (file targetPath : string) (views : option (list (list containerMount))).

(** The map the update writes, from what was read of the file. *)
Definition new_roots (data : result string) : gmap string Views :=
  set_publish (match data with Ok d => old_publishes d | Err _ => ∅ end) targetPath views.

Definition created (l : log) (tmp : string) : Prop :=
  ∃ dir pattern, Obs (CreateTemp dir pattern) (Ok tmp) ∈ l.

(** The file is only ever replaced by a complete one that was written and closed
    under another name, and only removed when no publish is left in it. *)
Definition roots_policy : policy := λ X e l,
  match e with
  | ReadFile p => p = file
  | MkdirAll p => p = Dir pf file
  | CreateTemp dir _ => dir = Dir pf file
  | WriteTemp p _ | CloseTemp p => created l p
  | Rename p q => q = file ∧ ∃ a data, created l p ∧ Obs (ReadFile file) a ∈ l ∧
      Obs (WriteTemp p data) (Ok tt) ∈ l ∧ Obs (CloseTemp p) (Ok tt) ∈ l ∧ new_roots a ≠ ∅ ∧
      (utf8_roots (new_roots a) → unmarshal_roots data = Ok (MountRootsFile (Some (new_roots a))))
  | Remove p => p = file ∧ (∃ a, Obs (ReadFile file) a ∈ l ∧ new_roots a = ∅) ∨ created l p
  | _ => False
  end.

#[local] Abbreviation twp := (awp (S := Volumes) roots_policy).

Definition update_done (l : log) : Prop :=
  ∃ a, Obs (ReadFile file) a ∈ l ∧
    (new_roots a = ∅ ∧ (∃ r, Obs (Remove file) r ∈ l ∧ (r = Ok tt ∨ ∃ e, r = Err e ∧ is_not_exist e = true)) ∨
     new_roots a ≠ ∅ ∧ ∃ tmp, Obs (Rename tmp file) (Ok tt) ∈ l).

Lemma elem_here {X} (e : hostE X) x l : Obs e x ∈ l ++ [Obs e x].
Proof. apply elem_of_app. right. by left. Qed.
Lemma elem_there (o o' : obs) l : o ∈ l → o ∈ l ++ [o'].
Proof. intros H. apply elem_of_app. by left. Qed.
#[local] Hint Resolve elem_here elem_there : core.

Lemma replaceFile_spec a s l :
  Obs (ReadFile file) a ∈ l → new_roots a ≠ ∅ →
  twp (replaceFile pf file (marshal_roots (new_roots a))) (λ r s' l', s' = s ∧ (r = Ok tt → update_done l')) s l.
Proof.
  intros Ha Hne. unfold replaceFile. apply awp_bind, awp_call; [done|]. intros [[]|e]; [|done].
  apply awp_bind, awp_call; [done|]. intros [tmp|e]; [|done].
  set (l1 := (l ++ _) ++ _). assert (created l1 tmp) as Hc by (eexists _, _; apply elem_here).
  assert (Obs (ReadFile file) a ∈ l1) as Ha1 by (unfold l1; auto). clearbody l1. clear Ha l. rename l1 into l.
  assert (∀ e l, created l tmp →
    twp (do! _ := atry (call (Remove tmp)) in afail (A := unit) e)
      (λ r s' l', s' = s ∧ (r = Ok tt → update_done l')) s l) as Hundo.
  { intros e l' Hl'. apply awp_bind, awp_try, awp_call; [by right|]. intros r. by apply awp_fail. }
  assert (∀ l o, created l tmp → created (l ++ [o]) tmp) as Hmono.
  { intros l' o (d & p & H). exists d, p. auto. }
  apply awp_bind, awp_try, awp_call; [done|]. intros [[]|e].
  2:{ apply awp_bind, awp_try, awp_call; [by apply Hmono|]. intros r. apply Hundo. auto. }
  apply awp_bind, awp_try, awp_call; [by apply Hmono|]. intros [[]|e]; [|apply Hundo; auto].
  apply awp_bind, awp_try, awp_call.
  { split; [done|]. exists a, (marshal_roots (new_roots a)). split_and!; auto. apply roots_roundtrip. }
  intros [[]|e]; [|apply Hundo; auto]. apply awp_ret. split; [done|]. intros _.
  exists a. split; [auto|]. right. split; [done|]. eauto.
Qed.

Lemma updateMountRoots_spec s l :
  twp (updateMountRoots pf file targetPath views) (λ r s' l', s' = s ∧ (r = Ok tt → update_done l')) s l.
Proof.
  unfold updateMountRoots. apply awp_bind, awp_try, awp_call; [done|]. intros a. apply awp_bind.
  apply (awp_mono _ _ (λ r s' l', s' = s ∧ Obs (ReadFile file) a ∈ l' ∧
    (∀ old, r = Ok old → set_publish old targetPath views = new_roots a))).
  { destruct a as [data|e]; [|destruct (is_not_exist e)]; (apply awp_ret || apply awp_fail);
      (split_and!; [done|auto|]); unfold new_roots; by intros old [= <-]. }
  intros [old|e] s1 l1 (-> & Ha & Hold); [|done]. rewrite (Hold old eq_refl). case_bool_decide as Hempty.
  - apply awp_bind, awp_try, awp_call; [left; split; [done|]; by exists a|]. intros r.
    assert ((r = Ok tt ∨ ∃ e, r = Err e ∧ is_not_exist e = true) →
      update_done (l1 ++ [Obs (Remove file) r])) as Hdone.
    { intros Hr. exists a. split; [auto|]. left. split; [done|]. exists r. auto. }
    destruct r as [[]|e]; [apply awp_ret; auto|].
    destruct (is_not_exist e) eqn:He; [apply awp_ret; split; [done|]; intros _; apply Hdone; eauto|].
    by apply awp_fail.
  - by apply replaceFile_spec.
Qed.
End update.

(** ** Properties *)

(** C26. Recording or forgetting the mounts of a target replaces the file
    atomically: it is only ever renamed over by a file written and closed in
    full, whose content reads back as the old entries with the target's entry
    set or removed, and is only removed when no entry is left. The tracked
    volumes do not change, and failures of the file never fail the publish. On
    Windows the file is the one weed mount is told to read, whatever flags its
    binary defines; where the lookup is not configured, it is told of none. *)
Theorem mount_roots_atomic (pf : Platform) (Driver : SeaweedFsDriver) (volumeID targetPath file : string)
    (views : option (list (list containerMount))) (s : Volumes) :
  awp (roots_policy pf file targetPath views) (updateMountRoots pf file targetPath views)
    (λ r s' l, s' = s ∧ (r = Ok tt → update_done file targetPath views l)) s [] ∧
  awp (roots_policy pf (roots_file pf Driver volumeID) targetPath None)
    (forgetMountRoots pf Driver true volumeID targetPath)
    (λ r s' l, s' = s ∧ r = Ok tt) s [] ∧
  forgetMountRoots pf Driver false volumeID targetPath = aret tt ∧
  ∀ {MR : MapRange} m target cache socket fs args flags required out,
    pf = linux ∨ pf = windows → m_driver m = Driver → m_volumeID m = volumeID →
    buildMountArgs_on (mount_args pf (volumeSocketDir Driver) volumeID) m target cache socket fs = Ok args →
    filterMountArgs args flags required = Ok out →
    args_of "winfspMountRoots" out =
      if pod_mounts pf then [flag_arg "winfspMountRoots" (roots_file pf Driver volumeID)] else [].
Proof.
  split_and!; [apply updateMountRoots_spec| |done|].
  - unfold forgetMountRoots. cbn [negb]. apply awp_bind, awp_try.
    eapply awp_mono; [apply updateMountRoots_spec|]. intros r s1 l1 [-> _]. by apply awp_ret.
  - intros MR m target cache socket fs args flags required out Hpf _ _ Hb Hf.
    destruct (command_identity _ _ _ _ _ _ _ _ _ _ (platform_args_neutral pf _ _ Hpf) Hb Hf)
      as (_ & _ & _ & _ & _ & -> & _). by apply roots_args.
Qed.

(** A second pod publishes a volume. *)
Definition demo_views : list (list containerMount) := [[ContainerMount "C:\data" "sub"]; []].
Definition demo_old : gmap string Views := {["t1" := Some [Some [ContainerMount "C:\data" ""]]]}.
Definition demo_roots_host (X : Type) (e : hostE X) : log → X :=
  match e in hostE Y return log → Y with
  | ReadFile _ => λ _, Ok (marshal_roots demo_old)
  | e => exampleHost healthOK _ e
  end.

Example mount_roots_demo :
  let out := run demo_roots_host (updateMountRoots windows "C:\r\roots" "t2" (Some demo_views) ∅) [] in
  out.1.1 = Ok tt ∧
  Obs (WriteTemp "C:\r/roots.*" (marshal_roots (<["t2" := Some (map Some demo_views)]> demo_old))) (Ok tt)
    ∈ out.2.
Proof. split; [vm_compute; reflexivity|]. vm_compute. do 3 right. left. Qed.
