(* ===== verification/Startup.v ===== *)
(** * The start of the node service

    Models what [NewNodeServer] of [pkg/driver/utils.go] does to the host before
    requests are served: the recovery of the staged volumes, then the first
    sweep of orphaned caches. The health monitor and the periodic sweep it
    starts are in [Monitor] and [CacheSweep]. *)

From S2P Require Import Prelude GoLib Json Hash Params Driver Controller MountFlags MountArgs Host MountUtil Node CacheSweep StagingRecovery.
#[local] Open Scope go_scope.

Section startup.
Context {MU : MountUtils} (d : SeaweedFsDriver).
#[local] Abbreviation act := (Host.act Volumes).

Definition NewNodeServer : act unit :=
  recoverStagedVolumesFromDisk d (StagingScanDir d) ;;> removeOrphanCacheDirs d.

(** The event spares the caches of the volumes in [s]: what it moves aside or
    deletes is an entry of the cache base, which, directory entries being plain
    path elements, is not the cache directory of one of them. *)
Definition spares (s : Volumes) (o : obs) : Prop :=
  match o with
  | Obs (Rename p _) _ | Obs (RemoveAll p) _ =>
      ∃ name, p = Path.JoinPath [Path.Clean (CacheDir d); name] ∧
        (elem_ok name → ∀ v, is_Some (s !! v) → p ≠ GetCacheDir (CacheDir d) v)
  | _ => True
  end.

Lemma sweep_spares s X (e : hostE X) x l : sweep_allowed d s e l → spares s (Obs e x).
Proof.
  destruct e; try done; cbn.
  - intros (name & -> & _ & H). exists name. split; [done|]. intros Hn v _. by apply H.
  - intros (_ & name & -> & _ & H). exists name. split; [done|]. intros Hn v Hv. by apply H.
Qed.

(** An event that takes no path away and leaves the cache lock alone. *)
Definition harmless (o : obs) : Prop :=
  match o with Obs (Rename _ _) _ | Obs (RemoveAll _) _ | Obs TryLockCaches _ => False | _ => True end.

Lemma looking_harmless X (e : hostE X) x l : looks_only X e l → harmless (Obs e x).
Proof. by destruct e. Qed.

Lemma harmless_spares s o : harmless o → spares s o.
Proof. destruct o as [X e x]. by destruct e. Qed.

Lemma harmless_unlocked l : (∀ o, o ∈ l → harmless o) → lock_held l = false.
Proof.
  induction l as [|[X e x] l IH] using rev_ind; intros Hl; [done|]. rewrite lock_held_snoc.
  rewrite IH by (intros o Ho; apply Hl, elem_of_app; by left).
  assert (harmless (Obs e x)) as He by (apply Hl, elem_of_app; right; by left). by destruct e.
Qed.

End startup.

(** ** An example *)

(** The host of [demo_disk], with a cache directory for the staged volume and
    one for a volume that is gone. *)
Definition demo_start (X : Type) (e : hostE X) : log → X :=
  match e in hostE Y return log → Y with
  | ReadDir "/var/cache" => λ _, Ok [(sha256_hex "/buckets/pvc-1", true); (sha256_hex "gone", true)]
  | Stat _ => λ _, Err (SysErr ENOENT "no such file")
  | DialUnix _ => λ _, false
  | e => demo_disk _ e
  end.

Definition start_driver : SeaweedFsDriver := {|
  Driver.name := "seaweedfs-csi-driver"; nodeID := "n"; Driver.version := ""; endpoint := "";
  mountEndpoint := "unix:///m.sock"; volumeSocketDir := "/run"; vcap := []; cscap := []; filers := ["filer:8888"];
  filerIndex := 0; ConcurrentWriters := 0; ConcurrentReaders := 0; MountExtraArgs := [];
  CacheCapacityMB := 0; WriteBufferSizeMB := 0; CacheMetaTtlSec := 0; CacheDir := "/var/cache/";
  UidMap := ""; GidMap := ""; DataCenter := ""; DataLocality_ := DL_None; TopologyKeys := [];
  StagingScanDir := "/k/plugins/kubernetes.io/csi"; KubeletRootDir := ""; KubeletRootMount := "" |}.

Definition start_out : (result unit * Volumes) * log :=
  run demo_start (NewNodeServer (MU := demo_utils) start_driver ∅) [].

(** The paths moved aside. *)
Definition moved (l : log) : list string :=
  omap (λ o : obs, match o with Obs (Rename p _) _ => Some p | _ => None end) l.

