(* ===== verification/Life.v ===== *)
(** * The life of the node plugin

    The node service, the health monitor, the cache sweep and restarts together:
    a sequence of actions on one plugin, each with its lock held, in any order
    and on any host. *)

From S2P Require Import Prelude GoLib Json Hash Params Driver Controller MountFlags MountArgs MountInfo Host MountUtil Container Node NodeSpec CacheSweep VolumeStats Health Recovery StagingRecovery Startup.
#[local] Open Scope go_scope.

Inductive action :=
  | Request (q : request)
  | Stats (volumeID path : string)
  | Check (volumeID : string)      (** one health check *)
  | Sweep                          (** one sweep of the caches *)
  | Restart.

Section life.
Context {MU : MountUtils} {MR : MapRange} {PR : PathRange} {VR : VolumeRange}.
Context (d : SeaweedFsDriver) (hungMountAfter : Z).

(** A restarted plugin begins with no volumes. *)
Definition perform (a : action) : act Volumes unit :=
  match a with
  | Request q => handle d q
  | Stats v p => do! _ := NodeGetVolumeStats v p in aret tt
  | Check v => performVolumeHealthCheck d hungMountAfter v
  | Sweep => removeOrphanCacheDirs d
  | Restart => amodify (λ _, ∅) ;;> NewNodeServer d
  end.

Fixpoint live (host : ∀ X, hostE X → log → X) (acts : list action) (s : Volumes) (l : log)
    : list (action * bool) * Volumes * log :=
  match acts with
  | [] => ([], s, l)
  | a :: acts =>
      let '((r, s'), l') := run host (perform a s) l in
      let '(rs, s'', l'') := live host acts s' l' in
      ((a, is_ok r) :: rs, s'', l'')
  end.

(** ** What a tracked volume is *)
Record well_formed (v : string) (vol : Volume) : Prop := {
  wf_id : VolumeId vol = v;
  wf_named : v ≠ "";
  wf_staged : StagedPath vol ≠ "";
  wf_socket : localSocket vol = LocalSocketPath (volumeSocketDir d) v;
  wf_fails : (0 <= healthFailCount vol < defaultUnhealthyThreshold)%Z;
  wf_streak : (- 2 ^ 31 <= unhealthyStreak vol < 2 ^ 31)%Z;
  wf_remount : unmounter vol = true → is_Some (volContext vol);
}.

Lemma wf_rebuilt v p ctx ro :
  v ≠ "" → p ≠ "" → well_formed v (set_context (rebuildVolumeFromStaging d v p) ctx ro).
Proof. by split. Qed.

Lemma wf_mounted v p ctx ro :
  v ≠ "" → p ≠ "" → well_formed v (set_staged (set_context (NewVolume d v) (Some ctx) ro) p true).
Proof. by split. Qed.

Lemma wf_paths v vol ps : well_formed v vol → well_formed v (set_paths vol ps).
Proof. by intros []. Qed.

Lemma int32_add_range z k : (- 2 ^ 31 <= int32_add z k < 2 ^ 31)%Z.
Proof.
  unfold int32_add. change (2 ^ 31)%Z with 2147483648%Z. change (2 ^ 32)%Z with 4294967296%Z.
  pose proof (Z.mod_pos_bound (z + k + 2147483648) 4294967296). lia.
Qed.

Lemma wf_note_check v vol H r u : well_formed v vol → well_formed v (note_check H vol r u).1.
Proof.
  intros [Hid Hv Hst Hsock Hf Hs Hre]. unfold note_check, defaultUnhealthyThreshold in *.
  pose proof (int32_add_range (unhealthyStreak vol) 1).
  destruct r; [by split|..].
  - rewrite int32_add_small by (cbn; lia). cbn [healthFailCount noteUnhealthy set_health].
    destruct (Z.ltb_spec (healthFailCount vol + 1) 3); split; try done; cbn;
      unfold defaultUnhealthyThreshold; lia.
  - cbv zeta. destruct (_ || _); by split.
Qed.

(** kubelet stages below [globalmount] and publishes below [mount]. *)
Definition from_kubelet (a : action) : Prop :=
  match a with
  | Request (RStage r) => Path.Base (s_path r) = "globalmount"
  | Request (RPublish r) => Path.Base (p_staging r) = "globalmount" ∧ Path.Base (p_target r) = "mount"
  | _ => True
  end.
Definition kubelet_paths (vol : Volume) : Prop :=
  Path.Base (StagedPath vol) = "globalmount" ∧
  ∀ p, is_Some (publishPaths vol !! p) → Path.Base p = "mount".

(** ** Actions that do not touch the tracked volumes *)
#[local] Abbreviation quiet := (keeps (S := Volumes) anything).

Lemma resetStatfsProbe_quiet p : quiet (resetStatfsProbe p).
Proof. unfold resetStatfsProbe. keeps_auto. Qed.
#[local] Hint Resolve resetStatfsProbe_quiet : keeps.
Lemma checkHealthUnanswered_quiet p : quiet (checkHealthUnanswered p).
Proof. unfold checkHealthUnanswered, statfsProbeUnanswered. keeps_auto. Qed.
#[local] Hint Resolve checkHealthUnanswered_quiet : keeps.
Lemma checkHealth_quiet p : quiet (checkHealth p).
Proof. unfold checkHealth. keeps_auto. Qed.
#[local] Hint Resolve checkHealth_quiet : keeps.
Lemma requireHealthyStaging_quiet v p : quiet (requireHealthyStaging v p).
Proof. unfold requireHealthyStaging. keeps_auto. Qed.
Lemma isStagingPathHealthy_quiet p : quiet (isStagingPathHealthy p).
Proof. unfold isStagingPathHealthy, stagingPathHealth, probeStatfs. keeps_auto. Qed.
Lemma cleanupStaleStagingPath_quiet p : quiet (cleanupStaleStagingPath p).
Proof.
  unfold cleanupStaleStagingPath, cleanupCorruptedStagingPath, removeIfExists, lazyUnmount.
  keeps_auto.
Qed.
Lemma checkMount_quiet p : quiet (checkMount p).
Proof. unfold checkMount. keeps_auto. Qed.
#[local] Hint Resolve requireHealthyStaging_quiet isStagingPathHealthy_quiet cleanupStaleStagingPath_quiet checkMount_quiet : keeps.
Lemma Publish_quiet p t ro : quiet (Publish p t ro).
Proof. unfold Publish, defaultBindMount. keeps_auto. Qed.
Lemma CleanupVolumeResources_quiet v : quiet (CleanupVolumeResources d v).
Proof. unfold CleanupVolumeResources. keeps_auto. Qed.
#[local] Hint Resolve Publish_quiet CleanupVolumeResources_quiet : keeps.
Lemma Unstage_quiet vol p : quiet (Unstage d vol p).
Proof. unfold Unstage, cleanupMountPoint, removeIfExists. keeps_auto. Qed.
Lemma unpublishTarget_quiet ts t (cleanup : string → act Volumes unit) :
  (∀ p, quiet (cleanup p)) → quiet (unpublishTarget d ts t cleanup).
Proof.
  intros Hc. unfold unpublishTarget, quarantineStaleTarget, isPathMounted. keeps_auto.
Qed.
#[local] Hint Resolve Unstage_quiet unpublishTarget_quiet : keeps.
Lemma effectiveContext_quiet v ctx : quiet (effectiveContext v ctx).
Proof. unfold effectiveContext. keeps_auto. Qed.
Lemma resolveVolumeCapacity_quiet v ctx : quiet (resolveVolumeCapacity v ctx).
Proof. unfold resolveVolumeCapacity. keeps_auto. Qed.
Lemma NodeExpandVolume_quiet v p n : quiet (NodeExpandVolume v p n).
Proof. unfold NodeExpandVolume, Quota. keeps_auto. Qed.
Lemma NodeGetVolumeStats_quiet v p : quiet (NodeGetVolumeStats v p).
Proof.
  unfold NodeGetVolumeStats, readVolumeUsageForStats, readVolumeUsage, wait_for. keeps_auto.
Qed.
Lemma removeOrphanCacheDirs_quiet : quiet (removeOrphanCacheDirs d).
Proof.
  unfold removeOrphanCacheDirs, detachOrphanCacheDirs, detachEntry, isCacheOfServedMount,
    kubeletHasStaged. keeps_auto.
Qed.
#[local] Hint Resolve effectiveContext_quiet resolveVolumeCapacity_quiet NodeExpandVolume_quiet : keeps.
#[local] Hint Resolve NodeGetVolumeStats_quiet removeOrphanCacheDirs_quiet : keeps.

(** Repairs in containers. *)
Lemma getMountDevice_quiet p : quiet (getMountDevice p).
Proof. unfold getMountDevice, parseMountInfo. keeps_auto. Qed.
Lemma containerPIDs_quiet uid self entries seen : quiet (containerPIDs uid self entries seen).
Proof.
  revert seen. induction entries as [|e entries IH]; intros seen; cbn [containerPIDs].
  - apply keeps_ret.
  - unfold containerNS. keeps_auto.
Qed.
Lemma remountViaSetns_quiet pid p staging sub ro : quiet (remountViaSetns pid p staging sub ro).
Proof. unfold remountViaSetns, remountOnThread, replaceMount. keeps_auto. Qed.
#[local] Hint Resolve getMountDevice_quiet containerPIDs_quiet remountViaSetns_quiet : keeps.
Lemma repairStale_quiet p staging : quiet (repairStaleContainerMounts p staging).
Proof.
  unfold repairStaleContainerMounts, repairContainer, repairMount, findContainerPIDsForPod, parseMountInfo.
  keeps_auto.
Qed.
Lemma remountInContainers_quiet p staging dev ro : quiet (remountInContainers p staging dev ro).
Proof.
  unfold remountInContainers, remountContainer, remountMount, findContainerMountsByDevice,
    findContainerPIDsForPod, parseMountInfo. keeps_auto.
Qed.
#[local] Hint Resolve repairStale_quiet remountInContainers_quiet : keeps.

(** The health monitor. *)
Lemma tearDown_quiet p : quiet (tearDownStalePublishBind p).
Proof. unfold tearDownStalePublishBind, unmountVolume, cleanupMountPoint. keeps_auto. Qed.
Lemma anyDead_quiet ps : quiet (anyDead ps).
Proof. induction ps as [|[p ro] ps IH]; cbn [anyDead]; keeps_auto. Qed.
#[local] Hint Resolve tearDown_quiet anyDead_quiet : keeps.
Lemma retryPublishPaths_quiet v : quiet (retryPublishPaths v).
Proof. unfold retryPublishPaths, retryPath, quietly. keeps_auto. Qed.
Lemma repairContainerMounts_quiet v : quiet (repairContainerMounts v).
Proof. unfold repairContainerMounts, quietly. keeps_auto. Qed.
Lemma recheck_quiet H p : quiet (recheck H p).
Proof. unfold recheck. keeps_auto. Qed.
Lemma firstDevice_quiet ps : quiet (firstDevice ps).
Proof. induction ps as [|[p ro] ps IH]; cbn [firstDevice]; keeps_auto. Qed.
Lemma stopMount_quiet v vol hung : quiet (stopMount v vol hung).
Proof. unfold stopMount. keeps_auto. Qed.
#[local] Hint Resolve retryPublishPaths_quiet repairContainerMounts_quiet recheck_quiet : keeps.
Lemma detachStaging_quiet H p : quiet (detachStaging H p).
Proof.
  unfold detachStaging, isDeadMount, detachDeadMountPoint, lazyUnmount, isPathMounted, probeStatfs,
    statfsProbeUnanswered. keeps_auto.
Qed.
Lemma republish_quiet staging p : quiet (republish staging p).
Proof. unfold republish. keeps_auto. Qed.
Lemma repairRecovered_quiet staging dev p : quiet (repairRecovered staging dev p).
Proof. unfold repairRecovered, quietly. keeps_auto. Qed.
#[local] Hint Resolve firstDevice_quiet stopMount_quiet detachStaging_quiet republish_quiet repairRecovered_quiet : keeps.

(** ** Actions that change the tracked volumes *)
#[local] Abbreviation twp := (awp (S := Volumes) anything).

(** Run a quiet action first. *)
Ltac quietly := apply awp_bind; apply keeps_use; [by auto 1 with keeps nocore|].

(** A freshly mounted volume. *)
Definition mounted (v p : string) (ro : bool) (vol : Volume) : Prop :=
  ∃ ctx, vol = set_staged (set_context (NewVolume d v) (Some ctx) ro) p true.

Lemma stageNewVolume_mounted v p ctx ro s l :
  twp (stageNewVolume d v p ctx ro) (λ r s' _, s' = s ∧ ∀ vol, r = Ok vol → mounted v p ro vol) s l.
Proof.
  unfold stageNewVolume. quietly. intros [ctx1|e] l1; [|done]. quietly.
  intros [capacity|e] l2; [|done]. cbv zeta. apply awp_bind, awp_lift.
  set (ctx2 := match capacity with Some _ => _ | None => _ end).
  destruct (newMounter v ro d ctx2) as [m|e]; [|done]. apply awp_bind.
  eapply (awp_mono _ _ (λ r s' _, s' = s ∧ ∀ vol, r = Ok vol →
    vol = set_staged (set_context (NewVolume d v) (Some ctx2) ro) p true)).
  { unfold Stage. quietly. intros [isMnt|e] l3; [|done]. apply awp_bind, keeps_use.
    { unfold unmountVolume. keeps_auto. }
    intros [[]|e] l4; [|done]. apply awp_bind, awp_lift.
    destruct (mount_request m p) as [req|e]; [|done].
    apply awp_bind, awp_call; [exact I|]. intros [[]|e]; [|done]. apply awp_ret. split; [done|].
    by intros vol [= <-]. }
  intros [vol|e] s1 l3 [-> Hvol]; [|done]. specialize (Hvol vol eq_refl) as ->.
  destruct capacity as [c|]; [|apply awp_ret; split; [done|]; intros vol [= <-]; by eexists].
  unfold Quota. apply awp_bind, awp_try, awp_call; [exact I|]. intros [[]|e].
  - apply awp_ret. split; [done|]. intros vol [= <-]. by eexists.
  - apply awp_bind, awp_try, keeps_use; [by auto 1 with keeps nocore|]. intros r l4. by apply awp_fail.
Qed.

(** What an action of the health monitor does to the volumes: one volume may be
    replaced, by one with the same publish paths. *)
Definition checked (v : string) (s s' : Volumes) : Prop :=
  s' = s ∨ ∃ vol vol', s !! v = Some vol ∧ s' = <[v := vol']> s ∧
    publishPaths vol' = publishPaths vol ∧ StagedPath vol' = StagedPath vol ∧
    (well_formed v vol → well_formed v vol').

Lemma checked_trans v s s1 s2 : checked v s s1 → checked v s1 s2 → checked v s s2.
Proof.
  intros [->|(vol & vol1 & Hv & -> & Hp & Hst & Hw)]; [done|].
  intros [->|(vol1' & vol2 & Hv1 & -> & Hp2 & Hst2 & Hw2)]; [right; by exists vol, vol1|].
  rewrite volumes_lookup in Hv1. injection Hv1 as <-. right. exists vol, vol2.
  rewrite volumes_insert2. split_and!; [done..|congruence|congruence|auto].
Qed.

Lemma restage_checked v vol dev ctx s l :
  s !! v = Some vol →
  twp (restage d v (StagedPath vol) dev vol ctx (range_paths (publishPaths vol)))
    (λ _ s' _, checked v s s') s l.
Proof.
  intros Hv. unfold restage, store.
  apply awp_bind, awp_try, keeps_use; [by auto 1 with keeps nocore|]. intros [[]|e] l1; [|by left].
  apply awp_bind, awp_try. eapply awp_mono; [apply stageNewVolume_mounted|].
  intros [newVol|e] s1 l2 [-> Hnew]; [|by left]. destruct (Hnew newVol eq_refl) as [ctx' ->].
  apply awp_bind, keeps_use; [keeps_auto|]. intros [ys|e] l3; [|by left].
  apply awp_bind, keeps_use; [keeps_auto|]. intros [zs|e] l4; [|by left]. cbv zeta.
  apply awp_bind, awp_modify.
  match goal with |- awp _ _ _ ?s1 _ => assert (checked v s s1) as Hs1 end.
  { right. exists vol. eexists. split_and!; [done..| |by rewrite foldl_AddPublishPath|].
    - rewrite foldl_AddPublishPath. cbn [publishPaths set_paths set_staged set_context NewVolume].
      apply foldl_insert_range.
    - intros Hwf. rewrite foldl_AddPublishPath. apply wf_paths, wf_mounted; by destruct Hwf. }
  apply awp_bind, keeps_use; [keeps_auto|]. by intros [us|e] l5.
Qed.

Lemma recoverVolumeAs_checked v hung s l :
  twp (recoverVolumeAs d hungMountAfter v hung) (λ _ s' _, checked v s s') s l.
Proof.
  unfold recoverVolumeAs. cbv zeta. apply awp_bind, awp_gets.
  destruct (s !! v) as [vol|] eqn:Hv; [|by left].
  quietly. intros [b|e] l1; [|by left]. destruct (negb b); [by left|].
  destruct (volContext vol) as [ctx|]; [|by left].
  apply awp_bind, awp_try, keeps_use; [by auto 1 with keeps nocore|]. intros dev l2.
  apply awp_bind, keeps_use; [keeps_auto|]. intros [old|e] l3; [|by left].
  quietly. intros [stopped|e] l4; [|by left]. destruct (negb stopped); [by left|].
  quietly. intros [free|e] l5; [|by left]. destruct (negb free); [by left|].
  by apply restage_checked.
Qed.

Lemma performVolumeHealthCheck_checked v s l :
  twp (performVolumeHealthCheck d hungMountAfter v) (λ _ s' _, checked v s s') s l.
Proof.
  unfold performVolumeHealthCheck, store. apply awp_bind, awp_gets.
  destruct (s !! v) as [vol|] eqn:Hv; [|by left]. destruct (String.eqb (StagedPath vol) ""); [by left|].
  quietly. intros [[r u]|e] l1; [|by left].
  destruct (note_check _ vol r u) as [vol1 dec] eqn:Hnote.
  apply awp_bind, awp_modify.
  assert (checked v s (<[v := vol1]> s)) as Hs1.
  { replace vol1 with (note_check (hungAfter hungMountAfter) vol r u).1 by (by rewrite Hnote).
    right. exists vol. eexists. split_and!; [done..|apply note_check_paths|apply note_check_staged|apply wf_note_check]. }
  destruct dec; [done|..].
  - eapply awp_mono; [apply recoverVolumeAs_checked|]. intros ? s2 ? Hs2. by eapply checked_trans.
  - eapply awp_mono; [apply recoverVolumeAs_checked|]. intros ? s2 ? Hs2. by eapply checked_trans.
  - apply keeps_use; [keeps_auto|done].
Qed.

(** ** The invariant of the tracked volumes

    [kubelet] stands for the requests naming paths like kubelet does. *)
Section invariant.
Context (kubelet : Prop).

Definition good (v : string) (vol : Volume) : Prop :=
  well_formed v vol ∧ (kubelet → kubelet_paths vol).
Definition all_good (s : Volumes) : Prop := ∀ v vol, s !! v = Some vol → good v vol.
#[local] Abbreviation keeps_good m s l := (twp m (λ _ s' _, all_good s') s l).

Lemma good_insert s v vol : all_good s → good v vol → all_good (<[v := vol]> s).
Proof.
  intros Hs Hvol w vol'. destruct (decide (v = w)) as [<-|Hne].
  - rewrite volumes_lookup. by intros [= <-].
  - rewrite volumes_lookup_ne by done. apply Hs.
Qed.

Lemma good_delete s v : all_good s → all_good (delete v s).
Proof.
  intros Hs w vol. destruct (decide (v = w)) as [<-|Hne]; [by rewrite volumes_delete|].
  rewrite volumes_delete_ne by done. apply Hs.
Qed.

Lemma good_quiet {A} (m : act Volumes A) s l : quiet m → all_good s → keeps_good m s l.
Proof. intros Hm Hs. by apply keeps_use. Qed.

Lemma good_rebuilt v p ctx ro :
  v ≠ "" → p ≠ "" → (kubelet → Path.Base p = "globalmount") →
  good v (set_context (rebuildVolumeFromStaging d v p) ctx ro).
Proof.
  intros Hv Hp Hk. split; [by apply wf_rebuilt|]. intros Hkub. split; [by apply Hk|].
  intros q [ro' Hq]. cbn in Hq. by rewrite lookup_empty in Hq.
Qed.

Lemma good_mounted v p ro vol :
  v ≠ "" → p ≠ "" → (kubelet → Path.Base p = "globalmount") → mounted v p ro vol → good v vol.
Proof.
  intros Hv Hp Hk [ctx ->]. split; [by apply wf_mounted|]. intros Hkub. split; [by apply Hk|].
  intros q [ro' Hq]. cbn in Hq. by rewrite lookup_empty in Hq.
Qed.

Lemma good_add v vol t ro :
  good v vol → (kubelet → Path.Base t = "mount") → good v (AddPublishPath vol t ro).
Proof.
  intros [Hwf Hk] Ht. split; [by apply wf_paths|]. intros Hkub. destruct (Hk Hkub) as [H1 H2].
  split; [done|]. intros p [ro' Hp]. cbn in Hp.
  apply lookup_insert_Some in Hp as [[<- _]|[_ Hp]]; [by apply Ht|by apply H2].
Qed.

Lemma good_remove v vol t : good v vol → good v (RemovePublishPath vol t).
Proof.
  intros [Hwf Hk]. split; [by apply wf_paths|]. intros Hkub. destruct (Hk Hkub) as [H1 H2].
  split; [done|]. intros p [ro' Hp]. cbn in Hp.
  apply lookup_delete_Some in Hp as [_ Hp]. by apply H2.
Qed.

Lemma good_checked v s s' : all_good s → checked v s s' → all_good s'.
Proof.
  intros Hs [->|(vol & vol' & Hv & -> & Hp & Hst & Hwf)]; [done|].
  destruct (Hs v vol Hv) as [H1 H2]. apply good_insert; [done|]. split; [by apply Hwf|].
  intros Hk. unfold kubelet_paths. rewrite Hp, Hst. by apply H2.
Qed.

Lemma NodeStageVolume_good req s l :
  all_good s → (kubelet → from_kubelet (Request (RStage req))) → keeps_good (NodeStageVolume d req) s l.
Proof.
  intros Hs Hk. unfold NodeStageVolume, store. apply awp_guard; [done|intros _].
  apply awp_guard; [done|intros Hv%String.eqb_neq]. apply awp_guard; [done|intros Hp%String.eqb_neq].
  apply awp_bind, awp_gets. destruct (s !! s_volume req) as [vol|].
  { apply good_quiet; [auto 1 with keeps nocore|done]. }
  quietly. intros [[]|e] l1; [|..|done].
  { apply awp_modify, good_insert; [done|]. by apply good_rebuilt. }
  apply awp_bind, awp_try, awp_call; [exact I|]. intros st. apply awp_bind, keeps_use; [keeps_auto|].
  intros [[]|e] l2; [|done]. apply awp_bind, awp_with_err.
  eapply awp_mono; [apply stageNewVolume_mounted|]. intros [vol|e] s1 l3 [-> Hvol]; [|done].
  apply awp_modify, good_insert; [done|]. eapply good_mounted; [done..|]. by apply Hvol.
Qed.

Lemma publishedVolume_good req s l :
  all_good s → p_volume req ≠ "" → p_staging req ≠ "" →
  (kubelet → from_kubelet (Request (RPublish req))) →
  twp (publishedVolume d req) (λ r s' _, all_good s' ∧ ∀ vol, r = Ok vol → good (p_volume req) vol) s l.
Proof.
  intros Hs Hv Hp Hk. unfold publishedVolume, store. apply awp_bind, awp_gets.
  destruct (s !! p_volume req) as [vol|] eqn:Hvol.
  { quietly. intros [[]|e] l1; [|done]. apply awp_ret. split; [done|]. intros w [= <-]. by apply Hs. }
  quietly. intros [[]|e] l1; [|..|done].
  { assert (good (p_volume req) (set_context (rebuildVolumeFromStaging d (p_volume req) (p_staging req))
      (p_context req) (isPublishVolumeReadOnly (p_readonly req) (p_cap req)))) as Hg.
    { apply good_rebuilt; [done..|]. intros Hkub. by destruct (Hk Hkub). }
    apply awp_bind, awp_modify, awp_ret. split; [by apply good_insert|]. by intros w [= <-]. }
  apply awp_bind, awp_with_err, keeps_use; [auto 1 with keeps nocore|]. intros [[]|e] l2; [|done].
  apply awp_bind, awp_with_err. eapply awp_mono; [apply stageNewVolume_mounted|].
  intros [vol|e] s1 l3 [-> Hm]; [|done].
  assert (good (p_volume req) vol) as Hg.
  { eapply good_mounted; [done..| |by apply Hm]. intros Hkub. by destruct (Hk Hkub). }
  apply awp_bind, awp_modify, awp_ret. split; [by apply good_insert|]. by intros w [= <-].
Qed.

Lemma handle_good q s l :
  all_good s → (kubelet → from_kubelet (Request q)) → keeps_good (handle d q) s l.
Proof.
  intros Hs Hk. destruct q as [r|r|v t ts|v p|v p n]; cbn [handle]; [by apply NodeStageVolume_good|..].
  - unfold NodePublishVolume, store. apply awp_guard; [done|intros _].
    apply awp_guard; [done|intros Hv%String.eqb_neq]. apply awp_guard; [done|intros _].
    apply awp_guard; [done|intros Hp%String.eqb_neq]. apply awp_bind.
    eapply awp_mono; [by apply publishedVolume_good|]. intros [vol|e] s1 l1 [Hs1 Hvol]; [|done].
    apply awp_bind, awp_with_err, keeps_use; [auto 1 with keeps nocore|]. intros [[]|e] l2; [|done].
    apply awp_modify, good_insert; [done|]. apply good_add; [by apply Hvol|]. intros Hkub. by destruct (Hk Hkub).
  - unfold NodeUnpublishVolume, store. do 2 (apply awp_guard; [done|intros _]).
    apply awp_bind, awp_gets. destruct (s !! v) as [vol|] eqn:Hvol.
    + apply awp_bind, awp_modify, awp_with_err, keeps_use.
      { apply unpublishTarget_quiet. intros p. unfold Unpublish, cleanupMountPoint. keeps_auto. }
      intros r l1. apply good_insert; [done|]. by apply good_remove, Hs.
    + apply good_quiet; [|done]. apply keeps_bind; [|intros r; keeps_auto].
      apply keeps_try, unpublishTarget_quiet. intros p. unfold cleanupMountPoint. keeps_auto.
  - unfold NodeUnstageVolume. do 2 (apply awp_guard; [done|intros _]).
    apply awp_bind, awp_gets. destruct (s !! v) as [vol|].
    + apply awp_bind, awp_with_err, keeps_use; [auto 1 with keeps nocore|].
      intros [[]|e] l1; [|done]. by apply awp_modify, good_delete.
    + apply good_quiet; [|done]. unfold cleanupMountPoint. keeps_auto.
  - apply good_quiet; [auto 1 with keeps nocore|done].
Qed.

(** A volume found after a restart. *)
Lemma recovered_good l scanDir v vol : recovered d l scanDir v vol → good v vol.
Proof.
  intros (Hv & e & paths & _ & -> & Hps & _).
  assert (elem_ok "mount" ∧ elem_ok "globalmount") as [H1 H2]
    by (split; apply (bool_decide_unpack _); done).
  assert (Path.Base (Path.JoinPath [Path.JoinPath [Path.JoinPath [scanDir; Driver.name d]; e]; "globalmount"])
    = "globalmount") as Hbase by (by apply Base_JoinPath).
  split.
  - split; try done. cbn. intros Heq. by rewrite Heq in Hbase.
  - intros _. split; [exact Hbase|]. intros p [ro Hp]. destruct (Hps p ro Hp) as [_ (pod & w & -> & _)].
    by apply Base_JoinPath.
Qed.

Lemma perform_good a s l :
  all_good s → (kubelet → from_kubelet a) → keeps_good (perform a) s l.
Proof.
  intros Hs Hk. destruct a as [q|v p|v| |]; cbn [perform].
  - by apply handle_good.
  - apply good_quiet; [keeps_auto|done].
  - eapply awp_mono; [apply performVolumeHealthCheck_checked|]. intros r s' l'. by apply good_checked.
  - apply good_quiet; [auto 1 with keeps nocore|done].
  - apply awp_bind, awp_modify. unfold NewNodeServer. apply awp_bind. cbn beta.
    eapply awp_mono; [eapply wpp_weaken; [|apply (recoverStaged_spec d (StagingScanDir d) ∅ l)]; by intros|].
    intros r s1 l1 (-> & _ & Hrec & _). apply good_quiet; [auto 1 with keeps nocore|].
    intros v vol Hvol. destruct (Hrec v vol Hvol) as [H|[H _]]; [by apply (lookup_empty_Some (M := gmap string)) in H|].
    by eapply recovered_good.
Qed.

Lemma live_good host acts s l :
  all_good s → (kubelet → Forall from_kubelet acts) → all_good (live host acts s l).1.2.
Proof.
  revert s l. induction acts as [|a acts IH]; intros s l Hs Hk; cbn [live]; [done|].
  assert (kubelet → from_kubelet a) as Ha by (intros H; by apply Hk, Forall_cons in H as [? _]).
  pose proof (wpp_run _ host _ _ _ (perform_good a s l Hs Ha)) as Hs1.
  destruct (run host (perform a s) l) as [[r s1] l1]. cbn in Hs1.
  specialize (IH s1 l1 Hs1). destruct (live host acts s1 l1) as [[rs s2] l2]. apply IH.
  intros H. by apply Hk, Forall_cons in H as [_ ?].
Qed.
End invariant.

(** ** The lifecycles of the volumes *)

(** What an action does to the lifecycles: only requests move them. A restart
    forgets them and finds what kubelet's directories hold, where nothing says
    that a publish was read-only. *)
Definition effect (a : action) (ok : bool) (A A' : string → lifecycle) : Prop :=
  match a with
  | Request q =>
      promised q ok (A (volume_of q)) (A' (volume_of q)) ∧ ∀ v, v ≠ volume_of q → A' v = A v
  | Stats _ _ | Check _ | Sweep => ∀ v, A' v = A v
  | Restart => ∀ v m, A' v = Some m → v ≠ "" ∧ map_Forall (λ _ ro, ro = false) m
  end.

Inductive evolves : list (action * bool) → (string → lifecycle) → (string → lifecycle) → Prop :=
  | evolves_nil A : evolves [] A A
  | evolves_cons a ok rs A A' A'' : effect a ok A A' → evolves rs A' A'' → evolves ((a, ok) :: rs) A A''.

Lemma checked_abstract v s s' w : checked v s s' → abstract s' w = abstract s w.
Proof.
  intros [->|(vol & vol' & Hv & -> & Hp & _)]; [done|]. unfold abstract.
  destruct (decide (v = w)) as [<-|Hne]; [|by rewrite volumes_lookup_ne].
  rewrite volumes_lookup, Hv. cbn. by rewrite Hp.
Qed.

Lemma perform_effect a s l :
  volumes_ok s → twp (perform a) (λ r s' _, effect a (is_ok r) (abstract s) (abstract s')) s l.
Proof.
  intros Hs. destruct a as [q|v p|v| |]; cbn [perform effect].
  - eapply awp_mono; [eapply wpp_weaken; [|by apply (handle_spec d q s l)]; by intros|].
    intros r s' l' (Hp & Hframe & _). split; [done|]. intros v Hv. unfold abstract. by rewrite Hframe.
  - apply keeps_use; [keeps_auto|done].
  - eapply awp_mono; [apply performVolumeHealthCheck_checked|]. intros r s' l' Hc w.
    exact (checked_abstract v s s' w Hc).
  - apply keeps_use; [auto 1 with keeps nocore|done].
  - apply awp_bind, awp_modify. unfold NewNodeServer. apply awp_bind. cbn beta.
    eapply awp_mono; [eapply wpp_weaken; [|apply (recoverStaged_spec d (StagingScanDir d) ∅ l)]; by intros|].
    intros r s1 l1 (-> & _ & Hrec & _). apply keeps_use; [auto 1 with keeps nocore|].
    intros r l2 v m. unfold abstract. destruct (s1 !! v) as [vol|] eqn:Hvol; [|done]. intros [= <-].
    destruct (Hrec v vol Hvol) as [H|[H _]]; [by apply (lookup_empty_Some (M := gmap string)) in H|].
    destruct H as (Hv & e & paths & _ & -> & Hps & _). split; [done|]. intros p ro Hp. by destruct (Hps p ro Hp).
Qed.

Lemma live_evolves host acts s l :
  all_good False s →
  let '(rs, s', _) := live host acts s l in
  map fst rs = acts ∧ evolves rs (abstract s) (abstract s').
Proof.
  revert s l. induction acts as [|a acts IH]; intros s l Hs; cbn [live]; [by repeat constructor|].
  assert (volumes_ok s) as Hok by (intros v vol Hv; by destruct (Hs v vol Hv) as [[] _]).
  pose proof (wpp_run _ host _ _ _ (perform_effect a s l Hok)) as Heff.
  assert (all_good False (run host (perform a s) l).1.2) as Hs1.
  { apply (wpp_run _ host _ _ _ (perform_good False a s l Hs (λ H, False_ind _ H))). }
  destruct (run host (perform a s) l) as [[r s1] l1]. cbn in Heff, Hs1.
  specialize (IH s1 l1 Hs1). destruct (live host acts s1 l1) as [[rs s2] l2].
  destruct IH as [Hmap IH]. split; [cbn; by rewrite Hmap|]. by econstructor.
Qed.

(** ** Properties *)

(** C8. Whatever a plugin is asked, checks, sweeps and however often it restarts, on
    any host, every volume it tracks is filed under its own non-empty ID, has a
    staging path and the socket of its ID, counters in their ranges, and a
    context to mount it with again if the plugin mounted it. If kubelet names
    the paths in the requests, the staging path is never among the publish
    paths: the recovery of the volume keeps to its protocol. *)
Theorem node_state_wellformed (host : ∀ X, hostE X → log → X) (acts : list action) (l : log) :
  let '(_, s, _) := live host acts ∅ l in
  ∀ v vol, s !! v = Some vol →
    well_formed v vol ∧
    (Forall from_kubelet acts → publishPaths vol !! StagedPath vol = None).
Proof.
  assert (all_good (Forall from_kubelet acts) ∅) as H0 by done.
  pose proof (live_good _ host acts ∅ l H0 id) as Hs.
  destruct (live host acts ∅ l) as [[rs s] l']. intros v vol Hv. destruct (Hs v vol Hv) as [Hwf Hk].
  split; [done|]. intros Hkub. destruct (Hk Hkub) as [Hst Hps].
  destruct (publishPaths vol !! StagedPath vol) as [ro|] eqn:Hp; [|done].
  assert (is_Some (publishPaths vol !! StagedPath vol)) as H%Hps by (by rewrite Hp). congruence.
Qed.

(** C7. In the same lives, the lifecycles of the volumes are moved by requests
    only, as [promised] says: a health check, including the recovery it may
    start and whether that succeeds or not, leaves every volume staged with the
    publish targets and access modes it has, and so do sweeps and statistics. A
    restart is the one exception: the access modes of publishes are forgotten
    with the plugin's memory, and all are taken to be writable. *)
Theorem plugin_refines_lifecycle (host : ∀ X, hostE X → log → X) (acts : list action) (l : log) :
  let '(rs, s, _) := live host acts ∅ l in
  map fst rs = acts ∧ evolves rs (λ _, None) (abstract s).
Proof.
  assert (all_good False ∅) as H0 by done. exact (live_evolves host acts ∅ l H0).
Qed.
End life.

(** ** An example *)

(** The host of [demo_start], with mounts that answer health probes until the
    log has [n] entries. *)
Definition dies_after (n : nat) (X : Type) (e : hostE X) : log → X :=
  match e in hostE Y return log → Y with
  | AwaitHealth _ => λ l, Some (if (length l <? n)%nat then healthOK else healthDead)
  | e => demo_start _ e
  end.

Definition demo_staging : string := "/k/plugins/kubernetes.io/csi/seaweedfs-csi-driver/h1/globalmount".
Definition demo_target : string := "/k/pods/uid-1/volumes/kubernetes.io~csi/pvc-1/mount".
Definition demo_cap : option VolumeCapability := Some {| AccessMode_ := None |}.

(** Staged and published read-only; then the mount dies and the third check
    recovers it; then the plugin restarts. *)
Definition demo_acts : list action := [
  Request (RStage {| s_volume := "/buckets/pvc-1"; s_path := demo_staging; s_cap := demo_cap; s_context := None |});
  Request (RPublish {| p_volume := "/buckets/pvc-1"; p_target := demo_target; p_staging := demo_staging;
                       p_cap := demo_cap; p_context := None; p_readonly := true |});
  Check "/buckets/pvc-1"; Check "/buckets/pvc-1"; Check "/buckets/pvc-1"; Sweep; Restart].

Definition demo_life (acts : list action) : list (action * bool) * Volumes * log :=
  live (MU := demo_utils) (MR := range_sorted) (PR := demo_paths) (VR := demo_range) start_driver 0
    (dies_after 12) acts ∅ [].
Definition shows (v : Volume) : string * bool * Z * list (string * bool) :=
  (StagedPath v, unmounter v, healthFailCount v, map_to_list (publishPaths v)).

Definition ended (acts : list action) : list bool * list (string * bool * Z * list (string * bool)) :=
  let '(rs, s, _) := demo_life acts in (map snd rs, map (λ kv, shows kv.2) (map_to_list s)).

Lemma node_state_wellformed_witness :
  ended (take 4 demo_acts) = ([true; true; true; true], [(demo_staging, true, 2%Z, [(demo_target, true)])]) ∧
  ended (take 6 demo_acts) = (repeat true 6, [(demo_staging, true, 0%Z, [(demo_target, true)])]) ∧
  ended demo_acts = (repeat true 7, [(demo_staging, false, 0%Z, [(demo_target, false)])]) ∧
  Forall from_kubelet demo_acts ∧
  (let '(_, s, _) := demo_life demo_acts in
   ∀ v vol, s !! v = Some vol → well_formed start_driver v vol ∧
     (Forall from_kubelet demo_acts → publishPaths vol !! StagedPath vol = None)).
Proof.
  split; [vm_compute; reflexivity|]. split; [vm_compute; reflexivity|]. split; [vm_compute; reflexivity|].
  split.
  - repeat constructor; vm_compute; reflexivity.
  - exact (node_state_wellformed (MU := demo_utils) (MR := range_sorted) (PR := demo_paths)
      (VR := demo_range) start_driver 0 (dies_after 12) demo_acts []).
Defined.
