(* ===== verification/Locked.v ===== *)
(** * Tasks under a key mutex that forgets

    The driver's [KeyMutex] of [pkg/driver/utils.go] around the tasks of [Serial]: a
    goroutine looks the mutex of its key up, locks it, runs its task, may take the mutex
    out of the map, and unlocks. As [KeyMutex] shows, exclusion is lost when a mutex is
    taken out of the map while another goroutine waits for it; the state records whether
    that has happened. Here: it is lost in no other way. *)

From S2P Require Import Prelude GoLib Params Driver MountArgs Host Serial KeyMutex.
#[local] Open Scope go_scope.

Section locked.
Context {V A T : Type} (key : T → string) (code : T → act (gmap string V) A).
#[local] Abbreviation pool := (pool (V := V) (A := A) (T := T)).

Record lstate := LState {
  keys : kstate;
  wants : gmap nat T;          (** the task of each goroutine *)
  cleared : gset nat;          (** the goroutines that have called [RemoveMutex] *)
  contended : bool;            (** one called it while another waited for the mutex *)
  work : pool;                 (** the tasks that run *)
}.

Definition linit (s : gmap string V) : lstate := LState kinit ∅ ∅ false (start s).

(** A goroutine waits for a mutex that is or was the one of [k]. *)
Definition waits (k : string) (g : goroutine) : bool :=
  match g with Waiting k' _ => String.eqb k k' | Critical _ _ => false end.
Definition awaited (s : kstate) (k : string) : bool :=
  existsb (waits k) (map_to_list (threads s)).*2.

Lemma awaited_false s k t m : awaited s k = false → threads s !! t ≠ Some (Waiting k m).
Proof.
  intros Hex H. assert (awaited s k = true); [|congruence].
  apply existsb_exists. exists (Waiting k m). split; [|by apply String.eqb_refl].
  apply list_elem_of_In, list_elem_of_fmap. exists (t, Waiting k m). split; [done|]. by apply elem_of_map_to_list.
Qed.

(** Where a goroutine is in its critical section, its task runs and ends, then comes
    the removal, at most one, and the unlock. *)
Inductive lstep : lstate → lstate → Prop :=
  | l_get s t c k' :
      kstep (keys s) (Get t (key c)) = Some k' →
      lstep s (LState k' (<[t := c]> (wants s)) (cleared s ∖ {[t]}) (contended s) (work s))
  | l_lock s t c k' :
      wants s !! t = Some c → kstep (keys s) (Lock t) = Some k' → tasks (work s) !! t = None →
      lstep s (LState k' (wants s) (cleared s) (contended s) (with_task (work s) t (Running c (code c) [])))
  | l_run s w :
      pool_step key code (work s) w → dom (tasks w) ⊆ dom (tasks (work s)) →
      lstep s (LState (keys s) (wants s) (cleared s) (contended s) w)
  | l_remove s t k m k' :
      threads (keys s) !! t = Some (Critical k m) → tasks (work s) !! t = None → t ∉ cleared s →
      kstep (keys s) (Remove t) = Some k' →
      lstep s (LState k' (wants s) ({[t]} ∪ cleared s) (contended s || awaited (keys s) k) (work s))
  | l_unlock s t k' :
      kstep (keys s) (Unlock t) = Some k' → tasks (work s) !! t = None →
      lstep s (LState k' (wants s) (cleared s) (contended s) (work s)).

(** ** The invariants *)

(** Of every run: the goroutines have tasks, and a task runs in a critical section. *)
Record TInv (s : lstate) : Prop := {
  t_wants t g : threads (keys s) !! t = Some g → ∃ c, wants s !! t = Some c ∧ key c = key_of g;
  t_tasks t r : tasks (work s) !! t = Some r →
    ∃ m, threads (keys s) !! t = Some (Critical (key (r_task r)) m);
}.

(** Of those that removed no mutex others waited for: it excludes. *)
Record LInv (s0 : gmap string V) (s : lstate) : Prop := {
  l_wants t g : threads (keys s) !! t = Some g → ∃ c, wants s !! t = Some c ∧ key c = key_of g;
  l_waiting t k m : threads (keys s) !! t = Some (Waiting k m) →
    t ∉ cleared s ∧ mutexes (keys s) !! k = Some m;
  l_critical t k m : threads (keys s) !! t = Some (Critical k m) →
    m ∈ locked (keys s) ∧ (t ∉ cleared s → mutexes (keys s) !! k = Some m);
  l_unique t1 t2 k1 k2 m : threads (keys s) !! t1 = Some (Critical k1 m) →
    threads (keys s) !! t2 = Some (Critical k2 m) → t1 = t2;
  l_fresh m : (∃ k, mutexes (keys s) !! k = Some m) ∨ m ∈ locked (keys s) → m < fresh (keys s);
  l_tasks t r : tasks (work s) !! t = Some r → t ∉ cleared s ∧
    ∃ m, threads (keys s) !! t = Some (Critical (key (r_task r)) m);
  l_pool : rtc (pool_step key code) (start s0) (work s);
}.

Lemma linit_inv s0 : LInv s0 (linit s0).
Proof.
  split; cbn; try (intros *; rewrite lookup_empty; done); [|done].
  intros m [[k H]|H]; [by rewrite lookup_empty in H|set_solver].
Qed.

(** The cases of an updated table. *)
Ltac cases :=
  repeat match goal with
  | H : <[_ := _]> _ !! _ = Some _ |- _ => apply lookup_insert_Some in H as [[? H]|[? H]]
  | H : delete _ _ !! _ = Some _ |- _ => apply lookup_delete_Some in H as [? H]
  | H : Waiting _ _ = _ |- _ => simplify_eq
  | H : Critical _ _ = _ |- _ => simplify_eq
  end.

Lemma get_inv s0 s t c k' :
  LInv s0 s → kstep (keys s) (Get t (key c)) = Some k' →
  LInv s0 (LState k' (<[t := c]> (wants s)) (cleared s ∖ {[t]}) (contended s) (work s)).
Proof.
  intros [Hwants Hwait Hcrit Huniq Hfresh Htasks Hpool]. cbn. destruct (threads (keys s) !! t) eqn:Ht; [done|].
  assert (∀ t' r, tasks (work s) !! t' = Some r → t' ≠ t) as Hne.
  { intros t' r Hr ->. destruct (Htasks t r Hr) as (_ & m & H). congruence. }
  unfold GetMutex. destruct (mutexes (keys s) !! key c) as [m0|] eqn:Hm; intros [= <-]; split; cbn.
  - intros t' g H. destruct (decide (t' = t)) as [->|Hn].
    + rewrite lookup_insert_eq in H. injection H as <-. exists c. by rewrite lookup_insert_eq.
    + rewrite lookup_insert_ne in H by done. rewrite lookup_insert_ne by done. by apply Hwants.
  - intros t' k m H. cases; [set_solver|]. destruct (Hwait _ _ _ H). set_solver.
  - intros t' k m H. cases. destruct (Hcrit _ _ _ H). split; [done|]. set_solver.
  - intros t1 t2 k1 k2 m H1 H2. cases. by eapply Huniq.
  - done.
  - intros t' r Hr. destruct (Htasks t' r Hr) as (? & m & ?). split; [set_solver|]. exists m.
    rewrite lookup_insert_ne; [done|]. intros <-. by apply (Hne t r).
  - done.
  - intros t' g H. destruct (decide (t' = t)) as [->|Hn].
    + rewrite lookup_insert_eq in H. injection H as <-. exists c. by rewrite lookup_insert_eq.
    + rewrite lookup_insert_ne in H by done. rewrite lookup_insert_ne by done. by apply Hwants.
  - intros t' k m H. cases; [split; [set_solver|by rewrite lookup_insert_eq]|].
    destruct (Hwait _ _ _ H). split; [set_solver|]. rewrite lookup_insert_ne; [done|]. congruence.
  - intros t' k m H. cases. destruct (Hcrit _ _ _ H) as [? Hc]. split; [done|]. intros Hn.
    assert (mutexes (keys s) !! k = Some m) by (apply Hc; set_solver). rewrite lookup_insert_ne; [done|]. congruence.
  - intros t1 t2 k1 k2 m H1 H2. cases. by eapply Huniq.
  - intros m [[k H]|H].
    + cases; [subst; lia|]. assert (m < fresh (keys s)); [|lia]. apply Hfresh. left. eauto.
    + assert (m < fresh (keys s)); [|lia]. apply Hfresh. by right.
  - intros t' r Hr. destruct (Htasks t' r Hr) as (? & m & ?). split; [set_solver|]. exists m.
    rewrite lookup_insert_ne; [done|]. intros <-. by apply (Hne t r).
  - done.
Qed.

(** A goroutine that takes the lock of a key finds no task of the key at work. *)
Lemma lock_exclusive s0 s t k m :
  LInv s0 s → threads (keys s) !! t = Some (Waiting k m) → m ∉ locked (keys s) → ¬ busy key (work s) k.
Proof.
  intros [Hwants Hwait Hcrit Huniq Hfresh Htasks Hpool] Ht Hm (t' & r & Hr & <-).
  destruct (Htasks t' r Hr) as (Hc & m' & Ht'). destruct (Hcrit _ _ _ Ht') as [Hl Htab].
  destruct (Hwait _ _ _ Ht) as [_ Htab']. rewrite (Htab Hc) in Htab'. by injection Htab' as ->.
Qed.

Lemma lock_inv s0 s t c k' :
  LInv s0 s → wants s !! t = Some c → kstep (keys s) (Lock t) = Some k' → tasks (work s) !! t = None →
  LInv s0 (LState k' (wants s) (cleared s) (contended s) (with_task (work s) t (Running c (code c) []))).
Proof.
  intros Hinv Hc. cbn. destruct (threads (keys s) !! t) as [[k m0|]|] eqn:Ht; [|done..].
  case_bool_decide as Hm; [done|]. intros [= <-] Hnone.
  pose proof (lock_exclusive s0 s t k m0 Hinv Ht Hm) as Hbusy.
  destruct Hinv as [Hwants Hwait Hcrit Huniq Hfresh Htasks Hpool].
  destruct (Hwants t _ Ht) as (c' & Hc' & Hk). rewrite Hc in Hc'. injection Hc' as <-. cbn in Hk. subst k.
  destruct (Hwait _ _ _ Ht) as [Hcl Htab]. split; cbn.
  - intros t' g H. cases; [subst; by exists c|by apply Hwants].
  - intros t' k m H. cases. by apply Hwait in H.
  - intros t' k m H. cases; [split; [set_solver|done]|]. destruct (Hcrit _ _ _ H). split; [set_solver|done].
  - intros t1 t2 k1 k2 m H1 H2. cases; try done; try (by eapply Huniq);
      match goal with H : threads _ !! _ = Some (Critical _ _) |- _ => by apply Hcrit in H as [? _] end.
  - intros m [H|H]; [by apply Hfresh; left|]. apply Hfresh.
    apply elem_of_union in H as [->%elem_of_singleton|H]; [left; eauto|by right].
  - intros t' r H. cases; [subst; split; [done|]; exists m0; by rewrite lookup_insert_eq|].
    destruct (Htasks _ _ H) as (? & m & ?). split; [done|]. exists m. by rewrite lookup_insert_ne.
  - eapply rtc_r; [exact Hpool|]. by constructor.
Qed.

Lemma remove_inv s0 s t k m k' b :
  LInv s0 s → threads (keys s) !! t = Some (Critical k m) → tasks (work s) !! t = None → t ∉ cleared s →
  awaited (keys s) k = false → kstep (keys s) (Remove t) = Some k' →
  LInv s0 (LState k' (wants s) ({[t]} ∪ cleared s) b (work s)).
Proof.
  intros [Hwants Hwait Hcrit Huniq Hfresh Htasks Hpool] Ht Hnone Hcl Hun. cbn. rewrite Ht. intros [= <-].
  split; unfold RemoveMutex; cbn.
  - done.
  - intros t' k1 m1 H. destruct (Hwait _ _ _ H) as [? Htab].
    assert (k ≠ k1) by (intros ->; by apply (awaited_false _ _ t' m1 Hun)).
    split; [intros [->%elem_of_singleton|?]%elem_of_union; [congruence|done]|by rewrite lookup_delete_ne].
  - intros t' k1 m1 H. destruct (Hcrit _ _ _ H) as [? Htab]. split; [done|]. intros Hn.
    rewrite lookup_delete_ne; [apply Htab; set_solver|]. intros ->.
    assert (t' ≠ t) as Hne by set_solver. apply Hne. destruct (Hcrit _ _ _ Ht) as [_ Htab'].
    assert (m1 = m) as -> by (rewrite Htab in Htab' by set_solver; by injection (Htab' Hcl)).
    by eapply Huniq.
  - done.
  - intros m1 [[k1 H]|H]; apply Hfresh; [|by right]. cases. left. eauto.
  - intros t' r Hr. destruct (Htasks t' r Hr) as [? H]. split; [|done].
    intros [->%elem_of_singleton|?]%elem_of_union; [congruence|done].
  - done.
Qed.

Lemma unlock_inv s0 s t k' :
  LInv s0 s → kstep (keys s) (Unlock t) = Some k' → tasks (work s) !! t = None →
  LInv s0 (LState k' (wants s) (cleared s) (contended s) (work s)).
Proof.
  intros [Hwants Hwait Hcrit Huniq Hfresh Htasks Hpool]. cbn.
  destruct (threads (keys s) !! t) as [[|k m]|] eqn:Ht; [done| |done]. intros [= <-] Hnone. split; cbn.
  - intros t' g H. cases. by apply Hwants.
  - intros t' k1 m1 H. cases. by apply Hwait in H.
  - intros t' k1 m1 H. cases. destruct (Hcrit _ _ _ H) as [? ?]. split; [|done].
    apply elem_of_difference. split; [done|]. intros ->%elem_of_singleton. by apply H0; eapply Huniq.
  - intros t1 t2 k1 k2 m1 H1 H2. cases. by eapply Huniq.
  - intros m1 [H|H]; apply Hfresh; [by left|right; set_solver].
  - intros t' r Hr. destruct (Htasks t' r Hr) as (? & m1 & ?). split; [done|]. exists m1.
    rewrite lookup_delete_ne; [done|]. congruence.
  - done.
Qed.

Lemma lstep_tasks s s' : TInv s → lstep s s' → TInv s'.
Proof.
  intros [Hwants Htasks] Hs.
  destruct Hs as [s t c k' Hk|s t c k' Hc Hk Hn|s w Hw Hd|s t k m k' Ht Hn Hc Hk|s t k' Hk Hn]; try cbn in Hk.
  - destruct (threads (keys s) !! t) eqn:Ht; [done|].
    destruct (GetMutex (keys s) (key c)) as [m k1] eqn:Hm. injection Hk as <-.
    assert (threads k1 = threads (keys s)) as E.
    { unfold GetMutex in Hm. by destruct (mutexes (keys s) !! key c); injection Hm as <- <-. }
    split; cbn; rewrite E.
    + intros t' g H. destruct (decide (t' = t)) as [->|Hn].
      * rewrite lookup_insert_eq in H. injection H as <-. exists c. by rewrite lookup_insert_eq.
      * rewrite lookup_insert_ne in H by done. rewrite lookup_insert_ne by done. by apply Hwants.
    + intros t' r Hr. destruct (Htasks t' r Hr) as (m' & H). exists m'. rewrite lookup_insert_ne; [done|congruence].
  - destruct (threads (keys s) !! t) as [[k m0|]|] eqn:Ht; [|done..]. case_bool_decide; [done|]. injection Hk as <-.
    destruct (Hwants t _ Ht) as (c' & Hc' & Hkey). rewrite Hc in Hc'. injection Hc' as <-. cbn in Hkey. subst k.
    split; cbn.
    + intros t' g H'. cases; [subst; by exists c|by apply Hwants].
    + intros t' r H'. cases; [subst; exists m0; by rewrite lookup_insert_eq|].
      destruct (Htasks _ _ H') as (m & ?). exists m. by rewrite lookup_insert_ne.
  - split; cbn; [done|]. intros t r Hr.
    destruct (pool_step_task key code _ _ t r Hw Hd Hr) as (r' & Hr' & <-). by apply Htasks.
  - rewrite Ht in Hk. injection Hk as <-. by split.
  - destruct (threads (keys s) !! t) as [[|k m]|] eqn:Ht; [done| |done]. injection Hk as <-. split; cbn.
    + intros t' g H. cases. by apply Hwants.
    + intros t' r Hr. destruct (Htasks t' r Hr) as (m' & ?). exists m'. rewrite lookup_delete_ne; [done|congruence].
Qed.

(** Once contended, always. *)
Lemma lstep_contended s s' : lstep s s' → contended s' = false → contended s = false.
Proof. intros Hs. destruct Hs; cbn; try done. by intros [? _]%orb_false_iff. Qed.

Lemma lstep_inv s0 s s' : LInv s0 s → lstep s s' → contended s' = false → LInv s0 s'.
Proof.
  intros Hinv Hs. destruct Hs as [s t c k' Hk|s t c k' Hc Hk Hn|s w Hw Hd|s t k m k' Ht Hn Hc Hk|s t k' Hk Hn]; intros Hcon.
  - by apply get_inv.
  - by apply lock_inv.
  - destruct Hinv as [Hwants Hwait Hcrit Huniq Hfresh Htasks Hpool]. split; cbn; try done.
    + intros t r Hr. destruct (pool_step_task key code _ _ t r Hw Hd Hr) as (r' & Hr' & <-). by apply Htasks.
    + by eapply rtc_r.
  - cbn in Hcon. apply orb_false_iff in Hcon as [_ Hun]. by eapply remove_inv.
  - by eapply unlock_inv.
Qed.

(** Without a goroutine that begins, those that are there keep their tasks. *)
Lemma lstep_wants s s' :
  lstep s s' → dom (threads (keys s')) ⊆ dom (threads (keys s)) → wants s' = wants s.
Proof.
  intros Hs Hd. destruct Hs as [s t c k' Hk| | | |]; try done. exfalso. cbn in Hk, Hd.
  destruct (threads (keys s) !! t) eqn:Ht; [done|]. destruct (GetMutex (keys s) (key c)) as [m k1] eqn:Hm.
  injection Hk as <-. assert (t ∈ dom (threads (keys s))) as H by (apply Hd; cbn; set_solver).
  by apply not_elem_of_dom in Ht.
Qed.

(** Nothing happens before a goroutine begins. *)
Lemma linit_idle s0 s : lstep (linit s0) s → ¬ dom (threads (keys s)) ⊆ ∅.
Proof.
  intros Hs Hd. remember (linit s0) as s1 eqn:E.
  destruct Hs as [s t c k' Hk|s t c k' Hc Hk Hn|s w Hp Hw|s t k m k' Ht|s t k' Hk Hn]; subst s; cbn in *; try done.
  - injection Hk as <-. cbn in Hd. set_solver.
  - apply start_step in Hp as (i & c & ->). cbn in Hw. set_solver.
Qed.

(** A task that runs is that of a goroutine with the lock. *)
Lemma locked_tasks s0 s : rtc lstep (linit s0) s → TInv s.
Proof.
  revert s. apply rtc_ind_r; [by split; cbn; intros *; rewrite lookup_empty|].
  intros s1 s2 _ Hs Hinv. by eapply lstep_tasks.
Qed.

Lemma locked_inv s0 s : rtc lstep (linit s0) s → contended s = false → LInv s0 s.
Proof.
  revert s. apply (rtc_ind_r (λ s, contended s = false → LInv s0 s)); [by intros _; apply linit_inv|].
  intros s1 s2 _ Hs Hinv Hcon. eapply lstep_inv; [|exact Hs|done]. apply Hinv. by eapply lstep_contended.
Qed.

(** The tasks run as in a pool whose locks exclude. *)
Lemma locked_pool s0 s :
  rtc lstep (linit s0) s → contended s = false → rtc (pool_step key code) (start s0) (work s).
Proof. intros Hr Hcon. apply (l_pool s0 s). by apply locked_inv. Qed.

(** ** An executable scheduler *)
Inductive llabel := DoGet (t : nat) (c : T) | DoLock (t : nat) | DoRun (t : nat) | DoRemove (t : nat) | DoUnlock (t : nat).

Definition idle (s : lstate) (t : nat) : bool := match tasks (work s) !! t with None => true | Some _ => false end.

(** A step that is not enabled does nothing. *)
Definition lexec (host : ∀ X, hostE X → log → X) (s : lstate) (l : llabel) : lstate :=
  match l with
  | DoGet t c =>
      match kstep (keys s) (Get t (key c)) with
      | Some k' => LState k' (<[t := c]> (wants s)) (cleared s ∖ {[t]}) (contended s) (work s)
      | None => s
      end
  | DoLock t =>
      match wants s !! t, kstep (keys s) (Lock t), idle s t with
      | Some c, Some k', true => LState k' (wants s) (cleared s) (contended s) (with_task (work s) t (Running c (code c) []))
      | _, _, _ => s
      end
  | DoRun t => LState (keys s) (wants s) (cleared s) (contended s) (advance host (work s) t)
  | DoRemove t =>
      match threads (keys s) !! t, kstep (keys s) (Remove t), idle s t with
      | Some (Critical k _), Some k', true =>
          if bool_decide (t ∉ cleared s)
          then LState k' (wants s) ({[t]} ∪ cleared s) (contended s || awaited (keys s) k) (work s) else s
      | _, _, _ => s
      end
  | DoUnlock t =>
      match kstep (keys s) (Unlock t), idle s t with
      | Some k', true => LState k' (wants s) (cleared s) (contended s) (work s)
      | _, _ => s
      end
  end.

Lemma idle_None s t : idle s t = true → tasks (work s) !! t = None.
Proof. unfold idle. by destruct (tasks (work s) !! t). Qed.

Lemma lexec_step host s l : lexec host s l = s ∨ lstep s (lexec host s l).
Proof.
  destruct l as [t c|t|t|t|t]; cbn [lexec].
  - destruct (kstep (keys s) (Get t (key c))) eqn:Hk; [|by left]. right. by apply l_get.
  - destruct (wants s !! t) eqn:Hw; [|by left]. destruct (kstep (keys s) (Lock t)) eqn:Hk; [|by left].
    destruct (idle s t) eqn:Hi; [|by left]. apply idle_None in Hi. right. by apply l_lock.
  - destruct (advance_step key code host (work s) t) as [->|[Hs Hd]]; [left; by destruct s|]. right. by apply l_run.
  - destruct (threads (keys s) !! t) as [[|k m]|] eqn:Ht; [by left| |by left]. destruct (kstep (keys s) (Remove t)) eqn:Hk; [|by left].
    destruct (idle s t) eqn:Hi; [|by left]. apply idle_None in Hi.
    case_bool_decide as Hc; [|by left]. right. by eapply l_remove.
  - destruct (kstep (keys s) (Unlock t)) eqn:Hk; [|by left]. destruct (idle s t) eqn:Hi; [|by left].
    apply idle_None in Hi. right. by eapply l_unlock.
Qed.

Lemma lexec_steps host s l : rtc lstep s (lexec host s l).
Proof. destruct (lexec_step host s l) as [->|H]; [done|by apply rtc_once]. Qed.

Lemma lexec_dom host s l :
  (∀ t c, l ≠ DoGet t c) → dom (threads (keys (lexec host s l))) ⊆ dom (threads (keys s)).
Proof.
  intros Hl. destruct l as [t c|t|t|t|t]; cbn [lexec]; [by destruct (Hl t c)| |done|..].
  - destruct (wants s !! t); [|done]. cbn. destruct (threads (keys s) !! t) as [[k m|]|] eqn:Ht; try done.
    destruct (bool_decide _); [done|]. destruct (idle s t); [|done]. cbn. apply elem_of_dom_2 in Ht. set_solver.
  - cbn. destruct (threads (keys s) !! t) as [[k m|]|] eqn:Ht; try done.
    destruct (idle s t); [|done]. by destruct (bool_decide _).
  - cbn. destruct (threads (keys s) !! t) as [[k m|]|] eqn:Ht; try done.
    destruct (idle s t); [|done]. cbn. set_solver.
Qed.

Lemma lexecs_steps host s ls : rtc lstep s (foldl (lexec host) s ls).
Proof.
  revert s. induction ls as [|l ls IH]; intros s; [done|]. etrans; [apply lexec_steps|apply IH].
Qed.
End locked.
