(* ===== verification/Simulation.v ===== *)
(** * Actions that do not depend on a part of the state

    Two actions are similar if they issue the same events with the same answers and end
    alike, from states that differ only in what a relation leaves open. A pool of tasks
    whose actions are similar to themselves behaves the same whatever happens meanwhile to
    that part of the state. *)

From S2P Require Import Prelude GoLib Params Driver MountArgs Host Serial KeyMutex Locked.
#[local] Open Scope go_scope.

(** Results with related values and equal errors. *)
Definition rrel {A B} (R : A → B → Prop) (r : result A) (r' : result B) : Prop :=
  match r, r' with
  | Ok a, Ok b => R a b
  | Err e, Err e' => e = e'
  | _, _ => False
  end.

Lemma rrel_eq {A} (r r' : result A) : rrel eq r r' → r = r'.
Proof. by destruct r, r'; cbn; intros H; subst. Qed.

Section sim.
Context {S : Type} (Rs : S → S → Prop).

Fixpoint sim {A B} (R : A → B → Prop) (m : act S A) : act S B → Prop :=
  match m with
  | Done r => λ m', ∃ r', m' = Done r' ∧ rrel R r r'
  | Event e k => λ m', ∃ k', m' = Event e k' ∧ ∀ x, sim R (k x) (k' x)
  | Read f k => λ m', ∃ Y (f' : S → Y) k', m' = Read f' k' ∧
      ∀ s s', Rs s s' → sim R (k (f s)) (k' (f' s'))
  | Update f m => λ m', ∃ f' m1, m' = Update f' m1 ∧ (∀ s s', Rs s s' → Rs (f s) (f' s')) ∧ sim R m m1
  end.

Lemma sim_ret {A B} (R : A → B → Prop) a b : R a b → sim R (aret a) (aret b).
Proof. intros H. by eexists. Qed.

Lemma sim_bind {A B A' B'} (R : A → B → Prop) (Q : A' → B' → Prop) m m' k k' :
  sim R m m' → (∀ a b, R a b → sim Q (k a) (k' b)) → sim Q (abind m k) (abind m' k').
Proof.
  intros Hm Hk. revert m' Hm. induction m as [[a|e]|X e k0 IH|X f k0 IH|f m IH]; cbn; intros m'.
  - intros ([b|] & -> & Hr); [by apply Hk|done].
  - intros ([b|e'] & -> & Hr); [done|]. cbn in Hr. subst e'. by exists (Err e).
  - intros (k1 & -> & Hx). eexists. split; [done|]. intros x. by apply IH.
  - intros (Y & f' & k1 & -> & Hx). eexists _, _, _. split; [done|]. intros s s' Hs. by apply IH, Hx.
  - intros (f' & m1 & -> & Hf & Hm). eexists _, _. split; [done|]. split; [done|]. by apply IH.
Qed.

Lemma sim_outcome {A B A' B'} (R : A → B → Prop) (Q : A' → B' → Prop) f f' m m' :
  (∀ r r', rrel R r r' → rrel Q (f r) (f' r')) → sim R m m' → sim Q (aoutcome f m) (aoutcome f' m').
Proof.
  intros Hf Hm. revert m' Hm. induction m as [r|X e k IH|X g k IH|g m IH]; cbn; intros m'.
  - intros (r' & -> & Hr). eexists. split; [done|]. by apply Hf.
  - intros (k1 & -> & Hx). eexists. split; [done|]. intros x. by apply IH.
  - intros (Y & g' & k1 & -> & Hx). eexists _, _, _. split; [done|]. intros s s' Hs. by apply IH, Hx.
  - intros (g' & m1 & -> & Hg & Hm). eexists _, _. split; [done|]. split; [done|]. by apply IH.
Qed.

Lemma sim_try {A B} (R : A → B → Prop) m m' : sim R m m' → sim (rrel R) (atry m) (atry m').
Proof. by apply sim_outcome. Qed.

Lemma sim_with_err {A B} (R : A → B → Prop) f m m' : sim R m m' → sim R (awith_err f m) (awith_err f m').
Proof. apply sim_outcome. intros [a|e] [b|e']; cbn; try done. by intros ->. Qed.

Lemma sim_gets {A B} (R : A → B → Prop) f f' :
  (∀ s s', Rs s s' → R (f s) (f' s')) → sim R (agets f) (agets f').
Proof. intros Hf. eexists _, _, _. split; [done|]. intros s s' Hs. apply sim_ret. auto. Qed.

Lemma sim_modify f f' : (∀ s s', Rs s s' → Rs (f s) (f' s')) → sim eq (amodify f) (amodify f').
Proof. intros Hf. eexists _, _. split; [done|]. split; [done|]. by apply sim_ret. Qed.

Lemma sim_mono {A B} (R R' : A → B → Prop) m m' :
  (∀ a b, R a b → R' a b) → sim R m m' → sim R' m m'.
Proof.
  intros HR. revert m'. induction m as [r|X e k IH|X g k IH|g m IH]; cbn; intros m'.
  - intros (r' & -> & Hr). eexists. split; [done|]. destruct r, r'; cbn in *; auto.
  - intros (k1 & -> & Hx). eexists. split; [done|]. auto.
  - intros (Y & g' & k1 & -> & Hx). eexists _, _, _. split; [done|]. auto.
  - intros (g' & m1 & -> & Hg & Hm). eexists _, _. split; [done|]. auto.
Qed.
End sim.

(** An action that does not look at the state at all: local to every key. *)
Section untouched.
Context {V : Type} (Rs : gmap string V → gmap string V → Prop).
Context (Rs_ext : ∀ s1 s2 s1' s2', Rs s1 s2 → (∀ u, s1' !! u = s1 !! u) → (∀ u, s2' !! u = s2 !! u) → Rs s1' s2').

Lemma sim_untouched {A} (m : act (gmap string V) A) : (∀ v, local v m) → sim Rs eq m m.
Proof.
  induction m as [r|X e k IH|X f k IH|f m IH]; cbn; intros Hm.
  - exists r. split; [done|]. by destruct r.
  - eexists. split; [done|]. intros x. apply IH. intros v. apply Hm.
  - eexists _, _, _. split; [done|]. intros s s' _.
    rewrite (untouched_read f s' s); [apply IH; intros v; by apply Hm|]. intros v. apply Hm.
  - eexists _, _. split; [done|]. split; [|apply IH; intros v; by apply Hm].
    assert (∀ s u, f s !! u = s !! u) as Hf.
    { intros s u. destruct (Hm (u +:+ "0")) as [[g Hg] _]. rewrite Hg. apply lookup_partial_alter_ne.
      intros Hu%(f_equal String.length). rewrite length_sapp in Hu. cbn in Hu. lia. }
    intros s s' Hs. eapply Rs_ext; [exact Hs|..]; auto.
Qed.
End untouched.

(** ** Pools *)
Section pools.
Context {V T : Type} (key : T → string) (code : T → act (gmap string V) unit).
Context (Rs : gmap string V → gmap string V → Prop).
Context (code_sim : ∀ c, sim Rs eq (code c) (code c)).
#[local] Abbreviation pool := (pool (V := V) (A := unit) (T := T)).
#[local] Abbreviation running := (running (V := V) (A := unit) (T := T)).

Definition alike (r r' : running) : Prop :=
  r_task r = r_task r' ∧ r_trace r = r_trace r' ∧ sim Rs eq (r_left r) (r_left r').

(** The same tasks at the same points, and the same answers. *)
Record psim (p q : pool) : Prop := {
  ps_shared : Rs (shared p) (shared q);
  ps_tasks i : option_Forall2 alike (tasks p !! i) (tasks q !! i);
  ps_released : released p = released q;
}.

Lemma psim_some p q i r : psim p q → tasks p !! i = Some r → ∃ r', tasks q !! i = Some r' ∧ alike r r'.
Proof. intros H Hi. pose proof (ps_tasks _ _ H i) as Ho. rewrite Hi in Ho. inversion Ho. eauto. Qed.

Lemma psim_none p q i : psim p q → tasks p !! i = None → tasks q !! i = None.
Proof. intros H Hi. pose proof (ps_tasks _ _ H i) as Ho. rewrite Hi in Ho. by inversion Ho. Qed.

Lemma psim_none' p q i : psim p q → tasks q !! i = None → tasks p !! i = None.
Proof. intros H Hi. pose proof (ps_tasks _ _ H i) as Ho. rewrite Hi in Ho. by inversion Ho. Qed.

Lemma psim_dom p q : psim p q → dom (tasks p) = dom (tasks q).
Proof.
  intros H. apply set_eq. intros i. rewrite !elem_of_dom, <- !not_eq_None_Some.
  split; intros Hn Hi; apply Hn; [by eapply psim_none'|by eapply psim_none].
Qed.

Lemma psim_busy p q v : psim p q → busy key q v → busy key p v.
Proof.
  intros H (i & r & Hi & <-). destruct (tasks p !! i) as [r'|] eqn:Hp.
  - destruct (psim_some _ _ _ _ H Hp) as (r0 & Hr0 & Ht & _). simplify_eq. exists i, r'. by rewrite Ht.
  - apply (psim_none _ _ _ H) in Hp. congruence.
Qed.

Lemma psim_insert p q s s' i r r' fs fs' :
  psim p q → Rs s s' → alike r r' → fs = fs' →
  psim (Pool s (<[i := r]> (tasks p)) fs) (Pool s' (<[i := r']> (tasks q)) fs').
Proof.
  intros [_ Ht _] Hs Hr ->. split; cbn; [done| |done]. intros j. destruct (decide (i = j)) as [<-|Hne].
  - rewrite !lookup_insert_eq. by constructor.
  - rewrite !lookup_insert_ne by done. apply Ht.
Qed.

(** A step of one is a step of the other. *)
Lemma psim_step p q p' : psim p q → pool_step key code p p' → ∃ q', pool_step key code q q' ∧ psim p' q'.
Proof.
  intros H Hstep. pose proof H as [Hs Ht Hf].
  destruct Hstep as [p i c Hi Hc|p i c X e k x t Hi|p i c X f k t Hi|p i c f m t Hi|p i c r t Hi].
  - eexists. split; [constructor; [by eapply psim_none|by intros ?%(psim_busy _ _ _ H)]|].
    apply psim_insert; [done..| |done]. split; [done|]. split; [done|]. apply code_sim.
  - destruct (psim_some _ _ _ _ H Hi) as ([c' m' t'] & Hq & Hc & Htr & Hm). cbn in Hc, Htr, Hm. subst c' t'.
    destruct Hm as (k' & -> & Hk). eexists. split; [by eapply (p_event _ _ _ _ _ _ _ _ x)|].
    apply psim_insert; [done..| |done]. split_and!; [done..|]. apply Hk.
  - destruct (psim_some _ _ _ _ H Hi) as ([c' m' t'] & Hq & Hc & Htr & Hm). cbn in Hc, Htr, Hm. subst c' t'.
    destruct Hm as (Y & f' & k' & -> & Hk). eexists. split; [by eapply p_read|].
    apply psim_insert; [done..| |done]. split_and!; [done..|]. by apply Hk.
  - destruct (psim_some _ _ _ _ H Hi) as ([c' m' t'] & Hq & Hc & Htr & Hm). cbn in Hc, Htr, Hm. subst c' t'.
    destruct Hm as (f' & m1 & -> & Hg & Hm). eexists. split; [by eapply p_update|].
    apply psim_insert; [done|by apply Hg|by split_and!|done].
  - destruct (psim_some _ _ _ _ H Hi) as ([c' m' t'] & Hq & Hc & Htr & Hm). cbn in Hc, Htr, Hm. subst c' t'.
    destruct Hm as (r' & -> & Hr). apply rrel_eq in Hr as <-. eexists. split; [by eapply p_leave|].
    split; cbn; [done| |by rewrite Hf]. intros j. destruct (decide (i = j)) as [<-|Hne].
    + rewrite !lookup_delete_eq. constructor.
    + rewrite !lookup_delete_ne by done. apply Ht.
Qed.

(** ** Meanwhile, the rest of the state may change *)
#[local] Abbreviation locked_state := (lstate (V := V) (A := unit) (T := T)).

(** A step of the goroutines, or a change of what the relation leaves open. *)
Inductive dstep (s : locked_state) : locked_state → Prop :=
  | d_step s' : lstep key code s s' → dstep s s'
  | d_change σ : Rs (shared (work s)) σ →
      dstep s (LState (keys s) (wants s) (cleared s) (contended s) (Pool σ (tasks (work s)) (released (work s)))).

Context {Rs_equiv : Equivalence Rs}.

Definition lsim (s s' : locked_state) : Prop :=
  keys s = keys s' ∧ wants s = wants s' ∧ cleared s = cleared s' ∧ contended s = contended s' ∧
  psim (work s) (work s').

Lemma psim_change p q σ : psim p q → Rs (shared p) σ → psim (Pool σ (tasks p) (released p)) q.
Proof. intros [Hs Ht Hf] H. split; cbn; [|done..]. etrans; [symmetry; exact H|exact Hs]. Qed.

Lemma lsim_step s q s' : lsim s q → dstep s s' → ∃ q', rtc (lstep key code) q q' ∧ lsim s' q'.
Proof.
  intros (Hk & Hw & Hc & Hb & Hp) Hstep. destruct q as [qk qw qc qb qp]. cbn in *. subst qk qw qc qb.
  destruct Hstep as [s' Hstep|σ Hσ].
  - destruct Hstep as [s t c k' Hg|s t c k' Hwt Hg Hn|s w Hw Hd|s t k m k' Ht Hn Hcl Hg|s t k' Hg Hn]; cbn in *.
    + eexists. split; [apply rtc_once; by eapply l_get|]. by split_and!.
    + eexists. split; [apply rtc_once; eapply l_lock; [done..|by eapply psim_none]|].
      split_and!; try done. cbn. apply psim_insert; [done|apply Hp| |apply Hp]. split; [done|]. split; [done|]. apply code_sim.
    + destruct (psim_step _ _ _ Hp Hw) as (q' & Hq & Hp'). eexists. split; [apply rtc_once; eapply l_run; [exact Hq|]|].
      { cbn. by rewrite <- (psim_dom _ _ Hp), <- (psim_dom _ _ Hp'). }
      by split_and!.
    + eexists. split; [apply rtc_once; eapply l_remove; [done|by eapply psim_none|done..]|]. by split_and!.
    + eexists. split; [apply rtc_once; eapply l_unlock; [done|by eapply psim_none]|]. by split_and!.
  - eexists. split; [done|]. split_and!; try done. by apply psim_change.
Qed.

Lemma lsim_steps s0 s : rtc dstep (linit s0) s → ∃ q, rtc (lstep key code) (linit s0) q ∧ lsim s q.
Proof.
  revert s. apply rtc_ind_r.
  - exists (linit s0). split; [done|]. split_and!; try done. split; [reflexivity| |done]. cbn.
    intros i. rewrite lookup_empty. constructor.
  - intros s1 s2 _ Hstep (q & Hq & Hsim). destruct (lsim_step _ _ _ Hsim Hstep) as (q' & Hq' & ?).
    exists q'. split; [by etrans|done].
Qed.
End pools.
