(* ===== verification/Concurrency.v ===== *)
(** * Handlers and recoveries beside each other

    The sections of the node service and of the health monitor that run with the
    lock of a volume held ([volumeMutexes] of [pkg/driver/nodeserver.go]),
    interleaved at every system call and every access to the tracked volumes, under the
    driver's key mutex ([Locked]). *)

From S2P Require Import Prelude GoLib Json Hash Params Driver Controller MountFlags MountArgs MountInfo Host Serial KeyMutex Locked Simulation MountUtil Container Node NodeSpec CacheSweep VolumeStats Health Recovery StagingRecovery Startup Life.
#[local] Open Scope go_scope.

(** What runs with a volume's lock held, from the lock to its release: a handler, and
    the parts of a health check that act on the mounts. *)
Inductive section :=
  | Handler (q : request)
  | Recover (volumeID : string) (hung : bool)
  | RetryPublishes (volumeID : string)
  | RepairContainers (volumeID : string).

Definition section_volume (c : section) : string :=
  match c with
  | Handler q => volume_of q
  | Recover v _ | RetryPublishes v | RepairContainers v => v
  end.

Section concurrency.
Context {MU : MountUtils} {MR : MapRange} {PR : PathRange}.
Context (d : SeaweedFsDriver) (hungMountAfter : Z).

Definition section_act (c : section) : act Volumes unit :=
  match c with
  | Handler q => handle d q
  | Recover v hung => recoverVolumeAs d hungMountAfter v hung
  | RetryPublishes v => retryPublishPaths v
  | RepairContainers v => repairContainerMounts v
  end.

(** ** The sections touch their volume only *)
Lemma store_local v vol : local v (store v vol).
Proof. apply (local_insert (V := Volume)). Qed.
#[local] Hint Resolve store_local : local.

Lemma anyDead_local v ps : local v (anyDead ps).
Proof. induction ps as [|[p ro] ps IH]; cbn [anyDead]; local_auto. Qed.
Lemma firstDevice_local v ps : local v (firstDevice ps).
Proof. induction ps as [|[p ro] ps IH]; cbn [firstDevice]; local_auto. Qed.
Lemma containerPIDs_local v uid self entries seen : local v (containerPIDs (S := Volumes) uid self entries seen).
Proof.
  revert seen. induction entries as [|e entries IH]; intros seen; cbn [containerPIDs]; local_auto.
Qed.
#[local] Hint Resolve anyDead_local firstDevice_local containerPIDs_local : local.

Lemma section_local c : local (section_volume c) (section_act c).
Proof. destruct c as [[]| | |]; cbn [section_act section_volume handle volume_of]; local_auto. Qed.

(** ** The sections do not depend on the counters of the health checks *)

(** The same volume up to what a check notes of its health. In the program a volume is one
    object and a check writes to its atomic fields at any time; a section stores the notes
    it read back with the volume. What follows holds whatever the notes are. *)
Definition same_volume (v w : Volume) : Prop := ∃ fails streak abn, w = set_health v fails streak abn.
Definition same_volumes (s s' : Volumes) : Prop := ∀ k, option_Forall2 same_volume (s !! k) (s' !! k).

#[export] Instance same_volume_equiv : Equivalence same_volume.
Proof.
  split.
  - intros v. exists (healthFailCount v), (unhealthyStreak v), (abnormal v). by destruct v.
  - intros v w (a & b & c & ->). exists (healthFailCount v), (unhealthyStreak v), (abnormal v). by destruct v.
  - intros u v w (a & b & c & ->) (a' & b' & c' & ->). by exists a', b', c'.
Qed.
#[export] Instance same_volumes_equiv : Equivalence same_volumes.
Proof.
  split.
  - intros s k. destruct (s !! k); by constructor.
  - intros s s' H k. destruct (H k); by constructor.
  - intros s1 s2 s3 H H' k. specialize (H k). specialize (H' k). destruct H; inversion H'; subst; constructor. by etrans.
Qed.

Lemma same_insert (s : Volumes) v vol vol' :
  s !! v = Some vol → same_volume vol vol' → same_volumes s (<[v := vol']> s).
Proof.
  intros Hv Hvol k. destruct (decide (v = k)) as [<-|Hne].
  - rewrite volumes_lookup, Hv. by constructor.
  - rewrite volumes_lookup_ne by done. destruct (s !! k); by constructor.
Qed.

Lemma same_ext s1 s2 s1' s2' :
  same_volumes s1 s2 → (∀ u, s1' !! u = s1 !! u) → (∀ u, s2' !! u = s2 !! u) → same_volumes s1' s2'.
Proof. intros H H1 H2 k. rewrite H1, H2. apply H. Qed.

#[local] Abbreviation blind := (sim same_volumes).

Lemma blind_untouched {A} (m : act Volumes A) : (∀ v, local v m) → blind eq m m.
Proof. by apply (sim_untouched (V := Volume)), same_ext. Qed.

Lemma blind_lookup v : blind (option_Forall2 same_volume) (agets (λ s : Volumes, s !! v)) (agets (λ s, s !! v)).
Proof. apply sim_gets. intros s s' Hs. apply Hs. Qed.

Lemma blind_store v vol vol' : same_volume vol vol' → blind eq (store v vol) (store v vol').
Proof.
  intros Hvol. apply sim_modify. intros s s' Hs k. destruct (decide (v = k)) as [<-|Hne].
  - rewrite !volumes_lookup. by constructor.
  - rewrite !volumes_lookup_ne by done. apply Hs.
Qed.

Lemma blind_delete v : blind eq (amodify (delete v : Volumes → Volumes)) (amodify (delete v)).
Proof.
  apply sim_modify. intros s s' Hs k. destruct (decide (v = k)) as [<-|Hne].
  - rewrite !volumes_delete. constructor.
  - rewrite !volumes_delete_ne by done. apply Hs.
Qed.

(** Actions that touch no volume, then those that look one up or store one. *)
Ltac same_tac := first [reflexivity | do 3 eexists; reflexivity].
Ltac untouched := solve [apply blind_untouched; intros ?; local_auto].
Ltac blind_step :=
  first
  [ untouched
  | lazymatch goal with
    | |- blind _ (abind (agets _) _) _ =>
        eapply sim_bind; [apply blind_lookup|intros ? ? [? ? (? & ? & ? & ->)|]]
    | |- blind _ (abind _ _) _ => eapply (sim_bind _ eq); [|intros ? ? <-]
    | |- blind _ (awith_err _ _) _ => apply sim_with_err
    | |- blind _ (store _ _) _ => apply blind_store; same_tac
    | |- blind _ (aret _) _ => apply sim_ret
    | |- blind _ (amodify _) _ => apply blind_delete
    | |- blind _ (match ?x with _ => _ end) _ => destruct x
    end; cbn beta iota; cbn [set_health VolumeId StagedPath unmounter localSocket publishPaths volContext readOnly] ].

Lemma publishedVolume_blind req :
  blind same_volume (publishedVolume d req) (publishedVolume d req).
Proof.
  unfold publishedVolume. repeat blind_step; same_tac.
Qed.

Lemma section_blind c : blind eq (section_act c) (section_act c).
Proof.
  destruct c as [[r|r|v t ts|v p|v p n]|v hung|v|v]; cbn [section_act handle].
  - unfold NodeStageVolume. repeat blind_step.
  - unfold NodePublishVolume.
    repeat first [eapply sim_bind; [apply publishedVolume_blind|intros ? ? (? & ? & ? & ->)] | blind_step].
  - unfold NodeUnpublishVolume. repeat blind_step.
  - unfold NodeUnstageVolume. repeat blind_step.
  - unfold NodeExpandVolume. repeat blind_step.
  - unfold recoverVolumeAs. repeat blind_step. unfold restage. repeat blind_step.
  - unfold retryPublishPaths. repeat blind_step.
  - unfold repairContainerMounts. repeat blind_step.
Qed.

(** ** What a section promises *)
Definition section_action (c : section) : action :=
  match c with Handler q => Request q | _ => Check (section_volume c) end.

Lemma section_effect c s l :
  all_good d False s →
  awp anything (section_act c)
    (λ r s' _, effect (section_action c) (is_ok r) (abstract s) (abstract s')) s l.
Proof.
  intros Hs. assert (volumes_ok s) as Hok by (intros v vol Hv; by destruct (Hs v vol Hv) as [[] _]).
  destruct c as [q|v hung|v|v]; cbn [section_act section_action section_volume effect].
  - eapply awp_mono; [eapply wpp_weaken; [|by apply (handle_spec d q s l)]; by intros|].
    intros r s' l' (Hp & Hframe & _). split; [done|]. intros v Hv. unfold abstract. by rewrite Hframe.
  - eapply awp_mono; [apply recoverVolumeAs_checked|]. intros r s' l' Hc w.
    exact (checked_abstract d v s s' w Hc).
  - apply keeps_use; [apply retryPublishPaths_quiet|done].
  - apply keeps_use; [apply repairContainerMounts_quiet|done].
Qed.

Lemma section_good c s l :
  all_good d False s → awp anything (section_act c) (λ _ s' _, all_good d False s') s l.
Proof.
  intros Hs. destruct c as [q|v hung|v|v]; cbn [section_act].
  - by apply handle_good.
  - eapply awp_mono; [apply recoverVolumeAs_checked|]. intros r s' l'. by apply good_checked.
  - apply keeps_use; [apply retryPublishPaths_quiet|done].
  - apply keeps_use; [apply repairContainerMounts_quiet|done].
Qed.

Lemma evolves_snoc a ok rs A A' A'' :
  evolves rs A A' → effect a ok A' A'' → evolves (rs ++ [(a, ok)]) A A''.
Proof. induction 1; intros He; cbn; repeat (econstructor; [eauto|]); [constructor|auto]. Qed.

(** The answers of the sections that released, in the order of their ends. *)
Definition outcomes (fs : list (finished (A := unit) (T := section))) : list (action * bool) :=
  map (λ f, (section_action (f_task f), is_ok (f_result f))) fs.

Lemma serial_evolves s fs s' :
  serial section_act s fs s' → all_good d False s →
  all_good d False s' ∧ evolves (outcomes fs) (abstract s) (abstract s').
Proof.
  induction 1 as [s|s fs σ c t r s' Hfs IH Hc]; intros Hs; [split; [done|apply evolves_nil]|].
  destruct (IH Hs) as [Hσ He]. split; [by eapply asteps_awp in Hc; [|by apply (section_good c σ [])]|].
  unfold outcomes. rewrite map_app. cbn. eapply evolves_snoc; [exact He|].
  by eapply asteps_awp in Hc; [|by apply (section_effect c σ [])].
Qed.

Lemma pool_serializable (s : Volumes) (p : pool (V := Volume) (A := unit) (T := section)) :
  all_good d False s →
  rtc (pool_step section_volume section_act) (start s) p → tasks p = ∅ →
  serial section_act s (released p) (shared p) ∧
  (∀ v vol, shared p !! v = Some vol → well_formed d v vol) ∧
  evolves (outcomes (released p)) (abstract s) (abstract (shared p)).
Proof.
  intros Hs Hp Hend.
  pose proof (serializable section_volume section_act section_local s p Hp Hend) as Hser.
  destruct (serial_evolves _ _ _ Hser Hs) as [Hgood He]. split_and!; [done| |done].
  intros v vol Hv. by destruct (Hgood v vol Hv).
Qed.

(** *** What a health check does outside its sections *)

(** An execution that touches no volume leaves them alone. *)
Lemma untouched_same {A} (m : act Volumes A) s t m' s' : (∀ v, local v m) → asteps m s t m' s' → s' = s.
Proof.
  intros Hm Hs. apply (map_eq (M := gmap string)). intros u.
  destruct (asteps_local (u +:+ "0") _ _ _ _ _ (Hm _) Hs) as [_ H]. apply H.
  intros Hu%(f_equal String.length). rewrite length_sapp in Hu. cbn in Hu. lia.
Qed.

Lemma awp_untouched {A} (m : act Volumes A) s l :
  (∀ v, local v m) → awp anything m (λ _ s' _, s' = s) s l.
Proof.
  intros Hm. eapply awp_mono; [apply awp_execution|]. intros r s' l' (t & _ & Ht). by eapply untouched_same.
Qed.

Lemma note_check_same vol r u : same_volume vol (note_check (hungAfter hungMountAfter) vol r u).1.
Proof. unfold note_check. destruct r; [same_tac|case_match..]; same_tac. Qed.

(** Sections of a check one after the other, after a change of its notes. *)
Definition sections_of (v : string) (s s' : Volumes) : Prop :=
  ∃ σ fs, same_volumes s σ ∧ serial section_act σ fs s' ∧
    Forall (λ f, section_volume (f_task f) = v ∧ ∀ q, f_task f ≠ Handler q) fs.

Lemma sections_same v s s' : same_volumes s s' → sections_of v s s'.
Proof. intros H. exists s', []. split_and!; [done|constructor|done]. Qed.

Lemma sections_then v c s s1 l :
  section_volume c = v → (∀ q, c ≠ Handler q) → sections_of v s s1 →
  awp anything (section_act c) (λ _ s' _, sections_of v s s') s1 l.
Proof.
  intros Hc Hq (σ & fs & Hσ & Hfs & Hv). eapply awp_mono; [apply awp_execution|]. intros r s' l' (t & _ & Ht).
  exists σ, (fs ++ [Finished c t r]). split_and!; [done|by econstructor|]. apply Forall_app. by split; [|constructor].
Qed.

(** A health check of a volume, outside the sections it runs under the lock one after
    the other, changes nothing but what it notes of the volume's health. *)
Lemma check_is_sections v s l :
  awp anything (performVolumeHealthCheck d hungMountAfter v) (λ _ s' _, sections_of v s s') s l.
Proof.
  unfold performVolumeHealthCheck. apply awp_bind, awp_gets.
  destruct (s !! v) as [vol|] eqn:Hv; [|by apply awp_ret, sections_same].
  destruct (String.eqb _ _); [by apply awp_ret, sections_same|].
  apply awp_bind. eapply awp_mono; [apply awp_untouched; intros ?; local_auto|].
  intros [[r u]|e] s1 l1 ->; [|by apply sections_same].
  pose proof (note_check_same vol r u) as Hsame. destruct (note_check _ vol r u) as [vol' dec]. cbn in Hsame.
  apply awp_bind, awp_modify. set (s1 := <[v := vol']> s).
  assert (sections_of v s s1) as H1.
  { by apply sections_same, same_insert with vol. }
  destruct dec.
  - by apply awp_ret.
  - by apply (sections_then v (Recover v true)).
  - by apply (sections_then v (Recover v false)).
  - apply awp_bind. eapply awp_mono; [apply awp_untouched; intros ?; local_auto|].
    intros [bad|e] s2 l2 ->; [|done]. apply awp_bind.
    apply (awp_mono anything _ (λ _ s' _, sections_of v s s')).
    { destruct bad; [by apply (sections_then v (RetryPublishes v))|by apply awp_ret]. }
    intros [[]|e] s3 l3 H3; [by apply (sections_then v (RepairContainers v))|exact H3].
Qed.

(** What is at work under the locks, whatever checks note meanwhile. *)
Lemma noted_locked (s : Volumes) (p : lstate (V := Volume) (A := unit) (T := section)) :
  rtc (dstep section_volume section_act same_volumes) (linit s) p →
  (∀ i g, threads (keys p) !! i = Some g → ∃ c, wants p !! i = Some c) ∧
  (∀ i r, tasks (work p) !! i = Some r → ∃ g, threads (keys p) !! i = Some g).
Proof.
  intros Hp. destruct (lsim_steps _ _ _ section_blind _ _ Hp) as (q & Hq & -> & -> & _ & _ & Hsim).
  apply locked_tasks in Hq as Hinv. split.
  - intros i g Hi. destruct (t_wants _ _ Hinv i g Hi) as (c & ? & _). eauto.
  - intros i r Hi. destruct (psim_some _ _ _ _ _ Hsim Hi) as (r' & Hr' & _).
    destruct (t_tasks _ _ Hinv i r' Hr') as (m & ?). eauto.
Qed.

Lemma noted_serializable (s : Volumes) (p : lstate (V := Volume) (A := unit) (T := section)) :
  all_good d False s →
  rtc (dstep section_volume section_act same_volumes) (linit s) p → contended p = false → tasks (work p) = ∅ →
  ∃ σ, serial section_act s (released (work p)) σ ∧ same_volumes (shared (work p)) σ ∧
    (∀ v vol, σ !! v = Some vol → well_formed d v vol) ∧
    evolves (outcomes (released (work p))) (abstract s) (abstract σ).
Proof.
  intros Hs Hp Hcon Hend.
  destruct (lsim_steps _ _ _ section_blind _ _ Hp) as (q & Hq & _ & _ & _ & Hb & Hsim). rewrite Hb in Hcon.
  assert (tasks (work q) = ∅) as Hend'.
  { apply (map_empty (M := gmap nat)). intros i. eapply psim_none; [exact Hsim|]. by rewrite Hend. }
  destruct (pool_serializable s (work q) Hs) as (Hser & Hwf & He); [by eapply locked_pool|done|].
  destruct Hsim as [Hshared _ Hrel]. rewrite Hrel. by exists (shared (work q)).
Qed.

(** C2. Handlers and recoveries that take the locks of their volumes from the driver's key
    mutex, interleaved in any way at their system calls, at their accesses to the tracked
    volumes and at the operations of the mutex, are serializable, as long as none takes a
    mutex out of the map while another goroutine waits for it, and whatever health checks,
    which hold no lock then, note of the health of volumes meanwhile: when all have
    ended, the tracked volumes, up to these notes, and every answer are those of the same
    sections run one after the other in the order of their ends, each with the answers the
    host gave it. So the volumes are well formed and their lifecycles are those the
    answers promise, as for a plugin that does one thing at a time. *)
Theorem handlers_serializable (s : Volumes) (p : lstate (V := Volume) (A := unit) (T := section)) :
  all_good d False s →
  rtc (dstep section_volume section_act same_volumes) (linit s) p → contended p = false → tasks (work p) = ∅ →
  ∃ σ, serial section_act s (released (work p)) σ ∧ same_volumes (shared (work p)) σ ∧
    (∀ v vol, σ !! v = Some vol → well_formed d v vol) ∧
    evolves (outcomes (released (work p))) (abstract s) (abstract σ).
Proof. apply noted_serializable. Qed.
End concurrency.

(** ** An example *)

Definition stage_of (v : string) : section :=
  Handler (RStage {| s_volume := v; s_path := "/k/" +:+ v +:+ "/globalmount"; s_cap := demo_cap; s_context := None |}).
Definition publish_of (v : string) : section :=
  Handler (RPublish {| p_volume := v; p_target := demo_target; p_staging := "/k/" +:+ v +:+ "/globalmount";
                       p_cap := demo_cap; p_context := None; p_readonly := true |}).

Definition unstage_of (v : string) : section := Handler (RUnstage v ("/k/" +:+ v +:+ "/globalmount")).

Definition alternate (n : nat) : list (llabel (T := section)) := concat (repeat [DoRun 0; DoRun 1] n).
#[local] Abbreviation demo_state := (lstate (V := Volume) (A := unit) (T := section)).

Definition demo_schedule1 : list (llabel (T := section)) :=
  [DoGet 0 (stage_of "a"); DoGet 1 (stage_of "b"); DoLock 1; DoLock 0; DoGet 2 (publish_of "a"); DoLock 2] ++ alternate 60 ++
  [DoUnlock 0; DoUnlock 1; DoLock 2; DoGet 1 (unstage_of "b"); DoLock 1].
Definition demo_schedule2 : list (llabel (T := section)) :=
  concat (repeat [DoRun 2; DoRun 1] 60) ++
  [DoRemove 1; DoUnlock 2; DoGet 0 (stage_of "b"); DoLock 0; DoUnlock 1] ++ alternate 60 ++ [DoUnlock 0].

Definition demo_exec : demo_state → list (llabel (T := section)) → demo_state :=
  foldl (lexec section_volume (section_act (MU := demo_utils) (MR := range_sorted) (PR := demo_paths) start_driver 0)
    (λ X e _, dies_after 1 X e [])).

(** Every tracked volume gets a slow check noted. *)
Definition noted (s : Volumes) : Volumes := (λ vol, set_health vol 0 1 (Some "slow")) <$> s.
Definition demo_noted (p : demo_state) : demo_state :=
  LState (keys p) (wants p) (cleared p) (contended p) (Pool (noted (shared (work p))) (tasks (work p)) (released (work p))).
Definition demo_pool : demo_state :=
  demo_exec (demo_noted (demo_exec (linit ∅) demo_schedule1)) demo_schedule2.

Lemma noted_same s : same_volumes s (noted s).
Proof.
  intros k. assert (noted s !! k = (λ vol, set_health vol 0 1 (Some "slow")) <$> s !! k) as ->
    by exact (lookup_fmap (M := gmap string) _ s k).
  destruct (s !! k); constructor. do 3 eexists. reflexivity.
Qed.

Lemma demo_exec_steps p ls :
  rtc (dstep section_volume (section_act (MU := demo_utils) (MR := range_sorted) (PR := demo_paths) start_driver 0)
    same_volumes) p (demo_exec p ls).
Proof. eapply rtc_subrel; [|apply lexecs_steps]. intros x y H. by constructor. Qed.

(** Two volumes are staged beside each other while a publish of the first waits for its
    lock; one is published while the other is unstaged, which takes its mutex out of the
    map, and staged again under a new one. A health check notes both in between. *)
Lemma handlers_serializable_witness :
  map (λ a, a.2) (outcomes (released (work demo_pool))) = [true; true; true; true; true] ∧
  map (λ kv, (shows kv.2, unhealthyStreak kv.2)) (map_to_list (shared (work demo_pool))) =
    [(("/k/a/globalmount", true, 0%Z, [(demo_target, true)]), 1%Z); (("/k/b/globalmount", true, 0%Z, []), 0%Z)] ∧
  ∃ σ, same_volumes (shared (work demo_pool)) σ ∧ ∀ v vol, σ !! v = Some vol → well_formed start_driver v vol.
Proof.
  split; [vm_compute; reflexivity|]. split; [vm_compute; reflexivity|].
  assert (tasks (work demo_pool) = ∅) as Hend by (apply map_to_list_empty_iff; vm_compute; reflexivity).
  assert (all_good start_driver False ∅) as H0 by done.
  assert (contended demo_pool = false) as Hcon by (vm_compute; reflexivity).
  assert (rtc (dstep section_volume (section_act (MU := demo_utils) (MR := range_sorted) (PR := demo_paths) start_driver 0)
    same_volumes) (linit ∅) demo_pool) as Hrun.
  { etrans; [apply demo_exec_steps|]. eapply rtc_l; [apply d_change, noted_same|apply demo_exec_steps]. }
  destruct (handlers_serializable (MU := demo_utils) (MR := range_sorted) (PR := demo_paths) start_driver 0 ∅
    demo_pool H0 Hrun Hcon Hend) as (σ & _ & Hs & Hwf & _).
  exists σ. exact (conj Hs Hwf).
Defined.
