(* ===== verification/Requests.v ===== *)
(** * What the node service asks of the mount service

    The events an action may issue; the mount requests the driver builds and what they
    make weed run with; that the sections of the node service ask for mounts by such
    requests only; and what a stage that succeeded has asked for. *)

From S2P Require Import Prelude GoLib Json Hash Params Driver Controller MountFlags MountArgs ProcessOutput MountService Manager Processes Host Serial MountUtil Container Node NodeSpec NodeSuccess VolumeStats Health Recovery Concurrency.
#[local] Open Scope go_scope.

(** ** The events an action may issue *)
Section emits.
Context {S : Type} (P : ∀ X, hostE X → Prop).

Fixpoint emits {A} (m : act S A) : Prop :=
  match m with
  | Host.Done _ => True
  | Event e k => P _ e ∧ ∀ x, emits (k x)
  | Read f k => ∀ s, emits (k (f s))
  | Update _ m => emits m
  end.

Lemma emits_bind {A B} (m : act S A) (k : A → act S B) :
  emits m → (∀ x, emits (k x)) → emits (abind m k).
Proof. intros Hm Hk. induction m as [[a|e]|X e k' IH|X f k' IH|f m IH]; cbn in *; naive_solver. Qed.
Lemma emits_outcome {A B} (f : result A → result B) (m : act S A) : emits m → emits (aoutcome f m).
Proof. induction m; cbn; naive_solver. Qed.
Lemma emits_try {A} (m : act S A) : emits m → emits (atry m).
Proof. apply emits_outcome. Qed.
Lemma emits_with_err {A} f (m : act S A) : emits m → emits (awith_err f m).
Proof. apply emits_outcome. Qed.
Lemma emits_ret {A} (a : A) : emits (aret a).
Proof. done. Qed.
Lemma emits_fail {A} e : emits (afail (A := A) e).
Proof. done. Qed.
Lemma emits_lift {A} (r : result A) : emits (alift r).
Proof. done. Qed.
Lemma emits_gets {A} (f : S → A) : emits (agets f).
Proof. done. Qed.
Lemma emits_modify f : emits (amodify f).
Proof. done. Qed.
Lemma emits_ask {X} (e : hostE X) : P X e → emits (ask e).
Proof. done. Qed.
Lemma emits_call {X} (e : hostE (result X)) : P _ e → emits (call e).
Proof. done. Qed.
Lemma emits_map {A B} (f : A → act S B) (xs : list A) : (∀ x, emits (f x)) → emits (amap f xs).
Proof.
  intros Hf. induction xs as [|x xs IH]; cbn [amap]; [done|].
  apply emits_bind; [apply Hf|intros y]. by apply emits_bind.
Qed.
End emits.

(** What is known of an action, and of the events it issues. *)
Lemma awp_emits {S A} ok (P : ∀ X, hostE X → Prop) (m : act S A) Q s l :
  awp ok m Q s l → emits P m →
  awp anything m (λ r s' l', Q r s' l' ∧ ∀ o, o ∈ l' → o ∈ l ∨ match o with Obs e _ => P _ e end) s l.
Proof.
  intros Hm Hp.
  assert (awp (λ X e l, ok X e l ∧ P X e) m Q s l) as H.
  { clear -Hm Hp. unfold awp in *. revert s l Hm. induction m as [r|X e k IH|X f k IH|f m IH]; intros s l; cbn in *; [done|..].
    - intros [He Hk]. split; [by split; [|apply Hp]|]. intros x. apply IH; [apply Hp|apply Hk].
    - apply IH, Hp.
    - by apply IH. }
  eapply awp_mono; [eapply (awp_events _ (λ o, match o with Obs e _ => P _ e end)); [|exact H]|]; [|done].
  by intros X e x l' [_ He].
Qed.

(** ** Whatever others do to the state

    What holds at the end of an action, whatever state each of its reads finds: of an
    action whose volume others may change at any time. *)
Section always.
Context {S : Type}.

Fixpoint always {A} (m : act S A) (Q : result A → log → Prop) (l : log) : Prop :=
  match m with
  | Host.Done r => Q r l
  | Event e k => ∀ x, always (k x) Q (l ++ [Obs e x])
  | Read f k => ∀ s, always (k (f s)) Q l
  | Update _ m => always m Q l
  end.

Lemma always_mono {A} (m : act S A) (Q Q' : result A → log → Prop) l :
  always m Q l → (∀ r l', Q r l' → Q' r l') → always m Q' l.
Proof. intros Hm HQ. revert l Hm. induction m; cbn; auto. Qed.

Lemma always_bind {A B} (m : act S A) (k : A → act S B) Q l :
  always m (λ r l', match r with Ok a => always (k a) Q l' | Err e => Q (Err e) l' end) l →
  always (abind m k) Q l.
Proof. revert l. induction m as [[a|e]|X e k' IH|X f k' IH|f m IH]; cbn; auto. Qed.

Lemma always_with_err {A} f (m : act S A) Q l :
  always m (λ r l', Q (rmap_err f r) l') l → always (awith_err f m) Q l.
Proof. unfold awith_err. revert l. induction m; cbn; auto. Qed.

Lemma always_guard {A} (b : bool) e (k : unit → act S A) (Q : result A → log → Prop) l :
  Q (Err e) l → always (k tt) Q l → always (abind (alift (guard_err b e)) k) Q l.
Proof. by destruct b. Qed.

Lemma always_whatever {A} (m : act S A) (Q : result A → log → Prop) l :
  (∀ r l', Q r l') → always m Q l.
Proof. intros HQ. revert l. induction m; cbn; auto. Qed.

Lemma always_gets {A} (f : S → A) Q l : (∀ s, Q (Ok (f s)) l) → always (agets f) Q l.
Proof. done. Qed.

Lemma always_modify f (Q : result unit → log → Prop) l : Q (Ok tt) l → always (amodify f) Q l.
Proof. done. Qed.
End always.

(** For an action that looks at no state, this is what it does alone. *)
Lemma always_untouched {V A} (m : act (gmap string V) A) Q s l :
  (∀ v, local v m) → awp anything m (λ r _ l', Q r l') s l → always m Q l.
Proof.
  unfold awp. revert s l. induction m as [r|X e k IH|X f k IH|f m IH]; cbn; intros s l Hm H; [done|..].
  - intros x. eapply IH; [intros v; apply Hm|apply H].
  - intros s'. rewrite (untouched_read f s' s); [eapply IH; [intros v; by apply Hm|exact H]|]. intros v. apply Hm.
  - eapply IH; [intros v; by apply Hm|exact H].
Qed.

Create HintDb emits.
Ltac emits_step :=
  lazymatch goal with
  | |- emits _ (abind _ _) => apply emits_bind; [|intros ?]
  | |- emits _ (atry _) => apply emits_try
  | |- emits _ (awith_err _ _) => apply emits_with_err
  | |- emits _ (amodify _) => apply emits_modify
  | |- emits _ (amap _ _) => apply emits_map; intros ?
  | |- emits _ (aret _) => apply emits_ret
  | |- emits _ (afail _) => apply emits_fail
  | |- emits _ (alift _) => apply emits_lift
  | |- emits _ (agets _) => apply emits_gets
  | |- emits _ (ask _) => apply emits_ask; exact I
  | |- emits _ (call _) => apply emits_call; exact I
  | |- emits _ (match ?x with _ => _ end) => destruct x
  | |- emits _ (if ?x then _ else _) => destruct x
  end; cbn beta iota.
Ltac emits_unfold :=
  lazymatch goal with |- emits _ ?m => let h := head_of m in unfold h end; cbn beta iota zeta.
Ltac emits_auto :=
  repeat first [ progress (cbn beta iota zeta) | solve [auto 1 with emits nocore] | emits_step | emits_unfold ].

(** ** The mount requests of the driver *)
Section requests.
Context {MU : MountUtils} {MR : MapRange} {PR : PathRange} (d : SeaweedFsDriver).

(** A request that a mounter of the driver builds ([mountServiceMounter.Mount]). *)
Definition driver_request (req : MountRequest) : Prop :=
  ∃ m target, m_driver m = d ∧ mount_request m target = Ok req.

Lemma mount_request_Ok m target req :
  mount_request m target = Ok req →
  VolumeID req = m_volumeID m ∧ TargetPath req = target ∧ CacheDir_ req = GetCacheDir (CacheDir (m_driver m)) (m_volumeID m) ∧
  LocalSocket req = GetLocalSocket (volumeSocketDir (m_driver m)) (m_volumeID m) ∧
  buildMountArgs m target (CacheDir_ req) (LocalSocket req) (filers (m_driver m)) = Ok (MountArgs req).
Proof.
  unfold mount_request. destruct (String.eqb target ""); [done|]. intros H.
  apply rbind_Ok in H as (args & Hargs & <-%Ok_inj). by split_and!.
Qed.

(** What weed is told of the volume and where to mount it. *)
Record names_volume (v target : string) (args : list string) : Prop := {
  nv_dir : args_of "dir" args = [flag_arg "dir" target];
  nv_socket : args_of "localSocket" args = [flag_arg "localSocket" (LocalSocketPath (volumeSocketDir d) v)];
  nv_cache : args_of "cacheDir" args = [flag_arg "cacheDir" (GetCacheDir (CacheDir d) v)];
}.

(** Whatever flags the weed binary defines, it is started with the names of the request. *)
Lemma driver_process req q :
  driver_request req → spawned req q → names_volume (Manager.p_volume q) (Manager.p_target q) (p_args q).
Proof.
  intros (m & target & Hm & Hreq) (-> & -> & a & Ha).
  apply mount_request_Ok in Hreq as (-> & -> & Hc & Hs & Hb). rewrite Hm in Hc, Hs.
  unfold startMount in Ha. apply rbind_Ok in Ha as ([] & _ & Ha).
  apply rbind_Ok in Ha as (args & Hargs & Ha).
  repeat (apply rbind_Ok in Ha as ([] & _ & Ha)). apply Ok_inj in Ha as <-.
  destruct (a_flags a) as [flags|].
  - destruct (command_identity _ _ _ _ _ _ _ _ _ _ linux_neutral Hb Hargs) as (Hd & Hk & Hca & _).
    rewrite Hs in Hk. rewrite Hc in Hca. by split.
  - apply Ok_inj in Hargs as <-. destruct (buildMountArgs_managed _ _ _ _ _ _ _ linux_neutral Hb) as (Hd & Hk & Hca & _).
    rewrite Hs in Hk. rewrite Hc in Hca. by split.
Qed.

(** The plugin asks for mounts by such requests only. *)
Definition own_request (X : Type) (e : hostE X) : Prop :=
  match e with SvcMount req => driver_request req | _ => True end.
#[local] Abbreviation asks := (emits (S := Volumes) own_request).

Lemma Stage_asks vol m p : m_driver m = d → asks (Stage vol m p).
Proof.
  intros Hm. unfold Stage. emits_step; [emits_auto|]. emits_step; [emits_auto|].
  destruct (mount_request m p) as [req|e] eqn:Hreq; [|done].
  split; [by exists m, p|]. by intros [[]|e].
Qed.

Lemma newMounter_driver v ro ctx m : newMounter v ro d ctx = Ok m → m_driver m = d.
Proof. unfold newMounter. rewrite rbind_Ok. by intros (? & _ & <-%Ok_inj). Qed.

Lemma stageNewVolume_asks v p ctx ro : asks (stageNewVolume d v p ctx ro).
Proof.
  unfold stageNewVolume. apply emits_bind; [emits_auto|intros ctx1].
  apply emits_bind; [emits_auto|intros capacity]. cbn zeta.
  set (ctx2 := match capacity with Some _ => _ | None => _ end).
  destruct (newMounter v ro d ctx2) as [m|e] eqn:Hm; [|done]. apply newMounter_driver in Hm.
  cbn [alift abind]. apply emits_bind; [by apply Stage_asks|intros vol]. emits_auto.
Qed.

Lemma anyDead_asks ps : asks (anyDead ps).
Proof. induction ps as [|[p ro] ps IH]; cbn [anyDead]; emits_auto. Qed.
Lemma firstDevice_asks ps : asks (firstDevice ps).
Proof. induction ps as [|[p ro] ps IH]; cbn [firstDevice]; emits_auto. Qed.
Lemma containerPIDs_asks uid self entries seen : asks (containerPIDs uid self entries seen).
Proof. revert seen. induction entries as [|e entries IH]; intros seen; cbn [containerPIDs]; emits_auto. Qed.
#[local] Hint Resolve stageNewVolume_asks anyDead_asks firstDevice_asks containerPIDs_asks : emits.

(** What a section of the node service asks of the mount service. *)
Lemma section_asks hungMountAfter c : asks (section_act d hungMountAfter c).
Proof. destruct c as [[]| | |]; cbn [section_act handle]; emits_auto. Qed.

(** It survives its encoding. *)
Lemma decode_own req : utf8_request req = true → decode_mount (Encode (enc_request req)) = Ok req.
Proof. intros H. exact (Decode_Encode _ _ _ _ (plain_request req H) (depth_request req) (request_roundtrip req)). Qed.

(** ** What the handlers achieve *)
#[local] Abbreviation twp := (awp (S := Volumes) anything).

(** The service was asked to mount the volume at the path, and did. *)
Definition mounted_for (v p : string) (l : log) : Prop :=
  ∃ req, VolumeID req = v ∧ TargetPath req = p ∧ Obs (SvcMount req) (Ok tt) ∈ l.

Lemma Stage_mounted vol m p s l :
  twp (Stage vol m p) (λ r s' l', ∀ vol', r = Ok vol' → mounted_for (m_volumeID m) p l') s l.
Proof.
  unfold Stage. apply awp_bind, awp_whatever. intros [isMnt|e] s1 l1; [|done].
  apply awp_bind, awp_whatever. intros [[]|e] s2 l2; [|done].
  apply awp_bind, awp_lift. destruct (mount_request m p) as [req|e] eqn:Hreq; [|done].
  apply mount_request_Ok in Hreq as (Hv & Ht & _).
  apply awp_bind, awp_call; [done|]. intros [[]|e]; [|done]. apply awp_ret.
  intros vol' _. exists req. split_and!; [done..|]. apply elem_of_snoc.
Qed.

Lemma stageNewVolume_asked v p ctx ro s l :
  twp (stageNewVolume d v p ctx ro) (λ r s' l', ∀ vol, r = Ok vol → mounted_for v p l') s l.
Proof.
  unfold stageNewVolume. apply awp_bind, awp_whatever. intros [ctx1|e] s1 l1; [|done].
  apply awp_bind, awp_whatever. intros [capacity|e] s2 l2; [|done]. cbn zeta.
  apply awp_bind, awp_lift. set (ctx2 := match capacity with Some _ => _ | None => _ end).
  destruct (newMounter v ro d ctx2) as [m|e] eqn:Hm; [|done]. apply newMounter_volume in Hm as <-.
  apply awp_bind. eapply awp_mono; [by apply Stage_mounted|]. intros [vol|e] s3 l3 H; [|done].
  specialize (H vol eq_refl). destruct capacity as [c|]; [|apply awp_ret; by intros vol' [= <-]].
  apply awp_bind, awp_try. eapply awp_mono; [apply awp_grows|]. intros r s4 l4 Hl4. destruct r as [[]|e].
  - apply awp_ret. intros vol' _. destruct H as (req & ? & ? & Hin). exists req. auto.
  - apply awp_bind, awp_whatever. by intros [r|e'] s5 l5.
Qed.

(** A stage that succeeds found a live filesystem, without a call to mount, or had the
    volume mounted. *)
Definition staged (v p : string) (l : log) : Prop :=
  viewed p l = Live ∧ (∀ req x, Obs (SvcMount req) x ∉ l) ∨
  mounted_for v p l.

Definition no_mount (X : Type) (e : hostE X) : Prop := match e with SvcMount _ => False | _ => True end.

Lemma NodeStageVolume_staged r :
  always (NodeStageVolume d r) (λ o l', is_ok o = true → staged (s_volume r) (s_path r) l') [].
Proof.
  assert (∀ l : log, (∀ o, o ∈ l → o ∈ @nil obs ∨ match o with Obs e _ => no_mount _ e end) → ∀ req x, Obs (SvcMount req) x ∉ l) as Hno.
  { intros l Hl req x Hin. destruct (Hl _ Hin) as [H|H]; [by apply elem_of_nil in H|done]. }
  unfold NodeStageVolume. do 3 (apply always_guard; [done|]). apply always_bind, always_gets. intros s.
  destruct (s !! s_volume r) as [vol|].
  { apply (always_untouched _ _ ∅); [intros v; local_auto|].
    eapply awp_mono; [apply (awp_emits (limits d (RStage r)) no_mount); [apply (requireHealthyStaging_spec d (RStage r))|emits_auto]|].
    intros o s' l' [[_ H] Hl'] Ho. left. split; [by apply H|by apply Hno]. }
  apply always_bind, (always_untouched _ _ ∅); [intros v; local_auto|].
  eapply awp_mono; [apply (awp_emits (limits d (RStage r)) no_mount); [apply (isStagingPathHealthy_spec d (RStage r))|emits_auto]|].
  intros o s1 l1 [(-> & b & -> & Hb) Hl1]. destruct b.
  { apply always_modify. intros _. left. split; [by apply Hb|by apply Hno]. }
  apply always_bind, always_whatever. intros [st|e] l2; [|done].
  apply always_bind, always_whatever. intros [[]|e] l3; [|done].
  apply always_bind, always_with_err, (always_untouched _ _ ∅); [intros v; local_auto|].
  eapply awp_mono; [apply stageNewVolume_asked|].
  intros [vol|e] s4 l4 H; [|done]. apply always_modify. intros _. right. by apply (H vol).
Qed.

(** An unstage that succeeds: the service did what it was asked. *)
Definition no_unmount (X : Type) (e : hostE X) : Prop := match e with SvcUnmount _ => False | _ => True end.

Definition unmounted_all (l : log) : Prop := ∀ u x, Obs (SvcUnmount u) x ∈ l → x = Ok tt.

Lemma no_unmount_spec {A} (m : act Volumes A) s l :
  emits no_unmount m → unmounted_all l → twp m (λ _ _ l', unmounted_all l') s l.
Proof.
  intros Hm Hl. eapply awp_mono; [exact (awp_emits _ no_unmount _ _ _ _ (awp_grows m s l) Hm)|].
  intros o s' l' [_ Hl'] u x Hin. by destruct (Hl' _ Hin) as [H|H]; [by eapply Hl|].
Qed.

Lemma NodeUnstageVolume_unmounted v p :
  always (NodeUnstageVolume d v p) (λ o l', is_ok o = true → unmounted_all l') [].
Proof.
  assert (unmounted_all []) as H0 by (intros u x H; by apply elem_of_nil in H).
  unfold NodeUnstageVolume. do 2 (apply always_guard; [done|]).
  apply always_bind, always_gets. intros s. destruct (s !! v) as [vol|].
  2: { apply (always_untouched _ _ ∅); [intros u; local_auto|].
    eapply awp_mono; [apply no_unmount_spec; [emits_auto|done]|]. by intros. }
  apply always_bind, (always_untouched _ _ ∅); [intros u; local_auto|].
  apply awp_with_err. unfold Unstage. apply awp_bind.
  apply (awp_mono anything _ (λ o s' l', is_ok o = true → unmounted_all l')).
  { destruct (unmounter vol); cbn [negb].
    - apply awp_bind, awp_call; [done|]. intros [[]|e]; [|done].
      eapply awp_mono; [apply no_unmount_spec; [emits_auto|]|by intros].
      intros u x Hin. apply list_elem_of_singleton in Hin.
      change (match Obs (SvcUnmount u) x with Obs (SvcUnmount _) y => y = Ok tt | _ => True end). by rewrite Hin.
    - eapply awp_mono; [apply no_unmount_spec; [emits_auto|done]|by intros]. }
  intros [[]|e] s1 l1 H1; [|done]. specialize (H1 eq_refl).
  eapply awp_mono; [apply no_unmount_spec; [emits_auto|done]|].
  intros [[]|e] s' l' H'; cbn [rmap_err]; [|done]. by apply always_modify.
Qed.
End requests.
