(* ===== verification/System.v ===== *)
(** * The node plugin and the mount service together

    The sections of the node plugin, interleaved under its key mutex ([Concurrency]), and
    the transition system of the mount service ([Manager], [Processes]), as one transition
    system. A call of the service is sent over its JSON protocol ([MountService]), served
    beside other requests while weed processes come and go, and answered; or it fails for
    the plugin, whatever the service still makes of it. The plugin may die at any point and
    start again. What a handler answers to kubelet is then a fact about weed processes. *)

From S2P Require Import Prelude GoLib Json Hash Params Driver Controller MountFlags MountArgs ProcessOutput MountService Manager Processes Host Serial KeyMutex Locked Simulation MountUtil Container Node NodeSpec NodeSuccess VolumeStats Health Recovery StagingRecovery Startup Life Concurrency Requests.
#[local] Open Scope go_scope.

Section system.
Context {MU : MountUtils} {MR : MapRange} {PR : PathRange}.
Context (d : SeaweedFsDriver) (hungMountAfter : Z).
#[local] Abbreviation act := (Host.act Volumes).
#[local] Abbreviation code := (section_act d hungMountAfter).
#[local] Abbreviation plugin_state := (lstate (V := Volume) (A := unit) (T := section)).
#[local] Abbreviation pool := (pool (V := Volume) (A := unit) (T := section)).
#[local] Abbreviation plugin_step := (dstep section_volume code same_volumes).
#[local] Abbreviation own := (own_request d).
#[local] Abbreviation works := (Processes.works (driver_request d)).

(** ** The system *)

(** The goroutines of the plugin, the service, and the request of the service that the
    call a goroutine waits for has become. *)
Record system := System {
  plugin : plugin_state;
  service : Manager.state;
  calls : gmap nat nat;
}.

(** [Client.Mount] and [Client.Unmount]: what the service decodes of a call, as its request
    [n]. The strings of a call are UTF-8, as those of gRPC requests are. *)
Definition call_label (n : nat) {X} (e : hostE X) : option label :=
  match e with
  | SvcMount req =>
      if utf8_request req then
        match decode_mount (Encode (enc_request req)) with Ok req' => Some (CallMount n req') | Err _ => None end
      else None
  | SvcUnmount v =>
      if Utf8.valid v then
        match decode_unmount (Encode (enc_unmount {| u_VolumeID := v |})) with
        | Ok u => Some (CallUnmount n (u_VolumeID u))
        | Err _ => None
        end
      else None
  | _ => None
  end.

(** The service has answered the call of goroutine [i] with success. *)
Definition served (σ : system) (i : nat) : Prop :=
  ∃ n out, calls σ !! i = Some n ∧ requests (service σ) !! n = Some (Returned (Ok out)).

(** The answers an event can get: a call succeeds if the service said so; it may fail at
    any time, by a timeout for instance. *)
Definition heard (σ : system) (i : nat) {X} (e : hostE X) : X → Prop :=
  match e in hostE Y return Y → Prop with
  | SvcMount _ | SvcUnmount _ => λ r, is_ok r = true → served σ i
  | _ => λ _, True
  end.

(** No task hears an answer. *)
Definition quiet (p p' : pool) : Prop :=
  ∀ i r', tasks p' !! i = Some r' → r_trace r' = default [] (r_trace <$> tasks p !! i).

Definition with_work (p : plugin_state) (w : pool) : plugin_state := LState (keys p) (wants p) (cleared p) (contended p) w.

Definition from_client (l : label) : bool :=
  match l with CallMount _ _ | CallUnmount _ _ => true | _ => false end.

Inductive sys_step (σ : system) : system → Prop :=
  | s_quiet p :
      plugin_step (plugin σ) p → quiet (work (plugin σ)) (work p) →
      sys_step σ (System p (service σ) (calls σ))
  | s_call i c X (e : hostE X) k t n l μ :
      tasks (work (plugin σ)) !! i = Some (Running c (Event e k) t) → calls σ !! i = None →
      call_label n e = Some l → step (service σ) l = Some μ →
      sys_step σ (System (plugin σ) μ (<[i := n]> (calls σ)))
  | s_answer i c X (e : hostE X) k t x :
      tasks (work (plugin σ)) !! i = Some (Running c (Event e k) t) → heard σ i e x →
      sys_step σ (System
        (with_work (plugin σ) (with_task (work (plugin σ)) i (Running c (k x) (t ++ [Obs e x]))))
        (service σ) (delete i (calls σ)))
  | s_service l μ :
      from_client l = false → step (service σ) l = Some μ →
      sys_step σ (System (plugin σ) μ (calls σ))
  | s_restart s : sys_step σ (System (linit s) (service σ) ∅).

Definition boot (s : Volumes) : system := System (linit s) init ∅.

(** ** The service *)
#[local] Abbreviation service_state := (works init).

Lemma service_Inv μ : service_state μ → Inv μ.
Proof. intros H. exact (works_Inv _ _ _ H Inv_init). Qed.
Lemma service_started μ : service_state μ → started_for (driver_request d) μ.
Proof. intros H. exact (works_started_for _ _ _ H Inv_init (started_init _)). Qed.

(** A weed process was started for the volume at the path, with their names, and is the one
    of the volume until it has ended. *)
Definition weed_runs (μ : Manager.state) (v p : string) : Prop :=
  ∃ pid q, procs μ !! pid = Some q ∧ stands μ v pid ∧
    Manager.p_volume q = v ∧ Manager.p_target q = p ∧ names_volume d v p (p_args q).

(** Of the processes of the volume in [μ1], each has ended, or was given up on. *)
Definition weed_ended (μ1 μ : Manager.state) (v : string) : Prop :=
  ∀ pid q, procs μ1 !! pid = Some q → Manager.p_volume q = v →
    phase_of μ pid = Some Manager.Done ∨ pid ∈ abandoned μ.

(** What an answered event says of the service, [μ1] being its state at some earlier time. *)
Definition fulfilled (μ1 μ : Manager.state) (o : obs) : Prop :=
  match o with
  | Obs (SvcMount req) (Ok _) => weed_runs μ (VolumeID req) (TargetPath req)
  | Obs (SvcUnmount v) (Ok _) => weed_ended μ1 μ v
  | _ => True
  end.

Lemma weed_runs_stays μ μ' v p : works μ μ' → Inv μ → weed_runs μ v p → weed_runs μ' v p.
Proof.
  intros Hw HI (pid & q & Hq & Hs & Hv & Hp & Hn).
  destruct (works_later _ _ _ _ _ Hw HI Hq) as (q' & Hq' & Hv' & Hp' & Ha & _).
  exists pid, q'. rewrite Ha. split_and!; [done|by eapply works_stands|congruence..|done].
Qed.

Lemma fulfilled_stays μ1 μ μ' o : works μ μ' → Inv μ → fulfilled μ1 μ o → fulfilled μ1 μ' o.
Proof.
  intros Hw HI. destruct o as [X e x]. destruct e; cbn [fulfilled]; try done; destruct x; try done.
  - by apply weed_runs_stays.
  - intros H pid q Hq Hv. destruct (H pid q Hq Hv); [left; by eapply works_done|right; by eapply works_abandoned].
Qed.

(** A call that was made of the service, and the state of the service since. *)
Definition called (μ1 μ : Manager.state) (n : nat) {X} (e : hostE X) : Prop :=
  ∃ l μa μb, call_label n e = Some l ∧ works μ1 μa ∧ step μa l = Some μb ∧ works μb μ.

Lemma call_label_permitted n {X} (e : hostE X) l :
  own X e → call_label n e = Some l → permitted (driver_request d) l.
Proof.
  destruct e; cbn [call_label own_request]; try done.
  - destruct (utf8_request req) eqn:Hu; [|done]. rewrite decode_own by done. by intros H [= <-].
  - destruct (Utf8.valid v); [|done]. destruct (decode_unmount _); [|done]. by intros _ [= <-].
Qed.

(** A call that is answered with success. *)
Lemma called_fulfilled μ1 μ n out {X} (e : hostE X) x :
  service_state μ1 → own X e → called μ1 μ n e →
  requests μ !! n = Some (Returned (Ok out)) → fulfilled μ1 μ (Obs e x).
Proof.
  intros Hup Hown (l & μa & μb & Hl & Hwa & Hs & Hwb) Hr.
  assert (service_state μa) as Hupa by exact (rtc_trans _ _ _ Hup Hwa).
  destruct e; cbn [fulfilled]; try done; destruct x as [[]|]; try done; cbn [call_label] in Hl.
  - destruct (utf8_request req) eqn:Hu; [|done]. rewrite decode_own in Hl by done. injection Hl as <-.
    destruct (served_mount (driver_request d) _ _ _ _ _ _ (service_Inv _ Hupa) (service_started _ Hupa)
      Hown Hs Hwb Hr) as (req0 & pid & q & HP & Hv & Hp & _ & Hq & Hsp & Hstand).
    pose proof (driver_process d _ _ HP Hsp) as Hn. destruct Hsp as (Hqv & Hqp & _).
    exists pid, q. rewrite Hqv, Hqp, Hv, Hp in *. by split_and!.
  - destruct (Utf8.valid v) eqn:Hu; [|done]. rewrite unmount_roundtrip in Hl by done. injection Hl as <-.
    intros pid q Hq Hv.
    destruct (works_later _ _ _ _ _ Hwa (service_Inv _ Hup) Hq) as (q1 & Hq1 & Hv1 & _).
    apply (served_unmount (driver_request d) _ _ _ _ _ _ (service_Inv _ Hupa) Hs Hwb Hr pid q1 Hq1). congruence.
Qed.

(** ** The invariant

    From a state on at which the service was in [μ1], the first [n0] sections had ended and
    no section of the kind [T] was at work. *)
Section from.
Context (T : section → Prop) (μ1 : Manager.state) (n0 : nat).

(** A task at work. *)
Definition task_ok (μ : Manager.state) (r : running (V := Volume) (A := unit) (T := section)) : Prop :=
  emits own (r_left r) ∧ (T (r_task r) → ∀ o, o ∈ r_trace r → fulfilled μ1 μ o) ∧
  ∀ Q, always (code (r_task r)) Q [] → always (r_left r) Q (r_trace r).

(** A task whose call has become request [n]. *)
Definition waiting (μ : Manager.state) (n : nat) (r : running (V := Volume) (A := unit) (T := section)) : Prop :=
  match r_left r with Event e _ => T (r_task r) → called μ1 μ n e | _ => False end.

Record SInv (σ : system) : Prop := {
  si_base : service_state μ1;
  si_service : works μ1 (service σ);
  si_tasks i r : tasks (work (plugin σ)) !! i = Some r → task_ok (service σ) r;
  si_released k f : released (work (plugin σ)) !! k = Some f → n0 ≤ k → T (f_task f) →
    ∀ o, o ∈ f_trace f → fulfilled μ1 (service σ) o;
  si_ends f Q : f ∈ released (work (plugin σ)) → always (code (f_task f)) Q [] → Q (f_result f) (f_trace f);
  si_calls i n : calls σ !! i = Some n →
    ∃ r, tasks (work (plugin σ)) !! i = Some r ∧ waiting (service σ) n r;
}.

Lemma SInv_service σ : SInv σ → service_state (service σ).
Proof. intros H. exact (rtc_trans _ _ _ (si_base _ H) (si_service _ H)). Qed.

(** The service takes a step; the plugin may have made a call. *)
Lemma service_step_inv σ μ : SInv σ → works (service σ) μ → SInv (System (plugin σ) μ (calls σ)).
Proof.
  intros H Hw. pose proof (service_Inv _ (SInv_service _ H)) as HI. destruct H as [Hb Hs Ht Hr He Hc].
  split; cbn; [done|by eapply rtc_trans|..].
  - intros i r Hi. destruct (Ht i r Hi) as (? & Hf & ?). split_and!; [done| |done]. intros HT o Ho.
    eapply fulfilled_stays; [done|done|by apply Hf].
  - intros k f Hk Hn HT o Ho. eapply fulfilled_stays; [done|done|by eapply Hr].
  - done.
  - intros i n Hi. destruct (Hc i n Hi) as (r & Hr' & Hcall). exists r. split; [done|].
    unfold waiting in *. destruct (r_left r); try done. intros HT.
    destruct (Hcall HT) as (l & μa & μb & ? & ? & ? & ?). exists l, μa, μb. split_and!; [done..|by eapply rtc_trans].
Qed.

Lemma step_works μ l μ' : permitted (driver_request d) l → step μ l = Some μ' → works μ μ'.
Proof. intros Hl Hs. apply rtc_once. by exists l. Qed.

Lemma call_inv σ i c X (e : hostE X) k t n l μ :
  SInv σ → tasks (work (plugin σ)) !! i = Some (Running c (Event e k) t) →
  call_label n e = Some l → step (service σ) l = Some μ →
  SInv (System (plugin σ) μ (<[i := n]> (calls σ))).
Proof.
  intros H Hi Hl Hs. destruct (si_tasks _ H i _ Hi) as ([He _] & _).
  pose proof (si_service _ H) as Hw.
  destruct (service_step_inv σ μ H) as [? ? ? ? ? Hc].
  { eapply step_works; [by eapply call_label_permitted|done]. }
  split; cbn in *; [done..|]. intros j m Hj. apply lookup_insert_Some in Hj as [[<- <-]|[_ Hj]]; [|by apply Hc].
  eexists. split; [exact Hi|]. intros _. by exists l, (service σ), μ.
Qed.

Lemma heard_fulfilled σ i c X (e : hostE X) k t x :
  SInv σ → tasks (work (plugin σ)) !! i = Some (Running c (Event e k) t) → heard σ i e x → T c →
  fulfilled μ1 (service σ) (Obs e x).
Proof.
  intros H Hi Hx HT.
  assert (served σ i → fulfilled μ1 (service σ) (Obs e x)) as Hserved.
  { intros (n & out & Hn & Hr). destruct (si_calls _ H i n Hn) as (r & Hi' & Hcall).
    rewrite Hi in Hi'. injection Hi' as <-. destruct (si_tasks _ H i _ Hi) as ([He _] & _).
    by apply (called_fulfilled μ1 _ n out); [apply (si_base _ H)|done|apply Hcall|]. }
  destruct e; try done; destruct x; try done; by apply Hserved, Hx.
Qed.

Lemma answer_inv σ i c X (e : hostE X) k t x :
  SInv σ → tasks (work (plugin σ)) !! i = Some (Running c (Event e k) t) → heard σ i e x →
  SInv (System (with_work (plugin σ) (with_task (work (plugin σ)) i (Running c (k x) (t ++ [Obs e x]))))
    (service σ) (delete i (calls σ))).
Proof.
  intros H Hi Hx. pose proof (heard_fulfilled σ i c X e k t x H Hi Hx) as Hful.
  destruct H as [Hb Hs Ht Hr Hn Hc]. destruct (Ht i _ Hi) as ([_ He] & Hf & Ha). split; cbn; try done.
  - intros j r Hj. apply lookup_insert_Some in Hj as [[<- <-]|[_ Hj]]; [|by apply (Ht j)].
    split_and!; cbn; [apply He| |intros Q HQ; apply (Ha Q HQ)].
    intros HT o [Ho|Ho]%elem_of_app; [by apply Hf|]. apply list_elem_of_singleton in Ho as ->. by apply Hful.
  - intros j n Hj. apply lookup_delete_Some in Hj as [Hne Hj]. destruct (Hc j n Hj) as (r & Hr' & Hw).
    exists r. split; [by rewrite lookup_insert_ne|done].
Qed.

(** What a step of the plugin does that hears no answer. *)
Definition at_event (m : act unit) : Prop := match m with Event _ _ => True | _ => False end.

Inductive quiet_effect (w w' : pool) : Prop :=
  | q_none : tasks w' = tasks w → released w' = released w → quiet_effect w w'
  | q_enter i c :
      tasks w !! i = None → tasks w' = <[i := Running c (code c) []]> (tasks w) →
      released w' = released w → quiet_effect w w'
  | q_step i c m m' t :
      tasks w !! i = Some (Running c m t) → ¬ at_event m → (emits own m → emits own m') →
      (∀ Q l, always m Q l → always m' Q l) →
      tasks w' = <[i := Running c m' t]> (tasks w) → released w' = released w → quiet_effect w w'
  | q_leave i c r t :
      tasks w !! i = Some (Running c (Host.Done r) t) → tasks w' = delete i (tasks w) →
      released w' = released w ++ [Finished c t r] → quiet_effect w w'.

Lemma quiet_pool_step w w' : pool_step section_volume code w w' → quiet w w' → quiet_effect w w'.
Proof.
  intros Hs Hq. destruct Hs as [p i c Hi _|p i c X e k x t Hi|p i c X f k t Hi|p i c f m t Hi|p i c r t Hi].
  - by eapply q_enter.
  - exfalso. specialize (Hq i). cbn in Hq. rewrite lookup_insert_eq, Hi in Hq. specialize (Hq _ eq_refl). cbn in Hq.
    by apply (f_equal length) in Hq; rewrite length_app in Hq; cbn in Hq; lia.
  - apply (q_step _ _ i c _ (k (f (shared p))) t Hi); [by intros []|intros H; apply H|intros Q l H; apply H|done..].
  - apply (q_step _ _ i c _ m t Hi); [by intros []|intros H; apply H|intros Q l H; apply H|done..].
  - by eapply q_leave.
Qed.

Lemma quiet_plugin_step p p' : plugin_step p p' → quiet (work p) (work p') → quiet_effect (work p) (work p').
Proof.
  intros [p1 Hs|s Hs] Hq; [|by apply q_none].
  destruct Hs as [p t c k' _|p t c k' _ _ Hn|p w Hw _|p t k m k' _ _ _ _|p t k' _ _]; cbn in *.
  - by apply q_none.
  - by eapply q_enter.
  - by apply quiet_pool_step.
  - by apply q_none.
  - by apply q_none.
Qed.

Lemma quiet_inv σ p :
  SInv σ → plugin_step (plugin σ) p → quiet (work (plugin σ)) (work p) → SInv (System p (service σ) (calls σ)).
Proof.
  intros [Hb Hs Ht Hr Hn Hc] Hstep Hq.
  destruct (quiet_plugin_step _ _ Hstep Hq) as [Htk Hrel|i c Hi Htk Hrel|i c m m' t Hi Hev Hm Ha Htk Hrel|i c r t Hi Htk Hrel];
    split; cbn; try done; rewrite ?Htk, ?Hrel; try done.
  - intros j r Hj. apply lookup_insert_Some in Hj as [[<- <-]|[_ Hj]]; [|by apply (Ht j)].
    split_and!; [apply section_asks| |done]. intros _ o Ho. by apply elem_of_nil in Ho.
  - intros j n Hj. destruct (Hc j n Hj) as (r & Hr' & Hw). exists r. split; [|done].
    rewrite lookup_insert_ne; [done|]. intros <-. congruence.
  - intros j r Hj. apply lookup_insert_Some in Hj as [[<- <-]|[_ Hj]]; [|by apply (Ht j)].
    destruct (Ht i _ Hi) as (He & Hf & Hal). split_and!; [by apply Hm|done|]. intros Q HQ. by apply Ha, Hal.
  - intros j n Hj. destruct (Hc j n Hj) as (r & Hr' & Hw). exists r. split; [|done].
    rewrite lookup_insert_ne; [done|]. intros <-. rewrite Hi in Hr'. injection Hr' as <-.
    unfold waiting in Hw. cbn in Hw. destruct m; try done.
  - intros j r' Hj. apply lookup_delete_Some in Hj as [_ Hj]. by apply (Ht j).
  - intros j f Hj Hk HT. apply lookup_app_Some in Hj as [Hj|[_ Hj]]; [by eapply Hr|].
    destruct (Ht i _ Hi) as (_ & Hf & _). apply list_lookup_singleton_Some in Hj as [_ <-]. by apply Hf.
  - intros f Q [Hf|Hf]%elem_of_app HQ; [by apply Hn|]. apply list_elem_of_singleton in Hf as ->.
    destruct (Ht i _ Hi) as (_ & _ & Ha). by apply (Ha Q).
  - intros j n Hj. destruct (Hc j n Hj) as (r' & Hr' & Hw). exists r'. split; [|done].
    rewrite lookup_delete_ne; [done|]. intros <-. rewrite Hi in Hr'. by injection Hr' as <-.
Qed.

Lemma sys_restart_inv σ s : SInv σ → SInv (System (linit s) (service σ) ∅).
Proof. intros [Hb Hs _ _ _ _]. split; cbn; try done. by intros f Q Hf%elem_of_nil. Qed.

Lemma sys_step_inv σ σ' : SInv σ → sys_step σ σ' → SInv σ'.
Proof.
  intros H Hs.
  destruct Hs as [p Hp Hq|i c X e k t n l μ Hi _ Hl Hs|i c X e k t x Hi Hx|l μ Hl Hs|s].
  - by apply quiet_inv.
  - by eapply call_inv.
  - by eapply answer_inv.
  - apply service_step_inv; [done|]. eapply step_works; [|done]. by destruct l.
  - by apply sys_restart_inv.
Qed.

Lemma sys_steps_inv σ σ' : SInv σ → rtc sys_step σ σ' → SInv σ'.
Proof. intros H Hs. induction Hs; eauto using sys_step_inv. Qed.
End from.

Lemma boot_inv s : SInv (λ _, True) init 0 (boot s).
Proof. split; cbn; try done. by intros f Q Hf%elem_of_nil. Qed.

(** From any state of the system on, for a kind of which no section is at work. *)
Lemma later_inv (T : section → Prop) s σ :
  rtc sys_step (boot s) σ → (∀ i r, tasks (work (plugin σ)) !! i = Some r → ¬ T (r_task r)) →
  SInv T (service σ) (length (released (work (plugin σ)))) σ.
Proof.
  intros Hσ HT. pose proof (sys_steps_inv _ _ _ _ _ (boot_inv s) Hσ) as H.
  pose proof (SInv_service _ _ _ _ H) as Hsv. destruct H as [_ _ Ht _ Hn Hc]. split; try done.
  - intros i r Hi. destruct (Ht i r Hi) as (He & _ & Ha). split_and!; [done| |done]. intros H. by destruct (HT i r Hi).
  - intros k f Hk Hl. apply lookup_lt_Some in Hk. lia.
  - intros i n Hi. destruct (Hc i n Hi) as (r & Hr & Hw). exists r. split; [done|].
    unfold waiting in *. destruct (r_left r); try done. intros H. by destruct (HT i r Hr).
Qed.

(** ** What kubelet is told *)

(** C4. Whatever handlers and recoveries run beside each other, whatever the service does
    meanwhile for others, and whichever calls fail: of a stage that kubelet is told
    succeeded, the filesystem at the staging path answered and no mount was asked for, or
    the service has started a weed process for the volume at the staging path, with the
    driver's socket and cache directory for it, and ever since this process is the one of
    the volume or has ended. *)
Theorem stage_runs_weed (s : Volumes) (σ : system) f (r : StageRequest) :
  rtc sys_step (boot s) σ → f ∈ released (work (plugin σ)) →
  f_task f = Handler (RStage r) → f_result f = Ok tt →
  (viewed (s_path r) (f_trace f) = Live ∧ ∀ req x, Obs (SvcMount req) x ∉ f_trace f) ∨
  weed_runs (service σ) (s_volume r) (s_path r).
Proof.
  intros Hσ Hf Hr Hok. pose proof (sys_steps_inv _ _ _ _ _ (boot_inv s) Hσ) as H.
  pose proof (si_ends _ _ _ _ H f) as Hend. rewrite Hr, Hok in Hend.
  destruct (Hend _ Hf (NodeStageVolume_staged d r) eq_refl) as [?|(req & Hv & Hp & Hin)];
    [by left|right]. rewrite <- Hv, <- Hp.
  apply list_elem_of_lookup in Hf as [k Hk].
  exact (si_released _ _ _ _ H k f Hk (Nat.le_0_l k) I _ Hin).
Qed.

(** C5. Likewise for an unstage of a volume whose weed process the plugin answers for: once
    kubelet is told that it succeeded, of the weed processes of the volume that the service
    had when the unstage began, or at any earlier time at which nothing was under way for
    the volume, none runs any more, save those a failed start could not stop. *)
Theorem unstage_stops_weed (s : Volumes) (σ σ' : system) k f (v p : string) x :
  rtc sys_step (boot s) σ → ¬ busy section_volume (work (plugin σ)) v →
  rtc sys_step σ σ' → length (released (work (plugin σ))) ≤ k →
  released (work (plugin σ')) !! k = Some f →
  f_task f = Handler (RUnstage v p) → f_result f = Ok tt → Obs (SvcUnmount v) x ∈ f_trace f →
  ∀ pid q, procs (service σ) !! pid = Some q → Manager.p_volume q = v →
    phase_of (service σ') pid = Some Manager.Done ∨ pid ∈ abandoned (service σ').
Proof.
  intros Hσ Hb Hσ' Hk Hf Hr Hok Hx.
  pose proof (sys_steps_inv _ _ _ _ _ (later_inv (λ c, section_volume c = v) _ _ Hσ
    (λ i r Hi Hc, Hb (ex_intro _ i (ex_intro _ r (conj Hi Hc))))) Hσ') as H.
  pose proof (si_ends _ _ _ _ H f) as Hend. rewrite Hr, Hok in Hend.
  pose proof (Hend _ (list_elem_of_lookup_2 _ _ _ Hf) (NodeUnstageVolume_unmounted d v p) eq_refl _ _ Hx) as ->.
  pose proof (si_released _ _ _ _ H k f Hf Hk) as Hful. rewrite Hr in Hful. exact (Hful eq_refl _ Hx).
Qed.

(** ** An executable scheduler *)
Inductive slabel :=
  | DoPlugin (l : llabel (T := section))
  | DoCall (i n : nat)                     (** goroutine [i] makes its call, as request [n] *)
  | DoService (l : label).

(** What goroutine [i] hears: of a call, the answer once there is one. *)
Definition call_answer (σ : system) (i : nat) : option (result unit) :=
  n ← calls σ !! i;
  p ← requests (service σ) !! n;
  match p with
  | Returned (Ok _) => Some (Ok tt)
  | Returned (Err e) => Some (Err e)
  | _ => None
  end.

Definition hear (σ : system) (i : nat) {X} (e : hostE X) : option X → option X :=
  match e in hostE Y return option Y → option Y with
  | SvcMount _ | SvcUnmount _ => λ _, call_answer σ i
  | _ => λ h, h
  end.

Definition pending_call (σ : system) (i n : nat) : option label :=
  match tasks (work (plugin σ)) !! i with
  | Some (Running _ (Event e _) _) => call_label n e
  | _ => None
  end.

(** A step that is not enabled does nothing. *)
Definition sexec (host : ∀ X, hostE X → log → X) (σ : system) (l : slabel) : system :=
  match l with
  | DoPlugin (DoRun i) =>
      match tasks (work (plugin σ)) !! i with
      | Some (Running c (Event e k) t) =>
          match hear σ i e (Some (host _ e t)) with
          | Some x => System
              (with_work (plugin σ) (with_task (work (plugin σ)) i (Running c (k x) (t ++ [Obs e x]))))
              (service σ) (delete i (calls σ))
          | None => σ
          end
      | _ => System (lexec section_volume code host (plugin σ) (DoRun i)) (service σ) (calls σ)
      end
  | DoPlugin l => System (lexec section_volume code host (plugin σ) l) (service σ) (calls σ)
  | DoCall i n =>
      match calls σ !! i, pending_call σ i n with
      | None, Some l =>
          match step (service σ) l with
          | Some μ => System (plugin σ) μ (<[i := n]> (calls σ))
          | None => σ
          end
      | _, _ => σ
      end
  | DoService l =>
      if from_client l then σ
      else match step (service σ) l with Some μ => System (plugin σ) μ (calls σ) | None => σ end
  end.

Lemma hear_heard σ i X (e : hostE X) y x : hear σ i e y = Some x → heard σ i e x.
Proof.
  assert (∀ r, call_answer σ i = Some r → is_ok r = true → served σ i) as H.
  { unfold call_answer, served. intros r. destruct (calls σ !! i) as [n|]; [|done]. cbn.
    destruct (requests (service σ) !! n) as [p|] eqn:Hp; [|done]. cbn. destruct p; try done.
    destruct r0 as [out|e']; intros [= <-]; [|done]. intros _. by exists n, out. }
  destruct e; try done; cbn; apply H.
Qed.

Lemma quiet_same (w w' : pool) : tasks w' = tasks w → quiet w w'.
Proof. intros H i r Hi. rewrite H in Hi. by rewrite Hi. Qed.

(** A label of the plugin that is not the answer of an event is a quiet step. *)
Lemma quiet_exec host σ l :
  (∀ i c X (e : hostE X) k t, l = DoRun i → tasks (work (plugin σ)) !! i ≠ Some (Running c (Event e k) t)) →
  rtc sys_step σ (System (lexec section_volume code host (plugin σ) l) (service σ) (calls σ)).
Proof.
  intros Hl. destruct (lexec_step section_volume code host (plugin σ) l) as [->|Hs].
  { by destruct σ. }
  apply rtc_once, s_quiet; [by apply d_step|]. clear Hs.
  destruct l as [t c|t|t|t|t]; cbn [lexec].
  - destruct (kstep _ _); by apply quiet_same.
  - destruct (wants _ !! t) as [c|]; [|by apply quiet_same]. destruct (kstep _ _); [|by apply quiet_same].
    destruct (idle _ _) eqn:Hi; [|by apply quiet_same]. apply idle_None in Hi.
    intros j r Hj. cbn in Hj. apply lookup_insert_Some in Hj as [[<- <-]|[_ Hj]]; [by rewrite Hi|by rewrite Hj].
  - unfold advance. cbn. destruct (tasks (work (plugin σ)) !! t) as [[c [r|X e k|X f k|f m] tr]|] eqn:Hi; cbn.
    + intros j r' Hj. cbn in Hj. apply lookup_delete_Some in Hj as [_ Hj]. by rewrite Hj.
    + by destruct (Hl t c X e k tr eq_refl).
    + intros j r' Hj. cbn in Hj. apply lookup_insert_Some in Hj as [[<- <-]|[_ Hj]]; [by rewrite Hi|by rewrite Hj].
    + intros j r' Hj. cbn in Hj. apply lookup_insert_Some in Hj as [[<- <-]|[_ Hj]]; [by rewrite Hi|by rewrite Hj].
    + by apply quiet_same.
  - repeat case_match; by apply quiet_same.
  - repeat case_match; by apply quiet_same.
Qed.

Lemma sexec_steps host σ l : rtc sys_step σ (sexec host σ l).
Proof.
  destruct l as [l|i n|l]; cbn [sexec].
  - destruct l as [t c|t|t|t|t]; try (by apply quiet_exec).
    destruct (tasks (work (plugin σ)) !! t) as [[c [r|X e k|X f k|f m] tr]|] eqn:Hi;
      try (apply quiet_exec; intros ? ? ? ? ? ? [= <-]; congruence).
    destruct (hear σ t e _) as [x|] eqn:Hx; [|done]. apply rtc_once. eapply s_answer; [exact Hi|by eapply hear_heard].
  - destruct (calls σ !! i) eqn:Hc; [done|]. unfold pending_call.
    destruct (tasks (work (plugin σ)) !! i) as [[c [r|X e k|X f k|f m] tr]|] eqn:Hi; try done.
    destruct (call_label n e) as [l|] eqn:Hl; [|done]. destruct (step (service σ) l) as [μ|] eqn:Hs; [|done].
    apply rtc_once. by eapply s_call.
  - destruct (from_client l) eqn:Hl; [done|]. destruct (step (service σ) l) as [μ|] eqn:Hs; [|done].
    apply rtc_once. by eapply s_service.
Qed.

Lemma sexecs_steps host σ ls : rtc sys_step σ (foldl (sexec host) σ ls).
Proof. revert σ. induction ls as [|l ls IH]; intros σ; [done|]. etrans; [apply sexec_steps|apply IH]. Qed.
End system.

(** ** An example *)
#[local] Existing Instances demo_utils range_sorted demo_paths.

Definition demo_host (X : Type) (e : hostE X) (l : log) : X := dies_after 1 X e [].
Definition runs (i n : nat) : list slabel := repeat (DoPlugin (DoRun i)) n.
Definition serves (ls : list label) : list slabel := map DoService ls.

(** Volume "a" is staged; its call is served while "b" is staged beside it, and its weed
    process dies and is cleaned up while nobody asks. *)
Definition demo_staging : list slabel :=
  [DoPlugin (DoGet 0 (stage_of "a")); DoPlugin (DoGet 1 (stage_of "b")); DoPlugin (DoLock 0); DoPlugin (DoLock 1)] ++
  runs 0 40 ++ [DoCall 0 100] ++ serves [Run 100 ANone; Run 100 ANone; Run 100 (AStart demo_ok)] ++
  runs 1 40 ++ [DoCall 1 101] ++ serves [Run 101 ANone; Run 101 ANone; Run 101 (AStart demo_ok); Run 100 AMounted] ++
  serves [Run 100 ANone] ++ runs 0 40 ++ serves [Run 101 AMounted; Run 101 ANone] ++ runs 1 40 ++
  [DoPlugin (DoUnlock 0); DoPlugin (DoUnlock 1)].

Definition demo_unstaging : list slabel :=
  [DoPlugin (DoGet 2 (unstage_of "a")); DoPlugin (DoLock 2)] ++ runs 2 40 ++ [DoCall 2 102] ++
  serves [Run 102 ANone; Run 102 ANone; Exit 0; Cleanup 0; Run 102 AStopped; Run 102 (ARemoved true)] ++
  runs 2 40 ++ [DoPlugin (DoRemove 2); DoPlugin (DoUnlock 2)].

Definition demo_sys : list slabel → system → system := λ ls σ, foldl (sexec start_driver 0 demo_host) σ ls.
Definition demo_staged : system := demo_sys demo_staging (boot ∅).
Definition demo_unstaged : system := demo_sys demo_unstaging demo_staged.
Definition demo_ended (σ : system) (k : nat) : finished (A := unit) (T := section) :=
  default (Finished (unstage_of "") [] (Ok tt)) (released (work (plugin σ)) !! k).

Lemma demo_staged_steps : rtc (sys_step start_driver 0) (boot ∅) demo_staged.
Proof. apply sexecs_steps. Qed.

Lemma demo_ended_in σ k :
  (k <? length (released (work (plugin σ))))%nat = true →
  released (work (plugin σ)) !! k = Some (demo_ended σ k).
Proof.
  intros Hk%Nat.ltb_lt. unfold demo_ended. destruct (released (work (plugin σ)) !! k) eqn:Hf; [done|].
  apply lookup_ge_None in Hf. lia.
Qed.

Lemma stage_runs_weed_witness :
  map (λ f, is_ok (f_result f)) (released (work (plugin demo_staged))) = [true; true] ∧
  f_task (demo_ended demo_staged 0) = stage_of "a" ∧
  ((viewed "/k/a/globalmount" (f_trace (demo_ended demo_staged 0)) = Live ∧
    ∀ req x, Obs (SvcMount req) x ∉ f_trace (demo_ended demo_staged 0)) ∨
   weed_runs start_driver (service demo_staged) "a" "/k/a/globalmount").
Proof.
  split; [vm_compute; reflexivity|].
  assert (f_task (demo_ended demo_staged 0) = stage_of "a") as Ht by (vm_compute; reflexivity).
  split; [exact Ht|].
  refine (stage_runs_weed start_driver 0 ∅ demo_staged (demo_ended demo_staged 0)
    {| s_volume := "a"; s_path := "/k/a/globalmount"; s_cap := demo_cap; s_context := None |}
    demo_staged_steps _ Ht _).
  - apply (list_elem_of_lookup_2 _ 0), demo_ended_in. vm_compute. reflexivity.
  - vm_compute. reflexivity.
Defined.

(** The weed process of "a" runs when its unstage begins, that of "b" to the end. *)
Lemma unstage_stops_weed_witness :
  phase_of (service demo_staged) 0 = Some Manager.Running ∧
  phase_of (service demo_unstaged) 1 = Some Manager.Running ∧
  f_task (demo_ended demo_unstaged 2) = unstage_of "a" ∧
  (phase_of (service demo_unstaged) 0 = Some Manager.Done ∨ 0 ∈ abandoned (service demo_unstaged)).
Proof.
  split; [vm_compute; reflexivity|]. split; [vm_compute; reflexivity|].
  assert (f_task (demo_ended demo_unstaged 2) = unstage_of "a") as Ht by (vm_compute; reflexivity).
  split; [exact Ht|].
  assert (tasks (work (plugin demo_staged)) = ∅) as Hidle
    by (apply map_to_list_empty_iff; vm_compute; reflexivity).
  destruct (procs (service demo_staged) !! 0) as [q|] eqn:Hq; [|vm_compute in Hq; discriminate Hq].
  refine (unstage_stops_weed start_driver 0 ∅ demo_staged demo_unstaged 2 (demo_ended demo_unstaged 2)
    "a" "/k/a/globalmount" (Ok tt) demo_staged_steps _ (sexecs_steps start_driver 0 demo_host demo_staged demo_unstaging) _ _ Ht _ _ 0 q Hq _).
  - intros (i & r & Hi & _). rewrite Hidle in Hi. discriminate Hi.
  - apply Nat.leb_le. vm_compute. reflexivity.
  - apply demo_ended_in. vm_compute. reflexivity.
  - vm_compute. reflexivity.
  - apply (list_elem_of_lookup_2 _ 0). vm_compute. reflexivity.
  - revert Hq. vm_compute. intros [= <-]. reflexivity.
Defined.
