(* ===== verification/Probes.v ===== *)
(** * The registries of probes in flight

    Models [healthProbes] and [statfsProbes] of [pkg/driver/health_monitor.go]
    and [mount_util.go]: the wait of [checkHealthUnanswered] and
    [probeStatfsWithin], the goroutine of a probe, and [resetStatfsProbe], as a
    transition system over both registries' common shape. [R] is what a probe
    returns: a health verdict, or the error of statfs. *)

From S2P Require Import Prelude.
#[local] Open Scope Z_scope.

Section probes.
Context {R : Type}.

(** A probe's goroutine: blocked in the probe; [done] is closed with a result;
    and it has taken itself out of the registry. *)
Inductive pphase := InFlight | Closed (r : R) | Left (r : R).

Record probe := Probe { p_path : string; p_start : Z; p_phase : pphase }.

Inductive answer := Got (r : R) | TimedOut (unanswered : Z).

(** A caller that waits, or has been answered. *)
Record waiter := Waiter {
  w_path : string; w_probe : nat; w_since : Z; w_answer : option answer }.

Record pstate := PState {
  clock : Z;
  probes : gmap nat probe;
  registry : gmap string nat;
  waiters : gmap nat waiter;
  next_probe : nat;
}.

Definition pinit : pstate := PState 0 ∅ ∅ ∅ 0.

(** [LoadOrStore(path, &probe{start: time.Now()})] and the start of its
    goroutine when it was stored. *)
Definition loadOrStore (s : pstate) (path : string) : nat * pstate :=
  match registry s !! path with
  | Some id => (id, s)
  | None =>
      let id := next_probe s in
      (id, PState (clock s) (<[id := Probe path (clock s) InFlight]> (probes s))
             (<[path := id]> (registry s)) (waiters s) (S id))
  end.

Definition compareAndDelete (path : string) (id : nat) (reg : gmap string nat) : gmap string nat :=
  if bool_decide (reg !! path = Some id) then delete path reg else reg.

Inductive plabel :=
  | Elapse (d : Z)
  | Arrive (w : nat) (path : string)
  | Finish (id : nat) (r : R)
  | Leave (id : nat)
  | Reset (path : string)
  | Receive (w : nat)
  | Timeout (w : nat).

Definition set_phase (s : pstate) (id : nat) (p : probe) (ph : pphase) (reg : gmap string nat)
    : pstate :=
  PState (clock s) (<[id := Probe (p_path p) (p_start p) ph]> (probes s)) reg (waiters s)
    (next_probe s).

Definition set_answer (s : pstate) (w : nat) (x : waiter) (a : answer) : pstate :=
  PState (clock s) (probes s) (registry s)
    (<[w := Waiter (w_path x) (w_probe x) (w_since x) (Some a)]> (waiters s)) (next_probe s).

(** [resetStatfsProbe], for one registry. *)
Definition resetProbe (s : pstate) (path : string) : pstate :=
  PState (clock s) (probes s) (delete path (registry s)) (waiters s) (next_probe s).

(** [wait] is the bound of the wait. *)
Definition pstep (wait : Z) (s : pstate) (l : plabel) : option pstate :=
  match l with
  | Elapse d =>
      if 0 <=? d then
        Some (PState (clock s + d) (probes s) (registry s) (waiters s) (next_probe s))
      else None
  | Arrive w path =>
      match waiters s !! w with
      | Some _ => None
      | None =>
          let '(id, s) := loadOrStore s path in
          Some (PState (clock s) (probes s) (registry s)
                  (<[w := Waiter path id (clock s) None]> (waiters s)) (next_probe s))
      end
  | Finish id r =>
      match probes s !! id with
      | Some p =>
          match p_phase p with
          | InFlight => Some (set_phase s id p (Closed r) (registry s))
          | _ => None
          end
      | None => None
      end
  | Leave id =>
      match probes s !! id with
      | Some p =>
          match p_phase p with
          | Closed r => Some (set_phase s id p (Left r) (compareAndDelete (p_path p) id (registry s)))
          | _ => None
          end
      | None => None
      end
  | Reset path => Some (resetProbe s path)
  | Receive w =>
      x ← waiters s !! w; p ← probes s !! w_probe x;
      match w_answer x, p_phase p with
      | None, (Closed r | Left r) => Some (set_answer s w x (Got r))
      | _, _ => None
      end
  | Timeout w =>
      x ← waiters s !! w; p ← probes s !! w_probe x;
      match w_answer x with
      | None =>
          if w_since x + wait <=? clock s then
            Some (set_answer s w x (TimedOut (clock s - p_start p)))
          else None
      | Some _ => None
      end
  end.

Fixpoint prun (wait : Z) (s : pstate) (ls : list plabel) : option pstate :=
  match ls with
  | [] => Some s
  | l :: ls => s' ← pstep wait s l; prun wait s' ls
  end.

(** [statfsProbeUnanswered]. *)
Definition unansweredFor (s : pstate) (path : string) : Z :=
  match registry s !! path with
  | Some id =>
      match probes s !! id with
      | Some (Probe _ start InFlight) => clock s - start
      | _ => 0
      end
  | None => 0
  end.

(** Goroutines of probes of [path] that have not ended. *)
Definition alive (path : string) (p : probe) : bool :=
  bool_decide (p_path p = path) && match p_phase p with Left _ => false | _ => true end.
Definition goroutines (s : pstate) (path : string) : nat := count (alive path) (probes s).

Fixpoint resets (path : string) (ls : list plabel) : nat :=
  match ls with
  | [] => 0
  | Reset q :: ls => (if bool_decide (q = path) then 1 else 0) + resets path ls
  | _ :: ls => resets path ls
  end%nat.

(** ** The invariant *)
Definition closed_with (p : probe) (r : R) : Prop := p_phase p = Closed r ∨ p_phase p = Left r.

Definition answer_ok (wait : Z) (s : pstate) (p : probe) (a : option answer) : Prop :=
  match a with
  | None => True
  | Some (Got r) => closed_with p r
  | Some (TimedOut u) => wait <= u ∧ p_start p + u <= clock s
  end.

Record PInv (wait : Z) (s : pstate) : Prop := {
  p_ids id p : probes s !! id = Some p → (id < next_probe s)%nat ∧ p_start p <= clock s;
  p_reg path id : registry s !! path = Some id → ∃ p, probes s !! id = Some p ∧ p_path p = path;
  p_waits w x : waiters s !! w = Some x → ∃ p, probes s !! w_probe x = Some p ∧
    p_path p = w_path x ∧ p_start p <= w_since x ∧ w_since x <= clock s ∧ answer_ok wait s p (w_answer x);
}.

Lemma PInv_init wait : PInv wait pinit.
Proof. split; cbn; intros *; by rewrite lookup_empty. Qed.

(** A probe changes its phase only, and keeps its result. *)
Lemma set_phase_inv wait s id p ph reg :
  PInv wait s → probes s !! id = Some p → (∀ r, closed_with p r → ph = Left r) →
  (∀ path i, reg !! path = Some i → registry s !! path = Some i) →
  PInv wait (set_phase s id p ph reg).
Proof.
  intros [HI HR HW] Hp Hph Hreg. unfold set_phase. split; cbn.
  - intros i q [[<- <-]|[_ H]]%lookup_insert_Some; [exact (HI id p Hp)|by apply HI].
  - intros path i Hi. destruct (HR path i (Hreg path i Hi)) as (q & Hq & <-).
    destruct (decide (i = id)) as [->|Hne].
    + rewrite Hp in Hq. injection Hq as <-. rewrite lookup_insert_eq. by eexists.
    + rewrite lookup_insert_ne by done. by eexists.
  - intros w x Hx. destruct (HW w x Hx) as (q & Hq & Hpath & H1 & H2 & Ha).
    destruct (decide (w_probe x = id)) as [E|Hne].
    + rewrite E in *. rewrite Hp in Hq. injection Hq as <-. rewrite lookup_insert_eq.
      eexists. split; [done|]. cbn. split_and!; [done..|].
      destruct (w_answer x) as [[r|u]|]; cbn in *; [|done..]. right. by apply Hph.
    + rewrite lookup_insert_ne by done. exists q. by split_and!.
Qed.

Lemma set_answer_inv wait s w x p a :
  PInv wait s → waiters s !! w = Some x → probes s !! w_probe x = Some p →
  answer_ok wait s p (Some a) → PInv wait (set_answer s w x a).
Proof.
  intros [HI HR HW] Hx Hp Ha. unfold set_answer. split; cbn; [done..|].
  intros v y [[<- <-]|[_ H]]%lookup_insert_Some; [|by apply (HW v)].
  destruct (HW w x Hx) as (q & Hq & H1 & H2 & H3 & _). cbn.
  rewrite Hp in Hq. injection Hq as <-. exists p. by split_and!.
Qed.

Lemma loadOrStore_inv wait s path id s' :
  PInv wait s → loadOrStore s path = (id, s') →
  PInv wait s' ∧ clock s' = clock s ∧ waiters s' = waiters s ∧
  ∃ p, probes s' !! id = Some p ∧ p_path p = path ∧ p_start p <= clock s.
Proof.
  intros Hinv. unfold loadOrStore. pose proof Hinv as [HI HR HW].
  destruct (registry s !! path) as [i|] eqn:Hreg; intros [= <- <-].
  { destruct (HR path i Hreg) as (p & Hp & Hpath). split_and!; [done..|].
    exists p. split_and!; [done..|]. by eapply HI. }
  assert (∀ i p, probes s !! i = Some p → i ≠ next_probe s) as Hfresh.
  { intros i p Hi. apply HI in Hi as [? _]. lia. }
  split_and!; [|done..|].
  - split; cbn.
    + intros i p [[<- <-]|[_ H]]%lookup_insert_Some; cbn; [lia|]. apply HI in H as [? ?]. lia.
    + intros q i [[<- <-]|[_ H]]%lookup_insert_Some; [rewrite lookup_insert_eq; by eexists|].
      destruct (HR q i H) as (p & Hp & Hq). rewrite lookup_insert_ne; [by eexists|].
      symmetry. by eapply Hfresh.
    + intros w x Hx. destruct (HW w x Hx) as (p & Hp & H). exists p. split; [|exact H].
      rewrite lookup_insert_ne; [done|]. symmetry. by eapply Hfresh.
  - cbn. rewrite lookup_insert_eq. eexists. split; [done|]. by split.
Qed.

Lemma pstep_inv wait s l s' : 0 <= wait → PInv wait s → pstep wait s l = Some s' → PInv wait s'.
Proof.
  intros Hwait Hinv. pose proof Hinv as [HI HR HW].
  destruct l as [d|w path|id r|id|path|w|w]; cbn [pstep].
  - destruct (Z.leb_spec 0 d); [|done]. intros [= <-]. split; cbn.
    + intros i p H1. apply HI in H1 as [? ?]. lia.
    + done.
    + intros w x Hx. destruct (HW w x Hx) as (p & Hp & H1 & H2 & H3 & Ha). exists p.
      split_and!; [done..|lia|]. destruct (w_answer x) as [[r|u]|]; cbn in *; [done|lia|done].
  - destruct (waiters s !! w) eqn:Hw; [done|]. destruct (loadOrStore s path) as [id s1] eqn:Hls.
    destruct (loadOrStore_inv wait s path id s1 Hinv Hls) as (Hinv1 & Hc & Hws & p & Hp & Hpath & Hst).
    intros [= <-]. destruct Hinv1 as [HI1 HR1 HW1]. split; cbn; [done..|].
    intros v x [[<- <-]|[_ H]]%lookup_insert_Some; [|by apply (HW1 v)].
    exists p. cbn. split_and!; [done..|lia|lia|done].
  - destruct (probes s !! id) as [p|] eqn:Hp; [|done]. destruct (p_phase p) eqn:Hph; [|done..].
    intros [= <-]. apply set_phase_inv; [done..| |done]. intros r' [Hr|Hr]; congruence.
  - destruct (probes s !! id) as [p|] eqn:Hp; [|done]. destruct (p_phase p) as [|r|r] eqn:Hph; [done| |done].
    intros [= <-]. apply set_phase_inv; [done..| |].
    + intros r' [Hr|Hr]; congruence.
    + intros q i. unfold compareAndDelete. case_bool_decide; [|done].
      by intros [_ ?]%lookup_delete_Some.
  - intros [= <-]. split; cbn; [done| |done]. intros q i [_ H]%lookup_delete_Some. by apply HR.
  - destruct (waiters s !! w) as [x|] eqn:Hx; [|done]. cbn.
    destruct (probes s !! w_probe x) as [p|] eqn:Hp; [|done]. cbn.
    destruct (w_answer x), (p_phase p) eqn:Hph; try done; intros [= <-];
      (eapply set_answer_inv; [done..|]); [by left|by right].
  - destruct (waiters s !! w) as [x|] eqn:Hx; [|done]. cbn.
    destruct (probes s !! w_probe x) as [p|] eqn:Hp; [|done]. cbn.
    destruct (w_answer x); [done|]. destruct (Z.leb_spec (w_since x + wait) (clock s)); [|done].
    intros [= <-]. eapply set_answer_inv; [done..|]. cbn.
    destruct (HW w x Hx) as (q & Hq & _ & H1 & H2 & _). rewrite Hp in Hq. injection Hq as <-. lia.
Qed.

Lemma prun_inv wait s ls s' : 0 <= wait → PInv wait s → prun wait s ls = Some s' → PInv wait s'.
Proof.
  intros Hw. revert s. induction ls as [|l ls IH]; intros s Hs; cbn [prun]; [by intros [= <-]|].
  destruct (pstep wait s l) as [s1|] eqn:Hl; [|done]. apply IH. by eapply pstep_inv.
Qed.

(** ** After a reset

    Callers that arrive after a reset of their path share only probes that were
    started after it. *)
Record Fresh (path : string) (s1 s : pstate) : Prop := {
  fr_next : (next_probe s1 <= next_probe s)%nat;
  fr_reg id : registry s !! path = Some id → (next_probe s1 <= id)%nat;
  fr_waits w x : waiters s !! w = Some x → w_path x = path → waiters s1 !! w = None →
    (next_probe s1 <= w_probe x)%nat;
}.

Lemma Fresh_reset path s : Fresh path (resetProbe s path) (resetProbe s path).
Proof.
  split; cbn; [done| |congruence]. intros id. by rewrite lookup_delete_eq.
Qed.

Lemma Fresh_answer path s1 s w x a :
  Fresh path s1 s → waiters s !! w = Some x → Fresh path s1 (set_answer s w x a).
Proof.
  intros [HN HR HW] Hx. split; cbn; [done..|].
  intros v y [[<- <-]|[_ H]]%lookup_insert_Some; cbn; [by apply HW|by apply (HW v)].
Qed.

Lemma Fresh_step path wait s1 s l s' : Fresh path s1 s → pstep wait s l = Some s' → Fresh path s1 s'.
Proof.
  intros Hf. pose proof Hf as [HN HR HW]. destruct l as [d|w q|id r|id|q|w|w]; cbn [pstep].
  - destruct (0 <=? d); [|done]. intros [= <-]. by split.
  - destruct (waiters s !! w) eqn:Hw; [done|]. unfold loadOrStore.
    destruct (registry s !! q) as [i|] eqn:Hq; intros [= <-]; split; cbn.
    + done.
    + done.
    + intros v x [[<- <-]|[_ H]]%lookup_insert_Some; cbn; [intros ->; by apply HR in Hq|by apply (HW v)].
    + lia.
    + intros i [[-> <-]|[_ H]]%lookup_insert_Some; [done|by apply HR].
    + intros v x [[<- <-]|[_ H]]%lookup_insert_Some; cbn; [done|by apply (HW v)].
  - destruct (probes s !! id) as [p|]; [|done]. destruct (p_phase p); [|done..].
    intros [= <-]. by split.
  - destruct (probes s !! id) as [p|]; [|done]. destruct (p_phase p); [done| |done].
    intros [= <-]. split; cbn; [done| |done]. intros i. unfold compareAndDelete.
    case_bool_decide; [|apply HR]. intros [_ ?]%lookup_delete_Some. by apply HR.
  - intros [= <-]. split; cbn; [done| |done]. intros i [_ H]%lookup_delete_Some. by apply HR.
  - destruct (waiters s !! w) as [x|] eqn:Hx; [|done]. cbn.
    destruct (probes s !! w_probe x) as [p|]; [|done]. cbn.
    destruct (w_answer x), (p_phase p); try done; intros [= <-]; by apply Fresh_answer.
  - destruct (waiters s !! w) as [x|] eqn:Hx; [|done]. cbn.
    destruct (probes s !! w_probe x) as [p|]; [|done]. cbn.
    destruct (w_answer x); [done|]. destruct (_ <=? _); [|done]. intros [= <-]. by apply Fresh_answer.
Qed.

Lemma Fresh_run path wait s1 s ls s' : Fresh path s1 s → prun wait s ls = Some s' → Fresh path s1 s'.
Proof.
  revert s. induction ls as [|l ls IH]; intros s Hs; cbn [prun]; [by intros [= <-]|].
  destruct (pstep wait s l) as [s2|] eqn:Hl; [|done]. apply IH. by eapply Fresh_step.
Qed.

(** ** The number of goroutines *)
Definition registered (s : pstate) (path : string) : nat :=
  if bool_decide (is_Some (registry s !! path)) then 1 else 0.

Lemma registered_le s path : (registered s path <= 1)%nat.
Proof. unfold registered. case_bool_decide; lia. Qed.

Lemma registered_delete (reg : gmap string nat) path q :
  (if bool_decide (is_Some (delete q reg !! path)) then 1 else 0)%nat =
  if bool_decide (q = path) then 0%nat else if bool_decide (is_Some (reg !! path)) then 1%nat else 0%nat.
Proof.
  destruct (decide (q = path)) as [->|Hne].
  - rewrite lookup_delete_eq, !(bool_decide_true (path = path)) by done.
    by rewrite bool_decide_false by (by intros [? ?]).
  - rewrite lookup_delete_ne by done. by rewrite (bool_decide_false (q = path)).
Qed.

(** A step makes a goroutine only where it registers one, and only a reset
    takes a goroutine out of the registry that has not ended. *)
Lemma goroutines_step wait s l s' path :
  PInv wait s → pstep wait s l = Some s' →
  (goroutines s' path + registered s path <= goroutines s path + registered s' path + resets path [l])%nat.
Proof.
  intros [HI HR HW]. unfold goroutines. destruct l as [d|w q|id r|id|q|w|w]; cbn [pstep resets].
  - destruct (0 <=? d); [|done]. intros [= <-]. unfold registered. cbn. lia.
  - destruct (waiters s !! w); [done|]. unfold loadOrStore, registered.
    destruct (registry s !! q) as [i|] eqn:Hq; intros [= <-]; cbn; [lia|].
    rewrite count_insert_new.
    2:{ destruct (probes s !! next_probe s) eqn:Hp; [|done]. apply HI in Hp as [? _]. lia. }
    unfold alive. cbn. destruct (decide (q = path)) as [->|Hne].
    + rewrite (bool_decide_true (path = path)), lookup_insert_eq by done. cbn.
      rewrite Hq, !bool_decide_false by (by intros [? ?]). lia.
    + rewrite (bool_decide_false (q = path)), lookup_insert_ne by done. cbn. lia.
  - destruct (probes s !! id) as [p|] eqn:Hp; [|done]. destruct (p_phase p) eqn:Hph; [|done..].
    intros [= <-]. cbn.
    pose proof (count_insert_old (alive path) (probes s) id (Probe (p_path p) (p_start p) (Closed r)) p Hp) as Hc.
    unfold alive at 2 3 in Hc. cbn in Hc. rewrite Hph in Hc. unfold registered. cbn. lia.
  - destruct (probes s !! id) as [p|] eqn:Hp; [|done]. destruct (p_phase p) as [|r|r] eqn:Hph; [done| |done].
    intros [= <-]. cbn.
    pose proof (count_insert_old (alive path) (probes s) id (Probe (p_path p) (p_start p) (Left r)) p Hp) as Hc.
    unfold alive at 2 3 in Hc. cbn in Hc. rewrite Hph in Hc.
    unfold registered, compareAndDelete. cbn. rewrite andb_false_r, andb_true_r in Hc.
    destruct (decide (registry s !! p_path p = Some id)) as [Hreg|Hreg].
    + rewrite (bool_decide_true (registry s !! p_path p = Some id)) by done.
      rewrite registered_delete. destruct (decide (p_path p = path)) as [Heq|Hne].
      * rewrite Heq, !(bool_decide_true (path = path)) in * by done. case_bool_decide; lia.
      * rewrite !(bool_decide_false (p_path p = path)) in * by done. lia.
    + rewrite (bool_decide_false (registry s !! p_path p = Some id)) by done. case_bool_decide; lia.
  - intros [= <-]. cbn. unfold registered. cbn. rewrite registered_delete. repeat case_bool_decide; lia.
  - destruct (waiters s !! w) as [x|]; [|done]. cbn. destruct (probes s !! w_probe x) as [p|]; [|done].
    cbn. destruct (w_answer x), (p_phase p); try done; intros [= <-]; unfold registered; cbn; lia.
  - destruct (waiters s !! w) as [x|]; [|done]. cbn. destruct (probes s !! w_probe x) as [p|]; [|done].
    cbn. destruct (w_answer x); [done|]. destruct (_ <=? _); [|done]. intros [= <-].
    unfold registered. cbn. lia.
Qed.

Lemma goroutines_run wait s ls s' path :
  0 <= wait → PInv wait s → prun wait s ls = Some s' →
  (goroutines s' path + registered s path <= goroutines s path + registered s' path + resets path ls)%nat.
Proof.
  intros Hw. revert s. induction ls as [|l ls IH]; intros s Hs; cbn [prun].
  { intros [= <-]. cbn. lia. }
  destruct (pstep wait s l) as [s1|] eqn:Hl; [|done]. intros Hrun. cbn.
  pose proof (goroutines_step wait s l s1 path Hs Hl). assert (PInv wait s1) as Hs1 by by eapply pstep_inv.
  specialize (IH s1 Hs1 Hrun). destruct l; cbn [resets] in *; lia.
Qed.

(** ** Properties *)

(** However many callers probe a path and however long the probes block, the
    goroutines blocked on it are at most one more than the resets of the path:
    a mount that never answers does not pile goroutines up. *)
Theorem probe_goroutines_bounded (wait : Z) (ls : list plabel) (s : pstate) (path : string) :
  0 <= wait → prun wait pinit ls = Some s →
  (goroutines s path <= 1 + resets path ls)%nat.
Proof.
  intros Hw Hrun. pose proof (goroutines_run wait pinit ls s path Hw (PInv_init wait) Hrun) as H.
  pose proof (registered_le s path). unfold goroutines in *. cbn in H.
  unfold count in H at 2. rewrite map_filter_empty, map_size_empty in H. lia.
Qed.

(** C20. A caller is answered with the result of the probe of its path that it
    waited for, or, having waited for at least the bound, with how long that
    probe had been unanswered. A caller that arrives after the path was reset
    never gets the result of a probe started before the reset. *)
Theorem probe_answers_current (wait : Z) (ls1 ls2 : list plabel) (path : string) (s1 s2 : pstate)
    (w : nat) (x : waiter) (a : answer) :
  0 <= wait → prun wait pinit ls1 = Some s1 → prun wait (resetProbe s1 path) ls2 = Some s2 →
  waiters s2 !! w = Some x → w_answer x = Some a →
  (∃ p, probes s2 !! w_probe x = Some p ∧ p_path p = w_path x ∧
    match a with
    | Got r => closed_with p r
    | TimedOut u => wait <= u ∧ p_start p + u <= clock s2
    end) ∧
  (w_path x = path → waiters s1 !! w = None → probes s1 !! w_probe x = None).
Proof.
  intros Hw Hrun1 Hrun2 Hx Ha.
  assert (PInv wait s1) as H1 by (eapply prun_inv; [done|apply PInv_init|done]).
  assert (PInv wait (resetProbe s1 path)) as Hr by (by eapply (pstep_inv wait s1 (Reset path))).
  assert (PInv wait s2) as H2 by by eapply prun_inv. split.
  - destruct (p_waits wait s2 H2 w x Hx) as (p & Hp & Hpath & _ & _ & Hok). rewrite Ha in Hok.
    exists p. split_and!; [done..|]. by destruct a.
  - intros Hpath Hnone.
    assert (next_probe s1 <= w_probe x)%nat as Hge.
    { pose proof (Fresh_run path wait (resetProbe s1 path) (resetProbe s1 path) ls2 s2
        (Fresh_reset path s1) Hrun2) as Hf. by apply (fr_waits _ _ _ Hf w). }
    destruct (probes s1 !! w_probe x) eqn:Hp; [|done].
    apply (p_ids wait s1 H1) in Hp as [? _]. lia.
Qed.

(** No caller is left waiting: once its bound has passed, it can be answered. *)
Lemma waiter_answered wait s w x d :
  0 <= wait → PInv wait s → waiters s !! w = Some x → w_answer x = None → wait <= d →
  is_Some (prun wait s [Elapse d; Timeout w]).
Proof.
  intros Hwait Hinv Hx Ha Hd. destruct (p_waits wait s Hinv w x Hx) as (p & Hp & _ & _ & Hs & _).
  cbn. destruct (Z.leb_spec 0 d); [|lia]. cbn. rewrite Hx. cbn. rewrite Hp. cbn. rewrite Ha.
  destruct (Z.leb_spec (w_since x + wait) (clock s + d)); [|lia]. by eexists.
Qed.
End probes.
Arguments plabel : clear implicits.
Arguments pstate : clear implicits.

(** ** A mount that hangs, is replaced, and answers *)
Definition demo_before : list (plabel bool) :=
  [Arrive 0 "/s"; Elapse 20; Arrive 1 "/s"; Elapse 10; Timeout 0].
Definition demo_after : list (plabel bool) :=
  [Arrive 2 "/s"; Elapse 20; Timeout 1; Finish 1 true; Receive 2; Finish 0 false; Leave 0].

Lemma probe_answers_current_witness :
  ∃ s1 s2 : pstate bool,
    prun 30 pinit demo_before = Some s1 ∧ prun 30 (resetProbe s1 "/s") demo_after = Some s2 ∧
    waiters s2 !! 2%nat = Some (Waiter "/s" 1 30 (Some (Got true))) ∧
    waiters s2 !! 1%nat = Some (Waiter "/s" 0 20 (Some (TimedOut 50))) ∧
    ((∃ p, probes s2 !! 1%nat = Some p ∧ p_path p = "/s" ∧ closed_with p true) ∧
     ("/s" = "/s" → waiters s1 !! 2%nat = None → probes s1 !! 1%nat = None)).
Proof.
  eexists _, _. split; [vm_compute; reflexivity|]. split; [vm_compute; reflexivity|].
  split; [vm_compute; reflexivity|]. split; [vm_compute; reflexivity|].
  refine (probe_answers_current 30 demo_before demo_after "/s" _ _ 2
    (Waiter "/s" 1 30 (Some (Got true))) (Got true) _ _ _ _ _);
    first [lia | vm_compute; reflexivity].
Defined.

Lemma probe_goroutines_bounded_witness :
  ∃ s : pstate bool, prun 30 pinit (demo_before ++ Reset "/s" :: [Arrive 2 "/s"]) = Some s ∧
    goroutines s "/s" = 2%nat ∧
    (goroutines s "/s" <= 1 + resets "/s" (demo_before ++ Reset "/s" :: [Arrive 2 "/s"]))%nat.
Proof.
  eexists. split; [vm_compute; reflexivity|]. split; [vm_compute; reflexivity|].
  apply (probe_goroutines_bounded 30); [lia|vm_compute; reflexivity].
Defined.
