(* ===== verification/Monitor.v ===== *)
(** * The health monitor's goroutines

    Models the concurrency of [pkg/driver/health_monitor.go]: the ticker of
    [startHealthMonitor], the sweep of [checkAndRecoverVolumes], the
    deduplication of [launchVolumeHealthCheck], and [NodeCleanup] of
    [nodeserver.go]. What one check does is [performVolumeHealthCheck] in
    [Health]. *)

From S2P Require Import Prelude.

(** The goroutine of [startHealthMonitor]: in its select; in a sweep over the
    volumes that are left; with a volume entered in [activeRecoveries] but its
    goroutine not started; and after [stopCh] was closed. *)
Inductive ticker_pc :=
  | Selecting
  | Sweeping (vols : list string)
  | Launching (v : string) (vols : list string)
  | Stopped.

(** A goroutine of a check: at work, or with only [recoveryWg.Done] left. *)
Inductive check_pc := Working | Leaving.

(** [NodeCleanup]: not called, in [recoveryWg.Wait], returned. *)
Inductive cleanup_pc := NotCalled | WaitingForChecks | Returned.

Record mstate := MState {
  ticker : ticker_pc;
  activeRecoveries : gset string;
  checks : gmap nat (string * check_pc);   (** the goroutines [recoveryWg] counts *)
  cleanup : cleanup_pc;
  next_check : nat;
}.

Definition minit : mstate := MState Selecting ∅ ∅ NotCalled 0.

(** [stopCh] is closed. *)
Definition stopping (s : mstate) : bool :=
  match cleanup s with NotCalled => false | _ => true end.

Inductive mlabel :=
  | Tick (vols : list string)   (** [ticker.C]; the staged volumes in the order of [Range] *)
  | Visit                       (** [LoadOrStore] for the next volume, or the end of the sweep *)
  | Launch                      (** [recoveryWg.Add] and the start of the goroutine *)
  | StopTicker                  (** the select takes [stopCh] *)
  | EndCheck (id : nat)         (** [activeRecoveries.Delete] *)
  | DoneCheck (id : nat)        (** [recoveryWg.Done] *)
  | CallCleanup
  | WaitReturns.

Definition set_ticker (s : mstate) (pc : ticker_pc) : mstate :=
  MState pc (activeRecoveries s) (checks s) (cleanup s) (next_check s).

(** The sweep at its next volume. *)
Definition visit (s : mstate) (v : string) (vols : list string) : mstate :=
  if bool_decide (v ∈ activeRecoveries s) then set_ticker s (Sweeping vols)
  else MState (Launching v vols) ({[v]} ∪ activeRecoveries s) (checks s) (cleanup s) (next_check s).

Definition launch (s : mstate) (v : string) (vols : list string) : mstate :=
  MState (Sweeping vols) (activeRecoveries s) (<[next_check s := (v, Working)]> (checks s))
    (cleanup s) (S (next_check s)).

Definition mstep (s : mstate) (l : mlabel) : option mstate :=
  match l with
  | Tick vols =>
      match ticker s with Selecting => Some (set_ticker s (Sweeping vols)) | _ => None end
  | Visit =>
      match ticker s with
      | Sweeping [] => Some (set_ticker s Selecting)
      | Sweeping (v :: vols) => Some (visit s v vols)
      | _ => None
      end
  | Launch => match ticker s with Launching v vols => Some (launch s v vols) | _ => None end
  | StopTicker =>
      match ticker s with
      | Selecting => if stopping s then Some (set_ticker s Stopped) else None
      | _ => None
      end
  | EndCheck id =>
      match checks s !! id with
      | Some (v, Working) =>
          Some (MState (ticker s) (activeRecoveries s ∖ {[v]}) (<[id := (v, Leaving)]> (checks s))
                  (cleanup s) (next_check s))
      | _ => None
      end
  | DoneCheck id =>
      match checks s !! id with
      | Some (_, Leaving) =>
          Some (MState (ticker s) (activeRecoveries s) (delete id (checks s)) (cleanup s) (next_check s))
      | _ => None
      end
  | CallCleanup =>
      match cleanup s with
      | NotCalled => Some (MState (ticker s) (activeRecoveries s) (checks s) WaitingForChecks (next_check s))
      | _ => None
      end
  | WaitReturns =>
      match cleanup s with
      | WaitingForChecks =>
          if bool_decide (checks s = ∅) then
            Some (MState (ticker s) (activeRecoveries s) (checks s) Returned (next_check s))
          else None
      | _ => None
      end
  end.

Fixpoint mrun (s : mstate) (ls : list mlabel) : option mstate :=
  match ls with
  | [] => Some s
  | l :: ls => s' ← mstep s l; mrun s' ls
  end.

(** ** The invariant: an entry of [activeRecoveries] stands for one check *)
Definition launching (s : mstate) (v : string) : Prop := ∃ vols, ticker s = Launching v vols.
Definition working (s : mstate) (id : nat) (v : string) : Prop := checks s !! id = Some (v, Working).

Record MInv (s : mstate) : Prop := {
  m_fresh id c : checks s !! id = Some c → id < next_check s;
  m_active v : v ∈ activeRecoveries s → launching s v ∨ ∃ id, working s id v;
  m_working id v : working s id v → v ∈ activeRecoveries s ∧ ¬ launching s v;
  m_launching v : launching s v → v ∈ activeRecoveries s;
  m_unique i j v : working s i v → working s j v → i = j;
}.

Lemma MInv_init : MInv minit.
Proof.
  split; unfold working, launching; cbn; try set_solver; try done; naive_solver.
Qed.

(** Steps of the ticker that leave the launching state alone. *)
Lemma set_ticker_inv s pc :
  MInv s → (∀ v vols, ticker s ≠ Launching v vols) → (∀ v vols, pc ≠ Launching v vols) →
  MInv (set_ticker s pc).
Proof.
  intros [HF HA HW HL HU] Hs Hpc. split; unfold working, launching in *; cbn; try done.
  - intros v Hv. destruct (HA v Hv) as [[vols H]|H]; [by destruct (Hs v vols)|by right].
  - intros id v H. split; [by eapply HW|]. intros [vols ?]. by destruct (Hpc v vols).
  - intros v [vols ?]. by destruct (Hpc v vols).
Qed.

Lemma visit_inv s v vols : MInv s → ticker s = Sweeping (v :: vols) → MInv (visit s v vols).
Proof.
  intros Hinv Ht. unfold visit. case_bool_decide as Hv.
  { apply set_ticker_inv; [done|by intros ?? E; rewrite Ht in E|done]. }
  destruct Hinv as [HF HA HW HL HU]. split; unfold working, launching in *; cbn.
  - done.
  - intros u [->%elem_of_singleton|Hu]%elem_of_union; [left; by exists vols|].
    destruct (HA u Hu) as [[? H]|H]; [by rewrite Ht in H|by right].
  - intros id u H. destruct (HW id u H) as [Hu _]. split; [set_solver|].
    intros [vols' [= -> ->]]. done.
  - intros u [vols' [= -> ->]]. set_solver.
  - done.
Qed.

Lemma launch_inv s v vols : MInv s → ticker s = Launching v vols → MInv (launch s v vols).
Proof.
  intros [HF HA HW HL HU] Ht.
  assert (checks s !! next_check s = None) as Hnone.
  { destruct (checks s !! next_check s) eqn:E; [|done]. apply HF in E. lia. }
  assert (∀ id, ¬ working s id v) as Hno.
  { intros id H. destruct (HW id v H) as [_ []]. by exists vols. }
  split; unfold working, launching in *; cbn.
  - intros id c [[<- _]|[_ H]]%lookup_insert_Some; [lia|]. apply HF in H. lia.
  - intros u Hu. right. destruct (HA u Hu) as [[vols' H]|[id H]].
    + rewrite Ht in H. injection H as -> ->. exists (next_check s). by rewrite lookup_insert_eq.
    + exists id. rewrite lookup_insert_ne; [done|]. intros <-. congruence.
  - intros id u [[<- [= ->]]|[_ H]]%lookup_insert_Some.
    + split; [apply HL; by exists vols|]. by intros [? ?].
    + split; [by eapply HW|]. by intros [? ?].
  - by intros u [? ?].
  - intros i j u [[<- E1]|[_ H1]]%lookup_insert_Some [[<- E2]|[_ H2]]%lookup_insert_Some.
    + done.
    + injection E1 as <-. by destruct (Hno j).
    + injection E2 as <-. by destruct (Hno i).
    + by eapply HU.
Qed.

Lemma mstep_inv s l s' : MInv s → mstep s l = Some s' → MInv s'.
Proof.
  intros Hinv. destruct l as [vols| | | |id|id| |]; cbn [mstep].
  - destruct (ticker s) eqn:Ht; [|done..]. intros [= <-].
    apply set_ticker_inv; [done|by intros ?? E; rewrite Ht in E|done].
  - destruct (ticker s) as [|[|v vols]|v vols|] eqn:Ht; [done| | |done..]; intros [= <-].
    + apply set_ticker_inv; [done|by intros ?? E; rewrite Ht in E|done].
    + by apply visit_inv.
  - destruct (ticker s) eqn:Ht; [done..| |done]. intros [= <-]. by apply launch_inv.
  - destruct (ticker s) eqn:Ht; [|done..]. destruct (stopping s); [|done]. intros [= <-].
    apply set_ticker_inv; [done|by intros ?? E; rewrite Ht in E|done].
  - destruct (checks s !! id) as [[v []]|] eqn:Hid; [|done..]. intros [= <-].
    destruct Hinv as [HF HA HW HL HU]. split; unfold working, launching in *; cbn.
    + intros i c [[<- _]|[_ H]]%lookup_insert_Some; by eapply HF.
    + intros u [Hu Hne%not_elem_of_singleton]%elem_of_difference.
      destruct (HA u Hu) as [H|[i H]]; [by left|right]. exists i.
      rewrite lookup_insert_ne; [done|]. intros <-. congruence.
    + intros i u [[_ ?]|[Hi H]]%lookup_insert_Some; [done|]. destruct (HW i u H) as [Hu Hl].
      split; [|done]. apply elem_of_difference. split; [done|].
      intros ->%elem_of_singleton. destruct Hi. by eapply HU.
    + intros u Hu. apply elem_of_difference. split; [by apply HL|]. intros ->%elem_of_singleton.
      by destruct (HW id v Hid) as [_ []].
    + intros i j u [[_ ?]|[_ H1]]%lookup_insert_Some [[_ ?]|[_ H2]]%lookup_insert_Some; [done..|].
      by eapply HU.
  - destruct (checks s !! id) as [[v []]|] eqn:Hid; [done| |done]. intros [= <-].
    destruct Hinv as [HF HA HW HL HU]. split; unfold working, launching in *; cbn.
    + intros i c [_ H]%lookup_delete_Some. by eapply HF.
    + intros u Hu. destruct (HA u Hu) as [H|[i H]]; [by left|right]. exists i.
      rewrite lookup_delete_ne; [done|]. intros <-. congruence.
    + intros i u [_ H]%lookup_delete_Some. by apply (HW i).
    + done.
    + intros i j u [_ H1]%lookup_delete_Some [_ H2]%lookup_delete_Some. by eapply HU.
  - destruct (cleanup s); [|done..]. intros [= <-]. by destruct Hinv.
  - destruct (cleanup s); [done| |done]. destruct (bool_decide _); [|done]. intros [= <-]. by destruct Hinv.
Qed.

(** A check is at work until it ends. *)
Lemma mstep_working s l s' id v :
  MInv s → mstep s l = Some s' → working s id v → l = EndCheck id ∨ working s' id v.
Proof.
  intros Hinv. unfold working. destruct l as [vols| | | |id'|id'| |]; cbn [mstep]; intros Hs Hid.
  - right. destruct (ticker s); [by injection Hs as <-|done..].
  - right. destruct (ticker s) as [|[|u vols]| |]; try done; injection Hs as <-; [done|].
    unfold visit. by destruct (bool_decide _).
  - right. destruct (ticker s); [done..| |done]. injection Hs as <-. cbn.
    rewrite lookup_insert_ne; [done|]. intros <-. apply (m_fresh s Hinv) in Hid. lia.
  - right. destruct (ticker s); [|done..]. destruct (stopping s); [by injection Hs as <-|done].
  - destruct (decide (id' = id)) as [->|Hne]; [by left|right].
    destruct (checks s !! id') as [[u []]|]; [|done..]. injection Hs as <-. cbn. by rewrite lookup_insert_ne.
  - right. destruct (decide (id' = id)) as [->|Hne]; [by rewrite Hid in Hs|].
    destruct (checks s !! id') as [[u []]|]; [done| |done]. injection Hs as <-. cbn. by rewrite lookup_delete_ne.
  - right. destruct (cleanup s); [by injection Hs as <-|done..].
  - right. destruct (cleanup s); [done| |done]. destruct (bool_decide _); [by injection Hs as <-|done].
Qed.

Lemma mrun_inv s ls s' : MInv s → mrun s ls = Some s' → MInv s'.
Proof.
  revert s. induction ls as [|l ls IH]; intros s Hs; cbn [mrun]; [by intros [= <-]|].
  destruct (mstep s l) as [s1|] eqn:Hl; [|done]. apply IH. by eapply mstep_inv.
Qed.

(** ** Properties *)

(** C21. Whatever the timing of ticks and checks, a volume never has two health
    checks at work, and a volume is held back from the next sweep only while
    its check is being started or is at work: an ended check, also one that
    panicked, never blocks a later one. *)
Theorem one_check_per_volume (ls : list mlabel) (s : mstate) :
  mrun minit ls = Some s →
  (∀ i j v, working s i v → working s j v → i = j) ∧
  (∀ v, v ∈ activeRecoveries s ↔ launching s v ∨ ∃ id, working s id v) ∧
  (∀ v, launching s v → ∀ id, ¬ working s id v).
Proof.
  intros Hrun. destruct (mrun_inv minit ls s MInv_init Hrun) as [HF HA HW HL HU].
  split_and!; [done| |].
  - intros v. split; [apply HA|]. intros [H|[id H]]; [by apply HL|by eapply HW].
  - intros v Hl id H. by destruct (HW id v H).
Qed.

Definition demo_ticks : list mlabel :=
  [Tick ["a"; "b"]; Visit; Launch; Visit; Launch; Visit; EndCheck 1; Tick ["a"; "b"]; Visit; Visit; Launch].

Lemma one_check_per_volume_witness :
  ∃ s, mrun minit demo_ticks = Some s ∧ working s 0 "a" ∧ working s 2 "b" ∧
    (∀ i j v, working s i v → working s j v → i = j) ∧
    (∀ v, v ∈ activeRecoveries s ↔ launching s v ∨ ∃ id, working s id v) ∧
    (∀ v, launching s v → ∀ id, ¬ working s id v).
Proof.
  eexists. split; [vm_compute; reflexivity|]. split; [vm_compute; reflexivity|].
  split; [vm_compute; reflexivity|]. apply (one_check_per_volume demo_ticks). vm_compute. reflexivity.
Defined.

(** [NodeCleanup] can return while a recovery is at work: it waits for the
    checks that were started, but not for a sweep that is still starting them. *)
Theorem cleanup_race_reachable :
  ∃ ls s, mrun minit ls = Some s ∧ cleanup s = Returned ∧ working s 0 "pvc-1".
Proof.
  exists [Tick ["pvc-1"]; CallCleanup; WaitReturns; Visit; Launch]. eexists.
  split; [vm_compute; reflexivity|]. split; vm_compute; reflexivity.
Qed.
