(* ===== verification/Server.v ===== *)
(** * The driver's process

    Models [Run] of [pkg/driver/driver.go] and the server of [pkg/driver/server.go]:
    the main goroutine from the start of the node service to the clean-up after a
    signal, the goroutine that serves, the handlers it starts under the key mutex and the
    health monitor, interleaved. grpc-go is a parameter. *)

From S2P Require Import Prelude GoLib Json Hash Params Driver Controller MountFlags MountArgs MountInfo Host Serial KeyMutex Locked Simulation MountUtil Command Container Node NodeSpec CacheSweep VolumeStats Health Recovery StagingRecovery Startup Life Concurrency Monitor.
#[local] Open Scope go_scope.

(** ** grpc-go

    A server between its calls: the RPCs it has begun and not ended. While it serves
    it accepts and ends RPCs, but none whose handler runs (the first argument of
    [serves]). [GracefulStop] returns when all are ended and no other is accepted. *)
Class Grpc := {
  server : Type;
  NewServer : server;
  GracefulStop : server → server;       (** the call, before it blocks *)
  stop_done : server → Prop;            (** the call may return *)
  serves : gset nat → server → server → Prop;
  pending : server → gset nat;
  NewServer_idle : pending NewServer = ∅;
  GracefulStop_pending s : pending (GracefulStop s) = pending s;
  serves_handlers A s s' : serves A s s' → A ∩ pending s ⊆ pending s';
  stop_done_idle s : stop_done s → pending s = ∅;
  stop_done_final A s s' : stop_done s → serves A s s' → stop_done s';
}.

(** ** The services *)
Inductive service := IdentityService | ControllerService | NodeService.

(** A value of an interface type: nil, or one of a pointer type, whose pointer is nil
    or not. A pointer made into an interface value is of the second kind. *)
Inductive interface := NilInterface | Pointer (allocated : bool).
Definition is_nil (i : interface) : bool := match i with NilInterface => true | Pointer _ => false end.

(** What [serve] registers, with what it is given. *)
Definition register_services (ids cs ns : interface) : list (service * interface) :=
  (if is_nil ids then [] else [(IdentityService, ids)]) ++
  (if is_nil cs then [] else [(ControllerService, cs)]) ++
  (if is_nil ns then [] else [(NodeService, ns)]).

(** ** The state *)

(** [Run]: before [NewNodeServer], before [Start], at the signal channel, before
    [Stop], in [GracefulStop], in [Wait], before and in [NodeCleanup], at the end. *)
Inductive main_pc :=
  | AtNode | AtStart | AtSignal | AtStop | InStop | InWait | AtCleanup | InCleanup | AtEnd.

(** The goroutine of [Start]: not there, before [Listen] has succeeded, before
    [s.server] is assigned, before the services are registered, in [Serve], before
    [wg.Done], gone. *)
Inductive serve_pc :=
  | NotStarted | Preparing | Listening | Registering | Serving | Leaving | Gone.

(** [glog.Fatal] and a nil dereference end the process. *)
Inductive fate := Alive | Fatal | Panicked.

#[export] Instance main_pc_eq_dec : EqDecision main_pc.
Proof. solve_decision. Defined.

Section server.
Context {MU : MountUtils} {MR : MapRange} {PR : PathRange} {G : Grpc}.
Context (d : SeaweedFsDriver) (hungMountAfter : Z) (runNode runController : bool).

Record process := Process {
  main : main_pc;
  serving : serve_pc;
  wg : nat;
  s_server : option server;                       (** [s.server] *)
  services : list (service * interface);
  node : bool;                                    (** [node != nil] *)
  work : lstate (V := Volume) (A := unit) (T := section);  (** handlers and checks under the key mutex *)
  monitor : mstate;
  state : fate;
}.

Definition init : process :=
  Process AtNode NotStarted 0 None [] false (linit ∅) minit Alive.

Definition set_main (p : process) (pc : main_pc) : process :=
  Process pc (serving p) (wg p) (s_server p) (services p) (node p) (work p) (monitor p) (state p).
Definition set_serving (p : process) (pc : serve_pc) : process :=
  Process (main p) pc (wg p) (s_server p) (services p) (node p) (work p) (monitor p) (state p).
Definition set_wg (p : process) (n : nat) : process :=
  Process (main p) (serving p) n (s_server p) (services p) (node p) (work p) (monitor p) (state p).
Definition set_server (p : process) (s : server) : process :=
  Process (main p) (serving p) (wg p) (Some s) (services p) (node p) (work p) (monitor p) (state p).
Definition set_services (p : process) (l : list (service * interface)) : process :=
  Process (main p) (serving p) (wg p) (s_server p) l (node p) (work p) (monitor p) (state p).
Definition set_node (p : process) (s : Volumes) : process :=
  Process (main p) (serving p) (wg p) (s_server p) (services p) true (linit s) (monitor p) (state p).
Definition set_work (p : process) (w : lstate) : process :=
  Process (main p) (serving p) (wg p) (s_server p) (services p) (node p) w (monitor p) (state p).
Definition set_monitor (p : process) (m : mstate) : process :=
  Process (main p) (serving p) (wg p) (s_server p) (services p) (node p) (work p) m (state p).
Definition set_state (p : process) (f : fate) : process :=
  Process (main p) (serving p) (wg p) (s_server p) (services p) (node p) (work p) (monitor p) f.

(** ** The goroutines *)

(** The main goroutine: [Run]. *)
Inductive run_step : process → process → Prop :=
  | run_no_node p :
      main p = AtNode → runNode = false → run_step p (set_main p AtStart)
  | run_node p l r s :
      main p = AtNode → runNode = true → asteps (NewNodeServer d) ∅ l (Done r) s →
      run_step p (set_main (set_node p s) AtStart)
  | run_start p :
      main p = AtStart →
      run_step p (set_main (set_serving (set_wg p (S (wg p))) Preparing) AtSignal)
  | run_signal p : main p = AtSignal → run_step p (set_main p AtStop)
  | run_stop p s :
      main p = AtStop → s_server p = Some s → run_step p (set_main (set_server p (GracefulStop s)) InStop)
  | run_stop_nil p : main p = AtStop → s_server p = None → run_step p (set_state p Panicked)
  | run_stopped p s :
      main p = InStop → s_server p = Some s → stop_done s → run_step p (set_main p InWait)
  | run_waited p : main p = InWait → wg p = 0 → run_step p (set_main p AtCleanup)
  | run_no_cleanup p : main p = AtCleanup → node p = false → run_step p (set_main p AtEnd)
  | run_cleanup p m :
      main p = AtCleanup → node p = true → mstep (monitor p) CallCleanup = Some m →
      run_step p (set_main (set_monitor p m) InCleanup)
  | run_cleaned p m :
      main p = InCleanup → mstep (monitor p) WaitReturns = Some m →
      run_step p (set_main (set_monitor p m) AtEnd).

(** The goroutine of [Start]: [serve] and [wg.Done]. *)
Inductive serve_step : process → process → Prop :=
  | serve_prepared p l a s :
      serving p = Preparing → asteps (Command.serve (endpoint d)) (shared (Locked.work (work p))) l (Done (Ok a)) s →
      serve_step p (set_serving p Listening)
  | serve_fatal p : serving p = Preparing → serve_step p (set_state p Fatal)   (** it fails, or [Listen] does *)
  | serve_created p :
      serving p = Listening → serve_step p (set_serving (set_server p NewServer) Registering)
  | serve_registered p :
      serving p = Registering →
      serve_step p (set_serving (set_services p
        (register_services (Pointer true) (Pointer runController) (Pointer (node p)))) Serving)
  | serve_returned p : serving p = Serving → serve_step p (set_serving p Leaving)
  | serve_done p : serving p = Leaving → serve_step p (set_serving (set_wg p (wg p - 1)) Gone).

(** The goroutine [i] runs a handler. *)
Definition handles (w : lstate (V := Volume) (A := unit) (T := section)) (i : nat) : bool :=
  match wants w !! i with Some (Handler _) => true | _ => false end.

(** The RPCs whose handlers have come to their lock and not released it. *)
Definition handlers (p : process) : gset nat :=
  dom (filter (λ '(i, _), handles (work p) i = true) (threads (keys (work p)))).

(** A check of [v] is between the look-up of the volume's mutex and its release. *)
Definition checking (p : process) (v : string) : Prop :=
  ∃ i g c, threads (keys (work p)) !! i = Some g ∧ wants (work p) !! i = Some c ∧
    (∀ q, c ≠ Handler q) ∧ section_volume c = v.

#[local] Abbreviation locked_step := (lstep section_volume (section_act d hungMountAfter)).
#[local] Abbreviation noted_step := (dstep section_volume (section_act d hungMountAfter) same_volumes).

(** The tracked volumes with one put in place. *)
Definition with_volume (w : lstate (V := Volume) (A := unit) (T := section)) (v : string) (vol : Volume) : lstate :=
  LState (keys w) (wants w) (cleared w) (contended w)
    (Pool (<[v := vol]> (shared (Locked.work w))) (tasks (Locked.work w)) (released (Locked.work w))).

(** grpc-go, the handlers it calls, the monitor and its checks. A goroutine of a
    handler or check begins with the look-up of its mutex. *)
Inductive work_step : process → process → Prop :=
  | work_grpc p s s' :
      s_server p = Some s → serves (handlers p) s s' →
      work_step p (set_server p s')
  | work_call_nil p s i v :
      s_server p = Some s → i ∈ pending s → (v, Pointer false) ∈ services p →
      work_step p (set_state p Panicked)
  | work_handler p s i q k :
      (NodeService, Pointer true) ∈ services p → s_server p = Some s → i ∈ pending s →
      kstep (keys (work p)) (Get i (volume_of q)) = Some k →
      work_step p (set_work p (LState k (<[i := Handler q]> (wants (work p))) (cleared (work p) ∖ {[i]}) (contended (work p))
                                (Locked.work (work p))))
  | work_check p i c id k :
      node p = true → (∀ q, c ≠ Handler q) → working (monitor p) id (section_volume c) →
      kstep (keys (work p)) (Get i (section_volume c)) = Some k →
      work_step p (set_work p (LState k (<[i := c]> (wants (work p))) (cleared (work p) ∖ {[i]}) (contended (work p))
                                (Locked.work (work p))))
  | work_locked p w :
      locked_step (work p) w →
      dom (threads (keys w)) ⊆ dom (threads (keys (work p))) →
      work_step p (set_work p w)
  | work_noted p id v vol vol' :   (** outside its sections *)
      node p = true → working (monitor p) id v → shared (Locked.work (work p)) !! v = Some vol →
      same_volume vol vol' →
      work_step p (set_work p (with_volume (work p) v vol'))
  | work_monitor p l m :
      node p = true → mstep (monitor p) l = Some m → l ≠ CallCleanup → l ≠ WaitReturns →
      (∀ id v, l = EndCheck id → working (monitor p) id v → ¬ checking p v) →
      work_step p (set_monitor p m).

Inductive process_step : process → process → Prop :=
  | main_steps p p' : state p = Alive → run_step p p' → process_step p p'
  | server_steps p p' : state p = Alive → serve_step p p' → process_step p p'
  | work_steps p p' : state p = Alive → work_step p p' → process_step p p'.

(** ** The invariant *)

(** [main] has come to [pc] or further. *)
Definition main_rank (pc : main_pc) : nat :=
  match pc with
  | AtNode => 0 | AtStart => 1 | AtSignal => 2 | AtStop => 3 | InStop => 4 | InWait => 5
  | AtCleanup => 6 | InCleanup => 7 | AtEnd => 8
  end.
Definition reached (p : process) (pc : main_pc) : Prop := main_rank pc ≤ main_rank (main p).

(** The store [NewNodeServer] leaves; a process without node service has no other. *)
Definition recovered_store (s0 : Volumes) : Prop :=
  if runNode then ∃ l r, asteps (NewNodeServer d) ∅ l (Done r) s0 else s0 = ∅.

Record Inv (p : process) : Prop := {
  i_node : node p = true → runNode = true ∧ reached p AtStart;
  i_node_set : reached p AtStart → node p = runNode;
  i_store : ∃ s0, (reached p AtStart → recovered_store s0) ∧
    rtc noted_step (linit s0) (work p);
  i_idle : node p = false → work p = linit ∅;
  i_services b : (NodeService, Pointer b) ∈ services p → b = node p;
  i_registered : services p ≠ [] → reached p AtSignal;
  i_pending i g q : threads (keys (work p)) !! i = Some g → wants (work p) !! i = Some (Handler q) →
    ∃ s, s_server p = Some s ∧ i ∈ pending s;
  i_checks i g c : threads (keys (work p)) !! i = Some g → wants (work p) !! i = Some c → (∀ q, c ≠ Handler q) →
    ∃ id, working (monitor p) id (section_volume c);
  i_monitor : MInv (monitor p);
  i_server : s_server p ≠ None → reached p AtSignal;
  i_started : serving p = NotStarted ↔ ¬ reached p AtSignal;
  i_wg : wg p = match serving p with NotStarted | Gone => 0 | _ => 1 end;
  i_stopped : reached p InWait → ∃ s, s_server p = Some s ∧ stop_done s;
  i_gone : reached p AtCleanup → serving p = Gone;
  i_fresh : serving p = Preparing ∨ serving p = Listening → s_server p = None;
}.

Lemma init_inv : Inv init.
Proof.
  split; unfold reached; cbn; try done; try lia.
  - exists ∅. split; [lia|done].
  - intros b Hb. by apply not_elem_of_nil in Hb.
  - apply MInv_init.
  - split; [lia|done].
Qed.

(** The items of the invariant, and those a step settles by the program counters. *)
Ltac inv_items Hp :=
  destruct Hp as [Hnode Hset Hstore Hidle Hsvc Hreg Hpend Hchk Hmon Hsrv Hstart Hwg Hstop Hgone Hfresh];
  split; unfold reached in *; cbn in *.
Ltac inv_item :=
  first
  [ done | lia
  | match goal with H : (serving _ = NotStarted ↔ _) |- _ = NotStarted ↔ _ => first [rewrite H; lia|split; [done|lia]] end
  | match goal with H : ∃ s0 : Volumes, _ |- ∃ s0 : Volumes, _ =>
      destruct H as (s0 & Hs0 & Hrun0); exists s0; split; [intros ?; apply Hs0; lia|done] end
  | match goal with H : node _ = true → _ |- node _ = true → _ =>
      intros Hn; destruct (H Hn); split; [done|lia] end
  | intros; match goal with H : _ → node _ = _ |- node _ = _ => apply H; lia end
  | intros; match goal with H : _ → serving _ = _ |- serving _ = _ => apply H; lia end
  | intros; match goal with H : _ → ∃ s, _ |- ∃ s, _ => apply H; lia end
  | match goal with |- _ = NotStarted ↔ _ => split; [done|lia] end
  | intros; lia | by intros [?|?] ].

(** What [NodeCleanup] does to the monitor leaves the checks as they are. *)
Lemma cleanup_working m m' l :
  mstep m l = Some m' → l = CallCleanup ∨ l = WaitReturns → ∀ id v, working m id v → working m' id v.
Proof.
  intros Hm [->| ->]; cbn in Hm; destruct (cleanup m); try done; [by injection Hm as <-|].
  by destruct (bool_decide _); [injection Hm as <-|].
Qed.

Lemma checks_kept (w : lstate (V := Volume) (A := unit) (T := section)) m m' l :
  (∀ i g c, threads (keys w) !! i = Some g → wants w !! i = Some c → (∀ q, c ≠ Handler q) →
     ∃ id, working m id (section_volume c)) →
  mstep m l = Some m' → l = CallCleanup ∨ l = WaitReturns →
  ∀ i g c, threads (keys w) !! i = Some g → wants w !! i = Some c → (∀ q, c ≠ Handler q) →
     ∃ id, working m' id (section_volume c).
Proof.
  intros HT Hm Hl i g c Hi Hc Hq. destruct (HT i g c Hi Hc Hq) as [id Hid]. exists id. by eapply cleanup_working.
Qed.

Lemma run_step_inv p p' : Inv p → run_step p p' → Inv p'.
Proof.
  intros Hp Hs. destruct Hs as [p Hpc Hrun|p l r s Hpc Hrun Hn|p Hpc|p Hpc|p s Hpc Hs|p Hpc Hs|p s Hpc Hs Hd
    |p Hpc Hw|p Hpc Hn|p m Hpc Hn Hm|p m Hpc Hm]; inv_items Hp; try rewrite Hpc in *; cbn in *; try inv_item; eauto.
  - intros _. destruct (node p); [|done]. destruct (Hnode eq_refl). lia.
  - exists ∅. destruct (node p) eqn:Hn; [destruct (Hnode eq_refl); lia|]. rewrite Hidle by done.
    split; [|done]. intros _. unfold recovered_store. by rewrite Hrun.
  - exists s. split; [|done]. intros _. unfold recovered_store. rewrite Hrun. eauto.
  - intros b Hb. assert (services p ≠ []) as H%Hreg by (intros E; rewrite E in Hb; by apply not_elem_of_nil in Hb). lia.
  - rewrite Hwg. assert (serving p = NotStarted) as -> by (apply Hstart; lia). done.
  - intros _. destruct (s_server p) eqn:E; [|done]. assert (Some s ≠ None) as H%Hsrv by done. lia.
  - intros i g q Hi Hq. destruct (Hpend i g q Hi Hq) as (s' & Hs' & Hin). exists (GracefulStop s).
    rewrite Hs in Hs'. injection Hs' as ->. by rewrite GracefulStop_pending.
  - intros H. rewrite Hfresh in Hs; done.
  - intros _. rewrite Hw in Hwg. destruct (serving p) eqn:E; try done. assert (¬ 2 ≤ 5) by (by apply Hstart). lia.
  - intros H. split; [by apply Hnode|lia].
  - intros H. split; [by apply Hnode|lia].
  - apply (checks_kept _ _ _ CallCleanup Hchk Hm). by left.
  - apply (mstep_inv _ CallCleanup _ Hmon Hm).
  - apply (checks_kept _ _ _ WaitReturns Hchk Hm). by right.
  - apply (mstep_inv _ WaitReturns _ Hmon Hm).
Qed.

(** The goroutine is at work: [Start] was called and [Wait] has not returned. *)
Lemma serving_main p :
  Inv p → serving p ≠ NotStarted → serving p ≠ Gone → 2 ≤ main_rank (main p) < 6.
Proof.
  intros Hp Hn Hg. split.
  - destruct (decide (2 ≤ main_rank (main p))) as [?|H]; [done|]. by apply (i_started p Hp) in H.
  - destruct (decide (main_rank (main p) < 6)) as [?|H]; [done|]. destruct Hg. apply (i_gone p Hp). unfold reached. cbn. lia.
Qed.

Lemma serve_step_inv p p' : Inv p → serve_step p p' → Inv p'.
Proof.
  intros Hp Hs. assert (2 ≤ main_rank (main p) < 6) as Hmain.
  { apply serving_main; [done|destruct Hs; congruence..]. }
  destruct Hs as [p l a s Hpc Hs|p Hpc|p Hpc|p Hpc|p Hpc|p Hpc]; inv_items Hp; try rewrite Hpc in *; cbn in *;
    try inv_item; eauto.
  - intros i g q Hi Hq. destruct (Hpend i g q Hi Hq) as (s & Hs & _). rewrite Hfresh in Hs; [done|by right].
  - intros H5. destruct (Hstop H5) as (s & Hs & _). rewrite Hfresh in Hs; [done|by right].
  - intros b Hb. set_solver.
Qed.

(** A goroutine that begins. *)
Lemma begin_work p i c k :
  Inv p → node p = true → kstep (keys (work p)) (Get i (section_volume c)) = Some k →
  (∀ q, c = Handler q → ∃ s, s_server p = Some s ∧ i ∈ pending s) →
  ((∀ q, c ≠ Handler q) → ∃ id, working (monitor p) id (section_volume c)) →
  Inv (set_work p (LState k (<[i := c]> (wants (work p))) (cleared (work p) ∖ {[i]}) (contended (work p)) (Locked.work (work p)))).
Proof.
  intros Hp Hn Hk Hh Hc.
  assert (∀ j g, threads k !! j = Some g → j = i ∨ threads (keys (work p)) !! j = Some g) as Hold.
  { intros j g Hj. cbn in Hk. destruct (threads (keys (work p)) !! i); [done|].
    unfold GetMutex in Hk. destruct (mutexes (keys (work p)) !! section_volume c); injection Hk as <-; cbn in Hj;
      apply lookup_insert_Some in Hj as [[-> _]|[_ ?]]; auto. }
  inv_items Hp; try done.
  - destruct Hstore as (s0 & Hs0 & Hrun). exists s0. split; [done|]. eapply rtc_r; [exact Hrun|]. apply d_step. by constructor.
  - congruence.
  - intros j g q Hj [[<- Heq]|[Hne Hq]]%lookup_insert_Some; [by eapply Hh|].
    apply Hold in Hj as [?|Hj]; [congruence|]. by eapply Hpend.
  - intros j g c' Hj [[<- <-]|[Hne Hq]]%lookup_insert_Some; [by intros Hq; apply Hc|].
    apply Hold in Hj as [?|Hj]; [congruence|]. by eapply Hchk.
Qed.

Lemma work_step_inv p p' : Inv p → work_step p p' → Inv p'.
Proof.
  intros Hp Hs. destruct Hs as [p s s' Hs Hg|p s i v Hs Hi Hv|p s i q k Hn Hs Hi Hk|p i c id k Hn Hc Hid Hk
    |p w Hw Hdom|p id v vol vol' Hn Hid Hv Hvol|p l m Hn Hm Hl1 Hl2 He].
  - assert (s_server p ≠ None) as Hne by congruence. inv_items Hp; try inv_item; eauto.
    + intros i g q Hi Hq. exists s'. split; [done|]. destruct (Hpend i g q Hi Hq) as (s1 & Hs1 & Hin).
      rewrite Hs in Hs1. injection Hs1 as <-. apply (serves_handlers _ _ _ Hg), elem_of_intersection. split; [|done].
      apply elem_of_dom. exists g. apply map_lookup_filter_Some. split; [done|]. cbn. unfold handles. by rewrite Hq.
    + intros H5. destruct (Hstop H5) as (s1 & Hs1 & Hd). rewrite Hs in Hs1. injection Hs1 as <-.
      exists s'. split; [done|]. by eapply stop_done_final.
    + intros H. by rewrite Hfresh in Hs.
  - by inv_items Hp.
  - apply begin_work; [done| |done| |].
    + by rewrite <- (i_services p Hp true).
    + eauto.
    + intros Hq. by destruct (Hq q).
  - apply begin_work; [done..| |eauto]. intros q ->. by destruct (Hc q).
  - pose proof (lstep_wants _ _ _ _ Hw Hdom) as Hwants.
    assert (∀ i g, threads (keys w) !! i = Some g → ∃ g', threads (keys (work p)) !! i = Some g') as Hold.
    { intros i g Hi. apply elem_of_dom, Hdom, elem_of_dom. by exists g. }
    inv_items Hp; rewrite ?Hwants; try done.
    + destruct Hstore as (s0 & Hs0 & Hrun). exists s0. split; [done|]. eapply rtc_r; [exact Hrun|by apply d_step].
    + intros Hn. rewrite (Hidle Hn) in Hw, Hdom. by apply linit_idle in Hw.
    + intros i g q Hi Hq. destruct (Hold i g Hi). by eapply Hpend.
    + intros i g c Hi Hc. destruct (Hold i g Hi). by eapply Hchk.
  - inv_items Hp; try done; [|congruence].
    destruct Hstore as (s0 & Hs0 & Hrun). exists s0. split; [done|]. eapply rtc_r; [exact Hrun|].
    apply d_change. by apply same_insert with vol.
  - inv_items Hp; try done.
    + intros i g c Hi Hc Hq. destruct (Hchk i g c Hi Hc Hq) as [id Hid].
      destruct (mstep_working _ _ _ _ _ Hmon Hm Hid) as [->|?]; [|eauto].
      destruct (He id _ eq_refl Hid). by exists i, g, c.
    + by eapply mstep_inv.
Qed.

Lemma reachable_inv p : rtc process_step init p → Inv p.
Proof.
  revert p. apply rtc_ind_r; [apply init_inv|]. intros p1 p2 _ Hs Hp.
  destruct Hs as [p1 p2 _ Hs|p1 p2 _ Hs|p1 p2 _ Hs];
    [by eapply run_step_inv|by eapply serve_step_inv|by eapply work_step_inv].
Qed.

(** ** Properties *)
Lemma recovered_good_store s0 : recovered_store s0 → all_good d False s0.
Proof.
  unfold recovered_store. destruct runNode; [|by intros ->]. intros (l & r & Hs).
  assert (all_good d False ∅) as H0 by done.
  pose proof (perform_good (VR := demo_range) d hungMountAfter False Restart ∅ [] H0 (λ H, False_ind _ H)) as H.
  exact (asteps_awp anything (NewNodeServer d) ∅ [] l r s0 _ H Hs).
Qed.


(** A signal that comes before the goroutine of [Start] has set [s.server] ends the
    process in a nil dereference. *)
Lemma early_signal_panics :
  runNode = false →
  ∃ p, rtc process_step init p ∧ state p = Panicked ∧ main p = AtStop ∧ serving p = Preparing.
Proof.
  intros Hn. eexists. split.
  - eapply rtc_l; [apply main_steps, run_no_node; done|].
    eapply rtc_l; [apply main_steps, run_start; done|].
    eapply rtc_l; [apply main_steps, run_signal; done|].
    eapply rtc_l; [apply main_steps, run_stop_nil; done|]. apply rtc_refl.
  - done.
Qed.

(** Whatever [RunController] and [RunNode] say, all three services are registered: a
    nil pointer made into an interface is not a nil interface. *)
Lemma all_services_registered p :
  map fst (register_services (Pointer true) (Pointer runController) (Pointer (node p))) =
    [IdentityService; ControllerService; NodeService].
Proof. done. Qed.

(** The goroutines at work, run by the scheduler. *)
Lemma lexec_process host p l :
  state p = Alive → (∀ i c, l ≠ DoGet i c) →
  rtc process_step p (set_work p (lexec section_volume (section_act d hungMountAfter) host (work p) l)).
Proof.
  intros Ha Hl. pose proof (lexec_dom section_volume (section_act d hungMountAfter) host (work p) l Hl) as Hd.
  destruct (lexec_step section_volume (section_act d hungMountAfter) host (work p) l) as [->|Hs]; [by destruct p|].
  apply rtc_once, work_steps; [done|]. by apply work_locked.
Qed.

Lemma lexecs_process host p ls :
  state p = Alive → Forall (λ l, ∀ i c, l ≠ DoGet i c) ls →
  rtc process_step p (set_work p (foldl (lexec section_volume (section_act d hungMountAfter) host) (work p) ls)).
Proof.
  intros Ha. revert p Ha. induction ls as [|l ls IH]; intros p Ha Hls; [by destruct p|].
  apply Forall_cons in Hls as [Hl Hls]. etrans; [by apply (lexec_process host p l)|].
  by apply (IH (set_work p (lexec section_volume (section_act d hungMountAfter) host (work p) l))).
Qed.
End server.

(** ** An example *)

(** A server that keeps the RPCs begun and whether it was stopped. *)
#[local] Program Instance demo_grpc : Grpc := {|
  server := gset nat * bool;
  NewServer := (∅, false);
  GracefulStop := λ s, (s.1, true);
  stop_done := λ s, s.2 = true ∧ s.1 = ∅;
  serves := λ A s s', s'.2 = s.2 ∧ A ∩ s.1 ⊆ s'.1 ∧ (s.2 = true → s'.1 ⊆ s.1);
  pending := fst;
|}.
Solve Obligations with (cbn; set_solver).

Definition demo_srv (rpcs : gset nat) (stopped : bool) : server (Grpc := demo_grpc) := (rpcs, stopped).

Definition server_driver : SeaweedFsDriver := {|
  Driver.name := "seaweedfs-csi-driver"; nodeID := "n"; Driver.version := ""; endpoint := "tcp://127.0.0.1:9808";
  mountEndpoint := "unix:///m.sock"; volumeSocketDir := "/run"; vcap := []; cscap := []; filers := ["filer:8888"];
  filerIndex := 0; ConcurrentWriters := 0; ConcurrentReaders := 0; MountExtraArgs := [];
  CacheCapacityMB := 0; WriteBufferSizeMB := 0; CacheMetaTtlSec := 0; CacheDir := "/var/cache/";
  UidMap := ""; GidMap := ""; DataCenter := ""; DataLocality_ := DL_None; TopologyKeys := [];
  StagingScanDir := "/k/plugins/kubernetes.io/csi"; KubeletRootDir := ""; KubeletRootMount := "" |}.

(** What the node service recovers: one volume. *)
Definition demo_recovered : Volumes :=
  (run demo_start (NewNodeServer (MU := demo_utils) server_driver ∅) []).1.2.

(** Kubelet grows the volume while the driver runs. *)
Definition demo_request : request := RExpand "/buckets/pvc-1" "/k" 5368709120.
#[local] Abbreviation demo_step := (process_step (MU := demo_utils) (MR := range_sorted) (PR := demo_paths) server_driver 0 true false).
#[local] Abbreviation demo_code := (section_act (MU := demo_utils) (MR := range_sorted) (PR := demo_paths) server_driver 0).

(** The goroutine of the request: it looks its lock up, then takes it, runs and releases. *)
Definition demo_begun : lstate (V := Volume) (A := unit) (T := section) :=
  LState (KState {["/buckets/pvc-1" := 0]} ∅ {[7 := Waiting "/buckets/pvc-1" 0]} 1) {[7 := Handler demo_request]}
    (∅ ∖ {[7]}) false (start demo_recovered).
Definition demo_work : list (llabel (T := section)) := [DoLock 7] ++ repeat (DoRun 7) 20 ++ [DoUnlock 7].
Definition demo_worked : lstate (V := Volume) (A := unit) (T := section) :=
  foldl (lexec section_volume demo_code (λ X e _, demo_disk X e [])) demo_begun demo_work.

(** The process that served one request, before the signal. *)
Definition demo_served (srv : server) (w : lstate) : process :=
  Process AtSignal Serving 1 (Some srv)
    (register_services (Pointer true) (Pointer false) (Pointer true)) true w minit Alive.

Lemma demo_reaches : rtc demo_step init (demo_served (demo_srv {[7]} false) (linit demo_recovered)).
Proof.
  destruct (run_asteps demo_start (NewNodeServer (MU := demo_utils) server_driver) ∅ []) as [t Ht].
  eapply rtc_l; [apply main_steps; [done|]; eapply run_node; [done..|exact Ht]|].
  eapply rtc_l; [apply main_steps, run_start; done|].
  eapply rtc_l; [apply server_steps; [done|]; eapply serve_prepared; [done|]; apply asteps_refl|].
  eapply rtc_l; [apply server_steps, serve_created; done|].
  eapply rtc_l; [apply server_steps, serve_registered; done|].
  apply rtc_once, work_steps; [done|]. eapply (work_grpc (G := demo_grpc)) with (s' := demo_srv {[7]} false); [done|].
  split; [done|]. split; [|done]. intros i Hi. apply elem_of_intersection in Hi as [_ Hi].
  by apply not_elem_of_empty in Hi.
Qed.

Lemma demo_worked_idle : threads (keys demo_worked) = ∅ ∧ released (Locked.work demo_worked) ≠ [].
Proof. split; [apply map_to_list_empty_iff|]; vm_compute; [reflexivity|discriminate]. Qed.

Lemma demo_works srv : rtc demo_step (demo_served srv demo_begun) (demo_served srv demo_worked).
Proof.
  assert (Forall (λ l : llabel (T := section), ∀ i c, l ≠ DoGet i c) demo_work) as Hl by (repeat constructor; by intros).
  exact (lexecs_process server_driver 0 true false (λ X e _, demo_disk X e []) (demo_served srv demo_begun) demo_work
    eq_refl Hl).
Qed.
#[local] Opaque demo_worked demo_recovered.

(** [Run] in [NodeCleanup], its monitor without checks. *)
Definition demo_stopping : process :=
  Process InCleanup Gone 0 (Some (demo_srv ∅ true))
    (register_services (Pointer true) (Pointer false) (Pointer true)) true demo_worked
    (MState Selecting ∅ ∅ WaitingForChecks 0) Alive.

Lemma demo_stops : rtc demo_step init demo_stopping.
Proof.
  etrans; [apply demo_reaches|].
  eapply rtc_l.
  { apply work_steps; [done|]. eapply (work_handler (G := demo_grpc)) with (i := 7) (q := demo_request); [|done|cbn; set_solver|done].
    cbn. set_solver. }
  etrans; [apply demo_works|].
  eapply rtc_l.
  { apply work_steps; [done|]. eapply (work_grpc (G := demo_grpc)) with (s' := demo_srv ∅ false); [done|]. split; [done|]. split; [|done].
    unfold handlers. cbn [work set_work demo_served]. destruct demo_worked_idle as [-> _]. set_solver. }
  eapply rtc_l; [apply main_steps, run_signal; done|].
  eapply rtc_l; [apply main_steps; [done|]; eapply run_stop; done|].
  eapply rtc_l; [apply server_steps, serve_returned; done|].
  eapply rtc_l; [apply main_steps; [done|]; eapply run_stopped; [done..|]; cbn; done|].
  eapply rtc_l; [apply server_steps, serve_done; done|].
  eapply rtc_l; [apply main_steps; [done|]; eapply run_waited; done|].
  apply rtc_once, main_steps; [done|]. eapply (run_cleanup (G := demo_grpc)) with (m := MState Selecting ∅ ∅ WaitingForChecks 0); done.
Qed.

