(* ===== verification/K8s.v ===== *)
(** * Lookups in the Kubernetes API

    Models [pkg/k8s/client.go] and [pod_mounts.go]: from a CSI volume ID to its
    persistent volume, the volume's capacity and attributes, and where the
    containers of a pod mount it. The API server's answers, the syntax of DNS
    names and resource quantities are parameters. *)

From S2P Require Import Prelude GoLib Params.
#[local] Open Scope go_scope.

(** ** API objects, as far as they are read *)
Record CSISource := {
  csi_driver : string; VolumeHandle : string; VolumeAttributes : strmap }.

Section objects.
Context {Quantity : Type}.

Record PersistentVolume := {
  pv_name : string;
  CSI : option CSISource;
  ClaimRef : option (string * string);      (** namespace and name *)
  Storage : option Quantity;                (** [Capacity.Storage()] *)
}.
End objects.
Arguments PersistentVolume : clear implicits.

Record VolumeMount_ := {
  m_name : string; MountPath : string; m_SubPath : string; SubPathExpr : string }.
Record Pod := {
  pod_volumes : list (string * option string);   (** name, claim *)
  InitContainers : list (list VolumeMount_);
  Containers : list (list VolumeMount_);
}.
Record VolumeMount := { Path_ : string; SubPath : string }.

(** What the lookups use of other packages. [as_int64] is
    [Quantity.AsInt64]. *)
Class K8sAPI (Quantity : Type) := {
  get_pv : string → result (PersistentVolume Quantity);
  list_pvs : result (list (PersistentVolume Quantity));
  get_pod : string → string → result Pod;
  get_node_labels : string → result strmap;
  is_dns1123_subdomain : string → bool;
  as_int64 : Quantity → option Z;
  in_cluster : result unit;               (** [newInCluster] *)
}.

Section k8s.
Context {Quantity : Type} {API : K8sAPI Quantity}.
#[local] Abbreviation PV := (PersistentVolume Quantity).
Implicit Types (v : PV) (driverName volumeId : string).

(** ** Persistent volumes *)
Definition fast_match driverName volumeId v : bool :=
  match CSI v with
  | None => false
  | Some csi =>
      String.eqb (csi_driver csi) driverName &&
      (String.eqb (VolumeHandle csi) volumeId || String.eqb (pv_name v) volumeId)
  end.

Definition handle_match driverName volumeId v : bool :=
  match CSI v with
  | None => false
  | Some csi => String.eqb (csi_driver csi) driverName && String.eqb (VolumeHandle csi) volumeId
  end.

Definition multiple_err volumeId : error :=
  Errorf ("multiple persistent volumes use CSI volume handle " +:+ Strconv.Quote volumeId).
Definition not_found_err volumeId : error :=
  Errorf ("persistent volume with name or CSI volume handle " +:+ Strconv.Quote volumeId
    +:+ " not found").

Fixpoint match_loop driverName volumeId (items : list PV) (matched : option PV)
    : result (option PV) :=
  match items with
  | [] => Ok matched
  | v :: items =>
      if negb (handle_match driverName volumeId v) then match_loop driverName volumeId items matched
      else match matched with
           | Some _ => Err (multiple_err volumeId)
           | None => match_loop driverName volumeId items (Some v)
           end
  end.

Definition resolvePersistentVolume driverName volumeId : result PV :=
  let pvName := Path.Base volumeId in
  let fast :=
    if is_dns1123_subdomain pvName then
      match get_pv pvName with
      | Ok v => if fast_match driverName volumeId v then Some v else None
      | Err _ => None
      end
    else None in
  match fast with
  | Some v => Ok v
  | None =>
      try! items := rmap_err (λ e, Errorf ("list persistent volumes for CSI volume handle "
                      +:+ Strconv.Quote volumeId +:+ ": " +:+ err_msg e)) list_pvs in
      try! matched := match_loop driverName volumeId items None in
      match matched with
      | None => Err (not_found_err volumeId)
      | Some v => Ok v
      end
  end.

Definition persistentVolumeCapacity v : result Z :=
  match Storage v with
  | None => Err (Errorf ("persistent volume " +:+ Strconv.Quote (pv_name v)
              +:+ " has no storage capacity"))
  | Some storage =>
      match as_int64 storage with
      | None => Err (Errorf ("persistent volume " +:+ Strconv.Quote (pv_name v)
                  +:+ " storage capacity does not fit in int64"))
      | Some capacity => Ok capacity
      end
  end.

Definition getVolumeCapacity driverName volumeId : result Z :=
  try! volume := resolvePersistentVolume driverName volumeId in
  persistentVolumeCapacity volume.

Definition GetVolumeCapacity driverName volumeId : result Z :=
  in_cluster ;;? getVolumeCapacity driverName volumeId.

Definition GetVolumeAttributes driverName volumeId : result strmap :=
  in_cluster ;;?
  try! volume := resolvePersistentVolume driverName volumeId in
  match CSI volume with
  | None => Err (Errorf ("persistent volume " +:+ Strconv.Quote (pv_name volume)
              +:+ " has no CSI source"))
  | Some csi => Ok (VolumeAttributes csi)
  end.

Definition GetNodeLabels (nodeName : string) : result strmap :=
  in_cluster ;;?
  rmap_err (λ e, Errorf ("get node " +:+ Strconv.Quote nodeName +:+ ": " +:+ err_msg e))
    (get_node_labels nodeName).

(** ** Mounts of a pod *)
Definition subPath_of (m : VolumeMount_) : string :=
  if String.eqb (SubPathExpr m) "" then m_SubPath m else "/" +:+ SubPathExpr m.

Definition view_of (names : gset string) (container : list VolumeMount_) : list VolumeMount :=
  map (λ m, {| Path_ := MountPath m; SubPath := subPath_of m |})
    (filter (λ m, m_name m ∈ names) container).

Definition claim_names (pod : Pod) (claim : string) : gset string :=
  list_to_set (map fst (filter (λ v : string * option string, v.2 = Some claim) (pod_volumes pod))).

Definition podVolumeMounts driverName volumeId (namespace podName : string)
    : result (list (list VolumeMount)) :=
  try! volume := resolvePersistentVolume driverName volumeId in
  let unbound := Err (Errorf ("persistent volume " +:+ Strconv.Quote (pv_name volume)
    +:+ " is not bound to a claim in namespace " +:+ Strconv.Quote namespace)) in
  match ClaimRef volume with
  | None => unbound
  | Some (ns, claim) =>
      if negb (String.eqb ns namespace) then unbound
      else
        let pod_id := namespace +:+ "/" +:+ podName in
        try! pod := rmap_err (λ e, Errorf ("get pod " +:+ pod_id +:+ ": " +:+ err_msg e))
                      (get_pod namespace podName) in
        let names := claim_names pod claim in
        if bool_decide (names = ∅) then
          Err (Errorf ("pod " +:+ pod_id +:+ " does not use claim " +:+ Strconv.Quote claim))
        else
          Ok (filter (λ mounts, mounts ≠ [])
                (map (view_of names) (InitContainers pod ++ Containers pod)))
  end.

Definition GetPodVolumeMounts driverName volumeId (namespace podName : string)
    : result (list (list VolumeMount)) :=
  in_cluster ;;? podVolumeMounts driverName volumeId namespace podName.

(** ** Lemmas *)

(** The loop keeps the first match and stops at a second one. *)
Lemma match_loop_spec driverName volumeId items matched :
  match_loop driverName volumeId items matched =
  match match matched with Some v => [v] | None => [] end ++ filter (λ v, handle_match driverName volumeId v = true) items with
  | [] => Ok None
  | [v] => Ok (Some v)
  | _ => Err (multiple_err volumeId)
  end.
Proof.
  revert matched. induction items as [|v items IH]; intros matched; cbn [match_loop].
  { rewrite filter_nil. by destruct matched. }
  destruct (handle_match driverName volumeId v) eqn:Hv; cbn [negb].
  - rewrite filter_cons_True by done. destruct matched as [u|]; [done|]. by rewrite IH.
  - rewrite filter_cons_False by (by rewrite Hv). apply IH.
Qed.

Lemma fast_match_inv driverName volumeId v :
  fast_match driverName volumeId v = true → ∃ csi, CSI v = Some csi ∧ csi_driver csi = driverName ∧
    (VolumeHandle csi = volumeId ∨ pv_name v = volumeId).
Proof.
  unfold fast_match. destruct (CSI v) as [csi|]; [|done]. intros H.
  apply andb_true_iff in H as [H1%String.eqb_eq H]. exists csi. split_and!; [done..|].
  apply orb_true_iff in H as [H%String.eqb_eq|H%String.eqb_eq]; auto.
Qed.

Lemma handle_match_inv driverName volumeId v :
  handle_match driverName volumeId v = true → ∃ csi, CSI v = Some csi ∧ csi_driver csi = driverName ∧
    VolumeHandle csi = volumeId.
Proof.
  unfold handle_match. destruct (CSI v) as [csi|]; [|done]. intros H.
  apply andb_true_iff in H as [H1%String.eqb_eq H2%String.eqb_eq]. by exists csi.
Qed.

(** ** Properties *)

(** C27. A volume ID resolves to a persistent volume of this driver that has the ID
    as its handle or name: the one named like the ID's last element if that
    fits, and otherwise the only one with that handle in the cluster; where the
    cluster has none or several, the lookup fails rather than guess. The
    capacity and the attributes are those of that volume. *)
Theorem resolve_volume_spec driverName volumeId :
  (∀ v, resolvePersistentVolume driverName volumeId = Ok v →
    (∃ csi, CSI v = Some csi ∧ csi_driver csi = driverName ∧
      (VolumeHandle csi = volumeId ∨ pv_name v = volumeId)) ∧
    (get_pv (Path.Base volumeId) = Ok v ∨
     ∃ items, list_pvs = Ok items ∧ filter (λ v, handle_match driverName volumeId v = true) items = [v])) ∧
  (∀ items, (∀ v, get_pv (Path.Base volumeId) = Ok v → fast_match driverName volumeId v = false) →
    list_pvs = Ok items →
    resolvePersistentVolume driverName volumeId =
      match filter (λ v, handle_match driverName volumeId v = true) items with
      | [] => Err (not_found_err volumeId)
      | [v] => Ok v
      | _ => Err (multiple_err volumeId)
      end) ∧
  (∀ m, GetVolumeAttributes driverName volumeId = Ok m →
    ∃ v csi, resolvePersistentVolume driverName volumeId = Ok v ∧ CSI v = Some csi ∧ m = VolumeAttributes csi) ∧
  (∀ c, GetVolumeCapacity driverName volumeId = Ok c →
    ∃ v q, resolvePersistentVolume driverName volumeId = Ok v ∧ Storage v = Some q ∧ as_int64 q = Some c).
Proof.
  split_and!.
  - intros v Hv. unfold resolvePersistentVolume in Hv.
    destruct (if is_dns1123_subdomain _ then _ else _) as [u|] eqn:Hfast.
    { injection Hv as ->. destruct (is_dns1123_subdomain _); [|done].
      destruct (get_pv _) as [u|] eqn:Hget; [|done]. destruct (fast_match _ _ u) eqn:Hu; [|done].
      injection Hfast as ->. split; [by apply fast_match_inv|by left]. }
    apply rbind_Ok in Hv as (items & Hitems & Hv). destruct list_pvs as [items0|]; [|done].
    injection Hitems as ->. apply rbind_Ok in Hv as (o & Hloop & Hv). rewrite match_loop_spec in Hloop.
    cbn [app] in Hloop.
    destruct (filter _ items) as [|u [|? ?]] eqn:Hf; simplify_eq. split; [|right; by exists items].
    assert (v ∈ filter (λ v, handle_match driverName volumeId v = true) items) as Hin
      by (rewrite Hf; by left).
    apply list_elem_of_filter in Hin as [Hm _]. apply handle_match_inv in Hm as (csi & ? & ? & ?).
    exists csi. auto.
  - intros items Hget Hitems. unfold resolvePersistentVolume.
    assert ((if is_dns1123_subdomain (Path.Base volumeId)
             then match get_pv (Path.Base volumeId) with
                  | Ok v => if fast_match driverName volumeId v then Some v else None
                  | Err _ => None
                  end else None) = None) as ->.
    { destruct (is_dns1123_subdomain _); [|done]. destruct (get_pv _) as [u|] eqn:Hu; [|done].
      by rewrite Hget. }
    rewrite Hitems. cbn [rmap_err rbind]. rewrite match_loop_spec. cbn [app].
    by destruct (filter _ items) as [|? [|? ?]].
  - intros m Hm. unfold GetVolumeAttributes in Hm. inv_ok. destruct (CSI a0) as [csi|] eqn:Hcsi; [|done].
    injection Hm as <-. by exists a0, csi.
  - intros c Hc. unfold GetVolumeCapacity, getVolumeCapacity, persistentVolumeCapacity in Hc. inv_ok.
    destruct (Storage a0) as [q|] eqn:Hq; [|done]. destruct (as_int64 q) eqn:Hc'; [|done].
    injection Hc as ->. by exists a0, q.
Qed.

(** The mounts reported for a pod are of the claim the volume is bound to, in
    the pod's namespace, and a subpath kubelet would expand is reported as an
    absolute one. No container without such a mount is reported. *)
Lemma podVolumeMounts_sound driverName volumeId namespace podName views :
  podVolumeMounts driverName volumeId namespace podName = Ok views →
  ∃ v claim pod, resolvePersistentVolume driverName volumeId = Ok v ∧
    ClaimRef v = Some (namespace, claim) ∧ get_pod namespace podName = Ok pod ∧
    Forall (λ view, view ≠ [] ∧ ∃ container, container ∈ InitContainers pod ++ Containers pod ∧
      Forall (λ m, ∃ cm, cm ∈ container ∧ (m_name cm, Some claim) ∈ pod_volumes pod ∧
        Path_ m = MountPath cm ∧ SubPath m = subPath_of cm) view) views.
Proof.
  unfold podVolumeMounts. intros H. apply rbind_Ok in H as (v & Hv & H).
  destruct (ClaimRef v) as [[ns claim]|] eqn:Hclaim; [|done].
  destruct (String.eqb_spec ns namespace) as [->|]; [|done]. cbn [negb] in H.
  apply rbind_Ok in H as (pod & Hpod & H). destruct (get_pod namespace podName) as [p|] eqn:Hget; [|done].
  injection Hpod as ->. case_bool_decide; [done|]. injection H as <-.
  exists v, claim, pod. split_and!; [done..|]. apply Forall_forall. intros view Hview.
  apply list_elem_of_filter in Hview as [Hne Hview]. split; [done|].
  apply list_elem_of_fmap in Hview as (container & -> & Hc). exists container. split; [done|].
  apply Forall_forall. intros m Hm. apply list_elem_of_fmap in Hm as (cm & -> & Hcm).
  apply list_elem_of_filter in Hcm as [Hname Hcm]. exists cm. split; [done|]. split; [|done].
  apply elem_of_list_to_set, list_elem_of_fmap in Hname as ([n o] & Hn & Hin).
  apply list_elem_of_filter in Hin as [Ho Hin]. cbn in *. by subst.
Qed.
End k8s.
